(* ===== verification/_CoqProject ===== *)
-Q . S2P
Prelude.v
RustStr.v
Sha256.v
Base64.v
Json.v
Headers.v
Net.v
IpText.v
Errors.v
Permissions.v
Queue.v
QueueTasks.v
ApiVersion.v
SerdeJson.v
Session.v
Http.v
Webhooks.v
Types.v
Billing.v
Crypto.v
AesGcm.v
Totp.v
Sha1.v
ClientIp.v
Jwt.v
License.v
Oauth.v
Oidc.v
Cache.v
Swr.v
F64.v
Bucket.v
F64Round.v
BucketF64.v
F64Clock.v
ClientLimit.v
Vault.v
Github.v
Telemetry.v
Middleware.v
AuditTrail.v
Wire.v
EnvelopeWire.v
OauthWire.v
Rs256.v
JwtText.v
BillingWire.v
SwrRun.v
Startup.v
Tracing.v
TestDb.v
FuzzTargets.v
Golden.v
Suite.v
SuiteApi.v
SuiteStore.v
SuiteEvents.v
SessionMock.v
SuiteAuth.v
SuiteTokens.v
SuiteKeys.v
