(* ===== verification/Prelude.v ===== *)
(** * FerrLabs Kit: a verification development

    FerrLabs Kit is a workspace of Rust crates shared by several web services:
    authentication, permissions, a job queue, contract versioning, outbound
    HTTP, webhooks, billing, envelope encryption, licensing, caching, rate
    limiting, secrets, telemetry, auditing.  This library
    models the crates' own logic as Rocq functions and step relations and
    proves the properties that make them correct.

    ** The program and its parts

    The crates are libraries: each keeps its own state (a PostgreSQL table, an
    in-memory cache, a registry built at start-up) and is called by services.
    They meet in a few places, and the development keeps those interfaces:
    TOTP seeds are sealed through the [KeyProvider] trait of the crypto crate
    ([Crypto.KeyProvider], a class with laws that [Totp] uses); access tokens
    and licenses go through one token package ([Jwt.JwtPackage], used by [Jwt]
    and [License]); billing and extractor errors are rendered by the errors
    crate ([Errors.parts]); Stripe and plain webhooks sign the same bytes
    ([Webhooks.timestamped_input]); the guarded fetch and the client-address
    extractor read addresses with the same parser ([Net.Parse]); every request
    of an OpenID Connect login goes through the guarded fetch
    ([Http.safe_get], [Http.safe_post_form], used by [Oidc]); GitHub ownership
    is established through the OAuth client ([Oauth], used by [Github]); the
    golden-test harness renders with the registry of [ApiVersion]; events are
    filed under the products of [Types] ([Telemetry]); the limiter is asked
    under the text of the client's address ([ClientLimit]); the shared types,
    the audit entries, the telemetry envelopes and Stripe's objects are read
    by the same rules of serde ([Wire]).  The traits are classes
    whose laws are proved of the implementations ([Crypto.KeyProvider],
    [Webhooks.DeliveryStore], [AuditTrail.Trail.AuditSink], [Bucket.RateLimiter]).

    ** Files

    - [Prelude]: results as a monad, integers at their width, boolean
      reflection, runs of a labelled step relation with the induction
      principles for invariants.
    - [RustStr], [Json], [Headers], [Net], [IpText]: the part of the Rust standard
      library and of the exchange types that the crates call (strings as lists
      of characters with their UTF-8 bytes, splitting, trimming, numerals,
      hexadecimal; JSON values; header maps; IP addresses, their parser and
      their text).
    - The published algorithms behind the package parameters, each an instance
      of the class that stands for the package, with the class's laws proved
      of it: [Sha256] (SHA-256, HMAC), [Base64], [SerdeJson] (JSON text),
      [Sha1] (HOTP for [Totp]), [AesGcm] (AES-256-GCM for [Crypto]), [Rs256]
      (RSA signatures, ID tokens for [Oidc]), and in [JwtText] tokens in the
      compact form for any signature scheme.  They show that the laws can hold
      together and run the tests; the properties are proved from the laws.
    - [JwtText]: what serde derives for the claims of access tokens and licenses.
    - [Errors]: [crates/errors/src/error.rs].  [ApiError], [parts].
    - [Permissions]: [crates/permissions/src/lib.rs].  Scopes, implication,
      scope sets.
    - [Queue]: [crates/queue/src] ([job.rs], [queue.rs], [worker.rs],
      [schema.rs], [error.rs]).  [Table] has the SQL statements as functions on
      the rows, [Worker] the claim/handle/retry path and the sweeper, [System]
      every interleaving of producers, workers, crashes and sweeps, [RunLoop]
      the shutdown protocol of the loop.  [QueueTasks]: the three tasks of a
      worker and its handle.
    - [ApiVersion]: [crates/api-version/src] ([version.rs], [transform.rs],
      [policy.rs], [layer.rs]).
    - [Session]: [crates/auth/src/session.rs].  The store's operations, their
      runs, and in [ReadCommitted] its transactions as PostgreSQL interleaves
      them, the revocation of a family split at its snapshot.
    - [Http]: [crates/http/src/lib.rs].  Address classification, guarded fetch.
    - [Webhooks]: [crates/webhooks/src/lib.rs].  [Billing]:
      [crates/billing/src].  [Types]: [crates/types/src].
    - [Crypto]: [crates/crypto/src] ([lib.rs], [gcp_kms.rs]).  [Concurrent] has
      the interleavings of cache look-ups, KMS answers and insertions.
    - [Totp]: [crates/auth/src/totp.rs].  [Jwt]: [crates/auth/src/jwt.rs] and
      [middleware.rs].  [License]: [crates/license/src].
    - [ClientIp]: [crates/ratelimit/src/ip.rs].
    - [Oauth]: [crates/oauth/src/lib.rs].  [Oidc]: [crates/oauth/src/oidc.rs];
      its [Concurrent] has the interleavings of the key cache's critical
      sections with the requests to the issuer.
    - [Cache]: [crates/cache/src/lib.rs].  Configuration, redaction,
      connection.  [Swr]: [crates/cache/src/swr.rs].  A call is a tree of Valkey
      commands, clock readings and loads; [Run] runs one against any answers,
      [System] runs any number of them over one server with expiring keys, lost
      commands and dropped calls.  [SwrRun]: the cached envelope as serde writes
      it, and an executable scheduler whose runs are runs of [System].
    - [F64]: Rust's [f64] on the Standard Library's binary64, and when it is
      exact.  [Bucket]: [crates/ratelimit/src/lib.rs], with [Exact], the token
      bucket over the integers.  [F64Round]: binary64 operations round the exact
      result to nearest; [BucketF64]: the limiter on any finite readings, with
      [Rounded], the bucket with its roundings written out; [F64Clock]: the
      readings of [MonotonicClock]; [ClientLimit]: client addresses as the keys
      of the limiter.
    - [Vault]: [crates/vault/src/lib.rs].  [Github]: [crates/github/src]; its
      [Concurrent] interleaves the token cache with the requests to GitHub.
    - [Telemetry]: [crates/telemetry/src] ([events.rs], [metrics.rs]).
      [Middleware]: [crates/middleware/src] ([cors.rs],
      [security_headers.rs]).
    - [AuditTrail]: [crates/id/src/lib.rs] and [crates/audit/src/lib.rs].
      [Startup]: [crates/db/src/lib.rs], [crates/mail/src/lib.rs],
      [crates/auth/src/password.rs].
    - [Wire]: what serde derives for [crates/types/src]; [BillingWire]: for the
      Stripe objects of [crates/billing/src/events.rs], with [parse_event] over
      it; [EnvelopeWire]: for the envelopes of [crates/telemetry/src/events.rs];
      [OauthWire]: for the provider answers of [crates/oauth/src/lib.rs].
    - [Tracing]: [crates/telemetry/src/lib.rs], the set-up of tracing and its
      guard.  [TestDb]: [crates/testkit/src/lib.rs], any number of processes
      that create and drop databases on one server.  [Golden]:
      [crates/testkit/src/api_version_golden.rs].  [FuzzTargets]:
      [fuzz/fuzz_targets].
    - [Suite], [SuiteApi], [SuiteStore], [SuiteEvents], [SuiteAuth],
      [SuiteTokens], [SuiteKeys]: the repository's own
      tests, translated assertion by assertion and run on
      the model; a definition that strayed from the code where a test looks
      would fail there.  They run on the published algorithms above: recorded
      signatures, HOTP codes, sealed bytes and RSA tokens are computed.
      [SessionMock]: the in-memory store of the session tests, which answers as
      the store of [Session] on every sequence of calls, and those tests.

    A file's definitions keep the names of the code; an [async fn] on a table
    or a cache is a function that takes the state and returns the result with
    the new state; [Result] is [result], [?] is the monadic bind; clocks,
    random bytes and fresh identifiers are arguments.  Code outside the
    repository (cryptography, URL parsing, DNS, HTTP, Stripe, KMS, Valkey,
    Vault, GitHub, token signing, JSON text, files, PostgreSQL's choice among equal rows) is a section
    parameter or the operations of a class, what is relied on of it the laws of
    a second class; every theorem that assumes such laws has a witness that
    instantiates them with concrete functions ([Module Demo] of each file).

    ** What the theorems show

    - Safety of the whole component under every sequence or interleaving of its
      operations: connections only to public addresses ([Http]); a replayed
      refresh token kills its family unless a refresh of it commits between the
      snapshot and the commit, and a family has one live session
      ([Session]); the jobs table stays well formed, executions are bounded,
      claims are exclusive, enqueues idempotent, terminal rows final ([Queue]);
      the DEK cache is bounded and fresh ([Crypto]); one-time and recovery
      codes work once ([Totp]); redeliveries are dropped ([Webhooks]); a forged
      forwarding header cannot pass the trusted hops ([ClientIp]); an OpenID
      Connect login yields an identity only for a token the issuer signed for
      this client and attempt, and its key cache is fresh and spares the issuer
      ([Oidc]); what a cache serves was loaded, with one loader at a time
      ([Swr]); no key is admitted beyond its capacity and rate ([Bucket], and on
      any readings up to the rounding, [BucketF64]); behind trusted proxies each
      client is limited as if it were alone ([ClientLimit]); a
      cached installation token never leaves its scope ([Github]); a secret
      path without tabs and line breaks stays under its mount ([Vault]); credentials survive encoding and
      are not shown ([Cache]); the audit trail only grows ([AuditTrail]); test
      databases are owned by one handle and dropped ([TestDb]); an address is
      reported as verified exactly where the provider said so ([OauthWire]).
    - Refinement and equivalence: every caller is served the version it speaks,
      whatever the registry does in between ([ApiVersion]); the floating-point
      limiter answers as the integer token bucket where it is exact ([Bucket]),
      and under the real clock as the bucket with its roundings ([F64Clock]); octet and mask
      tests decide the registered address blocks ([Http]); the derived order of
      versions is the calendar's ([ApiVersion]); intersection is the meet of
      what sets grant ([Permissions]).
    - Exactness of the checks: which tokens, licenses, signatures, headers and
      forms are accepted, both ways ([Jwt], [Oidc], [License], [Webhooks],
      [Billing], [Types], [Telemetry], [Middleware], [Startup]); the fuzz
      targets' assertions hold of every input ([FuzzTargets]).
    - Termination: a cached call answers whatever the server does, within a
      bounded number of commands ([Swr]); a fetch ends ([Http]).
    - Round trips: versions, scope claims, webhook signatures, stamped billing
      metadata, sealed seeds and wrapped keys, URL credentials, audit entries,
      golden fixtures, the text of IP addresses ([IpText]), JSON text
      ([SerdeJson]); the claims of tokens ([JwtText]), the shared types,
      envelopes and Stripe's events are read back with their fields in any order
      and among fields a newer sender added ([Wire], [EnvelopeWire],
      [BillingWire]).
    - Where the code does not do what it means to, the theorem states what it
      does: a refresh concurrent with a replay survives ([Session]), a job
      swept after its last attempt, with no worker on it, is stranded and a cancellation can be
      overwritten ([Queue]), a shutdown can be lost ([QueueTasks]), a pin
      bypasses the sunset and registration order can matter ([ApiVersion]), an unparseable hop shifts the count
      ([ClientIp]), a spaced signature is refused after it matched
      ([Webhooks]), an issuer whose name ends in a slash has all its ID tokens
      refused ([Oidc]), a late holder frees the next one's lock ([Swr]), a late
      reading refills a bucket again ([Bucket]), a password piece is taken for
      the host and shown ([Cache]), an empty repository name gets the token of
      the full scope ([Github]), a wildcard origin panics ([Middleware]), the
      manifest's names never appear on the wire and a blank token opens the
      metrics ([Telemetry]), a failed initialisation replaces the tracing
      provider ([Tracing]), a lifetime too long for its type gives no usable
      token ([Jwt]), dots broken by a tab pass the check of paths ([Vault]), a database that cannot be connected to is left behind
      ([TestDb]), a rate that is not a number admits everything ([BucketF64]).

    ** Fuel and bounds

    [Http.get_loop] runs on [max_redirects + 1] units, one per connection; that
    it never runs out, and that the [u8] hop counter never overflows, is part
    of the theorem on the fetch.  [RustStr.digits_acc] has one unit per bit of
    the number, more than its digits; [Webhooks.trim_start_matches] and
    [RustStr.replace_fuel] one per character; [IpText.radix_digits] one more
    than the bits of the number; [SerdeJson.read_value] one per character of
    the text, and a printed value is proved to be read back within them;
    [Sha1.chunks] one per bit, more than its chunks.  [SwrRun.drive] takes a
    number of turns: any number is a run of [System], and the tests that use it
    check that no call is left.  Nothing else recurses on fuel.

    [Bucket.limiter_refines_exact_bucket] is about readings and rates that are
    multiples of a power of two and stay under 53 bits, where binary64 is exact
    ([Bucket.exact_quota]): whole seconds, or milliseconds rounded to 1/1024,
    for decades of uptime.  The theorems of [BucketF64] are about any finite
    readings, with explicit bounds on the rounding, and those of [F64Clock]
    about durations under 2^53 - 1 seconds.

    ** What is not modelled

    Timing (constant-time comparison is equality), logging and tracing, error
    texts beyond what the code branches on, the forms serde reads but the code
    never writes (sequences for structs, but for the provider answers of
    [OauthWire], and maps for unit variants), poisoned
    locks.  Not modelled at all: the re-export modules, which only name what
    other modules define, the request-id module, which is empty, the
    benchmarks, and the fuzz target of billing events, which only calls the
    parser.  Of the tests, those of password
    hashing, of DKIM and private keys in PEM, of the metrics text, and those that
    need a real server or a wall clock are not run; the tests of access tokens
    and licenses sign with a MAC in place of Ed25519.  *)

From Stdlib Require Export ZArith Lia.
From stdpp Require Export base tactics numbers option list gmap strings sorting.

#[global] Set Default Goal Selector "!".
#[global] Set Warnings "-clear-no-such-hyp".

Declare Scope kit_scope.
Delimit Scope kit_scope with kit.
#[global] Open Scope Z_scope.
#[global] Open Scope kit_scope.

(** Facts the components' proofs discharge side conditions with. *)
Create HintDb kit.

(** ** Results: Rust's [Result], as a monad over stdpp's classes *)

Inductive result (E A : Type) : Type :=
| Ok (a : A)
| Err (e : E).
Arguments Ok {E A} a.
Arguments Err {E A} e.

#[export] Instance result_ret {E} : MRet (result E) := fun A a => Ok a.
#[export] Instance result_bind {E} : MBind (result E) := fun A B f m =>
  match m with Ok a => f a | Err e => Err e end.
#[export] Instance result_fmap {E} : FMap (result E) := fun A B f m =>
  match m with Ok a => Ok (f a) | Err e => Err e end.

#[export] Instance result_eq_dec {E A} `{EqDecision E, EqDecision A} : EqDecision (result E A).
Proof. solve_decision. Defined.

(** [Option::ok_or], [Result::map_err], [Result::ok] and [is_ok]. *)
Definition ok_or {E A} (o : option A) (e : E) : result E A :=
  match o with Some a => Ok a | None => Err e end.
Definition map_err {E F A} (f : E -> F) (r : result E A) : result F A :=
  match r with Ok a => Ok a | Err e => Err (f e) end.
Definition res_ok {E A} (r : result E A) : option A :=
  match r with Ok a => Some a | Err _ => None end.
Definition is_ok {E A} (r : result E A) : bool :=
  match r with Ok _ => true | Err _ => false end.
Definition unwrap_or {A} (o : option A) (d : A) : A :=
  match o with Some a => a | None => d end.
Definition is_some {A} (o : option A) : bool :=
  match o with Some _ => true | None => false end.

Lemma result_bind_Ok {E A B} (m : result E A) (f : A -> result E B) b :
  m ≫= f = Ok b <-> exists a, m = Ok a /\ f a = Ok b.
Proof. destruct m; simpl; naive_solver. Qed.
Lemma result_bind_Err {E A B} (m : result E A) (f : A -> result E B) e :
  m ≫= f = Err e <-> m = Err e \/ exists a, m = Ok a /\ f a = Err e.
Proof. destruct m; simpl; naive_solver. Qed.
Lemma ok_or_Ok {E A} (o : option A) (e : E) a : ok_or o e = Ok a <-> o = Some a.
Proof. destruct o; simpl; naive_solver. Qed.
Lemma ok_or_Err {E A} (o : option A) (e e' : E) : ok_or o e = Err e' <-> o = None /\ e = e'.
Proof. destruct o; simpl; naive_solver. Qed.
Lemma map_err_Ok {E F A} (f : E -> F) (r : result E A) a : map_err f r = Ok a <-> r = Ok a.
Proof. destruct r; simpl; naive_solver. Qed.

(** ** Machine integers

    A w-bit integer is a [Z] in its range; every operation the sources use is
    written with its own overflow behaviour (checked, saturating, [try_from]
    with a default). *)

Definition u8_max : Z := 255.
Definition u16_max : Z := 65535.
Definition u32_max : Z := 4294967295.
Definition i32_min : Z := -2147483648.
Definition i32_max : Z := 2147483647.
Definition u64_max : Z := 18446744073709551615.
Definition i64_min : Z := -9223372036854775808.
Definition i64_max : Z := 9223372036854775807.

Definition in_range (lo hi n : Z) : bool := (lo <=? n) && (n <=? hi).
Definition is_u8 := in_range 0 u8_max.
Definition is_u16 := in_range 0 u16_max.
Definition is_u32 := in_range 0 u32_max.
Definition is_i32 := in_range i32_min i32_max.
Definition is_u64 := in_range 0 u64_max.
Definition is_i64 := in_range i64_min i64_max.

(** [T::try_from(n)] for an integer target with range [lo..=hi]. *)
Definition try_from (lo hi n : Z) : option Z := if in_range lo hi n then Some n else None.
Definition u8_try_from := try_from 0 u8_max.
Definition u16_try_from := try_from 0 u16_max.
Definition u32_try_from := try_from 0 u32_max.
Definition i32_try_from := try_from i32_min i32_max.
Definition u64_try_from := try_from 0 u64_max.
Definition i64_try_from := try_from i64_min i64_max.

(** [as i64]: wraps. *)
Definition i64_wrap (n : Z) : Z := (n + 2 ^ 63) mod 2 ^ 64 - 2 ^ 63.
(** [+] on [i64]: an overflow panics where the build checks for it, and wraps
    where it does not. *)
Definition i64_add (checks : bool) (a b : Z) : option Z :=
  if in_range i64_min i64_max (a + b) then Some (a + b) else if checks then None else Some (i64_wrap (a + b)).
Definition u64_saturating_sub (a b : Z) : Z := Z.max 0 (a - b).
(** [u64::saturating_pow]; the exponent is a [u32]. *)
Definition u64_saturating_pow (base e : Z) : Z := Z.min u64_max (base ^ e).
(** [i64::abs_diff], a [u64]. *)
Definition abs_diff (a b : Z) : Z := Z.abs (a - b).

Lemma in_range_spec lo hi n : in_range lo hi n = true <-> lo <= n <= hi.
Proof. unfold in_range. rewrite andb_true_iff, !Z.leb_le. lia. Qed.

Lemma try_from_Some lo hi n m : try_from lo hi n = Some m <-> m = n /\ lo <= n <= hi.
Proof.
  unfold try_from. destruct (in_range lo hi n) eqn:E.
  - apply in_range_spec in E. naive_solver.
  - rewrite <- not_true_iff_false, in_range_spec in E. naive_solver.
Qed.

Lemma try_from_in lo hi n : lo <= n <= hi -> try_from lo hi n = Some n.
Proof. intros. by apply try_from_Some. Qed.

#[export] Hint Resolve try_from_in : kit.

Lemma i64_add_in checks a b : i64_min <= a + b <= i64_max -> i64_add checks a b = Some (a + b).
Proof. intros H%in_range_spec. unfold i64_add. by rewrite H. Qed.
(** The sum of two positive values that does not fit is negative when it
    wraps. *)
Lemma i64_add_over checks a b :
  a <= i64_max -> b <= i64_max -> i64_max < a + b ->
  i64_add checks a b = (if checks then None else Some (a + b - 2 ^ 64)) /\ a + b - 2 ^ 64 < 0.
Proof.
  intros Ha Hb Hab. unfold i64_add. assert (in_range i64_min i64_max (a + b) = false) as ->.
  { apply not_true_iff_false. rewrite in_range_spec. lia. }
  unfold i64_max in *. split; [|lia]. destruct checks; [done|]. f_equal. unfold i64_wrap.
  replace (a + b + 2 ^ 63) with (a + b - 2 ^ 63 + 1 * 2 ^ 64) by lia. rewrite Z_mod_plus_full, Z.mod_small by lia. lia.
Qed.

(** ** The monotonic clock: [Instant], in microseconds, and [elapsed] *)

Abbreviation instant := Z.
Definition elapsed (now since : instant) : Z := Z.max 0 (now - since).

(** ** Boolean reflection helpers *)

Lemma bool_decide_true_iff P `{Decision P} : bool_decide P = true <-> P.
Proof. apply bool_decide_eq_true. Qed.
Lemma bool_decide_false_iff P `{Decision P} : bool_decide P = false <-> ~ P.
Proof. apply bool_decide_eq_false. Qed.

Ltac bool_simp := repeat
  match goal with
  | H : (_ && _) = true |- _ => apply andb_true_iff in H; destruct H
  | H : (_ || _) = false |- _ => apply orb_false_iff in H; destruct H
  | H : negb _ = true |- _ => apply negb_true_iff in H
  | H : negb _ = false |- _ => apply negb_false_iff in H
  | H : bool_decide _ = true |- _ => apply bool_decide_eq_true in H
  | H : bool_decide _ = false |- _ => apply bool_decide_eq_false in H
  | H : (_ <=? _) = true |- _ => apply Z.leb_le in H
  | H : (_ <=? _) = false |- _ => apply Z.leb_gt in H
  | H : (_ <? _) = true |- _ => apply Z.ltb_lt in H
  | H : (_ <? _) = false |- _ => apply Z.ltb_ge in H
  | H : (_ =? _) = true |- _ => apply Z.eqb_eq in H
  | H : (_ =? _) = false |- _ => apply Z.eqb_neq in H
  end.

(** Case analysis on the first [if] or [match] of the goal, or of [H]. *)
Ltac cases := case_match; bool_simp; simplify_eq/=; try done.
Ltac cases_in H :=
  repeat (case_match; bool_simp; simplify_eq/=); try done.

(** ** Runs of a step relation, with the labels that were fired *)

Section Runs.
Context {St L : Type} (step : St -> L -> St -> Prop).

Inductive run : St -> list L -> St -> Prop :=
| run_nil s : run s [] s
| run_snoc s ls s' l s'' : run s ls s' -> step s' l s'' -> run s (ls ++ [l]) s''.

(** An invariant of the initial state kept by every step holds after every run. *)
Lemma run_invariant (I : St -> Prop) :
  (forall s l s', I s -> step s l s' -> I s') ->
  forall s ls s', I s -> run s ls s' -> I s'.
Proof. intros Hstep s ls s' Hs Hrun. induction Hrun; eauto. Qed.

(** The same, when the step may only fire labels that satisfy [P]. *)
Lemma run_invariant_labels (P : L -> Prop) (I : St -> Prop) :
  (forall s l s', I s -> P l -> step s l s' -> I s') ->
  forall s ls s', I s -> Forall P ls -> run s ls s' -> I s'.
Proof.
  intros Hstep s ls s' Hs HP Hrun. induction Hrun; [done|].
  apply Forall_app in HP as [HP1 HP2]. inversion_clear HP2.
  eapply Hstep; [by apply IHHrun|eassumption..].
Qed.

Lemma run_cons s l s' ls s'' : step s l s' -> run s' ls s'' -> run s (l :: ls) s''.
Proof.
  intros Hs Hr. induction Hr as [s'|s' ls s1 x s2 Hr IH Hx]; [by apply (run_snoc s [] s); [constructor|]|].
  rewrite app_comm_cons. eapply run_snoc; [by apply IH|done].
Qed.

Lemma run_app s l1 s' l2 s'' : run s l1 s' -> run s' l2 s'' -> run s (l1 ++ l2) s''.
Proof.
  intros H1 H2. induction H2 as [s'|s' ls s1 x s2 Hr IH Hx]; [by rewrite app_nil_r|].
  rewrite app_assoc. eapply run_snoc; [by apply IH|done].
Qed.

(** The step that fired a label of the history, after the run before it. *)
Lemma run_at_label s l1 l l2 s'' :
  run s (l1 ++ l :: l2) s'' -> exists s1 s2, run s l1 s1 /\ step s1 l s2.
Proof.
  intros Hrun. remember (l1 ++ l :: l2) as ls eqn:E. revert l2 E. induction Hrun as [|s ls s' x s'' Hrun IH Hstep]; intros l2 E.
  - by destruct l1.
  - destruct l2 as [|y l2 _] using rev_ind.
    + apply app_inj_tail in E as [-> ->]. eauto.
    + rewrite app_comm_cons, app_assoc in E. apply app_inj_tail in E as [-> _]. by eapply IH.
Qed.
End Runs.

#[export] Hint Constructors run : core.
