(* ===== verification/RustStr.v ===== *)
(** * Strings, bytes and numerals of the Rust standard library

    The part of [str], [char], [u8] and the integer parsers and printers of
    the standard library that the crates call.  A string is the list of its
    characters (Unicode scalar values); [as_bytes] is its UTF-8 encoding.  The
    byte offsets that [find] and [rfind] return are used by the crates only to
    cut the same string at the place found, so they are modelled as character
    offsets of the same cut.  [hex::decode]/[hex::encode] and the
    [NON_ALPHANUMERIC] percent encoding are the documented functions of the
    [hex] and [percent_encoding] packages. *)

From S2P Require Import Prelude.

Abbreviation char := Z.
Abbreviation str := (list Z).
Abbreviation bytes := (list Z).

(** String literals of the sources (all ASCII). *)
Fixpoint lit (s : string) : str :=
  match s with
  | EmptyString => []
  | String c s' => Z.of_N (Ascii.N_of_ascii c) :: lit s'
  end.
Arguments lit _%_string.

Definition str_eqb (a b : str) : bool := bool_decide (a = b).
Infix "=s" := str_eqb (at level 70, no associativity) : kit_scope.

Lemma str_eqb_eq a b : str_eqb a b = true <-> a = b.
Proof. apply bool_decide_eq_true. Qed.
Lemma str_eqb_neq a b : str_eqb a b = false <-> a <> b.
Proof. apply bool_decide_eq_false. Qed.
Lemma str_eqb_refl a : str_eqb a a = true.
Proof. by apply str_eqb_eq. Qed.

(** [match s { "lit1" => v1, "lit2" => v2, .. }]: the first arm that matches. *)
Fixpoint str_case {A} (s : str) (arms : list (string * A)) : option A :=
  match arms with
  | [] => None
  | (p, v) :: arms' => if s =s lit p then Some v else str_case s arms'
  end.

Lemma str_case_Some {A} s (arms : list (string * A)) v :
  str_case s arms = Some v -> exists p, (p, v) ∈ arms /\ s = lit p.
Proof.
  induction arms as [|[p w] arms IH]; [done|]. cbn [str_case].
  destruct (s =s lit p) eqn:E; intros H.
  - simplify_eq. apply str_eqb_eq in E. exists p. set_solver.
  - destruct (IH H) as (q & ? & ?). exists q. set_solver.
Qed.

(** ** Characters *)

(** [char::is_whitespace]: the Unicode [White_Space] property. *)
Definition is_whitespace (c : char) : bool :=
  in_range 9 13 c || (c =? 32) || (c =? 133) || (c =? 160) || (c =? 5760)
  || in_range 8192 8202 c || (c =? 8232) || (c =? 8233) || (c =? 8239)
  || (c =? 8287) || (c =? 12288).

Definition is_ascii_digit (c : char) : bool := in_range 48 57 c.
Definition is_ascii_upper (c : char) : bool := in_range 65 90 c.
Definition is_ascii_lower (c : char) : bool := in_range 97 122 c.
Definition is_ascii_alphanumeric (c : char) : bool :=
  is_ascii_digit c || is_ascii_upper c || is_ascii_lower c.
Definition to_ascii_lowercase (s : str) : str :=
  (fun c => if is_ascii_upper c then c + 32 else c) <$> s.

(** UTF-8. *)
Definition utf8_char (c : char) : bytes :=
  if c <? 128 then [c]
  else if c <? 2048 then [192 + Z.shiftr c 6; 128 + Z.land c 63]
  else if c <? 65536 then
    [224 + Z.shiftr c 12; 128 + Z.land (Z.shiftr c 6) 63; 128 + Z.land c 63]
  else [240 + Z.shiftr c 18; 128 + Z.land (Z.shiftr c 12) 63;
        128 + Z.land (Z.shiftr c 6) 63; 128 + Z.land c 63].
Definition as_bytes (s : str) : bytes := flat_map utf8_char s.

Definition is_ascii (s : str) : Prop := Forall (fun c => 0 <= c < 128) s.

Lemma as_bytes_ascii s : is_ascii s -> as_bytes s = s.
Proof.
  induction 1 as [|c s Hc Hs IH]; [done|]. cbn [as_bytes flat_map] in *.
  unfold utf8_char at 1. rewrite (proj2 (Z.ltb_lt c 128)) by lia.
  cbn [app]. f_equal. exact IH.
Qed.

(** ** Trimming, prefixes, splitting and joining *)

Fixpoint drop_while (p : char -> bool) (s : str) : str :=
  match s with
  | [] => []
  | c :: s' => if p c then drop_while p s' else s
  end.
Definition drop_while_end (p : char -> bool) (s : str) : str :=
  reverse (drop_while p (reverse s)).
Definition trim (s : str) : str := drop_while_end is_whitespace (drop_while is_whitespace s).
Definition trim_end_matches (c : char) : str -> str := drop_while_end (Z.eqb c).
Definition trim_matches (c : char) (s : str) : str := trim_end_matches c (drop_while (Z.eqb c) s).

Fixpoint strip_prefix (p s : str) : option str :=
  match p, s with
  | [], _ => Some s
  | c :: p', d :: s' => if c =? d then strip_prefix p' s' else None
  | _ :: _, [] => None
  end.
Definition starts_with (p s : str) : bool := is_some (strip_prefix p s).
Definition ends_with (p s : str) : bool := starts_with (reverse p) (reverse s).

(** [str::split(c)]: always at least one part. *)
Fixpoint split (c : char) (s : str) : list str :=
  match s with
  | [] => [[]]
  | d :: s' =>
      if d =? c then [] :: split c s'
      else match split c s' with
           | part :: rest => (d :: part) :: rest
           | [] => [[d]]
           end
  end.

(** [str::find] of a character class, and of a literal; [str::rfind]. *)
Fixpoint find_char (p : char -> bool) (s : str) : option nat :=
  match s with
  | [] => None
  | c :: s' => if p c then Some 0%nat else S <$> find_char p s'
  end.
Fixpoint find_str (p s : str) : option nat :=
  if starts_with p s then Some 0%nat
  else match s with
       | [] => None
       | _ :: s' => S <$> find_str p s'
       end.
Fixpoint rfind_char (p : char -> bool) (s : str) : option nat :=
  match s with
  | [] => None
  | c :: s' =>
      match rfind_char p s' with
      | Some i => Some (S i)
      | None => if p c then Some 0%nat else None
      end
  end.
Definition contains_char (p : char -> bool) (s : str) : bool := existsb p s.

(** [split_once] cuts at the first [c], [rsplit_once] at the last. *)
Definition split_once (c : char) (s : str) : option (str * str) :=
  i ← find_char (Z.eqb c) s; Some (take i s, drop (S i) s).
Definition rsplit_once (c : char) (s : str) : option (str * str) :=
  i ← rfind_char (Z.eqb c) s; Some (take i s, drop (S i) s).

(** [slice.join(sep)]. *)
Fixpoint join (sep : str) (l : list str) : str :=
  match l with
  | [] => []
  | [s] => s
  | s :: l' => s ++ sep ++ join sep l'
  end.

(** [str::replace], left to right without overlaps; one unit of fuel per
    character is enough, [p] being non-empty. *)
Fixpoint replace_fuel (fuel : nat) (p r s : str) : str :=
  match fuel with
  | O => s
  | S fuel' =>
      match strip_prefix p s with
      | Some s' => r ++ replace_fuel fuel' p r s'
      | None => match s with [] => [] | c :: s' => c :: replace_fuel fuel' p r s' end
      end
  end.
Definition replace (p r s : str) : str := replace_fuel (length s) p r s.

(** ** Lemmas on trimming, prefixes, splitting and joining *)

Definition char_free (c : char) (s : str) : Prop := Forall (fun d => d <> c) s.
Definition no_ws (s : str) : Prop := Forall (fun c => is_whitespace c = false) s.

Lemma drop_while_id p s : Forall (fun c => p c = false) s -> drop_while p s = s.
Proof. destruct 1 as [|c s Hc]; [done|]. simpl. by rewrite Hc. Qed.

Lemma drop_while_end_id p s : Forall (fun c => p c = false) s -> drop_while_end p s = s.
Proof.
  intros H. unfold drop_while_end. rewrite drop_while_id, reverse_involutive; [done|].
  by apply Forall_reverse.
Qed.

Lemma trim_no_ws s : no_ws s -> trim s = s.
Proof. intros H. unfold trim. by rewrite (drop_while_id _ s H), drop_while_end_id. Qed.

Lemma drop_while_suffix p s : exists pre, s = pre ++ drop_while p s /\ Forall (fun c => p c = true) pre.
Proof.
  induction s as [|c s [pre [E F]]]; [by exists []|]. simpl.
  destruct (p c) eqn:Hp; [|by exists []].
  exists (c :: pre). rewrite E at 1. auto.
Qed.

Lemma drop_while_end_prefix p s :
  exists post, s = drop_while_end p s ++ post /\ Forall (fun c => p c = true) post.
Proof.
  destruct (drop_while_suffix p (reverse s)) as (pre & E & F).
  exists (reverse pre). split; [|by apply Forall_reverse].
  apply (f_equal reverse) in E. by rewrite reverse_involutive, reverse_app in E.
Qed.

(** [trim_end_matches]: nothing left to strip. *)
Lemma drop_while_end_last p s c r : drop_while_end p s = r ++ [c] -> p c = false.
Proof.
  unfold drop_while_end. intros E. apply (f_equal reverse) in E.
  rewrite reverse_involutive, reverse_app in E. simpl in E.
  clear -E. induction (reverse s) as [|d l IH]; [done|].
  simpl in E. destruct (p d) eqn:Hp; [auto|]. by simplify_eq.
Qed.

Lemma trim_end_matches_snoc c s : trim_end_matches c (s ++ [c]) = trim_end_matches c s.
Proof. unfold trim_end_matches, drop_while_end. rewrite reverse_snoc. cbn [drop_while]. by rewrite Z.eqb_refl. Qed.

Lemma strip_prefix_Some p s r : strip_prefix p s = Some r <-> s = p ++ r.
Proof.
  revert s. induction p as [|c p IH]; intros s; [simpl; naive_solver|].
  destruct s as [|d s]; [done|]. simpl. destruct (c =? d) eqn:E; bool_simp.
  - rewrite IH. naive_solver.
  - naive_solver.
Qed.

Lemma strip_prefix_app p r : strip_prefix p (p ++ r) = Some r.
Proof. by apply strip_prefix_Some. Qed.

Lemma starts_with_spec p s : starts_with p s = true <-> exists r, s = p ++ r.
Proof.
  unfold starts_with. destruct (strip_prefix p s) eqn:E; simpl.
  - apply strip_prefix_Some in E. naive_solver.
  - split; [done|]. intros [r ->]. by rewrite strip_prefix_app in E.
Qed.

Lemma split_not_nil c s : split c s <> [].
Proof. destruct s as [|d s]; [done|]. simpl. destruct (d =? c); [done|]. by destruct (split c s). Qed.

Lemma split_char_free c s : char_free c s -> split c s = [s].
Proof.
  induction 1 as [|d s Hd Hs IH]; [done|]. simpl.
  rewrite (proj2 (Z.eqb_neq d c) Hd). by rewrite IH.
Qed.

Lemma split_app c a b : char_free c a -> split c (a ++ c :: b) = a :: split c b.
Proof.
  induction 1 as [|d a Hd Ha IH]; simpl.
  - by rewrite Z.eqb_refl.
  - rewrite (proj2 (Z.eqb_neq d c) Hd). by rewrite IH.
Qed.

Lemma split_parts_free c s : Forall (char_free c) (split c s).
Proof.
  induction s as [|d s IH]; [by repeat constructor|]. simpl.
  destruct (d =? c) eqn:E; [constructor; [constructor|done]|]. bool_simp.
  destruct (split c s); inversion_clear IH; repeat constructor; auto.
Qed.

(** Splitting what was joined gives the parts back, when they do not contain
    the separator. *)
Lemma split_join c l : l <> [] -> Forall (char_free c) l -> split c (join [c] l) = l.
Proof.
  induction l as [|s l IH]; [done|]. intros _ HF. inversion_clear HF as [|?? Hs Hl].
  destruct l as [|t l].
  - by apply split_char_free.
  - cbn [join]. cbn [app]. rewrite split_app by done. f_equal. by apply IH.
Qed.

(** Joining is injective on lists of separator-free non-empty parts. *)
Lemma join_split c s : join [c] (split c s) = s.
Proof.
  induction s as [|d s IH]; [done|]. simpl. pose proof (split_not_nil c s).
  destruct (split c s) as [|p ps] eqn:E; [done|]. destruct (d =? c) eqn:Ed.
  - bool_simp. subst d. change (join [c] ([] :: p :: ps)) with (c :: join [c] (p :: ps)). by rewrite IH.
  - destruct ps as [|q ps]; simpl in *; by rewrite IH.
Qed.
Lemma split_inj c s1 s2 : split c s1 = split c s2 -> s1 = s2.
Proof. intros E. by rewrite <- (join_split c s1), E, join_split. Qed.

Lemma join_inj c l1 l2 :
  Forall (fun s => char_free c s /\ s <> []) l1 ->
  Forall (fun s => char_free c s /\ s <> []) l2 ->
  join [c] l1 = join [c] l2 -> l1 = l2.
Proof.
  intros H1 H2 E.
  assert (Hnil : forall l, Forall (fun s => char_free c s /\ s <> []) l -> join [c] l = [] -> l = []).
  { intros [|s l] H Hj; [done|]. inversion_clear H as [|?? [_ Hs]]. destruct l as [|t l]; [done|].
    simpl in Hj. by destruct s. }
  destruct l1 as [|s1 l1].
  { symmetry. by apply Hnil. }
  destruct l2 as [|s2 l2].
  { by apply Hnil. }
  rewrite <- (split_join c (s1 :: l1)), <- (split_join c (s2 :: l2)), E; [done|done| |done|].
  - eapply Forall_impl; [exact H2|]. by intros ? [].
  - eapply Forall_impl; [exact H1|]. by intros ? [].
Qed.

(** ** Cutting at an offset *)

Lemma find_char_Some p s i :
  find_char p s = Some i ->
  exists c, s = take i s ++ c :: drop (S i) s /\ p c = true
            /\ Forall (fun d => p d = false) (take i s).
Proof.
  revert i. induction s as [|c s IH]; intros i; [done|]. simpl.
  destruct (p c) eqn:E.
  - intros [= <-]. exists c. simpl. auto.
  - destruct (find_char p s) as [j|]; [|done]. intros [= <-].
    destruct (IH j eq_refl) as (d & Hs & Hd & HF). exists d. simpl.
    split; [by f_equal|]. auto.
Qed.

Lemma find_char_None p s : find_char p s = None <-> Forall (fun d => p d = false) s.
Proof.
  induction s as [|c s IH]; simpl; [naive_solver|]. destruct (p c) eqn:E.
  - split; [done|]. inversion_clear 1. congruence.
  - rewrite Forall_cons. destruct (find_char p s); simpl; naive_solver.
Qed.

Lemma find_char_app p a c b :
  Forall (fun d => p d = false) a -> p c = true -> find_char p (a ++ c :: b) = Some (length a).
Proof.
  intros Ha Hc. induction Ha as [|d a Hd Ha IH]; simpl; [by rewrite Hc|].
  by rewrite Hd, IH.
Qed.

Lemma rfind_char_None p s : rfind_char p s = None <-> Forall (fun d => p d = false) s.
Proof.
  induction s as [|c s IH]; simpl; [naive_solver|]. rewrite Forall_cons.
  destruct (rfind_char p s); [naive_solver|]. destruct (p c); naive_solver.
Qed.

Lemma rfind_char_app p a c b :
  Forall (fun d => p d = false) b -> p c = true -> rfind_char p (a ++ c :: b) = Some (length a).
Proof.
  intros Hb Hc. induction a as [|d a IH]; simpl.
  - apply rfind_char_None in Hb. by rewrite Hb, Hc.
  - by rewrite IH.
Qed.

Lemma rfind_char_Some p s i :
  rfind_char p s = Some i ->
  exists c, s = take i s ++ c :: drop (S i) s /\ p c = true
            /\ Forall (fun d => p d = false) (drop (S i) s).
Proof.
  revert i. induction s as [|c s IH]; intros i; [done|]. simpl.
  destruct (rfind_char p s) as [j|] eqn:E.
  - intros [= <-]. destruct (IH j eq_refl) as (d & Hs & Hd & HF). exists d. simpl.
    split; [by f_equal|]. auto.
  - destruct (p c) eqn:Hp; [|done]. intros [= <-]. exists c. simpl.
    apply rfind_char_None in E. by rewrite drop_0.
Qed.

Lemma drop_cut (a : str) c b : drop (S (length a)) (a ++ c :: b) = b.
Proof. induction a; simpl; [apply drop_0|done]. Qed.

Lemma split_once_app c a b : char_free c a -> split_once c (a ++ c :: b) = Some (a, b).
Proof.
  intros H. unfold split_once. rewrite find_char_app.
  - simpl. by rewrite take_app_length, drop_app, Nat.sub_succ_l, Nat.sub_diag, drop_ge by lia.
  - eapply Forall_impl; [exact H|]. intros d Hd. apply Z.eqb_neq. congruence.
  - apply Z.eqb_refl.
Qed.

Lemma split_once_Some c s a b : split_once c s = Some (a, b) -> s = a ++ c :: b /\ char_free c a.
Proof.
  unfold split_once. destruct (find_char _ s) as [i|] eqn:E; [|done]. simpl. intros [= <- <-].
  destruct (find_char_Some _ _ _ E) as (d & Hs & Hd & HF). bool_simp. subst d.
  split; [done|]. eapply Forall_impl; [exact HF|]. intros d Hd%Z.eqb_neq. congruence.
Qed.

Lemma rsplit_once_app c a b : char_free c b -> rsplit_once c (a ++ c :: b) = Some (a, b).
Proof.
  intros H. unfold rsplit_once. rewrite rfind_char_app.
  - simpl. by rewrite take_app_length, drop_app, Nat.sub_succ_l, Nat.sub_diag, drop_ge by lia.
  - eapply Forall_impl; [exact H|]. intros d Hd. apply Z.eqb_neq. congruence.
  - apply Z.eqb_refl.
Qed.

Lemma rsplit_once_Some c s a b : rsplit_once c s = Some (a, b) -> s = a ++ c :: b /\ char_free c b.
Proof.
  unfold rsplit_once. destruct (rfind_char _ s) as [i|] eqn:E; [|done]. simpl. intros [= <- <-].
  destruct (rfind_char_Some _ _ _ E) as (d & Hs & Hd & HF). bool_simp. subst d.
  split; [done|]. eapply Forall_impl; [exact HF|]. intros d Hd%Z.eqb_neq. congruence.
Qed.

(** ** Numerals *)

(** [u8::to_ascii], the digits of a non-negative integer, most significant
    first: [Display] for the unsigned integers.  The fuel, one more than the
    number of bits, is at least the number of digits. *)
Fixpoint digits_acc (fuel : nat) (n : Z) (acc : str) : str :=
  match fuel with
  | O => acc
  | S f =>
      let acc' := (48 + n mod 10) :: acc in
      if n <? 10 then acc' else digits_acc f (n / 10) acc'
  end.
Definition show_u (n : Z) : str := digits_acc (S (Z.to_nat (Z.log2 n))) n [].
(** [Display] for the signed integers. *)
Definition show_i (n : Z) : str := if n <? 0 then 45 :: show_u (- n) else show_u n.
(** [{:0w}]. *)
Definition pad0 (w : nat) (s : str) : str := replicate (w - length s) 48 ++ s.

(** A run of ASCII digits as a number. *)
Definition digit_val (c : char) : option Z := if is_ascii_digit c then Some (c - 48) else None.
Fixpoint parse_digits_acc (acc : Z) (s : str) : option Z :=
  match s with
  | [] => Some acc
  | c :: s' => d ← digit_val c; parse_digits_acc (10 * acc + d) s'
  end.
(** [str::parse::<uN>] / [str::parse::<iN>]: an optional sign, at least one
    digit, and the value in range. *)
Definition parse_nat (s : str) : option Z :=
  match s with [] => None | _ => parse_digits_acc 0 s end.
Definition strip_plus (s : str) : str := unwrap_or (strip_prefix [43] s) s.
Definition parse_uint (hi : Z) (s : str) : option Z :=
  n ← parse_nat (strip_plus s); try_from 0 hi n.
Definition parse_int (lo hi : Z) (s : str) : option Z :=
  n ← match strip_prefix [45] s with
      | Some s' => Z.opp <$> parse_nat s'
      | None => parse_nat (strip_plus s)
      end;
  try_from lo hi n.
Definition parse_i64 := parse_int i64_min i64_max.
Definition parse_u64 := parse_uint u64_max.

Lemma digit_val_digit d : 0 <= d < 10 -> digit_val (48 + d) = Some d.
Proof.
  intros H. unfold digit_val, is_ascii_digit.
  rewrite (proj2 (in_range_spec 48 57 (48 + d))) by lia. f_equal. lia.
Qed.

Lemma digit_val_Some c d : digit_val c = Some d -> c = 48 + d /\ 0 <= d < 10.
Proof.
  unfold digit_val, is_ascii_digit. destruct (in_range 48 57 c) eqn:E; [|done].
  apply in_range_spec in E. intros [= <-]. lia.
Qed.

Record is_numeral (n : Z) (ds : str) : Prop := {
  numeral_nonempty : ds <> [];
  numeral_digits : Forall (fun c => is_ascii_digit c = true) ds;
  numeral_bound : forall w, n < 10 ^ Z.of_nat w -> (0 < w)%nat -> (length ds <= w)%nat;
  numeral_value : forall a rest,
    parse_digits_acc a (ds ++ rest) = parse_digits_acc (a * 10 ^ Z.of_nat (length ds) + n) rest;
}.

Lemma pow10_succ (f : nat) : 10 ^ Z.of_nat (S f) = 10 * 10 ^ Z.of_nat f.
Proof. rewrite Nat2Z.inj_succ, Z.pow_succ_r by lia. done. Qed.

Lemma is_numeral_single n : 0 <= n < 10 -> is_numeral n [48 + n].
Proof.
  intros H. split.
  - done.
  - repeat constructor. unfold is_ascii_digit. apply in_range_spec. lia.
  - intros w _ Hw. simpl. lia.
  - intros a rest. cbn [app parse_digits_acc]. rewrite digit_val_digit by lia.
    simpl. f_equal. lia.
Qed.

Lemma is_numeral_snoc q r ds :
  0 < q -> 0 <= r < 10 -> is_numeral q ds -> is_numeral (10 * q + r) (ds ++ [48 + r]).
Proof.
  intros Hq Hr [Hne Hds Hb Hv]. split.
  - by destruct ds.
  - apply Forall_app. split; [done|]. repeat constructor.
    unfold is_ascii_digit. apply in_range_spec. lia.
  - intros [|w] Hlt Hw; [lia|]. rewrite pow10_succ in Hlt. rewrite length_app. simpl.
    destruct w as [|w]; [simpl in Hlt; lia|].
    specialize (Hb (S w)). lia.
  - intros a rest. rewrite <- app_assoc, Hv. cbn [app parse_digits_acc].
    rewrite digit_val_digit by lia. rewrite length_app. simpl. f_equal.
    rewrite Nat.add_1_r, pow10_succ. lia.
Qed.

Lemma digits_acc_spec f n acc :
  0 <= n < 10 ^ Z.of_nat f -> (0 < f)%nat ->
  exists ds, digits_acc f n acc = ds ++ acc /\ is_numeral n ds.
Proof.
  revert n acc. induction f as [|f IH]; intros n acc Hn Hf; [lia|].
  cbn [digits_acc]. destruct (n <? 10) eqn:E; bool_simp.
  - exists [48 + n]. rewrite Z.mod_small by lia. split; [done|]. apply is_numeral_single. lia.
  - rewrite pow10_succ in Hn.
    destruct f as [|f]; [simpl in Hn; lia|].
    destruct (IH (n / 10) ((48 + n mod 10) :: acc)) as (ds & Hds & Hnum).
    + split; [apply Z.div_pos; lia|]. apply Z.div_lt_upper_bound; lia.
    + lia.
    + exists (ds ++ [48 + n mod 10]). rewrite Hds, <- app_assoc. split; [done|].
      assert (Hdm : n = 10 * (n / 10) + n mod 10) by (apply Z.div_mod; lia).
      assert (0 <= n mod 10 < 10) by (apply Z.mod_pos_bound; lia).
      generalize dependent (n / 10). generalize dependent (n mod 10). intros r Hr q Hds Hq Hdm.
      subst n. apply is_numeral_snoc; [lia|lia|done].
Qed.

Lemma show_u_numeral n : 0 <= n -> is_numeral n (show_u n).
Proof.
  intros Hn. unfold show_u.
  destruct (digits_acc_spec (S (Z.to_nat (Z.log2 n))) n []) as (ds & -> & H); [|lia|].
  - split; [done|]. rewrite pow10_succ, Z2Nat.id by apply Z.log2_nonneg.
    destruct (decide (n = 0)) as [->|]; [simpl; lia|].
    assert (n < 2 ^ Z.succ (Z.log2 n)) by (apply Z.log2_spec; lia).
    rewrite Z.pow_succ_r in * by apply Z.log2_nonneg.
    assert (2 ^ Z.log2 n <= 10 ^ Z.log2 n) by (apply Z.pow_le_mono_l; lia). lia.
  - by rewrite app_nil_r.
Qed.

Lemma parse_nat_show_u n : 0 <= n -> parse_nat (show_u n) = Some n.
Proof.
  intros Hn. destruct (show_u_numeral n Hn) as [Hne _ _ Hv].
  specialize (Hv 0 []). rewrite app_nil_r in Hv. simpl in Hv.
  unfold parse_nat. by destruct (show_u n).
Qed.

Lemma show_u_no_sign n c : 0 <= n -> c < 48 -> strip_prefix [c] (show_u n) = None.
Proof.
  intros Hn Hc. destruct (show_u_numeral n Hn) as [Hne H _ _].
  destruct (show_u n) as [|d s]; [done|]. inversion_clear H as [|?? Hd].
  unfold is_ascii_digit in Hd. apply in_range_spec in Hd. simpl.
  by rewrite (proj2 (Z.eqb_neq c d)) by lia.
Qed.

Lemma strip_plus_show_u n : 0 <= n -> strip_plus (show_u n) = show_u n.
Proof. intros Hn. unfold strip_plus. by rewrite show_u_no_sign by lia. Qed.

(** [n.to_string().parse()] gives [n] back. *)
Lemma parse_uint_show_u hi n : 0 <= n <= hi -> parse_uint hi (show_u n) = Some n.
Proof.
  intros Hn. unfold parse_uint. rewrite strip_plus_show_u, parse_nat_show_u by lia.
  simpl. by apply try_from_in.
Qed.

Lemma parse_int_show_i lo hi n : lo <= n <= hi -> parse_int lo hi (show_i n) = Some n.
Proof.
  intros Hn. unfold parse_int, show_i. destruct (n <? 0) eqn:E; bool_simp.
  - cbn [strip_prefix]. rewrite Z.eqb_refl, parse_nat_show_u by lia. simpl.
    rewrite Z.opp_involutive. by apply try_from_in.
  - rewrite show_u_no_sign, strip_plus_show_u, parse_nat_show_u by lia.
    simpl. by apply try_from_in.
Qed.

(** Zero padding does not change the value read back. *)
Lemma parse_pad0 n w :
  0 <= n < 10 ^ Z.of_nat w -> (0 < w)%nat ->
  length (pad0 w (show_u n)) = w
  /\ Forall (fun c => is_ascii_digit c = true) (pad0 w (show_u n))
  /\ forall rest, parse_digits_acc 0 (pad0 w (show_u n) ++ rest) = parse_digits_acc n rest.
Proof.
  intros Hn Hw. destruct (show_u_numeral n) as [_ Hd Hb Hv]; [lia|].
  specialize (Hb w). unfold pad0. split; [|split].
  - rewrite length_app, length_replicate. lia.
  - apply Forall_app. split; [by apply Forall_replicate|done].
  - intros rest. rewrite <- app_assoc. induction (w - length (show_u n))%nat as [|k IH].
    + simpl. by rewrite Hv.
    + exact IH.
Qed.

(** ** Hexadecimal ([hex::encode], [hex::decode]) *)

Definition hex_digit (d : Z) : char := if d <? 10 then 48 + d else 87 + d.
Definition hex_encode (b : bytes) : str :=
  flat_map (fun x => [hex_digit (x / 16); hex_digit (x mod 16)]) b.
Definition hex_val (c : char) : option Z :=
  if is_ascii_digit c then Some (c - 48)
  else if in_range 97 102 c then Some (c - 87)
  else if in_range 65 70 c then Some (c - 55)
  else None.
Fixpoint hex_decode (s : str) : option bytes :=
  match s with
  | [] => Some []
  | [_] => None
  | a :: b :: s' =>
      x ← hex_val a; y ← hex_val b; r ← hex_decode s'; Some (16 * x + y :: r)
  end.

Definition is_byte_list (b : bytes) : Prop := Forall (fun x => 0 <= x < 256) b.

Lemma hex_val_digit d : 0 <= d < 16 -> hex_val (hex_digit d) = Some d.
Proof.
  intros H. assert (d ∈ [0;1;2;3;4;5;6;7;8;9;10;11;12;13;14;15]) as Hd.
  { repeat (rewrite elem_of_cons). lia. }
  repeat (apply elem_of_cons in Hd as [->|Hd]; [done|]). by apply elem_of_nil in Hd.
Qed.

Lemma hex_decode_encode b : is_byte_list b -> hex_decode (hex_encode b) = Some b.
Proof.
  induction 1 as [|x b Hx Hb IH]; [done|]. cbn [hex_encode flat_map app hex_decode].
  assert (0 <= x / 16 < 16) by (split; [apply Z.div_pos|apply Z.div_lt_upper_bound]; lia).
  assert (0 <= x mod 16 < 16) by (apply Z.mod_pos_bound; lia).
  rewrite !hex_val_digit by done.
  change (flat_map _ b) with (hex_encode b). rewrite IH. simpl. do 2 f_equal.
  symmetry. by apply Z.div_mod.
Qed.

Lemma hex_val_bound c v : hex_val c = Some v -> 0 <= v < 16.
Proof.
  unfold hex_val, is_ascii_digit. intros H.
  repeat (case_match; [match goal with E : in_range _ _ _ = true |- _ => apply in_range_spec in E end|]);
    simplify_eq; lia.
Qed.

Lemma hex_decode_bytes s b : hex_decode s = Some b -> is_byte_list b.
Proof.
  remember (length s) as n eqn:Hn. revert s b Hn.
  induction (lt_wf n) as [n _ IH]. intros [|a [|a' s]] b Hn H; simpl in *; simplify_eq; [constructor|].
  destruct (hex_val a) eqn:Ea, (hex_val a') eqn:Eb; simpl in *; try done.
  destruct (hex_decode s) as [r|] eqn:Er; simpl in *; [|done]. simplify_eq.
  apply hex_val_bound in Ea, Eb. constructor; [lia|]. eapply (IH (length s)); eauto.
Qed.

(** A string that decodes is made of hexadecimal digits, hence has no
    whitespace around it. *)
Lemma hex_decode_no_ws s b : hex_decode s = Some b -> no_ws s.
Proof.
  assert (Hv : forall c v, hex_val c = Some v -> is_whitespace c = false).
  { intros c v. unfold hex_val, is_ascii_digit, is_whitespace. intros H.
    assert (48 <= c <= 102) as Hc.
    { repeat (case_match; [match goal with E : in_range _ _ _ = true |- _ => apply in_range_spec in E end|]);
        simplify_eq; lia. }
    unfold in_range. repeat rewrite orb_false_iff. repeat rewrite Z.eqb_neq.
    rewrite andb_false_iff, andb_false_iff, !Z.leb_gt. lia. }
  remember (length s) as n eqn:Hn. revert s b Hn.
  induction (lt_wf n) as [n _ IH]. intros [|a [|a' s]] b Hn H; simpl in *; simplify_eq; [constructor|].
  destruct (hex_val a) eqn:Ea, (hex_val a') eqn:Eb; simpl in *; try done.
  destruct (hex_decode s) as [r|] eqn:Er; simpl in *; [|done]. simplify_eq.
  repeat constructor; eauto. eapply (IH (length s)); eauto.
Qed.

(** A text's characters are Unicode scalar values: its UTF-8 is bytes. *)
Definition is_unicode (s : str) : Prop := Forall (fun c => 0 <= c <= 0x10FFFF) s.
Lemma utf8_char_bytes c : 0 <= c <= 0x10FFFF -> is_byte_list (utf8_char c).
Proof.
  intros Hc. unfold utf8_char, is_byte_list. change 63 with (Z.ones 6). rewrite !Z.land_ones, !Z.shiftr_div_pow2 by lia.
  pose proof (Z.mod_pos_bound c (2 ^ 6)). pose proof (Z.mod_pos_bound (c / 2 ^ 6) (2 ^ 6)).
  pose proof (Z.mod_pos_bound (c / 2 ^ 12) (2 ^ 6)).
  pose proof (Z.div_pos c (2 ^ 6)). pose proof (Z.div_pos c (2 ^ 12)). pose proof (Z.div_pos c (2 ^ 18)).
  assert (c < 2048 -> c / 2 ^ 6 < 32) by (intros; apply Z.div_lt_upper_bound; lia).
  assert (c < 65536 -> c / 2 ^ 12 < 16) by (intros; apply Z.div_lt_upper_bound; lia).
  assert (c / 2 ^ 18 < 5) by (apply Z.div_lt_upper_bound; lia).
  repeat case_match; bool_simp; repeat constructor; lia.
Qed.
Lemma as_bytes_byte_list s : is_unicode s -> is_byte_list (as_bytes s).
Proof.
  induction 1 as [|c s Hc Hs IH]; [constructor|]. cbn [as_bytes flat_map]. apply Forall_app.
  split; [by apply utf8_char_bytes|done].
Qed.

(** ** Percent encoding ([utf8_percent_encode] with [NON_ALPHANUMERIC]):
    every byte that is not an ASCII letter or digit becomes [%XX]. *)
Definition hex_digit_upper (d : Z) : char := if d <? 10 then 48 + d else 55 + d.
Definition percent_byte (b : Z) : str :=
  if is_ascii_alphanumeric b then [b] else [37; hex_digit_upper (b / 16); hex_digit_upper (b mod 16)].
Definition percent_encode (s : str) : str := flat_map percent_byte (as_bytes s).

(** ** Ordering: [Ord for str] (byte order, which for UTF-8 is character order) *)
Fixpoint str_leb (a b : str) : bool :=
  match a, b with
  | [], _ => true
  | _ :: _, [] => false
  | x :: a', y :: b' => if x <? y then true else if y <? x then false else str_leb a' b'
  end.
Definition str_le (a b : str) : Prop := str_leb a b = true.

#[export] Instance str_le_dec a b : Decision (str_le a b).
Proof. unfold str_le. apply _. Defined.

#[export] Instance str_le_total : Total str_le.
Proof.
  intros a. unfold str_le. induction a as [|x a IH]; intros [|y b]; simpl; auto.
  destruct (x <? y) eqn:E1, (y <? x) eqn:E2; auto.
Qed.
#[export] Instance str_le_trans : Transitive str_le.
Proof.
  intros a. unfold str_le. induction a as [|x a IH]; intros [|y b] [|z c]; simpl; auto; try done.
  intros H1 H2.
  destruct (x <? y) eqn:E1, (y <? z) eqn:E2, (y <? x) eqn:E3, (z <? y) eqn:E4; bool_simp; try done;
    destruct (x <? z) eqn:E5; try done; bool_simp; destruct (z <? x) eqn:E6; bool_simp; try lia; eauto.
Qed.
#[export] Instance str_le_antisym : AntiSymm (=) str_le.
Proof.
  intros a. unfold str_le. induction a as [|x a IH]; intros [|y b]; simpl; auto; try done.
  intros H1 H2. destruct (x <? y) eqn:E1, (y <? x) eqn:E2; bool_simp; try done; try lia.
  f_equal; [lia|]. by apply IH.
Qed.

(** A string whose UTF-8 encoding is ASCII is its own encoding. *)
Lemma as_bytes_inv s : Forall (fun b => b < 128) (as_bytes s) -> as_bytes s = s.
Proof.
  induction s as [|c s IH]; [done|]. cbn [as_bytes flat_map].
  intros [Hc Hs]%Forall_app. rewrite (IH Hs : flat_map utf8_char s = s). unfold utf8_char in *.
  destruct (c <? 128) eqn:E; [done|]. exfalso. bool_simp.
  assert (0 <= Z.shiftr c 6) by (apply Z.shiftr_nonneg; lia).
  assert (0 <= Z.shiftr c 12) by (apply Z.shiftr_nonneg; lia).
  assert (0 <= Z.shiftr c 18) by (apply Z.shiftr_nonneg; lia).
  destruct (c <? 2048), (c <? 65536); inversion_clear Hc; lia.
Qed.

(** Two digit strings of the same length with the same value are equal. *)
Lemma parse_digits_acc_inj l1 l2 a b n :
  length l1 = length l2 ->
  parse_digits_acc a l1 = Some n -> parse_digits_acc b l2 = Some n -> a = b /\ l1 = l2.
Proof.
  revert l2 a b. induction l1 as [|c1 l1 IH]; intros [|c2 l2] a b Hlen H1 H2; try done.
  - simpl in *. split; congruence.
  - simpl in *. destruct (digit_val c1) as [d1|] eqn:E1; [|done].
    destruct (digit_val c2) as [d2|] eqn:E2; [|done]. simpl in *.
    destruct (IH l2 _ _ ltac:(lia) H1 H2) as [Hab ->].
    apply digit_val_Some in E1, E2. split; [lia|]. f_equal. lia.
Qed.

Lemma pad0_parse w l n :
  length l = w -> (0 < w)%nat -> 0 <= n < 10 ^ Z.of_nat w ->
  parse_digits_acc 0 l = Some n -> pad0 w (show_u n) = l.
Proof.
  intros Hlen Hw Hn Hp. destruct (parse_pad0 n w Hn Hw) as (Hl & _ & Hv).
  specialize (Hv []). rewrite app_nil_r in Hv.
  eapply parse_digits_acc_inj; [congruence|exact Hv|exact Hp].
Qed.

Lemma parse_digits_acc_digits a l n :
  parse_digits_acc a l = Some n -> Forall (fun c => is_ascii_digit c = true) l.
Proof.
  revert a. induction l as [|c l IH]; intros a H; [constructor|]. simpl in H.
  unfold digit_val in H. destruct (is_ascii_digit c) eqn:E; [|done]. constructor; eauto.
Qed.

#[export] Hint Resolve trim_no_ws hex_decode_encode hex_decode_no_ws hex_decode_bytes str_eqb_refl
  strip_prefix_app split_once_app parse_int_show_i : kit.
