(* ===== verification/Sha256.v ===== *)
(** * SHA-256 and HMAC (FIPS 180-4, RFC 2104)

    The crates compute HMAC-SHA256 through the [hmac] and [sha2] packages,
    which the models of the crates take as a parameter.  This file has the
    published algorithm, so that the parameter can be instantiated by the
    function the packages implement: the repository's tests with recorded
    signatures run on it, and the laws the theorems assume of the parameter
    are proved of it. *)

From S2P Require Import Prelude RustStr.

Definition mask32 (x : Z) : Z := Z.land x 0xffffffff.
Definition add32 (x y : Z) : Z := mask32 (x + y).
Definition not32 (x : Z) : Z := Z.lxor x 0xffffffff.
Definition rotr (n x : Z) : Z := mask32 (Z.lor (Z.shiftr x n) (Z.shiftl x (32 - n))).

Definition big_sigma0 (x : Z) : Z := Z.lxor (Z.lxor (rotr 2 x) (rotr 13 x)) (rotr 22 x).
Definition big_sigma1 (x : Z) : Z := Z.lxor (Z.lxor (rotr 6 x) (rotr 11 x)) (rotr 25 x).
Definition sigma0 (x : Z) : Z := Z.lxor (Z.lxor (rotr 7 x) (rotr 18 x)) (Z.shiftr x 3).
Definition sigma1 (x : Z) : Z := Z.lxor (Z.lxor (rotr 17 x) (rotr 19 x)) (Z.shiftr x 10).
Definition ch (x y z : Z) : Z := Z.lxor (Z.land x y) (Z.land (not32 x) z).
Definition maj (x y z : Z) : Z := Z.lxor (Z.lxor (Z.land x y) (Z.land x z)) (Z.land y z).

(** The constants are fractional parts: of the cube roots of the first
    sixty-four primes for the rounds, of the square roots of the first eight
    for the initial state, 32 bits of each. *)
Definition is_prime (n : Z) : bool := forallb (fun d => negb (n mod d =? 0)) (seqZ 2 (Z.sqrt n - 1)).
Definition primes : list Z := List.filter is_prime (seqZ 2 310).
(** The cube root rounded down, bit by bit from [b]. *)
Fixpoint cube_root (b : nat) (root n : Z) : Z :=
  let next := root + 2 ^ Z.of_nat b in
  let root := if next ^ 3 <=? n then next else root in
  match b with O => root | S b => cube_root b root n end.
Definition cube_fraction (p : Z) : Z := mask32 (cube_root 35 0 (Z.shiftl p 96)).
Definition square_fraction (p : Z) : Z := mask32 (Z.sqrt (Z.shiftl p 64)).
Definition round_constants : list Z := Eval vm_compute in (cube_fraction <$> primes).

Record hash_state := mkHash { ha : Z; hb : Z; hc : Z; hd : Z; he : Z; hf : Z; hg : Z; hh : Z }.
Definition initial : hash_state :=
  Eval vm_compute in
    match square_fraction <$> take 8 primes with
    | [a; b; c; d; e; f; g; h] => mkHash a b c d e f g h
    | _ => mkHash 0 0 0 0 0 0 0 0
    end.

(** The message schedule is kept as its next sixteen words. *)
Definition nth_word (n : nat) (w : list Z) : Z := unwrap_or (w !! n) 0.
Definition extend (w : list Z) : list Z :=
  drop 1 w ++ [mask32 (sigma1 (nth_word 14 w) + nth_word 9 w + sigma0 (nth_word 1 w) + nth_word 0 w)].
Definition sha_round (s : hash_state) (k w : Z) : hash_state :=
  let t1 := hh s + big_sigma1 (he s) + ch (he s) (hf s) (hg s) + k + w in
  let t2 := big_sigma0 (ha s) + maj (ha s) (hb s) (hc s) in
  mkHash (mask32 (t1 + t2)) (ha s) (hb s) (hc s) (add32 (hd s) t1) (he s) (hf s) (hg s).
Fixpoint rounds (ks : list Z) (w : list Z) (s : hash_state) : hash_state :=
  match ks with
  | [] => s
  | k :: ks => rounds ks (extend w) (sha_round s k (nth_word 0 w))
  end.
Definition compress (s : hash_state) (block : list Z) : hash_state :=
  let r := rounds round_constants block s in
  mkHash (add32 (ha s) (ha r)) (add32 (hb s) (hb r)) (add32 (hc s) (hc r)) (add32 (hd s) (hd r))
    (add32 (he s) (he r)) (add32 (hf s) (hf r)) (add32 (hg s) (hg r)) (add32 (hh s) (hh r)).

(** Padding: a one bit, zeros, the length in bits over eight bytes. *)
Definition be_bytes (n : nat) (x : Z) : bytes := (fun i => Z.land (Z.shiftr x (8 * Z.of_nat i)) 255) <$> reverse (seq 0 n).
Definition pad (m : bytes) : bytes :=
  let zeros := Z.to_nat ((55 - Z.of_nat (length m)) mod 64) in
  m ++ [128] ++ replicate zeros 0 ++ be_bytes 8 (8 * Z.of_nat (length m)).

Fixpoint words (b : bytes) : list Z :=
  match b with
  | x0 :: x1 :: x2 :: x3 :: b => ((x0 * 256 + x1) * 256 + x2) * 256 + x3 :: words b
  | _ => []
  end.
Fixpoint blocks (n : nat) (w : list Z) : list (list Z) :=
  match n with O => [] | S n => take 16 w :: blocks n (drop 16 w) end.

Definition digest (s : hash_state) : bytes :=
  flat_map (be_bytes 4) [ha s; hb s; hc s; hd s; he s; hf s; hg s; hh s].
Definition sha256 (m : bytes) : bytes :=
  let w := words (pad m) in
  digest (foldl compress initial (blocks (length w / 16) w)).

(** HMAC over blocks of 64 bytes; a longer key is hashed first. *)
Definition hmac_key (k : bytes) : bytes :=
  let k := if (64 <? length k)%nat then sha256 k else k in k ++ replicate (64 - length k) 0.
Definition hmac_sha256 (k m : bytes) : bytes :=
  let k := hmac_key k in
  sha256 ((Z.lxor 0x5c <$> k) ++ sha256 ((Z.lxor 0x36 <$> k) ++ m)).

(** ** Facts the models rely on *)

Lemma be_bytes_length n x : length (be_bytes n x) = n.
Proof. unfold be_bytes. by rewrite length_fmap, length_reverse, length_seq. Qed.
Lemma land_255_byte x : 0 <= Z.land x 255 < 256.
Proof. change 255 with (Z.ones 8). rewrite Z.land_ones by lia. apply Z.mod_pos_bound. lia. Qed.
Lemma be_bytes_byte_list n x : is_byte_list (be_bytes n x).
Proof.
  unfold is_byte_list, be_bytes. rewrite Forall_fmap. apply Forall_forall. intros i _. apply land_255_byte.
Qed.
Lemma digest_length s : length (digest s) = 32%nat.
Proof. unfold digest. cbn [flat_map]. by rewrite !length_app, !be_bytes_length. Qed.
Lemma digest_byte_list s : is_byte_list (digest s).
Proof. unfold digest, is_byte_list. cbn [flat_map]. rewrite !Forall_app. split_and!; try apply be_bytes_byte_list. constructor. Qed.

Lemma sha256_length m : length (sha256 m) = 32%nat.
Proof. apply digest_length. Qed.
Lemma hmac_sha256_length k m : length (hmac_sha256 k m) = 32%nat.
Proof. apply sha256_length. Qed.
Lemma hmac_sha256_byte_list k m : is_byte_list (hmac_sha256 k m).
Proof. apply digest_byte_list. Qed.

(** There is a constant for each of the sixty-four rounds. *)
Lemma sixty_four_rounds : length round_constants = 64%nat /\ round_constants = cube_fraction <$> primes.
Proof. split; [done|]. vm_compute. reflexivity. Qed.

(** Padding fills whole blocks, so no word of the message is left out. *)
Lemma pad_length m : Z.of_nat (length (pad m)) mod 64 = 0.
Proof.
  unfold pad. rewrite !length_app, length_replicate, be_bytes_length. simpl length.
  pose proof (Z.mod_pos_bound (55 - Z.of_nat (length m)) 64 ltac:(lia)) as Hb.
  pose proof (Z.div_mod (55 - Z.of_nat (length m)) 64 ltac:(lia)) as Hd.
  replace (Z.of_nat _) with ((1 - (55 - Z.of_nat (length m)) / 64) * 64) by lia. apply Z.mod_mul. lia.
Qed.

(** The published vectors. *)
Example sha256_empty :
  hex_encode (sha256 []) = lit "e3b0c44298fc1c149afbf4c8996fb92427ae41e4649b934ca495991b7852b855".
Proof. vm_compute. reflexivity. Qed.
Example sha256_abc :
  hex_encode (sha256 (lit "abc")) = lit "ba7816bf8f01cfea414140de5dae2223b00361a396177a9cb410ff61f20015ad".
Proof. vm_compute. reflexivity. Qed.
Example sha256_two_blocks :
  hex_encode (sha256 (lit "abcdbcdecdefdefgefghfghighijhijkijkljklmklmnlmnomnopnopq"))
  = lit "248d6a61d20638b8e5c026930c3e6039a33ce45964ff2167f6ecedd419db06c1".
Proof. vm_compute. reflexivity. Qed.
Example hmac_jefe :
  hex_encode (hmac_sha256 (lit "Jefe") (lit "what do ya want for nothing?"))
  = lit "5bdcc146bf60754e6a042426089575c75a003f089d2739839dec58b964ec3843".
Proof. vm_compute. reflexivity. Qed.
