(* ===== verification/Base64.v ===== *)
(** * URL-safe base64 without padding (RFC 4648, [base64::URL_SAFE_NO_PAD])

    The encoding of tokens, PKCE challenges and the parts of a JWT, which the
    models of the crates take as a parameter. *)

From S2P Require Import Prelude RustStr.

Definition base64url_char (d : Z) : char :=
  if d <? 26 then 65 + d else if d <? 52 then 71 + d else if d <? 62 then d - 4 else if d =? 62 then 45 else 95.
Fixpoint base64url (b : bytes) : str :=
  match b with
  | x :: y :: z :: b =>
      let n := (x * 256 + y) * 256 + z in
      base64url_char (n / 262144) :: base64url_char (n / 4096 mod 64) :: base64url_char (n / 64 mod 64)
        :: base64url_char (n mod 64) :: base64url b
  | [x; y] =>
      let n := (x * 256 + y) * 4 in
      [base64url_char (n / 4096); base64url_char (n / 64 mod 64); base64url_char (n mod 64)]
  | [x] => let n := x * 16 in [base64url_char (n / 64); base64url_char (n mod 64)]
  | [] => []
  end.

Definition base64url_val (c : char) : option Z :=
  if is_ascii_upper c then Some (c - 65)
  else if is_ascii_lower c then Some (c - 71)
  else if is_ascii_digit c then Some (c + 4)
  else if c =? 45 then Some 62
  else if c =? 95 then Some 63
  else None.
(** The bits left over at the end must be zero. *)
Fixpoint base64url_decode (s : str) : option bytes :=
  match s with
  | [] => Some []
  | a :: b :: c :: d :: s =>
      a ← base64url_val a; b ← base64url_val b; c ← base64url_val c; d ← base64url_val d;
      let n := ((a * 64 + b) * 64 + c) * 64 + d in
      r ← base64url_decode s; Some (n / 65536 :: n / 256 mod 256 :: n mod 256 :: r)
  | [a; b; c] =>
      a ← base64url_val a; b ← base64url_val b; c ← base64url_val c;
      let n := (a * 64 + b) * 64 + c in
      if n mod 4 =? 0 then Some [n / 1024; n / 4 mod 256] else None
  | [a; b] =>
      a ← base64url_val a; b ← base64url_val b;
      let n := a * 64 + b in
      if n mod 16 =? 0 then Some [n / 16] else None
  | [_] => None
  end.

Lemma base64url_val_char d : 0 <= d < 64 -> base64url_val (base64url_char d) = Some d.
Proof.
  intros Hd. assert (Hin : d ∈ seqZ 0 64) by (apply elem_of_seqZ; lia).
  assert (Hall : Forall (fun d => base64url_val (base64url_char d) = Some d) (seqZ 0 64))
    by (apply (bool_decide_unpack _); vm_compute; exact I).
  rewrite Forall_forall in Hall. by apply Hall.
Qed.

(** The quotients and remainders of a group, by their defining equations. *)
Ltac sextet := rewrite base64url_val_char by (Z.to_euclidean_division_equations; lia); cbn [mbind option_bind].

(** The decoder is a left inverse of the encoder. *)
Lemma base64url_decode_encode b : is_byte_list b -> base64url_decode (base64url b) = Some b.
Proof.
  unfold is_byte_list. remember (length b) as n eqn:Hn. revert b Hn.
  induction n as [n IH] using lt_wf_ind; intros [|x [|y [|z b]]] Hn Hb; [done|..];
    repeat match goal with H : Forall _ (_ :: _) |- _ => apply Forall_cons in H as [? H] end.
  - cbn [base64url base64url_decode]. do 2 sextet.
    replace (x * 16 / 64 * 64 + x * 16 mod 64) with (x * 16) by (Z.to_euclidean_division_equations; lia).
    by rewrite Z.mod_mul, Z.div_mul by lia.
  - cbn [base64url base64url_decode]. do 3 sextet.
    replace (_ * 64 + _) with ((x * 256 + y) * 4) by (Z.to_euclidean_division_equations; lia).
    rewrite Z.mod_mul, Z.div_mul by lia. cbn [Z.eqb]. do 2 f_equal; [|f_equal]; Z.to_euclidean_division_equations; lia.
  - cbn [base64url base64url_decode]. do 4 sextet.
    replace (_ * 64 + _) with ((x * 256 + y) * 256 + z) by (Z.to_euclidean_division_equations; lia).
    rewrite (IH (length b)) by (simpl in Hn; lia || done). cbn [mbind option_bind].
    do 2 f_equal; [|f_equal; [|f_equal]]; Z.to_euclidean_division_equations; lia.
Qed.

(** The encoding stays in its alphabet. *)
Lemma base64url_alphabet b : is_byte_list b -> Forall (fun c => is_some (base64url_val c) = true) (base64url b).
Proof.
  unfold is_byte_list. remember (length b) as n eqn:Hn. revert b Hn.
  assert (Hc : forall d, 0 <= d < 64 -> is_some (base64url_val (base64url_char d)) = true)
    by (intros d Hd; by rewrite base64url_val_char).
  induction n as [n IH] using lt_wf_ind; intros [|x [|y [|z b]]] Hn Hb; [constructor|..];
    repeat match goal with H : Forall _ (_ :: _) |- _ => apply Forall_cons in H as [? H] end;
    cbn [base64url]; repeat (constructor; [apply Hc; Z.to_euclidean_division_equations; lia|]); [constructor..|].
  by apply (IH (length b)); [simpl in Hn; lia|..].
Qed.
Lemma base64url_char_free c b : base64url_val c = None -> is_byte_list b -> char_free c (base64url b).
Proof.
  intros Hc Hb. eapply Forall_impl; [by apply base64url_alphabet|]. intros d Hd ->. by rewrite Hc in Hd.
Qed.
