(* ===== verification/Json.v ===== *)
(** * JSON values ([serde_json::Value])

    The value type the crates exchange with [serde_json] and the accessors
    they call on it.  Parsing and printing of JSON text belong to that package
    and are parameters where a component uses them. *)

From S2P Require Import Prelude RustStr.

(** A number is an integer or a binary64 (kept as its bit pattern); an object
    is its entries in order. *)
Inductive json : Type :=
| JNull
| JBool (b : bool)
| JInt (n : Z)
| JFloat (bits : Z)
| JString (s : str)
| JArray (l : list json)
| JObject (fields : list (str * json)).

Fixpoint assoc {A} (k : str) (l : list (str * A)) : option A :=
  match l with
  | [] => None
  | (k', v) :: l' => if k =s k' then Some v else assoc k l'
  end.

(** [Value::get(key)]: [None] on anything but an object. *)
Definition get (k : str) (v : json) : option json :=
  match v with JObject fields => assoc k fields | _ => None end.
Definition json_as_str (v : json) : option str := match v with JString s => Some s | _ => None end.
Definition as_bool (v : json) : option bool := match v with JBool b => Some b | _ => None end.
Definition as_array (v : json) : option (list json) := match v with JArray l => Some l | _ => None end.
(** [Value::as_i64]: an integer that fits. *)
Definition as_i64 (v : json) : option Z := match v with JInt n => i64_try_from n | _ => None end.

Lemma assoc_Some_In {A} k (l : list (str * A)) v : assoc k l = Some v -> (k, v) ∈ l.
Proof.
  induction l as [|[k' w] l IH]; [done|]. simpl. destruct (k =s k') eqn:E; intros H.
  - apply str_eqb_eq in E. simplify_eq. set_solver.
  - apply IH in H. set_solver.
Qed.
