(* ===== verification/Headers.v ===== *)
(** * HTTP headers, as the crates use the [http] package

    A header map is the list of its entries, names in lower case as the
    package normalises them.  The conversions between header values and
    strings belong to the package: they are the operations of a class, with
    what its documentation promises as the laws of a second one. *)

From S2P Require Import Prelude RustStr Json.

Abbreviation HeaderMap := (list (str * bytes)).

(** [HeaderMap::get] is the first value of the name, [insert] replaces every
    value of the name by one, [remove] drops them all. *)
Definition header_get (name : str) (h : HeaderMap) : option bytes := assoc name h.
Definition header_remove (name : str) (h : HeaderMap) : HeaderMap :=
  List.filter (fun e => negb (e.1 =s name)) h.
Definition header_insert (name : str) (v : bytes) (h : HeaderMap) : HeaderMap :=
  header_remove name h ++ [(name, v)].

(** Visible ASCII: what [HeaderValue::from_str] takes and [to_str] returns. *)
Definition visible (s : str) : Prop := Forall (fun c => 32 <= c < 127) s.
Definition visibleb (s : str) : bool := forallb (in_range 32 126) s.

Class HttpPackage := {
  (** [HeaderName::from_bytes]: the name in lower case. *)
  header_name_from_bytes : bytes -> option str;
  (** [HeaderValue::from_str]. *)
  header_value_from_str : str -> option bytes;
  (** [HeaderValue::to_str]. *)
  header_to_str : bytes -> option str;
}.

Class HttpPackageLaws `{HttpPackage} : Prop := {
  header_value_from_str_visible s : visible s -> header_value_from_str s = Some s;
  header_to_str_visible s : visible s -> header_to_str s = Some s;
  header_to_str_same b s : header_to_str b = Some s -> s = b;
}.

(** A small model of the package: visible ASCII only, names lower-cased. *)
#[local] Instance visible_http : HttpPackage := {|
  header_name_from_bytes b :=
    if negb (bool_decide (b = [])) && visibleb b then Some (to_ascii_lowercase b) else None;
  header_value_from_str s := if visibleb s then Some s else None;
  header_to_str b := if visibleb b then Some b else None;
|}.

Lemma visibleb_spec s : visibleb s = true <-> visible s.
Proof.
  unfold visibleb, visible. rewrite forallb_forall, Forall_forall.
  setoid_rewrite list_elem_of_In. setoid_rewrite in_range_spec.
  split; intros H x Hx; specialize (H x Hx); lia.
Qed.

#[local] Instance visible_http_laws : HttpPackageLaws.
Proof.
  split; simpl; intros.
  - by rewrite (proj2 (visibleb_spec s)).
  - by rewrite (proj2 (visibleb_spec s)).
  - by destruct (visibleb b); simplify_eq.
Qed.

Lemma assoc_filter_neq {A} k k' (l : list (str * A)) :
  k <> k' -> assoc k (List.filter (fun e => negb (e.1 =s k')) l) = assoc k l.
Proof.
  intros Hk. induction l as [|[n v] l IH]; [done|]. cbn [List.filter fst assoc].
  destruct (n =s k') eqn:E; simpl.
  - apply str_eqb_eq in E. subst n. by rewrite (proj2 (str_eqb_neq k k')).
  - by rewrite IH.
Qed.

Lemma assoc_filter_eq {A} k (l : list (str * A)) :
  assoc k (List.filter (fun e => negb (e.1 =s k)) l) = None.
Proof.
  induction l as [|[n v] l IH]; [done|]. cbn [List.filter fst].
  destruct (n =s k) eqn:E; simpl; [done|].
  apply str_eqb_neq in E. by rewrite (proj2 (str_eqb_neq k n)) by congruence.
Qed.

Lemma assoc_app {A} k (l1 l2 : list (str * A)) :
  assoc k (l1 ++ l2) = match assoc k l1 with Some v => Some v | None => assoc k l2 end.
Proof. induction l1 as [|[n v] l1 IH]; [done|]. simpl. by destruct (k =s n). Qed.

Lemma header_get_insert k v h : header_get k (header_insert k v h) = Some v.
Proof.
  unfold header_get, header_insert, header_remove. rewrite assoc_app, assoc_filter_eq. simpl.
  by rewrite str_eqb_refl.
Qed.

Lemma header_get_insert_ne k k' v h : k <> k' -> header_get k (header_insert k' v h) = header_get k h.
Proof.
  intros Hk. unfold header_get, header_insert, header_remove.
  rewrite assoc_app, assoc_filter_neq by done. simpl. rewrite (proj2 (str_eqb_neq k k')) by done.
  by destruct (assoc k h).
Qed.
