(* ===== verification/Net.v ===== *)
(** * IP addresses of the Rust standard library

    [std::net]: the address types, the classification predicates the crates
    call, and the parser behind [str::parse::<IpAddr>] ([Parser] of
    [core::net::parser]), a recursive-descent reader that backtracks. *)

From S2P Require Import Prelude RustStr.

(** Four octets; eight 16-bit segments. *)
Record Ipv4Addr := mkV4 { o0 : Z; o1 : Z; o2 : Z; o3 : Z }.
Record Ipv6Addr := mkV6 { s0 : Z; s1 : Z; s2 : Z; s3 : Z; s4 : Z; s5 : Z; s6 : Z; s7 : Z }.
Inductive IpAddr := V4 (a : Ipv4Addr) | V6 (a : Ipv6Addr).
Record SocketAddr := mkSocketAddr { sock_ip : IpAddr; sock_port : Z }.

#[export] Instance Ipv4Addr_eq_dec : EqDecision Ipv4Addr.
Proof. solve_decision. Defined.
#[export] Instance Ipv6Addr_eq_dec : EqDecision Ipv6Addr.
Proof. solve_decision. Defined.
#[export] Instance IpAddr_eq_dec : EqDecision IpAddr.
Proof. solve_decision. Defined.

Definition wf4 (a : Ipv4Addr) : Prop :=
  0 <= o0 a <= u8_max /\ 0 <= o1 a <= u8_max /\ 0 <= o2 a <= u8_max /\ 0 <= o3 a <= u8_max.
Definition wf6 (a : Ipv6Addr) : Prop :=
  (0 <= s0 a <= u16_max /\ 0 <= s1 a <= u16_max /\ 0 <= s2 a <= u16_max /\ 0 <= s3 a <= u16_max)
  /\ (0 <= s4 a <= u16_max /\ 0 <= s5 a <= u16_max /\ 0 <= s6 a <= u16_max /\ 0 <= s7 a <= u16_max).
Definition wf_ip (ip : IpAddr) : Prop := match ip with V4 a => wf4 a | V6 a => wf6 a end.

Definition segments (a : Ipv6Addr) : list Z := [s0 a; s1 a; s2 a; s3 a; s4 a; s5 a; s6 a; s7 a].

Module V4.
Definition is_unspecified (a : Ipv4Addr) : bool := (o0 a =? 0) && (o1 a =? 0) && (o2 a =? 0) && (o3 a =? 0).
Definition is_loopback (a : Ipv4Addr) : bool := o0 a =? 127.
Definition is_private (a : Ipv4Addr) : bool :=
  (o0 a =? 10) || ((o0 a =? 172) && in_range 16 31 (o1 a)) || ((o0 a =? 192) && (o1 a =? 168)).
Definition is_link_local (a : Ipv4Addr) : bool := (o0 a =? 169) && (o1 a =? 254).
Definition is_multicast (a : Ipv4Addr) : bool := in_range 224 239 (o0 a).
Definition is_broadcast (a : Ipv4Addr) : bool :=
  (o0 a =? 255) && (o1 a =? 255) && (o2 a =? 255) && (o3 a =? 255).
Definition is_documentation (a : Ipv4Addr) : bool :=
  ((o0 a =? 192) && (o1 a =? 0) && (o2 a =? 2))
  || ((o0 a =? 198) && (o1 a =? 51) && (o2 a =? 100))
  || ((o0 a =? 203) && (o1 a =? 0) && (o2 a =? 113)).
End V4.

Module V6.
Definition is_unspecified (a : Ipv6Addr) : bool := forallb (Z.eqb 0) (segments a).
Definition is_loopback (a : Ipv6Addr) : bool :=
  (s0 a =? 0) && (s1 a =? 0) && (s2 a =? 0) && (s3 a =? 0)
  && (s4 a =? 0) && (s5 a =? 0) && (s6 a =? 0) && (s7 a =? 1).
Definition is_multicast (a : Ipv6Addr) : bool := Z.land (s0 a) 65280 =? 65280.
(** Big-endian bytes of a segment. *)
Definition hi_byte (s : Z) : Z := s / 256.
Definition lo_byte (s : Z) : Z := s mod 256.
Definition v4_of_segments (ab cd : Z) : Ipv4Addr := mkV4 (hi_byte ab) (lo_byte ab) (hi_byte cd) (lo_byte cd).
(** [to_ipv4]: [::a.b.c.d] and [::ffff:a.b.c.d]. *)
Definition to_ipv4 (a : Ipv6Addr) : option Ipv4Addr :=
  if (s0 a =? 0) && (s1 a =? 0) && (s2 a =? 0) && (s3 a =? 0) && (s4 a =? 0)
     && ((s5 a =? 0) || (s5 a =? 65535))
  then Some (v4_of_segments (s6 a) (s7 a)) else None.
End V6.

(** ** The parser *)

Module Parse.
Definition reader (A : Type) := str -> option (A * str).

Definition read_given_char (c : char) : reader () := fun s =>
  match s with d :: s' => if d =? c then Some ((), s') else None | [] => None end.

(** The digits of [radix] at the front, with their count and checked value. *)
Fixpoint take_digits (digit : char -> option Z) (s : str) : list Z * str :=
  match s with
  | [] => ([], [])
  | c :: s' =>
      match digit c with
      | Some d => let '(ds, rest) := take_digits digit s' in (d :: ds, rest)
      | None => ([], s)
      end
  end.
Definition value_of (radix : Z) (ds : list Z) : Z := foldl (fun acc d => acc * radix + d) 0 ds.

(** [read_number(radix, Some(max_digits), allow_zero_prefix)] at a type whose
    maximum is [hi]: too many digits, an overflow or a forbidden leading zero
    is a failure. *)
Definition read_number (radix : Z) (digit : char -> option Z) (max_digits : nat) (allow_zero_prefix : bool)
    (hi : Z) : reader Z := fun s =>
  let '(ds, rest) := take_digits digit s in
  if bool_decide (ds = []) then None
  else if (max_digits <? length ds)%nat then None
  else if hi <? value_of radix ds then None
  else if negb allow_zero_prefix && bool_decide (head ds = Some 0) && (1 <? length ds)%nat then None
  else Some (value_of radix ds, rest).

(** [read_separator(sep, index, inner)]: the separator precedes every element
    but the first. *)
Definition read_separator {A} (sep : char) (index : nat) (inner : reader A) : reader A := fun s =>
  match index with
  | O => inner s
  | S _ => '(_, s') ← read_given_char sep s; inner s'
  end.

Definition read_octet : reader Z := read_number 10 digit_val 3 false u8_max.
Definition read_ipv4_addr : reader Ipv4Addr := fun s =>
  '(a, s) ← read_separator 46 0 read_octet s;
  '(b, s) ← read_separator 46 1 read_octet s;
  '(c, s) ← read_separator 46 2 read_octet s;
  '(d, s) ← read_separator 46 3 read_octet s;
  Some (mkV4 a b c d, s).

Definition read_group : reader Z := read_number 16 hex_val 4 true u16_max.

(** [read_groups]: up to [limit] groups from index [i] on; a trailing IPv4
    address fills two.  [n] is the number of slots left. *)
Fixpoint read_groups (n i : nat) (s : str) : list Z * bool * str :=
  match n with
  | O => ([], false, s)
  | S n' =>
      match (if (0 <? n')%nat then read_separator 58 i read_ipv4_addr s else None) with
      | Some (a, s') => ([o0 a * 256 + o1 a; o2 a * 256 + o3 a], true, s')
      | None =>
          match read_separator 58 i read_group s with
          | Some (g, s') => let '(gs, v4, s'') := read_groups n' (S i) s' in (g :: gs, v4, s'')
          | None => ([], false, s)
          end
      end
  end.

Definition v6_of_groups (l : list Z) : option Ipv6Addr :=
  match l with
  | [a; b; c; d; e; f; g; h] => Some (mkV6 a b c d e f g h)
  | _ => None
  end.

Definition read_ipv6_addr : reader Ipv6Addr := fun s =>
  let '(hd, head_ipv4, s1) := read_groups 8 0 s in
  if (length hd =? 8)%nat then a ← v6_of_groups hd; Some (a, s1)
  else if head_ipv4 then None
  else
    '(_, s2) ← read_given_char 58 s1;
    '(_, s3) ← read_given_char 58 s2;
    let limit := (8 - (length hd + 1))%nat in
    let '(tl, _, s4) := read_groups limit 0 s3 in
    a ← v6_of_groups (hd ++ replicate (8 - length hd - length tl) 0 ++ tl); Some (a, s4).

Definition read_ip_addr : reader IpAddr := fun s =>
  match read_ipv4_addr s with
  | Some (a, s') => Some (V4 a, s')
  | None => '(a, s') ← read_ipv6_addr s; Some (V6 a, s')
  end.

(** [str::parse::<IpAddr>]: the whole input. *)
Definition parse_ip (s : str) : option IpAddr :=
  '(ip, rest) ← read_ip_addr s; if bool_decide (rest = []) then Some ip else None.
End Parse.

Example parse_ip_examples :
  Parse.parse_ip (lit "192.168.1.10") = Some (V4 (mkV4 192 168 1 10))
  /\ Parse.parse_ip (lit "192.168.01.10") = None
  /\ Parse.parse_ip (lit "::1") = Some (V6 (mkV6 0 0 0 0 0 0 0 1))
  /\ Parse.parse_ip (lit "2001:db8::ff:1") = Some (V6 (mkV6 8193 3512 0 0 0 0 255 1))
  /\ Parse.parse_ip (lit "::ffff:10.0.0.1") = Some (V6 (mkV6 0 0 0 0 0 65535 2560 1))
  /\ Parse.parse_ip (lit "1:2:3:4:5:6:7:8") = Some (V6 (mkV6 1 2 3 4 5 6 7 8))
  /\ Parse.parse_ip (lit "1:2:3:4:5:6:7::") = Some (V6 (mkV6 1 2 3 4 5 6 7 0))
  /\ Parse.parse_ip (lit "1::2::3") = None /\ Parse.parse_ip (lit "[::1]") = None.
Proof. vm_compute. auto 10. Qed.

(** ** What parses is an address: every part is within its width *)

Lemma value_of_nonneg radix ds :
  0 <= radix -> Forall (fun d => 0 <= d) ds -> 0 <= Parse.value_of radix ds.
Proof.
  intros Hr Hds. unfold Parse.value_of. assert (H : forall acc, 0 <= acc ->
    0 <= foldl (fun acc d => acc * radix + d) acc ds); [|by apply H].
  induction Hds as [|d ds Hd _ IH]; intros acc Hacc; simpl; [done|]. apply IH. nia.
Qed.

Lemma take_digits_nonneg digit s :
  (forall c d, digit c = Some d -> 0 <= d) -> Forall (fun d => 0 <= d) (Parse.take_digits digit s).1.
Proof.
  intros Hd. induction s as [|c s IH]; simpl; [constructor|].
  destruct (digit c) eqn:E; [|constructor]. destruct (Parse.take_digits digit s). constructor; eauto.
Qed.

Lemma read_number_bound radix digit m z hi s n s' :
  0 <= radix -> (forall c d, digit c = Some d -> 0 <= d) ->
  Parse.read_number radix digit m z hi s = Some (n, s') -> 0 <= n <= hi.
Proof.
  intros Hr Hd. unfold Parse.read_number. pose proof (take_digits_nonneg digit s Hd) as Hds.
  destruct (Parse.take_digits digit s) as [ds rest]. simpl in Hds.
  repeat (case_match; try done). intros [= <- <-]. bool_simp.
  split; [by apply value_of_nonneg|lia].
Qed.

Lemma read_octet_bound s n s' : Parse.read_octet s = Some (n, s') -> 0 <= n <= u8_max.
Proof. apply read_number_bound; [lia|]. intros c d Hc%digit_val_Some. lia. Qed.
Lemma read_group_bound s n s' : Parse.read_group s = Some (n, s') -> 0 <= n <= u16_max.
Proof. apply read_number_bound; [lia|]. intros c d Hc%hex_val_bound. lia. Qed.

Lemma read_separator_inner {A} sep i (inner : Parse.reader A) s r :
  Parse.read_separator sep i inner s = Some r -> exists s', inner s' = Some r.
Proof.
  unfold Parse.read_separator. destruct i; [eauto|]. destruct (Parse.read_given_char sep s) as [[[] s']|]; [|done].
  simpl. eauto.
Qed.

Lemma read_ipv4_wf s a s' : Parse.read_ipv4_addr s = Some (a, s') -> wf4 a.
Proof.
  unfold Parse.read_ipv4_addr. intros H.
  destruct (Parse.read_separator 46 0 _ s) as [[a0 t0]|] eqn:E0; [|done]. cbn [mbind option_bind] in H.
  destruct (Parse.read_separator 46 1 _ t0) as [[a1 t1]|] eqn:E1; [|done]. cbn [mbind option_bind] in H.
  destruct (Parse.read_separator 46 2 _ t1) as [[a2 t2]|] eqn:E2; [|done]. cbn [mbind option_bind] in H.
  destruct (Parse.read_separator 46 3 _ t2) as [[a3 t3]|] eqn:E3; [|done]. cbn [mbind option_bind] in H.
  injection H as <- <-.
  apply read_separator_inner in E0 as [? E0%read_octet_bound], E1 as [? E1%read_octet_bound],
    E2 as [? E2%read_octet_bound], E3 as [? E3%read_octet_bound]. done.
Qed.

Definition is_u16_list (l : list Z) : Prop := Forall (fun g => 0 <= g <= u16_max) l.

Lemma read_groups_wf n i s : is_u16_list (Parse.read_groups n i s).1.1.
Proof.
  revert i s. induction n as [|n IH]; intros i s; [constructor|]. cbn [Parse.read_groups].
  destruct (if (0 <? n)%nat then _ else None) as [[a s']|] eqn:E.
  - destruct (0 <? n)%nat; [|done]. apply read_separator_inner in E as [t E%read_ipv4_wf].
    destruct E as (? & ? & ? & ?). unfold u8_max in *. repeat constructor; unfold u16_max; lia.
  - destruct (Parse.read_separator 58 i Parse.read_group s) as [[g s']|] eqn:Eg; [|constructor].
    apply read_separator_inner in Eg as [t Eg%read_group_bound].
    specialize (IH (S i) s'). destruct (Parse.read_groups n (S i) s') as [[gs v4] s'']. by constructor.
Qed.

Lemma v6_of_groups_wf l a : is_u16_list l -> Parse.v6_of_groups l = Some a -> wf6 a.
Proof.
  unfold is_u16_list. intros Hl Ha.
  destruct l as [|? [|? [|? [|? [|? [|? [|? [|? [|]]]]]]]]]; simplify_eq/=.
  rewrite !Forall_cons in Hl. unfold wf6. simpl. tauto.
Qed.

Lemma read_ipv6_wf s a s' : Parse.read_ipv6_addr s = Some (a, s') -> wf6 a.
Proof.
  unfold Parse.read_ipv6_addr. pose proof (read_groups_wf 8 0 s) as H1.
  destruct (Parse.read_groups 8 0 s) as [[hd h4] t1]. simpl in H1.
  destruct (length hd =? 8)%nat.
  { destruct (Parse.v6_of_groups hd) eqn:E; [|done]. intros [= -> _]. by eapply v6_of_groups_wf. }
  destruct h4; [done|].
  destruct (Parse.read_given_char 58 t1) as [[[] t2]|]; [|done]. simpl.
  destruct (Parse.read_given_char 58 t2) as [[[] t3]|]; [|done]. simpl.
  pose proof (read_groups_wf (8 - (length hd + 1)) 0 t3) as H2.
  destruct (Parse.read_groups _ 0 t3) as [[tl t4] t5]. simpl in H2.
  destruct (Parse.v6_of_groups _) eqn:E; [|done]. intros [= -> _].
  eapply v6_of_groups_wf; [|exact E]. unfold is_u16_list in *. rewrite !Forall_app.
  split; [done|]. split; [|done]. apply Forall_replicate. unfold u16_max. lia.
Qed.

Lemma parse_ip_wf s ip : Parse.parse_ip s = Some ip -> wf_ip ip.
Proof.
  unfold Parse.parse_ip, Parse.read_ip_addr.
  destruct (Parse.read_ipv4_addr s) as [[a s']|] eqn:E4; simpl.
  { case_bool_decide; [|done]. intros [= <-]. by eapply read_ipv4_wf. }
  destruct (Parse.read_ipv6_addr s) as [[a s']|] eqn:E6; [|done]. simpl.
  case_bool_decide; [|done]. intros [= <-]. by eapply read_ipv6_wf.
Qed.
