(* ===== verification/IpText.v ===== *)
(** * IP addresses as text

    [Display] of [std::net]'s addresses, with the compression of the longest
    run of zero segments, and that the parser of [Net] reads it back.  The
    rate limiter's [ip_key] is this text. *)

From S2P Require Import Prelude RustStr Net.

(** ** Numerals in a radix *)

(** The digits of [n], most significant first.  The fuel is at least the number
    of digits. *)
Fixpoint radix_digits (radix : Z) (fuel : nat) (n : Z) (acc : list Z) : list Z :=
  match fuel with
  | O => acc
  | S f => let acc' := n mod radix :: acc in if n <? radix then acc' else radix_digits radix f (n / radix) acc'
  end.
(** [{:x}]. *)
Definition show_x (n : Z) : str := hex_digit <$> radix_digits 16 (S (Z.to_nat (Z.log2 n))) n [].

Record is_radix (radix n : Z) (ds : list Z) : Prop := {
  radix_nonempty : ds <> [];
  radix_range : Forall (fun d => 0 <= d < radix) ds;
  radix_value : Parse.value_of radix ds = n;
  radix_length : forall w, n < radix ^ Z.of_nat w -> (0 < w)%nat -> (length ds <= w)%nat;
  radix_head : head ds = Some 0 -> ds = [0];
}.

Lemma value_of_snoc radix ds d : Parse.value_of radix (ds ++ [d]) = Parse.value_of radix ds * radix + d.
Proof. unfold Parse.value_of. by rewrite foldl_app. Qed.

Lemma pow_of_nat_succ b (f : nat) : b ^ Z.of_nat (S f) = b * b ^ Z.of_nat f.
Proof. rewrite Nat2Z.inj_succ, Z.pow_succ_r by lia. done. Qed.

Section Radix.
Context (radix : Z) (Hradix : 2 <= radix).

Lemma is_radix_single n : 0 <= n < radix -> is_radix radix n [n].
Proof.
  intros Hn. split.
  - done.
  - by apply Forall_singleton.
  - done.
  - intros w _ Hw. simpl. lia.
  - by intros [= ->].
Qed.

Lemma is_radix_snoc q r ds : 0 < q -> 0 <= r < radix -> is_radix radix q ds -> is_radix radix (radix * q + r) (ds ++ [r]).
Proof.
  intros Hq Hr [Hne Hds Hv Hb Hh]. split.
  - by destruct ds.
  - apply Forall_app. split; [done|by apply Forall_singleton].
  - rewrite value_of_snoc, Hv. lia.
  - intros [|w] Hlt Hw; [lia|]. rewrite pow_of_nat_succ in Hlt. rewrite length_app. simpl.
    destruct w as [|w]; [simpl in Hlt; nia|]. specialize (Hb (S w)). nia.
  - intros H0. destruct ds as [|d ds]; [done|]. injection H0 as ->. specialize (Hh eq_refl) as [= ->].
    unfold Parse.value_of in Hv. simpl in Hv. lia.
Qed.

Lemma radix_digits_spec f n acc : 0 <= n < radix ^ Z.of_nat f -> (0 < f)%nat ->
  exists ds, radix_digits radix f n acc = ds ++ acc /\ is_radix radix n ds.
Proof.
  revert n acc. induction f as [|f IH]; intros n acc Hn Hf; [lia|]. cbn [radix_digits].
  destruct (n <? radix) eqn:E; bool_simp.
  - exists [n]. rewrite Z.mod_small by lia. split; [done|]. apply is_radix_single. lia.
  - rewrite pow_of_nat_succ in Hn. destruct f as [|f]; [simpl in Hn; lia|].
    destruct (IH (n / radix) (n mod radix :: acc)) as (ds & Hds & Hnum); [|lia|].
    { split; [apply Z.div_pos; lia|]. apply Z.div_lt_upper_bound; lia. }
    exists (ds ++ [n mod radix]). rewrite Hds, <- app_assoc. split; [done|].
    rewrite (Z.div_mod n radix) at 1 by lia. apply is_radix_snoc; [|by apply Z.mod_pos_bound; lia|done].
    assert (radix / radix <= n / radix) by (apply Z.div_le_mono; lia). rewrite Z.div_same in * by lia. lia.
Qed.

Lemma log2_fuel n : 0 <= n -> 0 <= n < radix ^ Z.of_nat (S (Z.to_nat (Z.log2 n))).
Proof.
  intros Hn. split; [done|]. rewrite pow_of_nat_succ, Z2Nat.id by apply Z.log2_nonneg.
  destruct (decide (n = 0)) as [->|]; [simpl; lia|].
  assert (n < 2 ^ Z.succ (Z.log2 n)) by (apply Z.log2_spec; lia). rewrite Z.pow_succ_r in * by apply Z.log2_nonneg.
  assert (2 ^ Z.log2 n <= radix ^ Z.log2 n) by (apply Z.pow_le_mono_l; lia). nia.
Qed.
End Radix.

Lemma show_x_numeral n : 0 <= n -> exists ds, show_x n = hex_digit <$> ds /\ is_radix 16 n ds.
Proof.
  intros Hn. destruct (radix_digits_spec 16 ltac:(lia) _ n [] (log2_fuel 16 ltac:(lia) n Hn)) as (ds & E & H); [lia|].
  exists ds. unfold show_x. by rewrite E, app_nil_r.
Qed.

(** The decimal numerals of the prelude are the same digits. *)
Lemma digits_acc_radix f n acc : digits_acc f n ((fun d => 48 + d) <$> acc) = (fun d => 48 + d) <$> radix_digits 10 f n acc.
Proof.
  revert n acc. induction f as [|f IH]; intros n acc; [done|]. cbn [digits_acc radix_digits].
  destruct (n <? 10); [done|]. by rewrite <- IH.
Qed.

Lemma show_u_radix n : 0 <= n -> exists ds, show_u n = (fun d => 48 + d) <$> ds /\ is_radix 10 n ds.
Proof.
  intros Hn. destruct (radix_digits_spec 10 ltac:(lia) _ n [] (log2_fuel 10 ltac:(lia) n Hn)) as (ds & E & H); [lia|].
  exists ds. unfold show_u. rewrite (digits_acc_radix _ n []). by rewrite E, app_nil_r.
Qed.

(** ** Display *)

Definition show_v4 (a : Ipv4Addr) : str :=
  show_u (o0 a) ++ 46 :: show_u (o1 a) ++ 46 :: show_u (o2 a) ++ 46 :: show_u (o3 a).

(** [to_ipv4_mapped]. *)
Definition to_ipv4_mapped (a : Ipv6Addr) : option Ipv4Addr :=
  if (s0 a =? 0) && (s1 a =? 0) && (s2 a =? 0) && (s3 a =? 0) && (s4 a =? 0) && (s5 a =? 65535)
  then Some (V6.v4_of_segments (s6 a) (s7 a)) else None.

(** The loop that finds the longest run of zero segments, the first of several. *)
Record Span := mkSpan { start : nat; len : nat }.
Fixpoint scan (i : nat) (segs : list Z) (current longest : Span) : Span :=
  match segs with
  | [] => longest
  | s :: segs =>
      if s =? 0 then
        let current := mkSpan (if (len current =? 0)%nat then i else start current) (S (len current)) in
        scan (S i) segs current (if (len longest <? len current)%nat then current else longest)
      else scan (S i) segs (mkSpan 0 0) longest
  end.
Definition zeroes (segs : list Z) : Span := scan 0 segs (mkSpan 0 0) (mkSpan 0 0).

Definition fmt_subslice (chunk : list Z) : str := join [58] (show_x <$> chunk).
Definition show_v6 (a : Ipv6Addr) : str :=
  match to_ipv4_mapped a with
  | Some v4 => lit "::ffff:" ++ show_v4 v4
  | None =>
      let segs := segments a in
      let z := zeroes segs in
      if (1 <? len z)%nat then fmt_subslice (take (start z) segs) ++ [58; 58] ++ fmt_subslice (drop (start z + len z) segs)
      else fmt_subslice segs
  end.
Definition show_ip (ip : IpAddr) : str := match ip with V4 a => show_v4 a | V6 a => show_v6 a end.

(** [ip_key]: the bucket of a client. *)
Definition ip_key (ip : IpAddr) : str := show_ip ip.

Example show_ip_examples :
  show_ip (V4 (mkV4 192 168 0 1)) = lit "192.168.0.1"
  /\ show_ip (V6 (mkV6 0 0 0 0 0 0 0 0)) = lit "::"
  /\ show_ip (V6 (mkV6 0 0 0 0 0 0 0 1)) = lit "::1"
  /\ show_ip (V6 (mkV6 0x2001 0xdb8 0 0 1 0 0 1)) = lit "2001:db8::1:0:0:1"
  /\ show_ip (V6 (mkV6 1 0 2 0 3 0 4 0)) = lit "1:0:2:0:3:0:4:0"
  /\ show_ip (V6 (mkV6 1 0 0 2 3 0 0 0)) = lit "1:0:0:2:3::"
  /\ show_ip (V6 (mkV6 0 0 0 0 0 0xffff 0x0a00 1)) = lit "::ffff:10.0.0.1".
Proof. vm_compute. auto 10. Qed.

(** ** Reading numerals back *)

(** The text goes on with something that is not a digit. *)
Definition stops (digit : char -> option Z) (rest : str) : Prop :=
  match rest with [] => True | c :: _ => digit c = None end.

Lemma take_digits_render digit render ds rest :
  Forall (fun d => digit (render d) = Some d) ds -> stops digit rest ->
  Parse.take_digits digit ((render <$> ds) ++ rest) = (ds, rest).
Proof.
  intros Hds Hs. induction Hds as [|d ds Hd _ IH].
  - destruct rest as [|c rest]; cbn in *; [done|]. by rewrite Hs.
  - cbn [fmap list_fmap app Parse.take_digits]. by rewrite Hd, IH.
Qed.

Lemma read_number_render radix digit render m z hi n ds rest :
  is_radix radix n ds -> (forall d, 0 <= d < radix -> digit (render d) = Some d) -> stops digit rest ->
  n <= hi -> (length ds <= m)%nat ->
  Parse.read_number radix digit m z hi ((render <$> ds) ++ rest) = Some (n, rest).
Proof.
  intros [Hne Hrg Hv _ Hh] Hd Hs Hhi Hm. unfold Parse.read_number.
  rewrite take_digits_render; [|by eapply Forall_impl|done].
  rewrite bool_decide_eq_false_2 by done. rewrite (proj2 (Nat.ltb_ge _ _)) by done.
  rewrite Hv, (proj2 (Z.ltb_ge _ _)) by done.
  destruct (bool_decide (head ds = Some 0)) eqn:E; [|by rewrite andb_false_r].
  apply bool_decide_eq_true in E. rewrite (Hh E). cbn. by rewrite andb_false_r.
Qed.

Lemma read_octet_show n rest : 0 <= n <= u8_max -> stops digit_val rest -> Parse.read_octet (show_u n ++ rest) = Some (n, rest).
Proof.
  intros Hn Hs. destruct (show_u_radix n) as (ds & -> & Hds); [lia|]. unfold u8_max in *.
  apply (read_number_render 10); [done|apply digit_val_digit|done|unfold u8_max; lia|].
  apply (radix_length _ _ _ Hds 3); simpl; lia.
Qed.

Lemma read_group_show n rest : 0 <= n <= u16_max -> stops hex_val rest -> Parse.read_group (show_x n ++ rest) = Some (n, rest).
Proof.
  intros Hn Hs. destruct (show_x_numeral n) as (ds & -> & Hds); [lia|]. unfold u16_max in *.
  apply (read_number_render 16); [done|apply hex_val_digit|done|unfold u16_max; lia|].
  apply (radix_length _ _ _ Hds 4); simpl; lia.
Qed.

Lemma read_ipv4_show a rest : wf4 a -> stops digit_val rest -> Parse.read_ipv4_addr (show_v4 a ++ rest) = Some (a, rest).
Proof.
  intros (H0 & H1 & H2 & H3) Hs. destruct a as [a b c d]. cbn [o0 o1 o2 o3] in *. unfold Parse.read_ipv4_addr, show_v4.
  cbn [o0 o1 o2 o3]. rewrite <- !app_assoc. cbn [app Parse.read_separator]. rewrite read_octet_show by done.
  cbn [mbind option_bind Parse.read_separator Parse.read_given_char]. change (46 =? 46) with true. cbn [mbind option_bind].
  rewrite <- app_assoc. cbn [app]. rewrite read_octet_show by done.
  cbn [mbind option_bind Parse.read_separator Parse.read_given_char]. change (46 =? 46) with true. cbn [mbind option_bind].
  rewrite <- app_assoc. cbn [app]. rewrite read_octet_show by done.
  cbn [mbind option_bind Parse.read_separator Parse.read_given_char]. change (46 =? 46) with true. cbn [mbind option_bind].
  by rewrite read_octet_show.
Qed.

(** ** Where no IPv4 address can be read *)

(** Digits and letters, then something that is not a dot. *)
Definition no_dot (s : str) : Prop := head (drop_while is_ascii_digit s) <> Some 46.

Lemma take_digits_rest s : (Parse.take_digits digit_val s).2 = drop_while is_ascii_digit s.
Proof.
  induction s as [|c s IH]; [done|]. cbn [Parse.take_digits drop_while]. unfold digit_val at 1.
  destruct (is_ascii_digit c); [|done]. by destruct (Parse.take_digits digit_val s).
Qed.

Lemma read_octet_rest s n rest : Parse.read_octet s = Some (n, rest) -> rest = drop_while is_ascii_digit s.
Proof.
  unfold Parse.read_octet, Parse.read_number. rewrite <- take_digits_rest.
  destruct (Parse.take_digits digit_val s) as [ds r]. intros H. repeat (case_match; try done). by simplify_eq.
Qed.

Lemma read_ipv4_no_dot s : no_dot s -> Parse.read_ipv4_addr s = None.
Proof.
  unfold no_dot. intros Hd. unfold Parse.read_ipv4_addr. cbn [Parse.read_separator].
  destruct (Parse.read_octet s) as [[n rest]|] eqn:E; [|done]. apply read_octet_rest in E. rewrite <- E in Hd.
  destruct rest as [|c r]; [done|]. cbn [mbind option_bind Parse.read_given_char].
  destruct (c =? 46) eqn:Ec; [apply Z.eqb_eq in Ec; by subst c|done].
Qed.

Lemma hex_digit_not d c : 0 <= d < 16 -> c < 48 \/ 57 < c < 97 -> hex_digit d <> c.
Proof. unfold hex_digit. intros Hd Hc. destruct (d <? 10) eqn:E; bool_simp; lia. Qed.

Lemma hex_no_dot ds rest : Forall (fun d => 0 <= d < 16) ds -> (forall c, head rest = Some c -> c = 58) ->
  no_dot ((hex_digit <$> ds) ++ rest).
Proof.
  intros Hds Hr. unfold no_dot. induction Hds as [|d ds Hd _ IH].
  - destruct rest as [|c rest]; [done|]. rewrite (Hr c eq_refl). done.
  - cbn [fmap list_fmap app drop_while]. destruct (is_ascii_digit (hex_digit d)); [done|]. cbn.
    intros [= E]. revert E. apply hex_digit_not; lia.
Qed.

(** The text ends or goes on with a colon. *)
Definition colon_or_end (rest : str) : Prop := rest = [] \/ exists t, rest = 58 :: t.

Lemma colon_or_end_stops rest : colon_or_end rest -> stops hex_val rest.
Proof. by intros [->|[t ->]]. Qed.

Lemma show_x_no_dot n rest : 0 <= n -> colon_or_end rest -> no_dot (show_x n ++ rest).
Proof.
  intros Hn Hr. destruct (show_x_numeral n Hn) as (ds & -> & Hds). apply hex_no_dot; [apply Hds|].
  intros c. destruct Hr as [->|[t ->]]; [done|]. by intros [= <-].
Qed.

(** ** Reading groups back *)

(** Groups from index [i] on: a colon before each but the first of all. *)
Fixpoint groups_text (i : nat) (gs : list Z) : str :=
  match gs with
  | [] => []
  | g :: gs => match i with O => show_x g | S _ => 58 :: show_x g end ++ groups_text (S i) gs
  end.

Lemma fmt_subslice_text gs : fmt_subslice gs = groups_text 0 gs.
Proof.
  unfold fmt_subslice. destruct gs as [|g gs]; [done|]. cbn [groups_text].
  assert (H : forall g i, join [58] (show_x <$> g :: gs) = show_x g ++ groups_text (S i) gs); [|apply H].
  clear g. induction gs as [|g' gs IH]; intros g i; [cbn; by rewrite app_nil_r|].
  change (join [58] (show_x <$> g :: g' :: gs)) with (show_x g ++ [58] ++ join [58] (show_x <$> g' :: gs)).
  by rewrite (IH g' (S i)).
Qed.

(** Where a list of groups ends: at the end of the text or at a double colon. *)
Definition groups_end (rest : str) : Prop := rest = [] \/ exists t, rest = 58 :: 58 :: t.

Lemma read_separator_end {A} i (inner : Parse.reader A) rest :
  groups_end rest -> inner [] = None -> (forall t, inner (58 :: t) = None) -> Parse.read_separator 58 i inner rest = None.
Proof. intros [->|[t ->]] H0 H1; destruct i; cbn; done. Qed.

Lemma read_separator_text {A} i (inner : Parse.reader A) g t :
  Parse.read_separator 58 i inner ((match i with O => show_x g | S _ => 58 :: show_x g end ++ t)) = inner (show_x g ++ t).
Proof. by destruct i. Qed.

Lemma groups_text_colon i gs rest : groups_end rest -> colon_or_end (groups_text (S i) gs ++ rest).
Proof.
  intros Hr. destruct gs as [|g gs]; [|right; eexists; reflexivity].
  destruct Hr as [->|[t ->]]; [by left|right; by eexists].
Qed.

Lemma read_groups_show n i gs rest : is_u16_list gs -> (length gs <= n)%nat -> groups_end rest ->
  Parse.read_groups n i (groups_text i gs ++ rest) = (gs, false, rest).
Proof.
  intros Hgs. revert n i. induction Hgs as [|g gs Hg _ IH]; intros n i Hn Hr.
  - destruct n as [|n]; [done|]. cbn [Parse.read_groups groups_text app].
    rewrite !read_separator_end by done. by destruct (0 <? n)%nat.
  - destruct n as [|n]; cbn [length] in Hn; [lia|]. cbn [Parse.read_groups groups_text]. rewrite <- app_assoc.
    rewrite !read_separator_text. pose proof (groups_text_colon i gs rest Hr) as Hc.
    rewrite read_ipv4_no_dot by (apply show_x_no_dot; [lia|done]).
    rewrite read_group_show by (done || by apply colon_or_end_stops).
    rewrite IH by (done || lia). by destruct (0 <? n)%nat.
Qed.

(** ** The run of zeroes *)

Definition zero_span (l : list Z) (z : Span) : Prop := forall k, (start z <= k < start z + len z)%nat -> l !! k = Some 0.

Lemma zero_span_app l r z : zero_span l z -> zero_span (l ++ r) z.
Proof. intros H k Hk. apply lookup_app_l_Some. by apply H. Qed.

Lemma zero_span_end l z : zero_span l z -> (0 < len z)%nat -> (start z + len z <= length l)%nat.
Proof.
  intros H Hl. destruct (decide (start z + len z <= length l)%nat) as [|Hn]; [done|].
  specialize (H (start z + len z - 1)%nat ltac:(lia)). apply lookup_lt_Some in H. lia.
Qed.

(** While the loop runs: [current] is the whole run of zeroes that ends here,
    [longest] a run of zeroes, and none seen is longer. *)
Record scanned (l : list Z) (current longest : Span) : Prop := {
  sc_current : zero_span l current;
  sc_current_end : (0 < len current)%nat -> (start current + len current = length l)%nat;
  sc_current_max : forall z, zero_span l z -> (start z + len z = length l)%nat -> (len z <= len current)%nat;
  sc_longest : zero_span l longest;
  sc_longest_max : forall z, zero_span l z -> (len z <= len longest)%nat;
}.

Lemma zero_span_snoc_inv l x z : zero_span (l ++ [x]) z -> (0 < len z)%nat ->
  (start z + len z <= length l)%nat /\ zero_span l z
  \/ x = 0 /\ (start z + len z = S (length l))%nat /\ zero_span l (mkSpan (start z) (len z - 1)).
Proof.
  intros Hz Hl. pose proof (zero_span_end _ _ Hz Hl) as He. rewrite length_app in He. cbn [length] in He.
  destruct (decide (start z + len z <= length l)%nat) as [Hle|Hgt].
  - left. split; [done|]. intros k Hk. specialize (Hz k Hk). rewrite lookup_app_l in Hz by lia. done.
  - right. split_and!; [|lia|].
    + specialize (Hz (length l) ltac:(lia)). rewrite lookup_app_r, Nat.sub_diag in Hz by lia. by injection Hz.
    + intros k Hk. cbn [start len] in Hk. specialize (Hz k ltac:(lia)). rewrite lookup_app_l in Hz by lia. done.
Qed.

Lemma scanned_zero l current longest : scanned l current longest ->
  let current' := mkSpan (if (len current =? 0)%nat then length l else start current) (S (len current)) in
  scanned (l ++ [0]) current' (if (len longest <? len current')%nat then current' else longest).
Proof.
  intros [Hc He Hcm Hl Hlm] current'.
  assert (Hend : (start current' + len current' = S (length l))%nat).
  { unfold current'. cbn [start len]. destruct (len current =? 0)%nat eqn:E; [apply Nat.eqb_eq in E; lia|].
    apply Nat.eqb_neq in E. specialize (He ltac:(lia)). lia. }
  assert (Hz : zero_span (l ++ [0]) current').
  { intros k Hk. destruct (decide (k = length l)) as [->|Hne]; [by rewrite lookup_app_r, Nat.sub_diag|].
    rewrite lookup_app_l by lia. apply Hc. unfold current' in *. cbn [start len] in *.
    destruct (len current =? 0)%nat eqn:E; [apply Nat.eqb_eq in E; lia|]. lia. }
  assert (Hm : forall z, zero_span (l ++ [0]) z -> (len z <= len longest)%nat
    \/ (start z + len z = S (length l) /\ len z <= len current')%nat).
  { intros z Hs. destruct (decide (len z = 0)%nat) as [->|Hn0]; [left; lia|].
    destruct (zero_span_snoc_inv _ _ _ Hs) as [[_ H]|(_ & H1 & H2)]; [lia|left; by apply Hlm|right]. split; [done|].
    specialize (Hcm _ H2). cbn [start len current'] in *. lia. }
  split; rewrite ?length_app; cbn [length].
  - done.
  - lia.
  - intros z Hs Hz'. destruct (decide (len z = 0)%nat) as [->|Hn0]; [lia|].
    destruct (zero_span_snoc_inv _ _ _ Hs) as [[? _]|(_ & H1 & H2)]; [lia|lia|]. specialize (Hcm _ H2).
    cbn [start len current'] in *. lia.
  - destruct (_ <? _)%nat; [done|by apply zero_span_app].
  - intros z Hs. destruct (len longest <? len current')%nat eqn:E; [apply Nat.ltb_lt in E|apply Nat.ltb_ge in E];
      destruct (Hm z Hs) as [?|[_ ?]]; lia.
Qed.

Lemma scanned_nonzero l x current longest : x <> 0 -> scanned l current longest -> scanned (l ++ [x]) (mkSpan 0 0) longest.
Proof.
  intros Hx [_ _ _ Hl Hlm].
  assert (Hinv : forall z, zero_span (l ++ [x]) z -> (0 < len z)%nat -> (start z + len z <= length l)%nat /\ zero_span l z).
  { intros z Hs Hp. destruct (zero_span_snoc_inv _ _ _ Hs Hp) as [?|[? _]]; [done|lia]. }
  split; rewrite ?length_app; cbn [length start len]; try (intros; lia).
  - intros k Hk. cbn in Hk. lia.
  - intros z Hs Hz. destruct (decide (len z = 0)%nat) as [->|Hn0]; [lia|]. destruct (Hinv z Hs); lia.
  - by apply zero_span_app.
  - intros z Hs. destruct (decide (len z = 0)%nat) as [->|Hn0]; [lia|]. destruct (Hinv z Hs) as [_ ?]; [lia|]. by apply Hlm.
Qed.

Lemma zero_scan_spec r l current longest : scanned l current longest ->
  exists current', scanned (l ++ r) current' (scan (length l) r current longest).
Proof.
  revert l current longest. induction r as [|x r IH]; intros l current longest Hs; [exists current; by rewrite app_nil_r|].
  cbn [scan]. rewrite cons_middle, app_assoc.
  replace (S (length l)) with (length (l ++ [x])) by (rewrite length_app; simpl; lia).
  destruct (x =? 0) eqn:E; [apply Z.eqb_eq in E; subst x|apply Z.eqb_neq in E]; apply IH.
  - by apply scanned_zero.
  - by eapply scanned_nonzero.
Qed.

(** The span found is one of zeroes, and no run of zeroes is longer. *)
Lemma zeroes_longest segs : zero_span segs (zeroes segs) /\ forall z, zero_span segs z -> (len z <= len (zeroes segs))%nat.
Proof.
  destruct (zero_scan_spec segs [] (mkSpan 0 0) (mkSpan 0 0)) as [c Hs].
  - split; cbn [start len length]; try (intros; lia); try (intros k Hk; cbn in Hk; lia).
    intros z Hz. destruct (decide (len z = 0)%nat) as [->|Hn]; [lia|]. apply zero_span_end in Hz; [|lia]. cbn in Hz. lia.
  - cbn [app length] in Hs. split; apply Hs.
Qed.

(** ** Addresses read back *)

Lemma groups_no_dot gs rest : is_u16_list gs -> groups_end rest -> no_dot (groups_text 0 gs ++ rest).
Proof.
  intros Hgs Hr. destruct gs as [|g gs]; [by destruct Hr as [->|[t ->]]|]. apply Forall_cons in Hgs as [Hg _].
  cbn [groups_text]. rewrite <- app_assoc. apply show_x_no_dot; [lia|by apply groups_text_colon].
Qed.

Lemma segments_u16 a : wf6 a -> is_u16_list (segments a).
Proof. unfold wf6, is_u16_list, segments. intros H. rewrite !Forall_cons, Forall_nil. tauto. Qed.

Lemma v6_of_segments a : Parse.v6_of_groups (segments a) = Some a.
Proof. by destruct a. Qed.

(** The two halves around a run of zeroes make up the segments. *)
Lemma zero_span_split (l : list Z) z : zero_span l z -> (0 < len z)%nat ->
  l = take (start z) l ++ replicate (length l - length (take (start z) l) - length (drop (start z + len z) l)) 0
      ++ drop (start z + len z) l.
Proof.
  intros Hz Hl. pose proof (zero_span_end _ _ Hz Hl) as He. rewrite length_take, length_drop.
  replace (length l - _ - _)%nat with (len z) by lia.
  rewrite <- (take_drop (start z) l) at 1. f_equal. rewrite <- (take_drop (len z) (drop (start z) l)), drop_drop. f_equal.
  apply list_eq. intros k. destruct (decide (k < len z)%nat) as [Hk|Hk].
  - rewrite lookup_take_lt, lookup_drop, lookup_replicate_2 by lia. apply Hz. lia.
  - rewrite (lookup_ge_None_2 (replicate _ _)) by (rewrite length_replicate; lia).
    apply lookup_ge_None_2. rewrite length_take, length_drop. lia.
Qed.

Lemma mapped_wf4 ab cd : 0 <= ab <= u16_max -> 0 <= cd <= u16_max -> wf4 (V6.v4_of_segments ab cd).
Proof.
  unfold wf4, V6.v4_of_segments, V6.hi_byte, V6.lo_byte, u8_max, u16_max. cbn [o0 o1 o2 o3]. intros Ha Hc.
  pose proof (Z.mod_pos_bound ab 256). pose proof (Z.mod_pos_bound cd 256).
  split_and!; try lia; try (apply Z.div_pos; lia); apply Z.lt_succ_r, Z.div_lt_upper_bound; lia.
Qed.

Lemma read_ipv6_mapped v4 : wf4 v4 ->
  Parse.read_ipv6_addr (lit "::ffff:" ++ show_v4 v4)
  = Some (mkV6 0 0 0 0 0 65535 (o0 v4 * 256 + o1 v4) (o2 v4 * 256 + o3 v4), []).
Proof.
  intros Hw. unfold Parse.read_ipv6_addr.
  change (lit "::ffff:" ++ show_v4 v4) with (groups_text 0 [] ++ 58 :: 58 :: show_x 65535 ++ 58 :: show_v4 v4).
  rewrite read_groups_show; [|constructor|simpl; lia|right; by eexists].
  cbn [length Nat.eqb Parse.read_given_char Z.eqb Pos.eqb mbind option_bind Nat.sub Nat.add].
  cbn [Parse.read_groups Nat.ltb Nat.leb Parse.read_separator].
  rewrite read_ipv4_no_dot by (apply show_x_no_dot; [lia|right; by eexists]).
  rewrite read_group_show by (done || unfold u16_max; lia).
  cbn [Parse.read_given_char Z.eqb Pos.eqb mbind option_bind].
  rewrite <- (app_nil_r (show_v4 v4)), read_ipv4_show by done. done.
Qed.

Lemma read_ipv6_show a : wf6 a -> Parse.read_ipv6_addr (show_v6 a) = Some (a, []) /\ no_dot (show_v6 a).
Proof.
  intros Hw. unfold show_v6. destruct (to_ipv4_mapped a) as [v4|] eqn:Em.
  { unfold to_ipv4_mapped in Em. destruct (_ && _) eqn:E in Em; [|done]. injection Em as <-. bool_simp.
    destruct a as [a0 a1 a2 a3 a4 a5 a6 a7]. unfold wf6, u16_max in Hw. cbn [s0 s1 s2 s3 s4 s5 s6 s7] in *. subst.
    split; [|done]. rewrite read_ipv6_mapped.
    - unfold V6.v4_of_segments, V6.hi_byte, V6.lo_byte. cbn [o0 o1 o2 o3]. pose proof (Z.div_mod a6 256 ltac:(lia)). pose proof (Z.div_mod a7 256 ltac:(lia)).
      do 3 f_equal; lia.
    - apply mapped_wf4; unfold u16_max; lia. }
  pose proof (segments_u16 a Hw) as Hs. assert (Hlen : length (segments a) = 8%nat) by done.
  pose proof (proj1 (zeroes_longest (segments a))) as Hz. revert Hz. generalize (zeroes (segments a)). intros z Hz.
  destruct (1 <? len z)%nat eqn:E; [apply Nat.ltb_lt in E|]; rewrite !fmt_subslice_text.
  - pose proof (zero_span_end _ _ Hz ltac:(lia)) as He. rewrite Hlen in He.
    pose proof (zero_span_split _ _ Hz ltac:(lia)) as Hsplit. rewrite Hlen in Hsplit.
    assert (Ht : is_u16_list (take (start z) (segments a))) by (by apply Forall_take).
    assert (Hd : is_u16_list (drop (start z + len z) (segments a))) by (by apply Forall_drop).
    assert (Hge : forall t, groups_end ([58; 58] ++ t)) by (intros t; right; by eexists).
    split; [|by apply groups_no_dot]. unfold Parse.read_ipv6_addr.
    rewrite read_groups_show; [|done|rewrite length_take; lia|done].
    rewrite (proj2 (Nat.eqb_neq _ _)) by (rewrite length_take; lia).
    cbn [app Parse.read_given_char Z.eqb Pos.eqb mbind option_bind].
    rewrite <- (app_nil_r (groups_text 0 (drop _ _))).
    rewrite read_groups_show; [|done|rewrite length_drop, length_take; lia|by left].
    by rewrite <- Hsplit, v6_of_segments.
  - rewrite <- (app_nil_r (groups_text 0 _)). split; [|apply groups_no_dot; [done|by left]].
    unfold Parse.read_ipv6_addr. rewrite read_groups_show; [|done|lia|by left]. by rewrite Hlen, v6_of_segments.
Qed.

(** Reading what [Display] writes. *)
Lemma parse_show_ip ip : wf_ip ip -> Parse.parse_ip (show_ip ip) = Some ip.
Proof.
  intros Hw. unfold Parse.parse_ip, Parse.read_ip_addr. destruct ip as [a|a]; cbn [show_ip wf_ip] in *.
  - rewrite <- (app_nil_r (show_v4 a)), read_ipv4_show by done. done.
  - destruct (read_ipv6_show a Hw) as [Hr Hd]. by rewrite read_ipv4_no_dot, Hr.
Qed.

(** ** The characters of an address *)

Definition address_char (c : char) : Prop := in_range 48 57 c = true \/ in_range 97 102 c = true \/ c = 46 \/ c = 58.
Definition address_text (s : str) : Prop := Forall address_char s.

Lemma show_u_text n : 0 <= n -> address_text (show_u n).
Proof.
  intros Hn. destruct (show_u_numeral n Hn) as [_ H _ _]. eapply Forall_impl; [exact H|]. intros c Hc. by left.
Qed.

Lemma show_x_text n : 0 <= n -> address_text (show_x n).
Proof.
  intros Hn. destruct (show_x_numeral n Hn) as (ds & -> & Hds). apply Forall_fmap.
  eapply Forall_impl; [apply Hds|]. intros d Hd. cbn beta in Hd. unfold compose, address_char, hex_digit. destruct (d <? 10) eqn:E; bool_simp.
  - left. apply in_range_spec. lia.
  - right; left. apply in_range_spec. lia.
Qed.

Lemma address_text_app a b : address_text (a ++ b) <-> address_text a /\ address_text b.
Proof. apply Forall_app. Qed.
Lemma address_text_cons c b : c = 46 \/ c = 58 -> address_text b -> address_text (c :: b).
Proof. intros Hc Hb. constructor; [|done]. unfold address_char. tauto. Qed.

Lemma show_v4_text a : wf4 a -> address_text (show_v4 a).
Proof.
  intros (H0 & H1 & H2 & H3). unfold show_v4.
  do 3 (apply address_text_app; split; [apply show_u_text; lia|]; apply address_text_cons; [auto|]). apply show_u_text. lia.
Qed.

Lemma groups_text_chars i gs : is_u16_list gs -> address_text (groups_text i gs).
Proof.
  intros Hgs. revert i. induction Hgs as [|g gs Hg _ IH]; intros i; [constructor|]. cbn [groups_text].
  apply address_text_app. split; [|apply IH]. destruct i; [apply show_x_text; lia|].
  apply address_text_cons; [auto|]. apply show_x_text. lia.
Qed.

Lemma show_ip_text ip : wf_ip ip -> address_text (show_ip ip).
Proof.
  destruct ip as [a|a]; cbn [show_ip wf_ip]; [apply show_v4_text|]. intros Hw. unfold show_v6.
  destruct (to_ipv4_mapped a) as [v4|] eqn:Em.
  - unfold to_ipv4_mapped in Em. destruct (_ && _) in Em; [|done]. injection Em as <-. apply address_text_app. split.
    + apply (bool_decide_unpack _). vm_compute. exact I.
    + apply show_v4_text. apply mapped_wf4; unfold wf6 in Hw; tauto.
  - pose proof (segments_u16 a Hw) as Hs. destruct (_ <? _)%nat; rewrite !fmt_subslice_text.
    + apply address_text_app. split; [apply groups_text_chars, Forall_take, Hs|].
      do 2 (apply address_text_cons; [auto|]). apply groups_text_chars, Forall_drop, Hs.
    + apply groups_text_chars, Hs.
Qed.

Lemma ip_key_inj ip ip' : wf_ip ip -> wf_ip ip' -> ip_key ip = ip_key ip' -> ip = ip'.
Proof.
  intros H1 H2 E. unfold ip_key in E. pose proof (parse_show_ip ip H1) as P1. rewrite E, (parse_show_ip ip' H2) in P1.
  by injection P1.
Qed.

Module Demo.
Definition doc6 : IpAddr := V6 (mkV6 0x2001 0xdb8 0 0 1 0 0 1).
End Demo.

(** ** Properties *)

(** A rate-limit key names one client.  The key of an address is its
    canonical text: reading it with the parser of the forwarded-for header
    gives the address back, IPv4, IPv6 with its run of zeroes elided, and
    IPv4-mapped alike, and two addresses with one key are the same. *)
Theorem ip_key_round_trip ip :
  wf_ip ip -> Parse.parse_ip (ip_key ip) = Some ip /\ (forall ip', wf_ip ip' -> ip_key ip = ip_key ip' -> ip = ip').
Proof. intros Hw. split; [by apply parse_show_ip|]. intros ip' Hw'. by apply ip_key_inj. Qed.

Lemma ip_key_round_trip_witness :
  ip_key Demo.doc6 = lit "2001:db8::1:0:0:1" /\ Parse.parse_ip (lit "2001:db8::1:0:0:1") = Some Demo.doc6.
Proof. split; [vm_compute; reflexivity|]. apply (ip_key_round_trip Demo.doc6). vm_compute. intuition discriminate. Defined.
