(* ===== verification/Errors.v ===== *)
(** * API errors ([crates/errors/src/error.rs], [error_code.rs])

    The error type every service returns, its helper constructors and the
    status, code and message it renders.  The wrapped database and internal
    errors are strings (their [Display] text). *)

From S2P Require Import Prelude RustStr Json.

Module error_code.
Definition AUTH_INVALID_CREDENTIALS : str := lit "AUTH_INVALID_CREDENTIALS".
Definition AUTH_EMAIL_NOT_VERIFIED : str := lit "AUTH_EMAIL_NOT_VERIFIED".
Definition AUTH_VERIFICATION_CODE_INVALID : str := lit "AUTH_VERIFICATION_CODE_INVALID".
Definition AUTH_VERIFICATION_CODE_EXPIRED : str := lit "AUTH_VERIFICATION_CODE_EXPIRED".
Definition AUTH_VERIFICATION_TOO_MANY_ATTEMPTS : str := lit "AUTH_VERIFICATION_TOO_MANY_ATTEMPTS".
Definition AUTH_SESSION_EXPIRED : str := lit "AUTH_SESSION_EXPIRED".
Definition AUTH_UNAUTHORIZED : str := lit "AUTH_UNAUTHORIZED".
Definition AUTH_FORBIDDEN : str := lit "AUTH_FORBIDDEN".
Definition AUTH_EMAIL_ALREADY_VERIFIED : str := lit "AUTH_EMAIL_ALREADY_VERIFIED".
Definition AUTH_PASSWORD_RESET_TOKEN_INVALID : str := lit "AUTH_PASSWORD_RESET_TOKEN_INVALID".
Definition AUTH_PASSWORD_RESET_TOKEN_EXPIRED : str := lit "AUTH_PASSWORD_RESET_TOKEN_EXPIRED".
Definition AUTH_ACCOUNT_TEMPORARILY_LOCKED : str := lit "AUTH_ACCOUNT_TEMPORARILY_LOCKED".
Definition AUTH_DELETION_TOKEN_INVALID : str := lit "AUTH_DELETION_TOKEN_INVALID".
Definition AUTH_DELETION_TOKEN_EXPIRED : str := lit "AUTH_DELETION_TOKEN_EXPIRED".
Definition USER_EMAIL_TAKEN : str := lit "USER_EMAIL_TAKEN".
Definition USER_NOT_FOUND : str := lit "USER_NOT_FOUND".
Definition USER_INVALID_TIMEZONE : str := lit "USER_INVALID_TIMEZONE".
Definition USER_INVALID_LOCALE : str := lit "USER_INVALID_LOCALE".
Definition USER_PREFERENCES_TOO_LARGE : str := lit "USER_PREFERENCES_TOO_LARGE".
Definition USER_PASSWORD_IN_BREACH_CORPUS : str := lit "USER_PASSWORD_IN_BREACH_CORPUS".
Definition USER_PASSWORD_TOO_WEAK : str := lit "USER_PASSWORD_TOO_WEAK".
Definition ORG_NOT_FOUND : str := lit "ORG_NOT_FOUND".
Definition ORG_SLUG_TAKEN : str := lit "ORG_SLUG_TAKEN".
Definition ORG_MEMBER_ALREADY_EXISTS : str := lit "ORG_MEMBER_ALREADY_EXISTS".
Definition ORG_LAST_OWNER : str := lit "ORG_LAST_OWNER".
Definition ORG_CANNOT_REMOVE_SELF : str := lit "ORG_CANNOT_REMOVE_SELF".
Definition PROJECT_NOT_FOUND : str := lit "PROJECT_NOT_FOUND".
Definition PROJECT_SLUG_TAKEN : str := lit "PROJECT_SLUG_TAKEN".
Definition ISSUE_NOT_FOUND : str := lit "ISSUE_NOT_FOUND".
Definition VAULT_NOT_FOUND : str := lit "VAULT_NOT_FOUND".
Definition VAULT_NAME_TAKEN : str := lit "VAULT_NAME_TAKEN".
Definition SECRET_NOT_FOUND : str := lit "SECRET_NOT_FOUND".
Definition CLUSTER_NOT_FOUND : str := lit "CLUSTER_NOT_FOUND".
Definition CLUSTER_NAME_TAKEN : str := lit "CLUSTER_NAME_TAKEN".
Definition CLUSTER_AUTHORIZATION_DUPLICATE : str := lit "CLUSTER_AUTHORIZATION_DUPLICATE".
Definition CLUSTER_AUTHORIZATION_NOT_FOUND : str := lit "CLUSTER_AUTHORIZATION_NOT_FOUND".
Definition CLUSTER_PERMISSION_UNKNOWN : str := lit "CLUSTER_PERMISSION_UNKNOWN".
Definition INSTALL_NOT_FOUND : str := lit "INSTALL_NOT_FOUND".
Definition INSTALL_NAME_TAKEN : str := lit "INSTALL_NAME_TAKEN".
Definition BILLING_UNSUPPORTED_DEPLOYMENT_MODE : str := lit "BILLING_UNSUPPORTED_DEPLOYMENT_MODE".
Definition ADMIN_STAFF_ONLY : str := lit "ADMIN_STAFF_ONLY".
Definition RATE_LIMIT_EXCEEDED : str := lit "RATE_LIMIT_EXCEEDED".
Definition VALIDATION_FAILED : str := lit "VALIDATION_FAILED".
Definition BAD_REQUEST : str := lit "BAD_REQUEST".
Definition GONE : str := lit "GONE".
Definition PLAN_LIMIT_EXCEEDED : str := lit "PLAN_LIMIT_EXCEEDED".
Definition INTERNAL_DATABASE : str := lit "INTERNAL_DATABASE".
Definition INTERNAL_SERVER_ERROR : str := lit "INTERNAL_SERVER_ERROR".

(** All of them, in the order of the file, and the domains it documents. *)
Definition all_codes : list str :=
  [AUTH_INVALID_CREDENTIALS; AUTH_EMAIL_NOT_VERIFIED; AUTH_VERIFICATION_CODE_INVALID;
   AUTH_VERIFICATION_CODE_EXPIRED; AUTH_VERIFICATION_TOO_MANY_ATTEMPTS; AUTH_SESSION_EXPIRED;
   AUTH_UNAUTHORIZED; AUTH_FORBIDDEN; AUTH_EMAIL_ALREADY_VERIFIED; AUTH_PASSWORD_RESET_TOKEN_INVALID;
   AUTH_PASSWORD_RESET_TOKEN_EXPIRED; AUTH_ACCOUNT_TEMPORARILY_LOCKED; AUTH_DELETION_TOKEN_INVALID;
   AUTH_DELETION_TOKEN_EXPIRED; USER_EMAIL_TAKEN; USER_NOT_FOUND; USER_INVALID_TIMEZONE; USER_INVALID_LOCALE;
   USER_PREFERENCES_TOO_LARGE; USER_PASSWORD_IN_BREACH_CORPUS; USER_PASSWORD_TOO_WEAK; ORG_NOT_FOUND;
   ORG_SLUG_TAKEN; ORG_MEMBER_ALREADY_EXISTS; ORG_LAST_OWNER; ORG_CANNOT_REMOVE_SELF; PROJECT_NOT_FOUND;
   PROJECT_SLUG_TAKEN; ISSUE_NOT_FOUND; VAULT_NOT_FOUND; VAULT_NAME_TAKEN; SECRET_NOT_FOUND;
   CLUSTER_NOT_FOUND; CLUSTER_NAME_TAKEN; CLUSTER_AUTHORIZATION_DUPLICATE; CLUSTER_AUTHORIZATION_NOT_FOUND;
   CLUSTER_PERMISSION_UNKNOWN; INSTALL_NOT_FOUND; INSTALL_NAME_TAKEN; BILLING_UNSUPPORTED_DEPLOYMENT_MODE;
   ADMIN_STAFF_ONLY; RATE_LIMIT_EXCEEDED; VALIDATION_FAILED; BAD_REQUEST; GONE; PLAN_LIMIT_EXCEEDED;
   INTERNAL_DATABASE; INTERNAL_SERVER_ERROR].
Definition domains : list str :=
  [lit "AUTH_"; lit "USER_"; lit "ORG_"; lit "PROJECT_"; lit "ISSUE_"; lit "VAULT_"; lit "CLUSTER_";
   lit "INSTALL_"; lit "BILLING_"; lit "ADMIN_"; lit "RATE_"; lit "VALIDATION_"; lit "INTERNAL_"].
Definition has_domain (code : str) : bool := existsb (fun d => starts_with d code) domains.
Definition screaming_snake (code : str) : bool := forallb (fun c => is_ascii_upper c || (c =? 95)) code.
End error_code.

Inductive ApiError :=
| Database (e : str)
| Internal (e : str)
| Coded (code : str) (status : Z) (message : str)
| BadRequest (msg : str)
| Validation (msg : str)
| RateLimitExceeded
| Unauthorized
| Forbidden (msg : str)
| NotFound (msg : str)
| PlanLimitExceeded (msg : str)
| Gone (msg : str)
| EmailNotVerified.

Definition coded (code : str) (status : Z) (message : str) : ApiError := Coded code status message.
Definition not_found (code message : str) : ApiError := Coded code 404 message.
Definition bad_request (code message : str) : ApiError := Coded code 400 message.
Definition forbidden (code message : str) : ApiError := Coded code 403 message.
Definition conflict (code message : str) : ApiError := Coded code 409 message.
Definition gone (code message : str) : ApiError := Coded code 410 message.

Definition parts (e : ApiError) : Z * str * str :=
  match e with
  | Database _ => (500, error_code.INTERNAL_DATABASE, lit "Database error occurred")
  | Internal _ => (500, error_code.INTERNAL_SERVER_ERROR, lit "Internal server error")
  | Coded code status message => (status, code, message)
  | BadRequest msg => (400, error_code.BAD_REQUEST, msg)
  | Validation msg => (400, error_code.VALIDATION_FAILED, msg)
  | RateLimitExceeded => (429, error_code.RATE_LIMIT_EXCEEDED, lit "Rate limit exceeded")
  | Unauthorized => (401, error_code.AUTH_UNAUTHORIZED, lit "Unauthorized")
  | Forbidden msg => (403, error_code.AUTH_FORBIDDEN, msg)
  | NotFound msg => (404, error_code.BAD_REQUEST, msg)
  | PlanLimitExceeded msg => (403, error_code.PLAN_LIMIT_EXCEEDED, msg)
  | Gone msg => (410, error_code.GONE, msg)
  | EmailNotVerified => (403, error_code.AUTH_EMAIL_NOT_VERIFIED, lit "email_not_verified")
  end.

Definition into_response (e : ApiError) : Z * json :=
  let '(status, code, message) := parts e in
  (status, JObject [(lit "code", JString code); (lit "error", JString message)]).

(** [From<validator::ValidationErrors>]: the rendered validation errors. *)
Definition from_validation_errors (rendered : str) : ApiError := Validation rendered.

(** An error that wraps a failure of this service rather than of the caller. *)
Definition wraps_internal (e : ApiError) : bool :=
  match e with Database _ | Internal _ => true | _ => false end.

(** The codes are pairwise different and in upper case with underscores; the
    documentation says each is prefixed with its domain, which four are not. *)
Theorem error_codes_distinct :
  NoDup error_code.all_codes /\ Forall (fun c => error_code.screaming_snake c = true) error_code.all_codes
  /\ List.filter (fun c => negb (error_code.has_domain c)) error_code.all_codes
     = [error_code.SECRET_NOT_FOUND; error_code.BAD_REQUEST; error_code.GONE; error_code.PLAN_LIMIT_EXCEEDED].
Proof. split_and!; [apply (bool_decide_unpack _); vm_compute; exact I..|vm_compute; reflexivity]. Qed.
