(* ===== verification/Permissions.v ===== *)
(** * Scopes and capabilities ([crates/permissions/src/lib.rs])

    The closed [Scope] enumeration with its wire names, the implication order,
    [ScopeSet] (a hash set of scopes, modelled as a finite set) and every
    operation on it, [AccessDenied], and the [Resource]/[ScopedResource]
    types. *)

From S2P Require Import Prelude RustStr.

Inductive Scope : Set :=
| StaffAccess
| OrgOwner | OrgAdmin | OrgMember | OrgBilling | OrgAuditor
| SecretsRead | SecretsWrite | SecretsAdmin
| IssuesRead | IssuesWrite | IssuesAdmin
| SitesRead | SitesWrite | SitesAdmin
| AgentsRead | AgentsRun | AgentsAdmin
| TokensManage.

#[export] Instance Scope_eq_dec : EqDecision Scope.
Proof. solve_decision. Defined.

Definition as_str (s : Scope) : str :=
  lit match s with
      | StaffAccess => "staff:access"
      | OrgOwner => "org:owner"
      | OrgAdmin => "org:admin"
      | OrgMember => "org:member"
      | OrgBilling => "org:billing"
      | OrgAuditor => "org:auditor"
      | SecretsRead => "secrets:read"
      | SecretsWrite => "secrets:write"
      | SecretsAdmin => "secrets:admin"
      | IssuesRead => "issues:read"
      | IssuesWrite => "issues:write"
      | IssuesAdmin => "issues:admin"
      | SitesRead => "sites:read"
      | SitesWrite => "sites:write"
      | SitesAdmin => "sites:admin"
      | AgentsRead => "agents:read"
      | AgentsRun => "agents:run"
      | AgentsAdmin => "agents:admin"
      | TokensManage => "tokens:manage"
      end.

Definition parse (s : str) : option Scope :=
  str_case s
    [("staff:access", StaffAccess);
     ("org:owner", OrgOwner);
     ("org:admin", OrgAdmin);
     ("org:member", OrgMember);
     ("org:billing", OrgBilling);
     ("org:auditor", OrgAuditor);
     ("secrets:read", SecretsRead);
     ("secrets:write", SecretsWrite);
     ("secrets:admin", SecretsAdmin);
     ("issues:read", IssuesRead);
     ("issues:write", IssuesWrite);
     ("issues:admin", IssuesAdmin);
     ("sites:read", SitesRead);
     ("sites:write", SitesWrite);
     ("sites:admin", SitesAdmin);
     ("agents:read", AgentsRead);
     ("agents:run", AgentsRun);
     ("agents:admin", AgentsAdmin);
     ("tokens:manage", TokensManage)]%string.

Definition all : list Scope :=
  [StaffAccess;
   OrgOwner; OrgAdmin; OrgMember; OrgBilling; OrgAuditor;
   SecretsRead; SecretsWrite; SecretsAdmin;
   IssuesRead; IssuesWrite; IssuesAdmin;
   SitesRead; SitesWrite; SitesAdmin;
   AgentsRead; AgentsRun; AgentsAdmin;
   TokensManage].

Definition implies (self other : Scope) : bool :=
  if bool_decide (self = other) then true
  else match self, other with
       | SecretsAdmin, (SecretsWrite | SecretsRead) => true
       | SecretsWrite, SecretsRead => true
       | IssuesAdmin, (IssuesWrite | IssuesRead) => true
       | IssuesWrite, IssuesRead => true
       | SitesAdmin, (SitesWrite | SitesRead) => true
       | SitesWrite, SitesRead => true
       | AgentsAdmin, (AgentsRun | AgentsRead) => true
       | AgentsRun, AgentsRead => true
       | OrgOwner, (OrgAdmin | OrgMember | OrgBilling | OrgAuditor) => true
       | OrgAdmin, (OrgMember | OrgAuditor) => true
       | _, _ => false
       end.

Lemma parse_as_str s : parse (as_str s) = Some s.
Proof. by destruct s; vm_compute. Qed.

#[export] Instance Scope_countable : Countable Scope := inj_countable as_str parse parse_as_str.

(** [Serialize]/[Deserialize] for [Scope]: through the wire name. *)
Definition serialize (s : Scope) : str := as_str s.
Inductive serde_error := UnknownVariant (s : str).
Definition deserialize (s : str) : result serde_error Scope := ok_or (parse s) (UnknownVariant s).

(** ** Resources *)

Record Resource : Type := {
  Id : Type;
  ParentId : Type;
  TABLE : str;
  ID_COL : str;
  PARENT_ID_COL : str;
}.

Record ScopedResource (R : Resource) : Type := mkScopedResource {
  sr_parent_id : ParentId R;
  sr_id : Id R;
}.
Arguments mkScopedResource {R}.
Arguments sr_parent_id {R}.
Arguments sr_id {R}.

Module ScopedResourceImpl.
Definition new {R : Resource} (parent_id : ParentId R) (id : Id R) : ScopedResource R :=
  mkScopedResource parent_id id.
Definition id {R : Resource} (self : ScopedResource R) : Id R := sr_id self.
Definition parent_id {R : Resource} (self : ScopedResource R) : ParentId R := sr_parent_id self.
End ScopedResourceImpl.

(** ** Scope sets *)

Record ScopeSet : Type := mkScopeSet { inner : gset Scope }.

Record AccessDenied : Type := mkAccessDenied { missing : Scope }.

Module ScopeSetImpl.
Definition empty : ScopeSet := mkScopeSet ∅.

Definition full_session : ScopeSet :=
  mkScopeSet (list_to_set (base.filter (fun scope => scope <> StaffAccess) all)).

Definition from_strings (scopes : list str) : ScopeSet :=
  mkScopeSet (list_to_set (omap parse scopes)).

(** The closure of [filter_map] sets [wildcard] when it meets ["*"]; the flag
    is threaded through the iteration. *)
Definition wildcard_step (acc : bool * list Scope) (s : str) : bool * list Scope :=
  if s =s lit "*" then (true, acc.2)
  else match parse s with
       | Some scope => (acc.1, acc.2 ++ [scope])
       | None => acc
       end.
Definition from_strings_with_wildcard (scopes : list str) : ScopeSet :=
  let '(wildcard, parsed) := foldl wildcard_step (false, []) scopes in
  let set := list_to_set parsed in
  if wildcard : bool then mkScopeSet (set ∪ inner full_session) else mkScopeSet set.

Definition has (self : ScopeSet) (scope : Scope) : bool :=
  existsb (fun granted => implies granted scope) (elements (inner self)).

Definition require (self : ScopeSet) (scope : Scope) : result AccessDenied unit :=
  if has self scope then Ok tt else Err (mkAccessDenied scope).

(** Returns the updated set and whether the scope was newly inserted. *)
Definition insert (self : ScopeSet) (scope : Scope) : ScopeSet * bool :=
  (mkScopeSet ({[scope]} ∪ inner self), bool_decide (scope ∉ inner self)).

Definition intersection (self other : ScopeSet) : ScopeSet :=
  mkScopeSet (list_to_set
    (base.filter (fun scope => has self scope && has other scope = true) all)).

(** [sort_by_key(|s| s.as_str())] over the set's (arbitrary) iteration order. *)
Definition scope_le (a b : Scope) : Prop := str_le (as_str a) (as_str b).
#[export] Instance scope_le_dec a b : Decision (scope_le a b).
Proof. unfold scope_le. apply _. Defined.
Definition iter (self : ScopeSet) : list Scope := merge_sort scope_le (elements (inner self)).

Definition to_oidc_scope_string (self : ScopeSet) : str :=
  join (lit " ") (merge_sort str_le (as_str <$> elements (inner self))).
End ScopeSetImpl.
Import ScopeSetImpl.

(** ** Lemmas *)

Lemma parse_Some s scope : parse s = Some scope <-> s = as_str scope.
Proof.
  split; [|intros ->; apply parse_as_str].
  intros H. apply str_case_Some in H as (p & Hin & ->).
  repeat (apply elem_of_cons in Hin as [Heq|Hin]; [by inversion Heq|]).
  by apply elem_of_nil in Hin.
Qed.

#[export] Instance as_str_inj : Inj (=) (=) as_str.
Proof. intros a b H. apply (f_equal parse) in H. rewrite !parse_as_str in H. by injection H. Qed.

Lemma all_complete s : s ∈ all.
Proof. destruct s; unfold all; set_solver. Qed.

#[export] Instance implies_refl : Reflexive (fun a b => implies a b = true).
Proof. intros a. unfold implies. by rewrite bool_decide_true. Qed.
#[export] Instance implies_trans : Transitive (fun a b => implies a b = true).
Proof. intros a b c. destruct a, b; try done; destruct c; done. Qed.
#[export] Instance implies_antisym : AntiSymm (=) (fun a b => implies a b = true).
Proof. intros a b. destruct a, b; done. Qed.

Lemma has_spec self scope :
  has self scope = true <-> exists granted, granted ∈ inner self /\ implies granted scope = true.
Proof.
  unfold has. rewrite existsb_exists.
  split; intros (g & Hg & H); exists g; split; try done.
  - by apply elem_of_elements, list_elem_of_In.
  - by apply list_elem_of_In, elem_of_elements.
Qed.

Lemma has_union a b scope :
  has (mkScopeSet (a ∪ b)) scope = has (mkScopeSet a) scope || has (mkScopeSet b) scope.
Proof.
  apply eq_bool_prop_intro. rewrite orb_True, !Is_true_true, !has_spec. simpl. set_solver.
Qed.

Lemma has_singleton g scope : has (mkScopeSet {[g]}) scope = implies g scope.
Proof. apply eq_bool_prop_intro. rewrite !Is_true_true, has_spec. simpl. set_solver. Qed.

(** [has] is upward closed along the implication order. *)
Lemma has_implied self a b : has self a = true -> implies a b = true -> has self b = true.
Proof.
  rewrite !has_spec. intros (g & Hg & Hga) Hab. exists g. split; [done|]. by apply (implies_trans g a b).
Qed.

Lemma full_session_inner s : s ∈ inner full_session <-> s <> StaffAccess.
Proof.
  unfold full_session. cbn [inner].
  rewrite elem_of_list_to_set, list_elem_of_filter. split; [naive_solver|].
  intros; split; [done|apply all_complete].
Qed.

Lemma implies_staff g : implies g StaffAccess = true <-> g = StaffAccess.
Proof. destruct g; unfold implies; simpl; split; done. Qed.

Lemma from_strings_inner l s : s ∈ inner (from_strings l) <-> as_str s ∈ l.
Proof.
  simpl. rewrite elem_of_list_to_set, list_elem_of_omap. split.
  - intros (x & Hx & Hp). apply parse_Some in Hp. by subst.
  - intros H. exists (as_str s). by rewrite parse_as_str.
Qed.

Lemma wildcard_fold scopes w p :
  foldl wildcard_step (w, p) scopes =
  (w || bool_decide (lit "*" ∈ scopes), p ++ omap parse scopes).
Proof.
  revert w p. induction scopes as [|s scopes IH]; intros w p.
  - simpl. by rewrite orb_false_r, app_nil_r.
  - cbn [foldl]. unfold wildcard_step at 2. destruct (s =s lit "*") eqn:E.
    + apply str_eqb_eq in E. subst s. rewrite IH. cbn [snd omap list_omap].
      rewrite (bool_decide_true (lit "*" ∈ lit "*" :: scopes)) by set_solver.
      by rewrite orb_true_r.
    + assert (s <> lit "*") by (intros ->; by rewrite str_eqb_refl in E).
      assert (bool_decide (lit "*" ∈ s :: scopes) = bool_decide (lit "*" ∈ scopes)) as ->.
      { apply bool_decide_ext. set_solver. }
      cbn [omap list_omap]. destruct (parse s); cbn [fst snd]; rewrite IH; [|done].
      by rewrite <- app_assoc.
Qed.

Lemma from_strings_with_wildcard_inner l s :
  s ∈ inner (from_strings_with_wildcard l) <->
  as_str s ∈ l \/ (lit "*" ∈ l /\ s <> StaffAccess).
Proof.
  unfold from_strings_with_wildcard. rewrite wildcard_fold. cbn [orb app].
  rewrite <- from_strings_inner, <- full_session_inner. case_bool_decide.
  - cbn [inner]. rewrite elem_of_union. simpl. naive_solver.
  - simpl. naive_solver.
Qed.

Lemma as_str_no_space s : char_free 32 (as_str s).
Proof. destruct s; unfold char_free; vm_compute; repeat constructor; done. Qed.

(** ** Properties *)

(** The implication relation is a partial order on scopes, and [has] is
    exactly membership up to that order: a set grants a scope when it holds a
    scope that implies it, inserting a scope grants precisely what it implies,
    and [require] fails with the missing scope otherwise. *)
Theorem has_up_to_implication self g s :
  (implies s s = true)
  /\ (forall a b, implies s a = true -> implies a b = true -> implies s b = true)
  /\ (forall a, implies s a = true -> implies a s = true -> a = s)
  /\ has (insert self g).1 s = implies g s || has self s
  /\ require self s = if has self s then Ok tt else Err {| missing := s |}.
Proof.
  split; [apply implies_refl|]. split; [intros a b; apply implies_trans|].
  split; [intros a H1 H2; symmetry; by apply implies_antisym|]. split; [|done].
  simpl. rewrite has_union, has_singleton. by destruct self.
Qed.

(** C12: [intersection] is the meet of two scope sets for the implication order:
    it grants a scope exactly when both arguments do, even though the code
    rebuilds it by enumerating [Scope::all]. *)
Theorem intersection_is_meet a b s : has (intersection a b) s = has a s && has b s.
Proof.
  apply eq_bool_prop_intro. rewrite andb_True, !Is_true_true.
  rewrite (has_spec (intersection a b)). simpl. split.
  - intros (g & Hg & Hgs). apply elem_of_list_to_set, list_elem_of_filter in Hg as [Hg _].
    bool_simp. eauto using has_implied.
  - intros [Ha Hb]. exists s. split; [|apply implies_refl].
    apply elem_of_list_to_set, list_elem_of_filter. rewrite Ha, Hb. split; [done|apply all_complete].
Qed.

(** C13: [StaffAccess] is never obtained implicitly: a full session grants every
    scope but [StaffAccess], the wildcard ["*"] adds exactly a full session to
    the listed scopes, and a token grants [StaffAccess] only when it names it. *)
Theorem staff_access_is_explicit l s :
  (has full_session s = true <-> s <> StaffAccess)
  /\ (has (from_strings_with_wildcard l) s = true <->
      has (from_strings l) s = true \/ (lit "*" ∈ l /\ s <> StaffAccess))
  /\ (has (from_strings_with_wildcard l) StaffAccess = true <-> as_str StaffAccess ∈ l).
Proof.
  assert (Hfull : forall t, has full_session t = true <-> t <> StaffAccess).
  { intros t. rewrite has_spec. setoid_rewrite full_session_inner. split.
    - intros (g & Hg & Hi) ->. by apply implies_staff in Hi.
    - intros Ht. exists t. split; [done|apply implies_refl]. }
  assert (Hw : forall t, has (from_strings_with_wildcard l) t = true <->
      has (from_strings l) t = true \/ (lit "*" ∈ l /\ t <> StaffAccess)).
  { intros t. rewrite <- Hfull, !has_spec. split.
    - intros (g & [Hg|[Hs Hg]]%from_strings_with_wildcard_inner & Hi).
      + left. exists g. by rewrite from_strings_inner.
      + right. split; [done|]. exists g. by rewrite full_session_inner.
    - intros [(g & Hg%from_strings_inner & Hi)|(Hs & g & Hg%full_session_inner & Hi)];
        exists g; rewrite from_strings_with_wildcard_inner; auto. }
  split; [apply Hfull|]. split; [apply Hw|]. rewrite Hw, has_spec.
  split; [|intros H; left; exists StaffAccess; split; [by apply from_strings_inner|apply implies_refl]].
  intros [(g & Hg%from_strings_inner & ->%implies_staff)|[_ []]]; done.
Qed.

(** The OIDC [scope] claim round trips: splitting the rendered string on
    spaces and reading it back with [from_strings] gives the same set, for
    every set including the empty one. *)
Theorem oidc_scope_round_trip self :
  from_strings (split 32 (to_oidc_scope_string self)) = self.
Proof.
  destruct self as [S]. unfold to_oidc_scope_string. cbn [inner].
  pose (l := merge_sort str_le (as_str <$> elements S)).
  assert (Hl : l ≡ₚ as_str <$> elements S) by apply merge_sort_Permutation.
  change (merge_sort _ _) with l. change (lit " ") with [32].
  unfold from_strings. f_equal. apply set_eq. intros s.
  rewrite elem_of_list_to_set, list_elem_of_omap.
  assert (Hmem : forall x, x ∈ l <-> exists t, x = as_str t /\ t ∈ S).
  { intros x. rewrite Hl, list_elem_of_fmap. by setoid_rewrite elem_of_elements. }
  destruct (decide (l = [])) as [E|E].
  - rewrite E. split; [intros (x & Hx & Hp)|intros Hs].
    + change (split 32 (join [32] [])) with [[] : str] in Hx. set_solver.
    + assert (as_str s ∈ l) as Hin by (apply Hmem; eauto). rewrite E in Hin. set_solver.
  - rewrite split_join; [|done|].
    + split.
      * intros (x & Hx & Hp). apply parse_Some in Hp. apply Hmem in Hx as (t & -> & Ht). by simplify_eq.
      * intros Hs. exists (as_str s). rewrite parse_as_str, Hmem. eauto.
    + apply Forall_forall. intros x (t & -> & _)%Hmem. apply as_str_no_space.
Qed.
