(* ===== verification/Queue.v ===== *)
(** * The job queue ([crates/queue])

    [Module Job] is [job.rs], [Module Table] the [jobs] table of [schema.rs]
    and the SQL statements of [queue.rs] and [worker.rs] as functions on it,
    [Module Worker] the claim/handle/reschedule path, [Module System] the
    interleavings of producers, workers, crashes and the sweeper as a step
    relation, [Module RunLoop] the worker loop's shutdown protocol.

    The table is the list of its rows in physical order, which PostgreSQL does
    not fix: every theorem holds for every order, so for every resolution of
    the ties of an [ORDER BY].  Timestamps are integers (microseconds); a
    statement takes the value of [NOW()] and of [Utc::now()] as arguments and
    nothing is assumed on successive values.  A statement that fails because
    the server is unreachable changes nothing; a worker that cannot record its
    outcome for that reason is a worker that crashed, a step of [System]. *)

From S2P Require Import Prelude RustStr Json.

Abbreviation uuid := Z.
Abbreviation timestamp := Z.
Definition seconds (n : Z) : Z := n * 1000000.

Module Job.
Inductive JobStatus := Queued | Running | Done | Failed | Cancelled | Dead.

#[export] Instance JobStatus_eq_dec : EqDecision JobStatus.
Proof. solve_decision. Defined.

Definition as_str (s : JobStatus) : str :=
  lit match s with
      | Queued => "queued"
      | Running => "running"
      | Done => "done"
      | Failed => "failed"
      | Cancelled => "cancelled"
      | Dead => "dead"
      end.

Definition is_terminal (s : JobStatus) : bool :=
  match s with Done | Cancelled | Dead => true | _ => false end.

Record UnknownJobStatus := mkUnknownJobStatus { unknown_status : str }.

Definition from_str (s : str) : result UnknownJobStatus JobStatus :=
  ok_or (str_case s
    [("queued", Queued); ("running", Running); ("done", Done);
     ("failed", Failed); ("cancelled", Cancelled); ("dead", Dead)]%string)
    (mkUnknownJobStatus s).

(** The typed job handed to a handler. *)
Record Job (P : Type) := mkJob {
  job_id : uuid;
  job_payload : P;
  job_attempt : Z;
  job_max_attempts : Z;
  job_queue : str;
  job_org_id : option uuid;
  job_actor_id : option uuid;
  job_run_at : timestamp;
  job_created_at : timestamp;
}.
Arguments mkJob {P}.

(** A row of [jobs], also the [JobRow] the queries return. *)
Record JobRow := mkJobRow {
  id : uuid;
  queue : str;
  payload : json;
  status : str;
  priority : Z;
  attempts : Z;
  max_attempts : Z;
  run_at : timestamp;
  locked_at : option timestamp;
  locked_by : option str;
  last_error : option str;
  idempotency_key : option str;
  org_id : option uuid;
  actor_id : option uuid;
  created_at : timestamp;
  started_at : option timestamp;
  completed_at : option timestamp;
}.

Record JobMeta := mkJobMeta {
  meta_id : uuid;
  meta_queue : str;
  meta_status : JobStatus;
  meta_priority : Z;
  meta_attempts : Z;
  meta_max_attempts : Z;
  meta_run_at : timestamp;
  meta_locked_at : option timestamp;
  meta_locked_by : option str;
  meta_last_error : option str;
  meta_idempotency_key : option str;
  meta_org_id : option uuid;
  meta_actor_id : option uuid;
  meta_created_at : timestamp;
  meta_started_at : option timestamp;
  meta_completed_at : option timestamp;
  meta_payload : json;
}.

Definition backoff_seconds (attempt : Z) : Z :=
  let raw := u64_saturating_pow 2 attempt in
  Z.min raw 3600.

(** [sqlx::Error], as far as the queue tells its cases apart. *)
Inductive sqlx_error := RowNotFound | Decode (e : UnknownJobStatus).
Inductive QueueError :=
| Database (e : sqlx_error)
| Serialize (e : str)
| JobNotFound (id : uuid)
| WorkerChannelClosed.

(** Handler errors; the carried value is the error's message. *)
Inductive WorkerError := Retriable (msg : str) | Permanent (msg : str).

Definition into_meta (r : JobRow) : result QueueError JobMeta :=
  status ← map_err (fun e => Database (Decode e)) (from_str (status r));
  mret (mkJobMeta (id r) (queue r) status (priority r)
    (unwrap_or (u32_try_from (attempts r)) 0)
    (unwrap_or (u32_try_from (max_attempts r)) 0)
    (run_at r) (locked_at r) (locked_by r) (last_error r) (idempotency_key r)
    (org_id r) (actor_id r) (created_at r) (started_at r) (completed_at r) (payload r)).
End Job.
Import Job.

Module Table.
(** [UPDATE jobs SET .. WHERE ..], with the number of rows affected. *)
Definition update_where (p : JobRow -> bool) (f : JobRow -> JobRow) (db : list JobRow) : list JobRow :=
  (fun r => if p r then f r else r) <$> db.
Definition rows_affected (p : JobRow -> bool) (db : list JobRow) : nat := length (List.filter p db).

Record EnqueueOptions := mkEnqueueOptions {
  opt_run_at : option timestamp;
  opt_priority : Z;
  opt_max_attempts : option Z;
  opt_idempotency_key : option str;
  opt_org_id : option uuid;
  opt_actor_id : option uuid;
}.

(** [max_attempts] is an [Option<u32>]. *)
Definition opts_typed (o : EnqueueOptions) : Prop :=
  match opt_max_attempts o with Some m => 0 <= m <= u32_max | None => True end.

Record JobFilter := mkJobFilter {
  filter_status : option JobStatus;
  filter_org_id : option uuid;
  filter_limit : option Z;
}.

Definition notify_channel (queue : str) : str :=
  lit "ferrlabs_queue_"
    ++ ((fun c => if is_ascii_alphanumeric c then c else 95) <$> queue).

(** Rows that hold the partial unique index entry [(queue, key)]. *)
Definition same_key (q k : str) (r : JobRow) : bool :=
  (queue r =s q) && bool_decide (idempotency_key r = Some k).

(** [INSERT .. ON CONFLICT (queue, idempotency_key) WHERE .. DO NOTHING
    RETURNING id]: [new_id] is [gen_random_uuid()], [now] is [NOW()]. *)
Definition insert_on_conflict (db : list JobRow) (new_id : uuid) (now : timestamp)
    (q : str) (payload_json : json) (prio max_att run : Z)
    (key : option str) (org actor : option uuid) : list JobRow * option uuid :=
  let conflict := match key with Some k => existsb (same_key q k) db | None => false end in
  if conflict then (db, None)
  else
    (db ++ [mkJobRow new_id q payload_json (lit "queued") prio 0 max_att run
              None None None key org actor now None None],
     Some new_id).

(** [Queue::enqueue].  Returns the result, the table and the [pg_notify]
    calls made ([(channel, job id)]). *)
Definition enqueue {P} (to_value : P -> result str json) (q : str)
    (utc_now now : timestamp) (new_id : uuid) (payload : P) (opts : EnqueueOptions)
    (db : list JobRow) : result QueueError uuid * list JobRow * list (str * uuid) :=
  match to_value payload with
  | Err e => (Err (Serialize e), db, [])
  | Ok payload_json =>
      let run := unwrap_or (opt_run_at opts) utc_now in
      let max_att := unwrap_or (i32_try_from (unwrap_or (opt_max_attempts opts) 3)) 3 in
      let '(db', inserted) :=
        insert_on_conflict db new_id now q payload_json (opt_priority opts) max_att run
          (opt_idempotency_key opts) (opt_org_id opts) (opt_actor_id opts) in
      let found :=
        match inserted with
        | Some i => Ok i
        | None =>
            match opt_idempotency_key opts with
            | Some key =>
                ok_or (id <$> List.find (same_key q key) db') (Database RowNotFound)
            | None => Err (Database RowNotFound)
            end
        end in
      match found with
      | Ok i => (Ok i, db', [(notify_channel q, i)])
      | Err e => (Err e, db', [])
      end
  end.

Definition status_in (l : list string) (r : JobRow) : bool := existsb (fun s => status r =s lit s) l.

Definition cancel_where (q : str) (i : uuid) (r : JobRow) : bool :=
  (id r =? i) && (queue r =s q) && negb (status_in ["done"; "cancelled"; "dead"]%string r).
Definition set_cancelled (now : timestamp) (r : JobRow) : JobRow :=
  mkJobRow (id r) (queue r) (payload r) (lit "cancelled") (priority r) (attempts r)
    (max_attempts r) (run_at r) (locked_at r) (locked_by r) (last_error r)
    (idempotency_key r) (org_id r) (actor_id r) (created_at r) (started_at r) (Some now).
Definition cancel (q : str) (now : timestamp) (i : uuid) (db : list JobRow)
    : result QueueError unit * list JobRow :=
  let db' := update_where (cancel_where q i) (set_cancelled now) db in
  if (rows_affected (cancel_where q i) db =? 0)%nat then (Err (JobNotFound i), db')
  else (Ok tt, db').

Definition clamp (lo hi n : Z) : Z := Z.max lo (Z.min hi n).
Definition newest_first (a b : JobRow) : Prop := created_at b <= created_at a.
#[export] Instance newest_first_dec a b : Decision (newest_first a b).
Proof. unfold newest_first. apply _. Defined.
Definition list_where (q : str) (f : JobFilter) (r : JobRow) : bool :=
  (queue r =s q)
  && match filter_status f with Some s => status r =s Job.as_str s | None => true end
  && match filter_org_id f with Some o => bool_decide (org_id r = Some o) | None => true end.
(** [Queue::list]. *)
Definition list_jobs (q : str) (f : JobFilter) (db : list JobRow) : result QueueError (list JobMeta) :=
  let limit := clamp 1 1000 (unwrap_or (filter_limit f) 100) in
  mapM into_meta
    (take (Z.to_nat limit) (merge_sort newest_first (List.filter (list_where q f) db))).

Definition get (q : str) (i : uuid) (db : list JobRow) : result QueueError JobMeta :=
  row ← ok_or (List.find (fun r => (id r =? i) && (queue r =s q)) db) (JobNotFound i);
  into_meta row.
End Table.
Import Table.

Module Worker.
Record Claimed := mkClaimed {
  c_id : uuid;
  c_payload : json;
  c_attempts : Z;
  c_max_attempts : Z;
  c_org_id : option uuid;
  c_actor_id : option uuid;
  c_run_at : timestamp;
  c_created_at : timestamp;
}.

(** The inner [SELECT] of [claim_one]: rows another transaction holds are
    skipped ([locked]). *)
Definition claimable (q : str) (now : timestamp) (r : JobRow) : bool :=
  (queue r =s q)
  && status_in ["queued"; "failed"]%string r
  && (run_at r <=? now)
  && (attempts r <? max_attempts r).
Definition claim_order (a b : JobRow) : Prop :=
  priority b < priority a \/ (priority a = priority b /\ run_at a <= run_at b).
#[export] Instance claim_order_dec a b : Decision (claim_order a b).
Proof. unfold claim_order. apply _. Defined.
Definition claim_target (q : str) (now : timestamp) (locked : uuid -> bool) (db : list JobRow)
    : option JobRow :=
  head (merge_sort claim_order
          (List.filter (fun r => claimable q now r && negb (locked (id r))) db)).

Definition set_running (worker_id : str) (now : timestamp) (r : JobRow) : JobRow :=
  mkJobRow (id r) (queue r) (payload r) (lit "running") (priority r) (attempts r + 1)
    (max_attempts r) (run_at r) (Some now) (Some worker_id) (last_error r)
    (idempotency_key r) (org_id r) (actor_id r) (created_at r)
    (Some (unwrap_or (started_at r) now)) (completed_at r).
Definition claimed_of (r : JobRow) : Claimed :=
  mkClaimed (id r) (payload r) (attempts r) (max_attempts r) (org_id r) (actor_id r)
    (run_at r) (created_at r).
Definition claim_one (q worker_id : str) (now : timestamp) (locked : uuid -> bool)
    (db : list JobRow) : option Claimed * list JobRow :=
  match claim_target q now locked db with
  | None => (None, db)
  | Some r =>
      (Some (claimed_of (set_running worker_id now r)),
       update_where (fun r' => id r' =? id r) (set_running worker_id now) db)
  end.

(** The three outcomes a worker records; the [WHERE] is on the id alone. *)
Definition set_done (now : timestamp) (r : JobRow) : JobRow :=
  mkJobRow (id r) (queue r) (payload r) (lit "done") (priority r) (attempts r)
    (max_attempts r) (run_at r) None None None
    (idempotency_key r) (org_id r) (actor_id r) (created_at r) (started_at r) (Some now).
Definition mark_done (now : timestamp) (i : uuid) : list JobRow -> list JobRow :=
  update_where (fun r => id r =? i) (set_done now).

Definition set_dead (now : timestamp) (err_msg : str) (r : JobRow) : JobRow :=
  mkJobRow (id r) (queue r) (payload r) (lit "dead") (priority r) (attempts r)
    (max_attempts r) (run_at r) None None (Some err_msg)
    (idempotency_key r) (org_id r) (actor_id r) (created_at r) (started_at r) (Some now).
Definition mark_dead (now : timestamp) (i : uuid) (err_msg : str) : list JobRow -> list JobRow :=
  update_where (fun r => id r =? i) (set_dead now err_msg).

Definition set_failed (err_msg : str) (next_run : timestamp) (r : JobRow) : JobRow :=
  mkJobRow (id r) (queue r) (payload r) (lit "failed") (priority r) (attempts r)
    (max_attempts r) next_run None None (Some err_msg)
    (idempotency_key r) (org_id r) (actor_id r) (created_at r) (started_at r) (completed_at r).
Definition mark_failed_for_retry (i : uuid) (err_msg : str) (next_run : timestamp)
    : list JobRow -> list JobRow :=
  update_where (fun r => id r =? i) (set_failed err_msg next_run).

Definition retry_or_bury (utc_now now : timestamp) (i : uuid) (attempt attempts max_attempts : Z)
    (err_msg : str) (db : list JobRow) : list JobRow :=
  if max_attempts <=? attempts then mark_dead now i err_msg db
  else
    let delay := backoff_seconds attempt in
    let next_run := utc_now + seconds (unwrap_or (i64_try_from delay) i64_max) in
    mark_failed_for_retry i err_msg next_run db.

(** [process_claimed]: [from_value] is the payload's deserializer (an error
    is its message), [handle] the worker's handler. *)
Definition process_claimed {P} (from_value : json -> result str P)
    (handle : Job P -> result WorkerError unit) (q : str) (utc_now now : timestamp)
    (c : Claimed) (db : list JobRow) : list JobRow :=
  match from_value (c_payload c) with
  | Err err => mark_dead now (c_id c) (lit "payload deserialization failed: " ++ err) db
  | Ok payload =>
      let attempt := unwrap_or (u32_try_from (c_attempts c)) 0 in
      let job := mkJob (c_id c) payload attempt
                   (unwrap_or (u32_try_from (c_max_attempts c)) 0) q
                   (c_org_id c) (c_actor_id c) (c_run_at c) (c_created_at c) in
      match handle job with
      | Ok _ => mark_done now (c_id c) db
      | Err (Permanent err) => mark_dead now (c_id c) err db
      | Err (Retriable err) =>
          retry_or_bury utc_now now (c_id c) attempt (c_attempts c) (c_max_attempts c) err db
      end
  end.

(** One pass of [sweeper_loop]; [stale_secs] is [stale_after.as_secs()].  chrono's
    subtraction of a number of seconds is an argument, [None] its panic (the
    duration or the date out of range), which ends the sweeper's task. *)
Definition sweep_where (cutoff : timestamp) (r : JobRow) : bool :=
  (status r =s lit "running")
  && match locked_at r with Some t => t <? cutoff | None => false end.
Definition set_queued (r : JobRow) : JobRow :=
  mkJobRow (id r) (queue r) (payload r) (lit "queued") (priority r) (attempts r)
    (max_attempts r) (run_at r) None None (last_error r)
    (idempotency_key r) (org_id r) (actor_id r) (created_at r) (started_at r) (completed_at r).
Definition sweep (minus_seconds : timestamp -> Z -> option timestamp) (utc_now : timestamp) (stale_secs : Z)
    (db : list JobRow) : option (list JobRow) :=
  cutoff ← minus_seconds utc_now (unwrap_or (i64_try_from stale_secs) i64_max);
  Some (update_where (sweep_where cutoff) set_queued db).
End Worker.
Import Worker.

(** ** Interleavings *)

Module System.
(** The table and the claims whose handler has not been recorded yet, over
    every worker of every process. *)
Record state := mkState { db : list JobRow; inflight : list (str * Claimed) }.
Definition init : state := mkState [] [].

Section Steps.
Context {P : Type}.

Inductive label :=
| LEnqueue (q : str) (utc_now now : timestamp) (new_id : uuid) (p : P) (opts : EnqueueOptions)
| LCancel (q : str) (now : timestamp) (i : uuid)
| LClaim (q worker_id : str) (now : timestamp) (locked : uuid -> bool) (c : Claimed)
| LFinish (q : str) (c : Claimed) (from_value : json -> result str P)
    (handle : Job P -> result WorkerError unit) (utc_now now : timestamp)
| LCrash (q : str) (c : Claimed)
| LSweep (minus_seconds : timestamp -> Z -> option timestamp) (utc_now : timestamp) (stale_secs : Z).

Context (to_value : P -> result str json).

Inductive step : state -> label -> state -> Prop :=
| step_enqueue st q utc_now now new_id p opts :
    (forall r, r ∈ db st -> id r <> new_id) ->
    opts_typed opts ->
    step st (LEnqueue q utc_now now new_id p opts)
      (mkState (enqueue to_value q utc_now now new_id p opts (db st)).1.2 (inflight st))
| step_cancel st q now i :
    step st (LCancel q now i) (mkState (cancel q now i (db st)).2 (inflight st))
| step_claim st q w now locked c db' :
    claim_one q w now locked (db st) = (Some c, db') ->
    step st (LClaim q w now locked c) (mkState db' ((q, c) :: inflight st))
| step_finish st q c l1 l2 fv h utc_now now :
    inflight st = l1 ++ (q, c) :: l2 ->
    step st (LFinish q c fv h utc_now now)
      (mkState (process_claimed fv h q utc_now now c (db st)) (l1 ++ l2))
| step_crash st q c l1 l2 :
    inflight st = l1 ++ (q, c) :: l2 ->
    step st (LCrash q c) (mkState (db st) (l1 ++ l2))
| step_sweep st minus utc_now stale rows :
    sweep minus utc_now stale (db st) = Some rows ->
    step st (LSweep minus utc_now stale) (mkState rows (inflight st)).

Definition is_sweep (l : label) : bool := match l with LSweep _ _ _ => true | _ => false end.
(** Handler executions of job [i] that a run started. *)
Definition claims_of (i : uuid) (l : label) : bool :=
  match l with LClaim _ _ _ _ c => c_id c =? i | _ => false end.
Definition times_claimed (i : uuid) (ls : list label) : Z :=
  Z.of_nat (length (List.filter (claims_of i) ls)).
End Steps.
Arguments label : clear implicits.
End System.
Import System.

(** ** Lemmas *)

Lemma status_round_trip s : from_str (Job.as_str s) = Ok s.
Proof. by destruct s; vm_compute. Qed.

Lemma from_str_Ok s st : from_str s = Ok st <-> s = Job.as_str st.
Proof.
  split; [|intros ->; apply status_round_trip]. unfold from_str. rewrite ok_or_Ok.
  intros (p & Hin & ->)%str_case_Some.
  repeat (apply elem_of_cons in Hin as [Heq|Hin]; [by inversion Heq|]).
  by apply elem_of_nil in Hin.
Qed.

Lemma elem_of_update_where p f (rows : list JobRow) r' :
  r' ∈ update_where p f rows <-> exists r, r ∈ rows /\ r' = (if p r then f r else r).
Proof. unfold update_where. rewrite list_elem_of_fmap. naive_solver. Qed.

Lemma update_where_Forall (Q : JobRow -> Prop) p f rows :
  (forall r, Q r -> p r = true -> Q (f r)) -> Forall Q rows -> Forall Q (update_where p f rows).
Proof.
  intros Hf H. apply Forall_fmap. eapply Forall_impl; [exact H|]. intros r Hr. simpl.
  destruct (p r) eqn:E; auto.
Qed.

(** An update keeps any column that its [SET] list leaves alone. *)
Lemma update_where_column {A} (col : JobRow -> A) p f rows :
  (forall r, col (f r) = col r) -> col <$> update_where p f rows = col <$> rows.
Proof.
  intros H. unfold update_where. rewrite <- list_fmap_compose. apply list_fmap_ext.
  intros i r _. simpl. by destruct (p r).
Qed.

Lemma cancel_rows q now i rows :
  (cancel q now i rows).2 = update_where (cancel_where q i) (set_cancelled now) rows.
Proof. unfold cancel. by case_match. Qed.

(** How one row can change in one step. *)
Inductive row_step (r : JobRow) : JobRow -> Prop :=
| row_cancel now : status_in ["done"; "cancelled"; "dead"]%string r = false ->
    row_step r (set_cancelled now r)
| row_claim q w now : claimable q now r = true -> row_step r (set_running w now r)
| row_done now : row_step r (set_done now r)
| row_dead now msg : row_step r (set_dead now msg r)
| row_retry msg next : row_step r (set_failed msg next r)
| row_sweep cutoff : sweep_where cutoff r = true -> row_step r (set_queued r).

(** What recording a handler's outcome does to the table. *)
Inductive outcome : (JobRow -> JobRow) -> Prop :=
| outcome_done now : outcome (set_done now)
| outcome_dead now msg : outcome (set_dead now msg)
| outcome_retry msg next : outcome (set_failed msg next).

Lemma process_claimed_outcome {P} (fv : json -> result str P) h q t1 t2 c rows :
  exists f, outcome f /\
    process_claimed fv h q t1 t2 c rows = update_where (fun r => id r =? c_id c) f rows.
Proof.
  unfold process_claimed, retry_or_bury, mark_done, mark_dead, mark_failed_for_retry.
  repeat case_match; eexists; (split; [|reflexivity]); constructor.
Qed.

Lemma claim_target_Some q now locked rows r :
  claim_target q now locked rows = Some r -> r ∈ rows /\ claimable q now r = true /\ locked (id r) = false.
Proof.
  unfold claim_target. intros H.
  assert (r ∈ merge_sort claim_order
            (List.filter (fun r => claimable q now r && negb (locked (id r))) rows)) as Hin.
  { destruct (merge_sort _ _); [done|]. simpl in H. simplify_eq. set_solver. }
  rewrite merge_sort_Permutation in Hin. apply list_elem_of_In, List.filter_In in Hin as [Hin Hp].
  apply list_elem_of_In in Hin. bool_simp. done.
Qed.

Lemma claim_one_Some q w now locked rows c rows' :
  claim_one q w now locked rows = (Some c, rows') ->
  exists r, r ∈ rows /\ claimable q now r = true
    /\ c = claimed_of (set_running w now r)
    /\ rows' = update_where (fun r' => id r' =? id r) (set_running w now) rows.
Proof.
  unfold claim_one. destruct (claim_target q now locked rows) as [r|] eqn:E; [|done].
  intros [= <- <-]. apply claim_target_Some in E. naive_solver.
Qed.

Definition ids_unique (rows : list JobRow) : Prop := NoDup (id <$> rows).

Lemma ids_unique_eq rows r1 r2 :
  ids_unique rows -> r1 ∈ rows -> r2 ∈ rows -> id r1 = id r2 -> r1 = r2.
Proof.
  unfold ids_unique. induction rows as [|r rows IH]; [set_solver|]. cbn.
  intros [Hni Hnd]%NoDup_cons H1 H2 E. apply elem_of_cons in H1, H2.
  rewrite list_elem_of_fmap in Hni.
  destruct H1 as [->|H1], H2 as [->|H2]; [done| | |by apply IH]; exfalso; apply Hni; eauto.
Qed.

(** The row an [enqueue] inserts. *)
Record new_row (rows : list JobRow) (r : JobRow) : Prop := {
  new_row_id : forall r', r' ∈ rows -> id r' <> id r;
  new_row_key : forall r' k, r' ∈ rows -> queue r' = queue r ->
    idempotency_key r = Some k -> idempotency_key r' <> Some k;
  new_row_status : status r = lit "queued";
  new_row_attempts : attempts r = 0;
  new_row_max : 0 <= max_attempts r <= i32_max;
  new_row_locked_at : locked_at r = None;
  new_row_locked_by : locked_by r = None;
}.

Lemma same_key_spec q k r : same_key q k r = true <-> queue r = q /\ idempotency_key r = Some k.
Proof. unfold same_key. rewrite andb_true_iff, str_eqb_eq, bool_decide_eq_true. done. Qed.

Lemma no_conflict q k rows :
  existsb (same_key q k) rows = false ->
  forall r, r ∈ rows -> queue r = q -> idempotency_key r <> Some k.
Proof.
  intros H r Hr Hq Hk. apply not_true_iff_false in H. apply H, existsb_exists.
  exists r. split; [by apply list_elem_of_In|]. by apply same_key_spec.
Qed.

Lemma max_attempts_bound (o : EnqueueOptions) :
  opts_typed o ->
  0 <= unwrap_or (i32_try_from (unwrap_or (opt_max_attempts o) 3)) 3 <= i32_max.
Proof.
  unfold opts_typed, i32_try_from, try_from. destruct (opt_max_attempts o) as [m|]; simpl.
  - intros Hm. destruct (in_range _ _ m) eqn:E; simpl; [apply in_range_spec in E|]; unfold i32_max in *; lia.
  - intros _. unfold i32_max. lia.
Qed.

Lemma enqueue_rows {P} (tv : P -> result str json) q t1 t2 new_id p opts rows :
  (forall r, r ∈ rows -> id r <> new_id) -> opts_typed opts ->
  let rows' := (enqueue tv q t1 t2 new_id p opts rows).1.2 in
  rows' = rows \/ exists r, rows' = rows ++ [r] /\ new_row rows r.
Proof.
  intros Hfresh Hopts. simpl. unfold enqueue, insert_on_conflict.
  destruct (tv p) as [v|e]; [|by left].
  destruct (match opt_idempotency_key opts with Some k => existsb (same_key q k) rows | None => false end)
    eqn:Econf.
  { left. by repeat case_match. }
  right. eexists. split; [reflexivity|]. split; simpl; try done.
  - intros r' k Hr' Hq Hk. rewrite Hk in Econf. by eapply no_conflict.
  - by apply max_attempts_bound.
Qed.

(** Every step rewrites each row by at most one [row_step], or adds a new row. *)
Lemma step_rows {P} (tv : P -> result str json) st l st' :
  ids_unique (db st) -> step tv st l st' ->
  (exists upd, db st' = upd <$> db st /\ forall r, r ∈ db st -> upd r = r \/ row_step r (upd r))
  \/ exists r, db st' = db st ++ [r] /\ new_row (db st) r.
Proof.
  intros Huniq Hstep.
  destruct Hstep as [st q t1 t2 i p opts Hf Ht|st q now i|st q w now locked c db' Hc
    |st q c l1 l2 fv h t1 t2 Hin|st q c l1 l2 Hin|st minus t stale rows Hsw]; cbn [db].
  - destruct (enqueue_rows tv q t1 t2 i p opts (db st) Hf Ht) as [->|H]; [|by right].
    left. exists (fun r => r). split; [by rewrite list_fmap_id|]. by left.
  - left. exists (fun r => if cancel_where q i r then set_cancelled now r else r). split; [apply cancel_rows|].
    intros r Hr. destruct (cancel_where q i r) eqn:E; [|by left]. right.
      unfold cancel_where in E. bool_simp. by constructor.
  - apply claim_one_Some in Hc as (r0 & Hr0 & Hcl & -> & ->). left.
    eexists. split; [reflexivity|]. intros r Hr. simpl.
    destruct (id r =? id r0) eqn:E; [|by left]. right. bool_simp.
    rewrite (ids_unique_eq (db st) r r0) in * by done. by eapply row_claim.
  - left. destruct (process_claimed_outcome fv h q t1 t2 c (db st)) as (f & Hf & ->).
    eexists. split; [reflexivity|]. intros r Hr. simpl.
    destruct (id r =? c_id c); [|by left]. right. by destruct Hf; constructor.
  - left. exists (fun r => r). split; [by rewrite list_fmap_id|]. by left.
  - left. apply bind_Some in Hsw as (cutoff & _ & [= <-]). eexists. split; [reflexivity|]. intros r Hr. simpl.
    destruct (sweep_where _ r) eqn:E; [|by left]. right. by eapply row_sweep.
Qed.

Lemma row_step_fixed r r' :
  row_step r r' ->
  id r' = id r /\ queue r' = queue r /\ idempotency_key r' = idempotency_key r
  /\ max_attempts r' = max_attempts r.
Proof. by destruct 1. Qed.

(** ** The table invariant *)

Record row_ok (r : JobRow) : Prop := {
  ok_status : exists s, status r = Job.as_str s;
  ok_attempts : 0 <= attempts r <= max_attempts r;
  ok_max : max_attempts r <= i32_max;
  ok_running : status r = lit "running" -> is_Some (locked_at r) /\ is_Some (locked_by r);
  ok_waiting : status_in ["queued"; "failed"]%string r = true -> locked_at r = None /\ locked_by r = None;
  ok_terminal : status_in ["done"; "cancelled"; "dead"]%string r = true -> is_Some (completed_at r);
}.

Definition keys_unique (rows : list JobRow) : Prop :=
  forall r1 r2 k, r1 ∈ rows -> r2 ∈ rows -> queue r1 = queue r2 ->
    idempotency_key r1 = Some k -> idempotency_key r2 = Some k -> id r1 = id r2.

Record table_ok (rows : list JobRow) : Prop := {
  table_ids : ids_unique rows;
  table_keys : keys_unique rows;
  table_rows : Forall row_ok rows;
}.

Lemma row_step_ok r r' : row_ok r -> row_step r r' -> row_ok r'.
Proof.
  intros [Hs Ha Hm Hr Hw Ht] Hstep.
  destruct Hstep as [now H|q w now H|now|now msg|msg next|cutoff H]; split; cbn; eauto; try done.
  - by exists Cancelled.
  - by exists Running.
  - unfold claimable in H. bool_simp. lia.
  - by exists Done.
  - by exists Dead.
  - by exists Failed.
  - by exists Queued.
Qed.

Lemma new_row_ok rows r : new_row rows r -> row_ok r.
Proof.
  intros [_ _ Hs Ha Hm H1 H2]. split; rewrite ?Hs, ?Ha.
  - by exists Queued.
  - lia.
  - lia.
  - done.
  - done.
  - unfold status_in. rewrite Hs. by vm_compute.
Qed.

Lemma table_ok_step {P} (tv : P -> result str json) st l st' :
  table_ok (db st) -> step tv st l st' -> table_ok (db st').
Proof.
  intros [Hi Hk Hr] Hstep. destruct (step_rows tv st l st' Hi Hstep) as [(upd & -> & Hu)|(r & -> & Hn)].
  - assert (Hfix : forall r, r ∈ db st -> id (upd r) = id r /\ queue (upd r) = queue r
                       /\ idempotency_key (upd r) = idempotency_key r).
    { intros r Hin. destruct (Hu r Hin) as [->|Hs]; [done|]. apply row_step_fixed in Hs. naive_solver. }
    split.
    + unfold ids_unique. rewrite <- list_fmap_compose.
      assert ((id ∘ upd) <$> db st = id <$> db st) as ->; [|done].
      apply Forall_fmap_ext_1, Forall_forall. intros r Hin. simpl. by apply Hfix.
    + intros r1' r2' k. rewrite !list_elem_of_fmap. intros (r1 & -> & H1) (r2 & -> & H2).
      destruct (Hfix r1 H1) as (-> & -> & ->), (Hfix r2 H2) as (-> & -> & ->). by apply Hk.
    + apply Forall_fmap, Forall_forall. intros r Hin. rewrite Forall_forall in Hr. simpl.
      destruct (Hu r Hin) as [->|Hs]; [by apply Hr|]. eapply row_step_ok; [by apply Hr|done].
  - split.
    + unfold ids_unique. rewrite fmap_app. apply NoDup_app. split; [done|]. split.
      * intros i. rewrite list_elem_of_fmap. intros (r' & -> & Hr') [E|[]%elem_of_nil]%elem_of_cons.
        by apply (new_row_id _ _ Hn r').
      * apply NoDup_singleton.
    + intros r1 r2 k H1 H2 Hq Hk1 Hk2. apply elem_of_app in H1, H2. rewrite !list_elem_of_singleton in H1, H2.
      destruct H1 as [H1|H1], H2 as [H2|H2]; subst; [by eapply Hk| | |done]; exfalso.
      * by eapply (new_row_key _ _ Hn r1).
      * by eapply (new_row_key _ _ Hn r2).
    + apply Forall_app. split; [done|]. apply Forall_singleton. by eapply new_row_ok.
Qed.

Lemma table_ok_init : table_ok (db init).
Proof. split; [constructor| |constructor]. intros r1 r2 k H. by apply elem_of_nil in H. Qed.

Lemma table_ok_run {P} (tv : P -> result str json) ls st : run (step tv) init ls st -> table_ok (db st).
Proof.
  apply (run_invariant (step tv) (fun st => table_ok (db st))).
  - intros s l s'. apply table_ok_step.
  - apply table_ok_init.
Qed.

Lemma into_meta_ok r : row_ok r -> exists m, into_meta r = Ok m
  /\ status r = Job.as_str (meta_status m)
  /\ meta_attempts m = attempts r /\ meta_max_attempts m = max_attempts r.
Proof.
  intros [[s Hs] Ha Hm _ _ _]. unfold into_meta. rewrite Hs, status_round_trip.
  eexists. split; [reflexivity|]. cbn. split; [done|].
  unfold u32_try_from. rewrite !try_from_in; [done| |]; unfold u32_max, i32_max in *; lia.
Qed.

Lemma mapM_into_meta rows : Forall row_ok rows -> exists ms, mapM into_meta rows = Ok ms /\ length ms = length rows.
Proof.
  induction 1 as [|r rows Hr _ (ms & IH & Hlen)]; [by exists []|].
  destruct (into_meta_ok r Hr) as (m & Hm & _). exists (m :: ms). cbn. rewrite Hm. cbn.
  by rewrite IH, Hlen.
Qed.

(** ** Counting executions *)

Lemma times_claimed_snoc {P} i (ls : list (label P)) l :
  times_claimed i (ls ++ [l]) = times_claimed i ls + (if claims_of i l then 1 else 0).
Proof.
  unfold times_claimed. rewrite List.filter_app, length_app, Nat2Z.inj_add.
  f_equal. simpl. by destruct (claims_of i l).
Qed.

Definition claim_inc {P} (i : uuid) (l : label P) : Z := if claims_of i l then 1 else 0.

Lemma step_attempts {P} (tv : P -> result str json) st l st' r' :
  ids_unique (db st) -> step tv st l st' -> r' ∈ db st' ->
  (exists r, r ∈ db st /\ id r = id r' /\ max_attempts r = max_attempts r'
     /\ attempts r' = attempts r + claim_inc (id r) l)
  \/ (attempts r' = 0 /\ (forall r, r ∈ db st -> id r <> id r') /\ claim_inc (id r') l = 0).
Proof.
  intros Huniq Hstep Hr'.
  destruct Hstep as [st q t1 t2 i p opts Hf Ht|st q now i|st q w now locked c db' Hc
    |st q c l1 l2 fv h t1 t2 Hin|st q c l1 l2 Hin|st minus t stale rows Hsw]; cbn [db] in *.
  - destruct (enqueue_rows tv q t1 t2 i p opts (db st) Hf Ht) as [Heq|(r & Heq & Hn)];
      rewrite Heq in Hr'.
    + left. exists r'. unfold claim_inc; simpl. repeat split; [done|lia].
    + apply elem_of_app in Hr' as [Hr'|Hr'%list_elem_of_singleton].
      * left. exists r'. unfold claim_inc; simpl. repeat split; [done|lia].
      * subst r'. right. split; [apply Hn|]. split; [apply Hn|done].
  - left. rewrite cancel_rows in Hr'. apply elem_of_update_where in Hr' as (r & Hr & ->).
    exists r. unfold claim_inc; simpl. case_match; repeat split; (done || lia || (simpl; lia)).
  - apply claim_one_Some in Hc as (r0 & Hr0 & Hcl & -> & ->). left.
    apply elem_of_update_where in Hr' as (r & Hr & ->). exists r.
    unfold claim_inc. cbn [claims_of claimed_of c_id id set_running].
    destruct (id r =? id r0) eqn:E; bool_simp.
    + rewrite E, Z.eqb_refl. cbn. by rewrite ?E.
    + rewrite (proj2 (Z.eqb_neq (id r0) (id r))) by congruence. repeat split; [done|lia].
  - left. destruct (process_claimed_outcome fv h q t1 t2 c (db st)) as (f & Hf & Heq). rewrite Heq in Hr'.
    apply elem_of_update_where in Hr' as (r & Hr & ->). exists r. unfold claim_inc; simpl.
    case_match; [|repeat split; (done || lia)].
    destruct Hf; repeat split; (done || (simpl; lia)).
  - left. exists r'. unfold claim_inc; simpl. repeat split; [done|lia].
  - left. apply bind_Some in Hsw as (cutoff & _ & [= <-]). apply elem_of_update_where in Hr' as (r & Hr & ->). exists r.
    unfold claim_inc; simpl. case_match; repeat split; (done || lia || (simpl; lia)).
Qed.

(** Rows are never deleted. *)
Lemma step_keeps_ids {P} (tv : P -> result str json) st l st' r :
  ids_unique (db st) -> step tv st l st' -> r ∈ db st -> exists r', r' ∈ db st' /\ id r' = id r.
Proof.
  intros Hu Hs Hr. destruct (step_rows tv st l st' Hu Hs) as [(upd & -> & Hupd)|(r0 & -> & _)].
  - exists (upd r). split; [by apply list_elem_of_fmap_2|].
    destruct (Hupd r Hr) as [->|H]; [done|]. by apply row_step_fixed in H as [? _].
  - exists r. split; [set_solver|done].
Qed.

Lemma claims_counted {P} (tv : P -> result str json) ls st :
  run (step tv) init ls st ->
  (forall r, r ∈ db st -> attempts r = times_claimed (id r) ls)
  /\ (forall i, 0 < times_claimed i ls -> exists r, r ∈ db st /\ id r = i).
Proof.
  intros Hrun. remember init as st0 eqn:E0. induction Hrun as [s|s ls s' l s'' Hrun IH Hstep].
  - subst. split; [intros r H; by apply elem_of_nil in H|]. intros i. unfold times_claimed. simpl. lia.
  - subst s. destruct (IH eq_refl) as [Hatt Hex]. clear IH.
    assert (Hu : ids_unique (db s')) by (by apply (table_ok_run tv ls s')).
    split.
    + intros r' Hr'. rewrite times_claimed_snoc.
      destruct (step_attempts tv s' l s'' r' Hu Hstep Hr') as
        [(r & Hr & <- & _ & ->)|(-> & Hnew & Hinc)].
      * rewrite Hatt by done. done.
      * unfold claim_inc in Hinc. rewrite Hinc.
        destruct (decide (0 < times_claimed (id r') ls)) as [Hpos|Hz].
        { destruct (Hex _ Hpos) as (r & Hr & Heq). by destruct (Hnew r Hr). }
        unfold times_claimed in *. lia.
    + intros i Hpos. rewrite times_claimed_snoc in Hpos.
      destruct (claims_of i l) eqn:E.
      * destruct l; try done. simpl in E. bool_simp.
        inversion Hstep as [| |? ? ? ? ? ? ? Hc| | |]; subst.
        apply claim_one_Some in Hc as (r & Hr & _ & -> & ->). cbn [db].
        eexists. split; [|reflexivity].
        apply elem_of_update_where. exists r. by rewrite Z.eqb_refl.
      * destruct (Hex i) as (r & Hr & <-); [lia|]. by eapply step_keeps_ids.
Qed.

(** ** Rows no step can run again *)

Definition not_inflight (i : uuid) (st : state) : Prop :=
  forall q c, (q, c) ∈ inflight st -> c_id c <> i.

Definition terminal_row (r : JobRow) : bool := status_in ["done"; "cancelled"; "dead"]%string r.

(** A terminal row, or one out of attempts that no worker runs. *)
Definition inert (r : JobRow) : bool :=
  terminal_row r || (negb (status r =s lit "running") && (max_attempts r <=? attempts r)).

Lemma update_where_other p f rows r : r ∈ rows -> p r = false -> r ∈ update_where p f rows.
Proof. intros Hr Hp. apply elem_of_update_where. exists r. by rewrite Hp. Qed.

Lemma status_in_spec l r : status_in l r = true <-> exists s, s ∈ l /\ status r = lit s.
Proof.
  unfold status_in. rewrite existsb_exists. setoid_rewrite str_eqb_eq.
  by setoid_rewrite list_elem_of_In.
Qed.

Lemma terminal_not_running r : terminal_row r = true -> status r <> lit "running".
Proof.
  unfold terminal_row. rewrite status_in_spec. intros (s & Hs & ->).
  repeat (apply elem_of_cons in Hs as [->|Hs]; [done|]). by apply elem_of_nil in Hs.
Qed.

Lemma claimable_not_inert q now r : claimable q now r = true -> inert r = false.
Proof.
  unfold claimable, inert. intros H. bool_simp. apply orb_false_iff. split.
  - apply not_true_iff_false. unfold terminal_row. rewrite status_in_spec. intros (s & Hs & E).
    match goal with H : status_in _ r = true |- _ => apply status_in_spec in H as (s' & Hs' & E') end.
    rewrite E in E'. repeat (apply elem_of_cons in Hs as [->|Hs]; [
      repeat (apply elem_of_cons in Hs' as [->|Hs']; [done|]); by apply elem_of_nil in Hs'|]).
    by apply elem_of_nil in Hs.
  - apply andb_false_iff. right. apply Z.leb_gt. lia.
Qed.

Lemma inert_not_running r : inert r = true -> status r <> lit "running".
Proof.
  unfold inert. intros [H|H]%orb_true_iff; [by apply terminal_not_running|].
  bool_simp. intros E. rewrite E in H. done.
Qed.

Lemma step_inert {P} (tv : P -> result str json) st l st' r :
  ids_unique (db st) -> step tv st l st' ->
  r ∈ db st -> inert r = true -> not_inflight (id r) st ->
  (r ∈ db st' \/ (terminal_row r = false /\ exists now, set_cancelled now r ∈ db st'))
  /\ not_inflight (id r) st'.
Proof.
  intros Hu Hstep Hr Hin Hni.
  destruct Hstep as [st q t1 t2 i p opts Hf Ht|st q now i|st q w now locked c db' Hc
    |st q c l1 l2 fv h t1 t2 Hc|st q c l1 l2 Hc|st minus t stale rows Hsw]; cbn [db inflight] in *.
  - split; [|done]. left.
    destruct (enqueue_rows tv q t1 t2 i p opts (db st) Hf Ht) as [->|(r0 & -> & _)]; set_solver.
  - split; [|done]. rewrite cancel_rows. destruct (cancel_where q i r) eqn:E; [|left; by apply update_where_other].
    right. split; [by unfold cancel_where in E; bool_simp|]. exists now.
    apply elem_of_update_where. exists r. by rewrite E.
  - apply claim_one_Some in Hc as (r0 & Hr0 & Hcl & -> & ->).
    assert (id r <> id r0) as Hne.
    { intros E. rewrite (ids_unique_eq (db st) r r0 Hu Hr Hr0 E) in Hin.
      apply claimable_not_inert in Hcl. congruence. }
    split.
    + left. apply update_where_other; [done|]. by apply Z.eqb_neq.
    + intros q' c' [E|H]%elem_of_cons; [simplify_eq; simpl; congruence|by eapply Hni].
  - destruct (process_claimed_outcome fv h q t1 t2 c (db st)) as (f & _ & ->). split.
    + left. apply update_where_other; [done|]. apply Z.eqb_neq. intros E.
      eapply (Hni q c); [rewrite Hc; set_solver|done].
    + intros q' c' H. apply (Hni q'). rewrite Hc. set_solver.
  - split; [by left|]. intros q' c' H. apply (Hni q'). rewrite Hc. set_solver.
  - split; [|done]. left. apply bind_Some in Hsw as (cutoff & _ & [= <-]). apply update_where_other; [done|].
    unfold sweep_where. apply inert_not_running in Hin.
    by rewrite (proj2 (str_eqb_neq _ _) Hin).
Qed.

Lemma terminal_inert r : terminal_row r = true -> inert r = true.
Proof. intros H. unfold inert. by rewrite H. Qed.

(** ** Exclusive execution *)

Definition claim_held (rows : list JobRow) (c : Claimed) : Prop :=
  exists r, r ∈ rows /\ id r = c_id c /\ status_in ["running"; "cancelled"]%string r = true.

Record exclusive (st : state) : Prop := {
  excl_nodup : NoDup ((fun x => c_id x.2) <$> inflight st);
  excl_held : forall q c, (q, c) ∈ inflight st -> claim_held (db st) c;
}.

Lemma held_not_claimable rows c q now r :
  ids_unique rows -> claim_held rows c -> r ∈ rows -> claimable q now r = true -> c_id c <> id r.
Proof.
  intros Hu (r0 & Hr0 & Hid & Hs) Hr Hcl E.
  rewrite (ids_unique_eq rows r0 r Hu Hr0 Hr) in Hs by congruence.
  unfold claimable in Hcl. bool_simp. apply status_in_spec in Hs as (s & Hs & Es).
  match goal with H : status_in _ r = true |- _ => apply status_in_spec in H as (s' & Hs' & Es') end.
  rewrite Es in Es'.
  repeat (apply elem_of_cons in Hs as [->|Hs]; [
    repeat (apply elem_of_cons in Hs' as [->|Hs']; [done|]); by apply elem_of_nil in Hs'|]).
  by apply elem_of_nil in Hs.
Qed.

Lemma NoDup_remove_mid {A B} (f : A -> B) l1 x l2 :
  NoDup (f <$> l1 ++ x :: l2) ->
  NoDup (f <$> l1 ++ l2) /\ forall y, y ∈ l1 ++ l2 -> f y <> f x.
Proof.
  rewrite <- Permutation_middle. cbn. intros [Hx Hnd]%NoDup_cons. split; [done|].
  intros y Hy E. apply Hx. rewrite <- E. by apply list_elem_of_fmap_2.
Qed.

Lemma exclusive_step {P} (tv : P -> result str json) st l st' :
  table_ok (db st) -> is_sweep l = false -> step tv st l st' -> exclusive st -> exclusive st'.
Proof.
  intros [Hu _ _] Hns Hstep [Hnd Hheld].
  destruct Hstep as [st q t1 t2 i p opts Hf Ht|st q now i|st q w now locked c db' Hc
    |st q c l1 l2 fv h t1 t2 Hc|st q c l1 l2 Hc|st minus t stale rows Hsw]; try done; split; cbn [db inflight] in *.
  - done.
  - intros q' c' Hin. destruct (Hheld q' c' Hin) as (r & Hr & Hid & Hs). exists r.
    split; [|done]. destruct (enqueue_rows tv q t1 t2 i p opts (db st) Hf Ht) as [->|(r0 & -> & _)]; set_solver.
  - done.
  - intros q' c' Hin. destruct (Hheld q' c' Hin) as (r & Hr & Hid & Hs).
    exists (if cancel_where q i r then set_cancelled now r else r).
    split; [|by destruct (cancel_where q i r)].
    rewrite cancel_rows. apply elem_of_update_where. eauto.
  - apply claim_one_Some in Hc as (r & Hr & Hcl & -> & ->). cbn. apply NoDup_cons. split; [|done].
    rewrite list_elem_of_fmap. intros ([q' c'] & E & Hin).
    eapply (held_not_claimable (db st) c' q now r); eauto.
  - apply claim_one_Some in Hc as (r & Hr & Hcl & -> & ->).
    intros q' c' [E|Hin]%elem_of_cons.
    + simplify_eq. exists (set_running w now r). split; [|done].
      apply elem_of_update_where. exists r. by rewrite Z.eqb_refl.
    + pose proof (Hheld q' c' Hin) as Hh.
      pose proof (held_not_claimable (db st) c' q now r Hu Hh Hr Hcl) as Hne.
      destruct Hh as (r' & Hr' & Hid & Hs). exists r'. split; [|done].
      apply update_where_other; [done|]. apply Z.eqb_neq. congruence.
  - rewrite Hc in Hnd. by apply NoDup_remove_mid in Hnd as [? _].
  - rewrite Hc in Hnd. apply NoDup_remove_mid in Hnd as [_ Hne].
    intros q' c' Hin. destruct (Hheld q' c') as (r & Hr & Hid & Hs); [rewrite Hc; set_solver|].
    destruct (process_claimed_outcome fv h q t1 t2 c (db st)) as (f & _ & ->).
    exists r. split; [|done]. apply update_where_other; [done|].
    apply Z.eqb_neq. rewrite Hid. apply (Hne (q', c') Hin).
  - rewrite Hc in Hnd. by apply NoDup_remove_mid in Hnd as [? _].
  - intros q' c' Hin. apply (Hheld q'). rewrite Hc. set_solver.
Qed.

(** ** Claim order *)

#[export] Instance claim_order_total : Total claim_order.
Proof. intros a b. unfold claim_order. lia. Qed.
#[export] Instance claim_order_trans : Transitive claim_order.
Proof. intros a b c. unfold claim_order. lia. Qed.

Lemma claim_target_spec q now locked rows :
  let ok r := claimable q now r && negb (locked (id r)) in
  match claim_target q now locked rows with
  | Some r => r ∈ rows /\ ok r = true /\ forall r', r' ∈ rows -> ok r' = true -> claim_order r r'
  | None => forall r', r' ∈ rows -> ok r' = false
  end.
Proof.
  intros ok. unfold claim_target. fold ok.
  assert (Hmem : forall r, r ∈ merge_sort claim_order (List.filter ok rows) <-> r ∈ rows /\ ok r = true).
  { intros r. rewrite merge_sort_Permutation, list_elem_of_In, List.filter_In, list_elem_of_In. done. }
  pose proof (StronglySorted_merge_sort claim_order (List.filter ok rows)) as Hs.
  destruct (merge_sort claim_order (List.filter ok rows)) as [|r l]; simpl.
  - intros r' Hr'. destruct (ok r') eqn:E; [|done].
    assert (r' ∈ @nil JobRow) by (by apply Hmem). set_solver.
  - destruct (proj1 (Hmem r)) as [Hr Ho]; [set_solver|]. split; [done|]. split; [done|].
    intros r' Hr' Ho'. apply StronglySorted_inv in Hs as [_ Hall].
    assert (r' ∈ r :: l) as [->|Hin]%elem_of_cons by (by apply Hmem).
    + unfold claim_order. lia.
    + rewrite Forall_forall in Hall. by apply Hall.
Qed.

(** ** Idempotency keys *)

Lemma find_same_key rows q k r :
  keys_unique rows -> r ∈ rows -> queue r = q -> idempotency_key r = Some k ->
  existsb (same_key q k) rows = true /\ id <$> List.find (same_key q k) rows = Some (id r).
Proof.
  intros Hu Hr Hq Hk. assert (Hs : same_key q k r = true) by (by apply same_key_spec).
  split; [apply existsb_exists; exists r; split; [by apply list_elem_of_In|done]|].
  destruct (List.find (same_key q k) rows) as [r'|] eqn:E; simpl.
  - apply List.find_some in E as [Hin%list_elem_of_In [Hq' Hk']%same_key_spec]. f_equal.
    by eapply Hu; [exact Hin|exact Hr|congruence|..].
  - eapply List.find_none in E; [|by apply list_elem_of_In]. congruence.
Qed.

Lemma enqueue_existing {P} (tv : P -> result str json) q t1 t2 new_id p v opts rows r k :
  keys_unique rows -> r ∈ rows -> queue r = q -> idempotency_key r = Some k ->
  tv p = Ok v -> opt_idempotency_key opts = Some k ->
  enqueue tv q t1 t2 new_id p opts rows = (Ok (id r), rows, [(notify_channel q, id r)]).
Proof.
  intros Hu Hr Hq Hk Hv Ho. destruct (find_same_key rows q k r Hu Hr Hq Hk) as [He Hf].
  unfold enqueue, insert_on_conflict. by rewrite Hv, Ho, He, Hf.
Qed.

Lemma enqueue_establishes {P} (tv : P -> result str json) q t1 t2 new_id p opts rows i rows' n k :
  enqueue tv q t1 t2 new_id p opts rows = (Ok i, rows', n) -> opt_idempotency_key opts = Some k ->
  exists r, r ∈ rows' /\ id r = i /\ queue r = q /\ idempotency_key r = Some k.
Proof.
  unfold enqueue, insert_on_conflict. intros H Hk. rewrite Hk in H.
  destruct (tv p) as [v|]; [|done].
  destruct (existsb (same_key q k) rows).
  - destruct (List.find (same_key q k) rows) as [r|] eqn:E; simpl in H; [|done]. simplify_eq.
    apply List.find_some in E as [Hin%list_elem_of_In [Hq' Hk']%same_key_spec]. eauto.
  - simplify_eq. eexists. split; [apply elem_of_app; right; by apply list_elem_of_singleton|]. done.
Qed.

(** A job's identity columns never change and its row is never deleted. *)
Lemma run_keeps_row {P} (tv : P -> result str json) st ls st' r :
  table_ok (db st) -> run (step tv) st ls st' -> r ∈ db st ->
  exists r', r' ∈ db st' /\ id r' = id r /\ queue r' = queue r /\ idempotency_key r' = idempotency_key r.
Proof.
  intros Hok Hrun. revert r. induction Hrun as [s|s ls s' l s'' Hrun IH Hstep]; intros r Hr; [eauto|].
  destruct (IH Hok r Hr) as (r1 & Hr1 & Hi & Hq & Hk).
  assert (Hok' : table_ok (db s')).
  { eapply (run_invariant (step tv) (fun st => table_ok (db st))); [|exact Hok|exact Hrun].
    intros ???. apply table_ok_step. }
  destruct (step_rows tv s' l s'' (table_ids _ Hok') Hstep) as [(upd & -> & Hupd)|(r0 & -> & _)].
  - exists (upd r1). split; [by apply list_elem_of_fmap_2|].
    destruct (Hupd r1 Hr1) as [->|H]; [done|].
    apply row_step_fixed in H as (-> & -> & -> & _). done.
  - exists r1. set_solver.
Qed.

(** ** The worker loop and its shutdown ([worker.rs], [run_loop] and
    [WorkerHandle::shutdown])

    [tokio::sync::Notify::notify_waiters] wakes the tasks that are waiting at
    that moment and stores no permit, so a loop that is not inside its
    [select!] when it is called does not see it. *)

Module RunLoop.
Inductive pc := Claiming | Processing | Selecting | Stopped.
Record loop_state := mkLoop { loop_pc : pc; shutdown_called : bool }.

Inductive loop_label := ClaimSome | ClaimNone | ProcessDone | Wake | PollTimeout | Shutdown.

(** [notify_waiters] on the [shutdown] notify. *)
Definition notify_shutdown (p : pc) : pc := match p with Selecting => Stopped | _ => p end.

(** [WorkerHandle::shutdown] consumes the handle: it is called at most once. *)
Inductive loop_step : loop_state -> loop_label -> loop_state -> Prop :=
| loop_claim_some b : loop_step (mkLoop Claiming b) ClaimSome (mkLoop Processing b)
| loop_claim_none b : loop_step (mkLoop Claiming b) ClaimNone (mkLoop Selecting b)
| loop_process b : loop_step (mkLoop Processing b) ProcessDone (mkLoop Claiming b)
| loop_wake b : loop_step (mkLoop Selecting b) Wake (mkLoop Claiming b)
| loop_timeout b : loop_step (mkLoop Selecting b) PollTimeout (mkLoop Claiming b)
| loop_shutdown p : loop_step (mkLoop p false) Shutdown (mkLoop (notify_shutdown p) true).
End RunLoop.
Import RunLoop.

Lemma missed_shutdown s ls s' :
  run loop_step s ls s' -> shutdown_called s = true -> loop_pc s <> Stopped -> loop_pc s' <> Stopped.
Proof.
  intros Hrun Hs Hp.
  apply (run_invariant loop_step (fun s => shutdown_called s = true /\ loop_pc s <> Stopped) ) in Hrun; [by destruct Hrun| |done].
  intros s1 l s2 [H1 H2] Hstep. by destruct Hstep.
Qed.

Lemma backoff_exact a : 0 <= a -> backoff_seconds a = if a <=? 11 then 2 ^ a else 3600.
Proof.
  intros Ha. unfold backoff_seconds, u64_saturating_pow, u64_max.
  destruct (a <=? 11) eqn:E; bool_simp.
  - assert (2 ^ a <= 2 ^ 11) by (apply Z.pow_le_mono_r; lia). simpl in *. lia.
  - assert (2 ^ 12 <= 2 ^ a) by (apply Z.pow_le_mono_r; lia). simpl in *. lia.
Qed.

Lemma update_by_id rows r f :
  r ∈ rows -> f r ∈ update_where (fun r' => id r' =? id r) f rows.
Proof. intros H. apply elem_of_update_where. exists r. by rewrite Z.eqb_refl. Qed.

(** A small run used by the witnesses: enqueue a job with one attempt, claim
    it, lose the worker, sweep. *)
Module Demo.
Definition tv (_ : unit) : result str json := Ok JNull.
Definition opts : EnqueueOptions := mkEnqueueOptions None 0 (Some 1) (Some (lit "k")) None None.
Definition no_lock (_ : uuid) : bool := false.
Definition q : str := lit "email.send".
Definition st1 : state := mkState (enqueue tv q 0 0 7 tt opts []).1.2 [].
Definition c : Claimed := mkClaimed 7 JNull 1 1 None None 0 0.
Definition st2 : state := mkState (claim_one q (lit "w") 5 no_lock (db st1)).2 [(q, c)].
Definition st3 : state := mkState (db st2) [].
Definition minus (t n : Z) : option Z := Some (t - seconds n).
Definition st4 : state := mkState (default [] (sweep minus (seconds 400) 300 (db st3))) [].
Definition stranded : JobRow :=
  mkJobRow 7 q JNull (lit "queued") 0 1 1 0 None None None (Some (lit "k")) None None 0 (Some 5) None.
Definition labels : list (label unit) :=
  [LEnqueue q 0 0 7 tt opts; LClaim q (lit "w") 5 no_lock c; LCrash q c; LSweep minus (seconds 400) 300].

Lemma run1 : run (step tv) init [LEnqueue q 0 0 7 tt opts] st1.
Proof.
  apply (run_snoc _ init [] init); [constructor|]. apply step_enqueue.
  - intros r H. by apply elem_of_nil in H.
  - vm_compute. split; discriminate.
Defined.
Lemma run2 : run (step tv) init (take 2 labels) st2.
Proof.
  apply (run_snoc _ init [LEnqueue q 0 0 7 tt opts] st1); [apply run1|].
  apply step_claim. vm_compute. reflexivity.
Defined.
Lemma run3 : run (step tv) init (take 3 labels) st3.
Proof.
  apply (run_snoc _ init (take 2 labels) st2); [apply run2|].
  apply (step_crash _ st2 q c [] []). reflexivity.
Defined.
Lemma run4 : run (step tv) init labels st4.
Proof.
  apply (run_snoc _ init (take 3 labels) st3); [apply run3|]. by apply step_sweep.
Defined.
Lemma stranded_in : stranded ∈ db st4.
Proof. vm_compute. constructor. Defined.
End Demo.

(** ** Properties *)

(** C3: every interleaving of enqueues, cancels, claims, handler completions,
    worker crashes and sweeps keeps the table well formed: ids and idempotency
    keys are unique, every status is one the crate knows, [0 <= attempts <=
    max_attempts <= i32::MAX] (so the claim's [attempts + 1] cannot overflow),
    running rows are locked and waiting rows are not; consequently [list] never
    fails to decode a row and returns at most 1000 of them. *)
Theorem queue_table_invariant {P} (tv : P -> result str json) ls st (q : str) (f : JobFilter) :
  run (step tv) init ls st ->
  table_ok (db st) /\ exists ms, list_jobs q f (db st) = Ok ms /\ (length ms <= 1000)%nat.
Proof.
  intros Hrun. pose proof (table_ok_run tv ls st Hrun) as Hok. split; [done|].
  unfold list_jobs. destruct (mapM_into_meta (take (Z.to_nat (clamp 1 1000 (unwrap_or (filter_limit f) 100)))
    (merge_sort newest_first (List.filter (list_where q f) (db st))))) as (ms & Hms & Hlen).
  - apply Forall_take. rewrite merge_sort_Permutation. apply Forall_forall. intros r Hr.
    apply list_elem_of_In, List.filter_In in Hr as [Hr _]. apply list_elem_of_In in Hr.
    by apply (proj1 (Forall_forall _ _) (table_rows _ Hok)).
  - exists ms. split; [done|]. rewrite Hlen, length_take. unfold clamp. lia.
Qed.

Lemma queue_table_invariant_witness :
  table_ok (db Demo.st4)
  /\ exists ms, list_jobs Demo.q (mkJobFilter None None None) (db Demo.st4) = Ok ms
       /\ (length ms <= 1000)%nat.
Proof. exact (queue_table_invariant Demo.tv Demo.labels Demo.st4 _ _ Demo.run4). Defined.

(** C4: the [attempts] column counts the handler executions that were started
    for the job, and no interleaving, crash or sweep starts more than
    [max_attempts] of them. *)
Theorem executions_bounded {P} (tv : P -> result str json) ls st r :
  run (step tv) init ls st -> r ∈ db st ->
  attempts r = times_claimed (id r) ls /\ times_claimed (id r) ls <= max_attempts r.
Proof.
  intros Hrun Hr. destruct (claims_counted tv ls st Hrun) as [Hc _].
  rewrite <- (Hc r Hr). split; [done|].
  by apply (proj1 (Forall_forall _ _) (table_rows _ (table_ok_run tv ls st Hrun))).
Qed.

Lemma executions_bounded_witness :
  attempts Demo.stranded = times_claimed 7 Demo.labels /\ times_claimed 7 Demo.labels <= 1.
Proof. exact (executions_bounded Demo.tv Demo.labels Demo.st4 Demo.stranded Demo.run4 Demo.stranded_in). Defined.

(** [claim_one] takes a due, unlocked job of the queue with attempts left
    that no other such job precedes (higher priority first, then earlier
    [run_at]), marks exactly that row running with one more attempt, and
    returns nothing exactly when there is no such job. *)
Theorem claim_one_takes_first q w now locked rows :
  let ok r := claimable q now r && negb (locked (id r)) in
  match claim_one q w now locked rows with
  | (Some c, rows') => exists r,
      r ∈ rows /\ ok r = true /\ (forall r', r' ∈ rows -> ok r' = true -> claim_order r r')
      /\ c = claimed_of (set_running w now r) /\ c_attempts c = attempts r + 1
      /\ rows' = update_where (fun r' => id r' =? id r) (set_running w now) rows
  | (None, rows') => rows' = rows /\ forall r', r' ∈ rows -> ok r' = false
  end.
Proof.
  intros ok. unfold claim_one. pose proof (claim_target_spec q now locked rows) as H. simpl in H.
  destruct (claim_target q now locked rows) as [r|]; [|done].
  exists r. destruct H as (? & ? & ?). done.
Qed.

(** C17: [enqueue] with an idempotency key is safe to retry: once a call has
    returned an id, any later call with the same queue and key, after any
    interleaving of other operations and whatever its payload, options and
    fresh id, inserts nothing and returns the same id. *)
Theorem enqueue_idempotent {P} (tv : P -> result str json) ls0 st0 q t1 t2 i1 p1 opts1 i rows1 n1 k
    ls st t3 t4 i2 p2 v2 opts2 :
  run (step tv) init ls0 st0 ->
  (forall r, r ∈ db st0 -> id r <> i1) -> opts_typed opts1 ->
  enqueue tv q t1 t2 i1 p1 opts1 (db st0) = (Ok i, rows1, n1) ->
  opt_idempotency_key opts1 = Some k ->
  run (step tv) (mkState rows1 (inflight st0)) ls st ->
  tv p2 = Ok v2 -> opt_idempotency_key opts2 = Some k ->
  enqueue tv q t3 t4 i2 p2 opts2 (db st) = (Ok i, db st, [(notify_channel q, i)]).
Proof.
  intros Hrun0 Hfresh Hty Henq Hk1 Hrun Hv Hk2.
  assert (Hrun1 : run (step tv) init (ls0 ++ [LEnqueue q t1 t2 i1 p1 opts1]) (mkState rows1 (inflight st0))).
  { eapply run_snoc; [exact Hrun0|].
    replace rows1 with (enqueue tv q t1 t2 i1 p1 opts1 (db st0)).1.2 by (by rewrite Henq).
    by apply step_enqueue. }
  destruct (enqueue_establishes tv q t1 t2 i1 p1 opts1 (db st0) i rows1 n1 k Henq Hk1) as (r & Hr & Hi & Hq & Hk).
  destruct (run_keeps_row tv _ ls st r (table_ok_run tv _ _ Hrun1) Hrun Hr) as (r' & Hr' & Hi' & Hq' & Hk').
  rewrite <- Hi, <- Hi'. eapply enqueue_existing; [|exact Hr'|congruence|by rewrite Hk'|exact Hv|exact Hk2].
  apply (table_ok_run tv _ _ (run_app (step tv) _ _ _ _ _ Hrun1 Hrun)).
Qed.

Lemma enqueue_idempotent_witness :
  enqueue Demo.tv Demo.q 9 9 99 tt Demo.opts (db Demo.st1)
  = (Ok 7, db Demo.st1, [(notify_channel Demo.q, 7)]).
Proof.
  apply (enqueue_idempotent Demo.tv [] init Demo.q 0 0 7 tt Demo.opts 7 (db Demo.st1)
           [(notify_channel Demo.q, 7)] (lit "k") [] Demo.st1 9 9 99 tt JNull Demo.opts).
  - constructor.
  - intros r H. by apply elem_of_nil in H.
  - vm_compute. split; discriminate.
  - vm_compute. reflexivity.
  - reflexivity.
  - constructor.
  - reflexivity.
  - reflexivity.
Defined.

(** C16: as long as the sweeper does not run, no job is executed twice at the
    same time: the claims whose handler has not been recorded yet are for
    pairwise distinct jobs, and each of those rows is running (or was cancelled
    while running). *)
Theorem exclusive_execution {P} (tv : P -> result str json) ls st :
  run (step tv) init ls st -> Forall (fun l => is_sweep l = false) ls ->
  NoDup ((fun x => c_id x.2) <$> inflight st)
  /\ forall q c, (q, c) ∈ inflight st -> claim_held (db st) c.
Proof.
  intros Hrun Hns.
  assert (table_ok (db st) /\ exclusive st) as [_ [H1 H2]]; [|done].
  apply (run_invariant_labels (step tv) (fun l => is_sweep l = false)
           (fun st => table_ok (db st) /\ exclusive st)) with (s := init) (ls := ls); [|split|done|done].
  - intros s l s' [Hok Hex] Hl Hstep. split; [by eapply table_ok_step|by eapply exclusive_step].
  - apply table_ok_init.
  - split; [constructor|]. intros q c H. by apply elem_of_nil in H.
Qed.

Lemma exclusive_execution_witness :
  NoDup ((fun x => c_id x.2) <$> inflight Demo.st2)
  /\ forall q c, (q, c) ∈ inflight Demo.st2 -> claim_held (db Demo.st2) c.
Proof.
  apply (exclusive_execution Demo.tv (take 2 Demo.labels) Demo.st2 Demo.run2).
  repeat constructor.
Defined.

(** [done], [cancelled] and [dead] are final for a job no worker is
    executing: no later operation, including sweeps, changes any column of its
    row or executes it again. *)
Theorem terminal_rows_final {P} (tv : P -> result str json) ls0 st0 r ls st :
  run (step tv) init ls0 st0 -> r ∈ db st0 -> terminal_row r = true -> not_inflight (id r) st0 ->
  run (step tv) st0 ls st -> r ∈ db st /\ not_inflight (id r) st.
Proof.
  intros Hrun0 Hr Ht Hni Hrun.
  assert (table_ok (db st) /\ r ∈ db st /\ not_inflight (id r) st) as [_ H]; [|done].
  apply (run_invariant (step tv) (fun st => table_ok (db st) /\ r ∈ db st /\ not_inflight (id r) st))
    with (s := st0) (ls := ls); [|split; [by eapply table_ok_run|done]|done].
  intros s l s' (Hok & Hin & Hn) Hstep. split; [by eapply table_ok_step|].
  destruct (step_inert tv s l s' r (table_ids _ Hok) Hstep Hin (terminal_inert r Ht) Hn)
    as [[?|[? _]] ?]; [done|congruence].
Qed.

Lemma terminal_rows_final_witness :
  let st := mkState (mark_done 9 7 (db Demo.st3)) [] in
  exists r, r ∈ db st /\ terminal_row r = true /\ not_inflight 7 st
    /\ (r ∈ default [] (sweep Demo.minus 100 0 (db st))).
Proof.
  pose (st := mkState (mark_done 9 7 (db Demo.st3)) []).
  exists (set_done 9 Demo.stranded). split; [vm_compute; constructor|]. split; [reflexivity|].
  split; [intros q c H; by apply elem_of_nil in H|].
  apply (terminal_rows_final Demo.tv
    (take 2 Demo.labels ++ [LFinish Demo.q Demo.c (fun v => Ok tt) (fun _ => Ok tt) 9 9])
    st (set_done 9 Demo.stranded) [LSweep Demo.minus 100 0] (mkState (default [] (sweep Demo.minus 100 0 (db st))) [])).
  - eapply run_snoc; [apply Demo.run2|].
    apply (step_finish Demo.tv Demo.st2 Demo.q Demo.c [] []). reflexivity.
  - vm_compute. constructor.
  - reflexivity.
  - intros q c H. by apply elem_of_nil in H.
  - apply (run_snoc _ st [] st); [constructor|]. by apply step_sweep.
Defined.

(** C40: a job that is back in [queued] with no attempts left, as the sweeper
    leaves one after its last permitted attempt, and that no worker is still
    executing, is stranded: it is never claimed, never buried as [dead], and only
    an explicit cancel can change its row.  (The witness is such a run: one
    attempt, a crashed worker, a sweep.  A worker that was slow rather than
    crashed may still record its outcome.) *)
Theorem exhausted_job_is_stranded {P} (tv : P -> result str json) ls0 st0 r ls st :
  run (step tv) init ls0 st0 -> r ∈ db st0 ->
  status r = lit "queued" -> attempts r = max_attempts r -> not_inflight (id r) st0 ->
  run (step tv) st0 ls st ->
  not_inflight (id r) st /\ (r ∈ db st \/ exists now, set_cancelled now r ∈ db st).
Proof.
  intros Hrun0 Hr Hst Hatt Hni Hrun.
  assert (Hinert : inert r = true).
  { unfold inert. rewrite Hst, Hatt. apply orb_true_iff. right.
    apply andb_true_iff. split; [done|]. apply Z.leb_refl. }
  assert (table_ok (db st) /\ not_inflight (id r) st
          /\ (r ∈ db st \/ exists now, set_cancelled now r ∈ db st)) as [_ H]; [|done].
  apply (run_invariant (step tv) (fun st => table_ok (db st) /\ not_inflight (id r) st
          /\ (r ∈ db st \/ exists now, set_cancelled now r ∈ db st)))
    with (s := st0) (ls := ls); [|split; [by eapply table_ok_run|auto]|done].
  intros s l s' (Hok & Hn & Hin) Hstep. split; [by eapply table_ok_step|].
  destruct Hin as [Hin|[now Hin]].
  - destruct (step_inert tv s l s' r (table_ids _ Hok) Hstep Hin Hinert Hn) as [[?|[_ ?]] ?]; auto.
  - destruct (step_inert tv s l s' (set_cancelled now r) (table_ids _ Hok) Hstep Hin) as [[?|[? _]] ?]; try done.
    eauto.
Qed.

Lemma exhausted_job_is_stranded_witness :
  not_inflight 7 Demo.st4
  /\ (Demo.stranded ∈ db Demo.st4 \/ exists now, set_cancelled now Demo.stranded ∈ db Demo.st4).
Proof.
  apply (exhausted_job_is_stranded Demo.tv Demo.labels Demo.st4 Demo.stranded [] Demo.st4 Demo.run4 Demo.stranded_in).
  - reflexivity.
  - reflexivity.
  - intros q c H. by apply elem_of_nil in H.
  - constructor.
Defined.

(** Finding: a cancellation of a running job does not hold: [cancel] reports
    success and marks the row [cancelled], but when the handler then returns a
    retriable error before its last attempt the worker rewrites the row to
    [failed], and the job becomes claimable again at the retry time. *)
Theorem cancel_overridden_by_retry {P} (fv : json -> result str P) h rows r p msg now utc_now now' :
  ids_unique rows -> r ∈ rows -> status r = lit "running" ->
  0 <= attempts r < max_attempts r ->
  fv (payload r) = Ok p -> (forall job, h job = Err (Retriable msg)) ->
  (cancel (queue r) now (id r) rows).1 = Ok tt
  /\ set_cancelled now r ∈ (cancel (queue r) now (id r) rows).2
  /\ exists r',
      r' ∈ process_claimed fv h (queue r) utc_now now' (claimed_of r) (cancel (queue r) now (id r) rows).2
      /\ id r' = id r /\ status r' = lit "failed" /\ claimable (queue r) (run_at r') r' = true.
Proof.
  intros Hu Hr Hs Ha Hp Hh.
  assert (Hw : cancel_where (queue r) (id r) r = true).
  { unfold cancel_where, status_in. by rewrite Hs, Z.eqb_refl, str_eqb_refl. }
  assert (Hin : set_cancelled now r ∈ (cancel (queue r) now (id r) rows).2).
  { rewrite cancel_rows. apply elem_of_update_where. exists r. by rewrite Hw. }
  split; [|split; [done|]].
  - unfold cancel. destruct (rows_affected _ rows =? 0)%nat eqn:E; [|done].
    apply Nat.eqb_eq in E. unfold rows_affected in E. apply length_zero_iff_nil in E.
    assert (In r (List.filter (cancel_where (queue r) (id r)) rows)) as H
      by (apply List.filter_In; split; [by apply list_elem_of_In|done]).
    by rewrite E in H.
  - unfold process_claimed. cbn [claimed_of c_payload c_id c_attempts c_max_attempts].
    rewrite Hp, Hh. unfold retry_or_bury. rewrite (proj2 (Z.leb_gt _ _)) by lia.
    eexists. split; [apply (update_by_id _ (set_cancelled now r)); exact Hin|].
    repeat split. unfold claimable, status_in. cbn. rewrite str_eqb_refl, Z.leb_refl.
    rewrite (proj2 (Z.ltb_lt _ _)) by lia. reflexivity.
Qed.

Lemma cancel_overridden_by_retry_witness :
  let r := mkJobRow 7 Demo.q JNull (lit "running") 0 1 3 0 (Some 5) (Some (lit "w")) None None None None 0 (Some 5) None in
  exists r', r' ∈ process_claimed (fun _ => Ok tt) (fun _ => Err (Retriable (lit "boom"))) Demo.q 10 10
               (claimed_of r) (cancel Demo.q 6 7 [r]).2
    /\ id r' = 7 /\ status r' = lit "failed" /\ claimable Demo.q (run_at r') r' = true.
Proof.
  intros r.
  apply (cancel_overridden_by_retry (fun _ => Ok tt) (fun _ => Err (Retriable (lit "boom")))
           [r] r tt (lit "boom") 6 10 10).
  - apply NoDup_singleton.
  - constructor.
  - reflexivity.
  - cbn. lia.
  - reflexivity.
  - reflexivity.
Defined.

(** A retriable failure schedules the job after exactly [2^attempt]
    seconds, capped at one hour, and clears its lock, unless the attempt was the
    last, in which case it is buried as [dead]; the delay is always between one
    second and one hour, so the timestamp arithmetic cannot overflow. *)
Theorem retry_schedule {P} (fv : json -> result str P) h q utc_now now rows r p msg :
  r ∈ rows -> 1 <= attempts r <= i32_max ->
  fv (payload r) = Ok p -> (forall job, h job = Err (Retriable msg)) ->
  let delay := if attempts r <=? 11 then 2 ^ attempts r else 3600 in
  1 <= delay <= 3600
  /\ (if max_attempts r <=? attempts r then set_dead now msg r
      else set_failed msg (utc_now + seconds delay) r)
     ∈ process_claimed fv h q utc_now now (claimed_of r) rows.
Proof.
  intros Hr Ha Hp Hh delay. subst delay. rewrite <- backoff_exact by lia.
  assert (Hb : 1 <= backoff_seconds (attempts r) <= 3600).
  { unfold backoff_seconds, u64_saturating_pow, u64_max.
    assert (2 ^ 1 <= 2 ^ attempts r) by (apply Z.pow_le_mono_r; lia). lia. }
  split; [done|]. unfold process_claimed. cbn [claimed_of c_payload c_id c_attempts c_max_attempts].
  rewrite Hp, Hh. unfold retry_or_bury, u32_try_from, i64_try_from.
  rewrite (try_from_in 0 u32_max (attempts r)) by (unfold u32_max, i32_max in *; lia). cbn [unwrap_or].
  rewrite (try_from_in i64_min i64_max) by (unfold i64_min, i64_max; lia). cbn [unwrap_or].
  destruct (max_attempts r <=? attempts r); by apply (update_by_id rows r).
Qed.

Lemma retry_schedule_witness :
  let r := mkJobRow 7 Demo.q JNull (lit "running") 0 2 3 0 (Some 5) (Some (lit "w")) None None None None 0 (Some 5) None in
  set_failed (lit "boom") (100 + seconds 4) r
  ∈ process_claimed (fun _ => Ok tt) (fun _ => Err (Retriable (lit "boom"))) Demo.q 100 101 (claimed_of r) [r].
Proof.
  intros r.
  apply (retry_schedule (fun _ => Ok tt) (fun _ => Err (Retriable (lit "boom"))) Demo.q 100 101 [r] r tt (lit "boom")).
  - constructor.
  - unfold i32_max. cbn. lia.
  - reflexivity.
  - reflexivity.
Defined.

(** Finding: [WorkerHandle::shutdown] stops a loop that is waiting for work, but a
    shutdown requested while the loop is claiming or running a job is lost:
    [notify_waiters] finds no waiter, and no continuation of the loop ever
    stops, so the awaited shutdown does not return. *)
Theorem shutdown_only_seen_when_idle p ls s :
  run loop_step (mkLoop p false) [Shutdown] (mkLoop (notify_shutdown p) true)
  /\ (p = Selecting -> notify_shutdown p = Stopped)
  /\ (p = Claiming \/ p = Processing ->
      run loop_step (mkLoop (notify_shutdown p) true) ls s -> loop_pc s <> Stopped).
Proof.
  split; [apply (run_snoc _ _ [] (mkLoop p false)); [constructor|apply loop_shutdown]|]. split; [by intros ->|].
  intros Hp Hrun. eapply missed_shutdown; [exact Hrun|done|]. by destruct Hp as [->| ->].
Qed.

Lemma shutdown_only_seen_when_idle_witness :
  loop_pc (mkLoop Selecting true) <> Stopped.
Proof.
  apply (shutdown_only_seen_when_idle Processing [ProcessDone; ClaimNone] (mkLoop Selecting true)).
  - auto.
  - apply (run_snoc _ _ [ProcessDone] (mkLoop Claiming true)); [|constructor].
    apply (run_snoc _ _ [] (mkLoop Processing true)); constructor.
Defined.
