(* ===== verification/QueueTasks.v ===== *)
(** * The tasks of a queue worker ([crates/queue/src/worker.rs])

    [spawn_worker_loop] starts three tasks, the worker loop, the sweeper and
    the listener, which meet in two [tokio::sync::Notify]: [wake] and
    [shutdown].  [notify_waiters] reaches only the futures that exist at that
    moment, and [select!] picks any of its ready branches, dropping the others:
    a waiting task carries which of its notifications have arrived. *)

From S2P Require Import Prelude RustStr Queue.

Record WorkerConfig := mkWorkerConfig { w_name : str; poll_interval : Z; sweep_interval : Z; stale_after : Z }.
(** [Default], in seconds. *)
Definition worker_config_default : WorkerConfig := mkWorkerConfig (lit "worker") 5 30 300.

Inductive loop_pc := Claiming | Processing | Selecting (shutdown wake : bool) | LoopEnded.
Inductive sweep_pc := Sweeping | SweepSelecting (shutdown : bool) | SweepEnded.
Inductive listen_pc := Opening | Consuming (shutdown : bool) | BackingOff (shutdown : bool) | ListenEnded.
(** The [WorkerHandle]: [shutdown] and [abort] take it, once. *)
Inductive handle_state := Held | ShuttingDown | ShutDown | Aborted.

#[export] Instance handle_state_eq_dec : EqDecision handle_state.
Proof. solve_decision. Defined.

Record tasks := mkTasks {
  loop_task : loop_pc;
  sweep_task : sweep_pc;
  listen_task : listen_pc;
  handle : handle_state;
}.

(** [spawn_worker_loop]: the worker's identifier, the channel and the tasks. *)
Definition spawn_worker_loop (config : WorkerConfig) (queue : str) (new_v4 : str) : str * str * tasks :=
  (w_name config ++ lit "-" ++ new_v4, Table.notify_channel queue, mkTasks Claiming Sweeping Opening Held).

(** [notify_waiters] on [shutdown] and on [wake]. *)
Definition notify_shutdown (t : tasks) : tasks :=
  mkTasks
    (match loop_task t with Selecting _ w => Selecting true w | l => l end)
    (match sweep_task t with SweepSelecting _ => SweepSelecting true | s => s end)
    (match listen_task t with Consuming _ => Consuming true | BackingOff _ => BackingOff true | n => n end)
    (handle t).
Definition notify_wake (t : tasks) : tasks :=
  mkTasks (match loop_task t with Selecting s _ => Selecting s true | l => l end) (sweep_task t) (listen_task t) (handle t).

(** Which branch of a [select!] was taken. *)
Inductive branch := OnShutdown | OnWake | OnTimer.
Inductive label :=
| ClaimSome | ClaimNone | ProcessDone | LoopSelect (b : branch)
| SweepDone | SweepSelect (b : branch)
| ListenOpened | ListenFailed | Notification | StreamEnded | ListenShutdown | BackoffOver
| CallShutdown | ShutdownReturns | CallAbort.

Definition set_loop (t : tasks) (l : loop_pc) : tasks := mkTasks l (sweep_task t) (listen_task t) (handle t).
Definition set_sweep (t : tasks) (s : sweep_pc) : tasks := mkTasks (loop_task t) s (listen_task t) (handle t).
Definition set_listen (t : tasks) (n : listen_pc) : tasks := mkTasks (loop_task t) (sweep_task t) n (handle t).

(** [run_loop]. *)
Definition loop_step (t : tasks) (l : label) : option tasks :=
  match loop_task t, l with
  | Claiming, ClaimSome => Some (set_loop t Processing)
  | Claiming, ClaimNone => Some (set_loop t (Selecting false false))
  | Processing, ProcessDone => Some (set_loop t Claiming)
  | Selecting true _, LoopSelect OnShutdown => Some (set_loop t LoopEnded)
  | Selecting _ true, LoopSelect OnWake => Some (set_loop t Claiming)
  | Selecting _ _, LoopSelect OnTimer => Some (set_loop t Claiming)
  | _, _ => None
  end.
(** [sweeper_loop]. *)
Definition sweep_step (t : tasks) (l : label) : option tasks :=
  match sweep_task t, l with
  | Sweeping, SweepDone => Some (set_sweep t (SweepSelecting false))
  | SweepSelecting true, SweepSelect OnShutdown => Some (set_sweep t SweepEnded)
  | SweepSelecting _, SweepSelect OnTimer => Some (set_sweep t Sweeping)
  | _, _ => None
  end.
(** [listener_loop], with [open_listener], [consume_notifications] and
    [wait_or_shutdown]. *)
Definition listen_step (t : tasks) (l : label) : option tasks :=
  match listen_task t, l with
  | Opening, ListenOpened => Some (set_listen t (Consuming false))
  | Opening, ListenFailed => Some (set_listen t (BackingOff false))
  | Consuming _, Notification => Some (notify_wake (set_listen t (Consuming false)))
  | Consuming _, StreamEnded => Some (set_listen t Opening)
  | Consuming true, ListenShutdown | BackingOff true, ListenShutdown => Some (set_listen t ListenEnded)
  | BackingOff _, BackoffOver => Some (set_listen t Opening)
  | _, _ => None
  end.
(** [WorkerHandle::shutdown], up to the [await] of the loop and after it, and
    [abort]. *)
Definition handle_step (t : tasks) (l : label) : option tasks :=
  match handle t, l with
  | Held, CallShutdown =>
      let t := notify_shutdown t in Some (mkTasks (loop_task t) (sweep_task t) (listen_task t) ShuttingDown)
  | ShuttingDown, ShutdownReturns =>
      match loop_task t with LoopEnded => Some (mkTasks LoopEnded SweepEnded ListenEnded ShutDown) | _ => None end
  | Held, CallAbort => Some (mkTasks LoopEnded SweepEnded ListenEnded Aborted)
  | _, _ => None
  end.

Definition step (t : tasks) (l : label) : option tasks :=
  match l with
  | ClaimSome | ClaimNone | ProcessDone | LoopSelect _ => loop_step t l
  | SweepDone | SweepSelect _ => sweep_step t l
  | ListenOpened | ListenFailed | Notification | StreamEnded | ListenShutdown | BackoffOver => listen_step t l
  | CallShutdown | ShutdownReturns | CallAbort => handle_step t l
  end.
Definition steps (t : tasks) (l : label) (t' : tasks) : Prop := step t l = Some t'.

Definition spawned : tasks := (spawn_worker_loop worker_config_default [] []).2.

(** ** Draining *)

Definition fired (l : label) (ls : list label) : Z :=
  Z.of_nat (length (List.filter (fun l' => match l, l' with ClaimSome, ClaimSome | ProcessDone, ProcessDone => true | _, _ => false end) ls)).
Definition in_hand (t : tasks) : Z := match loop_task t with Processing => 1 | _ => 0 end.
(** Jobs claimed and not finished are the one in hand; once shut down, nothing
    runs. *)
Record drained (ls : list label) (t : tasks) : Prop := {
  dr_count : handle t <> Aborted -> fired ClaimSome ls = fired ProcessDone ls + in_hand t;
  dr_ended : handle t = ShutDown \/ handle t = Aborted -> t = mkTasks LoopEnded SweepEnded ListenEnded (handle t);
}.

Lemma fired_snoc l ls l' : fired l (ls ++ [l']) = fired l ls + fired l [l'].
Proof. unfold fired. rewrite List.filter_app, length_app. lia. Qed.

Lemma step_kinds t l t' : step t l = Some t' ->
  (handle t' = handle t \/ (handle t = Held /\ handle t' = ShuttingDown) \/ (handle t = ShuttingDown /\ handle t' = ShutDown)
   \/ (handle t = Held /\ handle t' = Aborted))
  /\ (handle t' <> Aborted -> in_hand t' + fired ProcessDone [l] = in_hand t + fired ClaimSome [l]).
Proof.
  destruct t as [lp sp np h]. destruct l; cbn;
    unfold loop_step, sweep_step, listen_step, handle_step; cbn;
    intros Hs; repeat (case_match; simplify_eq/=); (split; [by auto 8|]); intros Hn; first [by destruct Hn|done|by destruct lp].
Qed.

Lemma drained_step ls t l t' : drained ls t -> step t l = Some t' -> drained (ls ++ [l]) t'.
Proof.
  intros [Hc He] Hs. destruct (step_kinds t l t' Hs) as [Hh Hi].
  split.
  - intros Hn. rewrite !fired_snoc. assert (handle t <> Aborted) as Hna.
    { intros Ha. destruct Hh as [Hh|[[Hh _]|[[Hh _]|[Hh _]]]]; congruence. }
    specialize (Hc Hna). specialize (Hi Hn). lia.
  - intros Hd. destruct (decide (handle t = ShutDown \/ handle t = Aborted)) as [Hd0|Hd0].
    + rewrite (He Hd0) in Hs. by destruct Hd0 as [E|E]; rewrite E in Hs; destruct l.
    + destruct l; cbn in Hs; unfold loop_step, sweep_step, listen_step, handle_step in Hs;
        repeat (case_match; simplify_eq/=); by intuition congruence.
Qed.

Lemma drained_run ls t : run steps spawned ls t -> drained ls t.
Proof.
  intros Hrun. remember spawned as s0 eqn:E0. induction Hrun as [|s ls s' l s'' Hrun IH Hs]; [subst; split; [done|by intros []]|].
  eapply drained_step; [by apply IH|exact Hs].
Qed.

(** ** A lost shutdown *)

(** The loop runs, and no shutdown notification is waiting for it. *)
Definition deaf (t : tasks) : Prop :=
  handle t = ShuttingDown /\ match loop_task t with Claiming | Processing | Selecting false _ => True | _ => False end.

Lemma deaf_step t l t' : deaf t -> step t l = Some t' -> deaf t'.
Proof.
  intros [Hh Hl] Hs. destruct t as [lp sp np h]. cbn in *. subst h. unfold deaf.
  destruct l; cbn in Hs; unfold loop_step, sweep_step, listen_step, handle_step in Hs; cbn in Hs;
    repeat (case_match; simplify_eq/=); try done; by destruct lp as [| |[]|].
Qed.

(** ** Properties *)

(** A shutdown that returns has drained the worker.  On any interleaving of the
    three tasks, once [shutdown] has returned the loop has ended, with every
    job it claimed processed to its end, the sweeper and the listener are gone,
    and nothing can happen any more; only [abort] cuts a job short. *)
Theorem shutdown_drains ls t :
  run steps spawned ls t -> handle t = ShutDown ->
  fired ClaimSome ls = fired ProcessDone ls
  /\ t = mkTasks LoopEnded SweepEnded ListenEnded ShutDown /\ forall l, step t l = None.
Proof.
  intros Hrun Hd.
  destruct (drained_run ls t Hrun) as [Hc He].
  rewrite Hd in He. specialize (He ltac:(by left)). rewrite He in *. specialize (Hc ltac:(done)). cbn in Hc.
  split; [unfold in_hand in Hc; simpl in Hc; lia|]. split; [done|]. by intros [].
Qed.

Lemma shutdown_drains_witness :
  let ls := [ClaimSome; ProcessDone; ClaimNone; CallShutdown; LoopSelect OnShutdown; ShutdownReturns] in
  fired ClaimSome ls = fired ProcessDone ls.
Proof.
  intros ls. assert (exists t, run steps spawned ls t /\ handle t = ShutDown) as (t & Hrun & Ht).
  { eexists. split; [do 6 (eapply run_cons; [reflexivity|]); constructor|reflexivity]. }
  by apply (shutdown_drains ls t).
Defined.

(** A shutdown can be lost for good, even on an idle loop.  It is announced
    with [notify_waiters], which the loop misses while it claims or processes,
    and which a waiting loop drops when its [select!] takes another branch that
    is ready as well, a wake-up or the poll timer; from then on no continuation
    lets [shutdown] return. *)
Theorem shutdown_lost t ls t' :
  (exists t0, step t0 CallShutdown = Some t /\ match loop_task t0 with Claiming | Processing => True | _ => False end)
  \/ (exists t0 b, handle t0 = ShuttingDown /\ b <> OnShutdown /\ step t0 (LoopSelect b) = Some t) ->
  run steps t ls t' -> handle t' = ShuttingDown /\ ~ ShutdownReturns ∈ ls.
Proof.
  intros Hl Hrun.
  assert (Hd : deaf t).
  { destruct Hl as [(t0 & Hs & Hp)|(t0 & b & Hh & Hb & Hs)]; destruct t0 as [lp sp np h]; cbn in *; unfold deaf.
    - unfold handle_step in Hs. cbn in Hs. destruct h; simplify_eq. cbn. by destruct lp.
    - subst h. unfold loop_step in Hs. cbn in Hs. destruct lp as [| |[] []|]; try done; destruct b; by simplify_eq/=. }
  assert (Hboth : deaf t' /\ ~ ShutdownReturns ∈ ls); [|split; [apply Hboth|apply Hboth]].
  clear Hl. induction Hrun as [|s ls s' l s'' Hrun IH Hs]; [split; [done|apply not_elem_of_nil]|].
  destruct (IH Hd) as [Hd' Hn]. split; [by eapply deaf_step|]. rewrite elem_of_app, list_elem_of_singleton. intros [Hin|<-]; [done|].
  destruct Hd' as [Hh Hp]. destruct s' as [lp sp np h]. cbn in *. subst h. unfold steps in Hs. cbn in Hs. by destruct lp.
Qed.

Lemma shutdown_lost_witness :
  exists t0 t, run steps spawned [ClaimNone; CallShutdown] t0 /\ step t0 (LoopSelect OnTimer) = Some t
  /\ handle t = ShuttingDown /\ ~ ShutdownReturns ∈ [].
Proof.
  exists (mkTasks (Selecting true false) Sweeping Opening ShuttingDown), (mkTasks Claiming Sweeping Opening ShuttingDown).
  split; [do 2 (eapply run_cons; [reflexivity|]); constructor|]. split; [reflexivity|].
  apply (shutdown_lost (mkTasks Claiming Sweeping Opening ShuttingDown) []); [|constructor]. right.
  by exists (mkTasks (Selecting true false) Sweeping Opening ShuttingDown), OnTimer.
Defined.
