(* ===== verification/ApiVersion.v ===== *)
(** * Contract versions ([crates/api-version])

    [version.rs] (dates as versions: construction, strict parsing, printing,
    the derived order), [transform.rs] (the transform registry and its two
    walks), [policy.rs] (which version a request speaks) and [layer.rs] (the
    middleware).  JSON text ([serde_json::from_slice]/[to_vec]) and the inner
    handler are parameters. *)

From S2P Require Import Prelude RustStr Json Headers.

(** ** version.rs *)

Record ApiVersion := mkApiVersion { year : Z; month : Z; day : Z }.

#[export] Instance ApiVersion_eq_dec : EqDecision ApiVersion.
Proof. solve_decision. Defined.

Definition is_leap (year : Z) : bool :=
  (year mod 4 =? 0) && (negb (year mod 100 =? 0) || (year mod 400 =? 0)).

Definition days_in_month (year month : Z) : Z :=
  if existsb (Z.eqb month) [1; 3; 5; 7; 8; 10; 12] then 31
  else if existsb (Z.eqb month) [4; 6; 9; 11] then 30
  else if month =? 2 then (if is_leap year then 29 else 28)
  else 0.

Definition from_ymd (year month day : Z) : option ApiVersion :=
  if (month =? 0) || (12 <? month) || (day =? 0) then None
  else if days_in_month year month <? day then None
  else Some (mkApiVersion year month day).

(** [derive(Ord)]: lexicographic in declaration order. *)
Definition version_compare (a b : ApiVersion) : comparison :=
  match Z.compare (year a) (year b) with
  | Eq => match Z.compare (month a) (month b) with
          | Eq => Z.compare (day a) (day b)
          | c => c
          end
  | c => c
  end.
Definition version_ltb (a b : ApiVersion) : bool :=
  match version_compare a b with Lt => true | _ => false end.
Definition version_leb (a b : ApiVersion) : bool := negb (version_ltb b a).
Definition version_min (a b : ApiVersion) : ApiVersion := if version_leb a b then a else b.

Inductive ParseApiVersionError := Malformed | NotACalendarDate.

(** [value.checked_mul(10)?.checked_add(digit)?] on a [u16]. *)
Definition push_digit (value byte : Z) : option Z :=
  v ← u16_try_from (value * 10); u16_try_from (v + (byte - 48)).
Fixpoint parse_digits_from (value : Z) (l : bytes) : option Z :=
  match l with
  | [] => Some value
  | byte :: l' =>
      if is_ascii_digit byte then v ← push_digit value byte; parse_digits_from v l' else None
  end.
Definition parse_digits (l : bytes) : option Z := parse_digits_from 0 l.

Definition slice (lo hi : nat) (l : bytes) : bytes := take (hi - lo) (drop lo l).

Definition from_str (raw : str) : result ParseApiVersionError ApiVersion :=
  let b := as_bytes raw in
  if negb (length b =? 10)%nat
     || negb (bool_decide (b !! 4%nat = Some 45)) || negb (bool_decide (b !! 7%nat = Some 45))
  then Err Malformed
  else
    year ← ok_or (parse_digits (slice 0 4 b)) Malformed;
    month ← ok_or (parse_digits (slice 5 7 b)) Malformed;
    day ← ok_or (parse_digits (slice 8 10 b)) Malformed;
    month ← ok_or (u8_try_from month) NotACalendarDate;
    day ← ok_or (u8_try_from day) NotACalendarDate;
    ok_or (from_ymd year month day) NotACalendarDate.

(** [Display]: [{:04}-{:02}-{:02}]. *)
Definition to_string (v : ApiVersion) : str :=
  pad0 4 (show_u (year v)) ++ [45] ++ pad0 2 (show_u (month v)) ++ [45] ++ pad0 2 (show_u (day v)).

(** The values [from_ymd] builds: a [u16] year and a date that exists. *)
Definition valid (v : ApiVersion) : Prop :=
  0 <= year v <= u16_max /\ 1 <= month v <= 12 /\ 1 <= day v <= days_in_month (year v) (month v).

(** Reference calendar: the number of days up to and including a date, counted
    year by year and month by month. *)
Definition year_length (y : Z) : Z := if is_leap y then 366 else 365.
Fixpoint days_before_year (y : nat) : Z :=
  match y with O => 0 | S y' => days_before_year y' + year_length (Z.of_nat y') end.
Fixpoint days_before_month (y : Z) (m : nat) : Z :=
  match m with O => 0 | S m' => days_before_month y m' + days_in_month y (Z.of_nat m) end.
Definition day_number (v : ApiVersion) : Z :=
  days_before_year (Z.to_nat (year v)) + days_before_month (year v) (Z.to_nat (month v - 1)) + day v.

(** ** Lemmas on dates *)

Lemma from_ymd_Some y m d v :
  0 <= y <= u16_max -> 0 <= m -> 0 <= d ->
  from_ymd y m d = Some v <-> v = mkApiVersion y m d /\ valid v.
Proof.
  intros Hy Hm Hd. unfold from_ymd, valid.
  destruct ((m =? 0) || (12 <? m) || (d =? 0)) eqn:E1.
  - split; [done|]. intros [-> (_ & ? & ?)]. simpl in *.
    apply orb_true_iff in E1 as [[?|?]%orb_true_iff|?]; bool_simp; lia.
  - bool_simp. destruct (days_in_month y m <? d) eqn:E2; bool_simp.
    + split; [done|]. intros [-> (_ & _ & ?)]. simpl in *. lia.
    + split; [intros [= <-]|by intros [-> _]]. simpl. split; [done|]. lia.
Qed.

Lemma days_in_month_bounds y m : 1 <= m <= 12 -> 28 <= days_in_month y m <= 31.
Proof.
  intros Hm. unfold days_in_month.
  destruct (existsb _ [1; 3; 5; 7; 8; 10; 12]) eqn:E1; [lia|].
  destruct (existsb _ [4; 6; 9; 11]) eqn:E2; [lia|]. simpl in E1, E2. bool_simp.
  assert (m = 2) as -> by lia. simpl. destruct (is_leap y); lia.
Qed.

Lemma days_before_month_mono y m n :
  (m <= n <= 12)%nat -> days_before_month y m <= days_before_month y n.
Proof.
  intros [Hmn Hn]. induction Hmn as [|n Hmn IH]; [lia|].
  cbn [days_before_month]. pose proof (days_in_month_bounds y (Z.of_nat (S n))). lia.
Qed.

Lemma days_before_month_year y : days_before_month y 12 = year_length y.
Proof. unfold year_length. cbn. unfold days_in_month. simpl. destruct (is_leap y); reflexivity. Qed.

Lemma days_before_year_mono m n : (m <= n)%nat -> days_before_year m <= days_before_year n.
Proof.
  induction 1 as [|n _ IH]; [lia|]. cbn [days_before_year]. unfold year_length. destruct (is_leap _); lia.
Qed.

Lemma day_in_year v :
  valid v ->
  days_before_month (year v) (Z.to_nat (month v - 1)) + day v
  <= days_before_month (year v) (Z.to_nat (month v)).
Proof.
  intros (_ & Hm & Hd). replace (Z.to_nat (month v)) with (S (Z.to_nat (month v - 1))) by lia.
  cbn [days_before_month]. replace (Z.of_nat (S (Z.to_nat (month v - 1)))) with (month v) by lia. lia.
Qed.

Lemma day_number_month a b :
  valid a -> valid b -> year a = year b -> month a < month b -> day_number a < day_number b.
Proof.
  intros Ha Hb Hy Hm. unfold day_number. rewrite <- Hy.
  pose proof (day_in_year a Ha). destruct Ha as (_ & ? & _), Hb as (_ & ? & ?).
  pose proof (days_before_month_mono (year a) (Z.to_nat (month a)) (Z.to_nat (month b - 1))). lia.
Qed.

Lemma day_number_year a b : valid a -> valid b -> year a < year b -> day_number a < day_number b.
Proof.
  intros Ha Hb Hy. unfold day_number. pose proof (day_in_year a Ha).
  destruct Ha as (? & ? & _), Hb as (? & ? & ?).
  pose proof (days_before_month_mono (year a) (Z.to_nat (month a)) 12).
  rewrite days_before_month_year in *.
  pose proof (days_before_year_mono (S (Z.to_nat (year a))) (Z.to_nat (year b))).
  cbn [days_before_year] in *. rewrite Z2Nat.id in * by lia.
  pose proof (days_before_month_mono (year b) 0 (Z.to_nat (month b - 1))). cbn [days_before_month] in *. lia.
Qed.

Lemma version_compare_spec a b : valid a -> valid b -> version_compare a b = Z.compare (day_number a) (day_number b).
Proof.
  intros Ha Hb. unfold version_compare.
  destruct (Z.compare_spec (year a) (year b)) as [Hy|Hy|Hy]; symmetry.
  - destruct (Z.compare_spec (month a) (month b)) as [Hm|Hm|Hm].
    + unfold day_number. rewrite Hy, Hm. by rewrite Z.add_compare_mono_l.
    + by apply Z.compare_lt_iff, day_number_month.
    + apply Z.compare_gt_iff. by apply day_number_month.
  - by apply Z.compare_lt_iff, day_number_year.
  - by apply Z.compare_gt_iff, day_number_year.
Qed.

(** ** Lemmas on parsing and printing *)

(** Up to four digits the checked [u16] arithmetic never fails. *)
Lemma parse_digits_from_acc v k l :
  0 <= v < 10 ^ Z.of_nat k -> (k + length l <= 4)%nat ->
  parse_digits_from v l = parse_digits_acc v l
  /\ forall n, parse_digits_acc v l = Some n -> 0 <= n < 10 ^ Z.of_nat (k + length l).
Proof.
  revert v k. induction l as [|c l IH]; intros v k Hv Hk.
  { split; [done|]. simpl. intros n [= <-]. by rewrite Nat.add_0_r. }
  cbn [parse_digits_from parse_digits_acc]. unfold digit_val.
  destruct (is_ascii_digit c) eqn:E; [|done]. simpl.
  unfold is_ascii_digit in E. apply in_range_spec in E.
  assert (Hpow : 10 ^ Z.of_nat k <= 10 ^ 3) by (apply Z.pow_le_mono_r; simpl in Hk; lia).
  assert (Hnew : 0 <= 10 * v + (c - 48) < 10 ^ Z.of_nat (S k)) by (rewrite pow10_succ; lia).
  unfold push_digit, u16_try_from. rewrite (try_from_in 0 u16_max (v * 10)) by (unfold u16_max; lia).
  simpl. rewrite (try_from_in 0 u16_max) by (unfold u16_max; lia). simpl.
  replace (v * 10 + (c - 48)) with (10 * v + (c - 48)) by lia.
  destruct (IH _ (S k) Hnew) as [H1 H2]; [simpl in Hk; lia|].
  split; [done|]. intros n Hn. replace (k + S (length l))%nat with (S k + length l)%nat by lia. by apply H2.
Qed.

Lemma parse_digits_spec l :
  (length l <= 4)%nat ->
  parse_digits l = parse_digits_acc 0 l
  /\ forall n, parse_digits_acc 0 l = Some n -> 0 <= n < 10 ^ Z.of_nat (length l).
Proof. intros H. apply (parse_digits_from_acc 0 0 l); simpl; lia. Qed.

Lemma parse_digits_pad0 n w :
  0 <= n < 10 ^ Z.of_nat w -> (0 < w <= 4)%nat -> parse_digits (pad0 w (show_u n)) = Some n.
Proof.
  intros Hn Hw. destruct (parse_pad0 n w Hn) as (Hlen & _ & Hv); [lia|].
  destruct (parse_digits_spec (pad0 w (show_u n))) as [-> _]; [lia|].
  specialize (Hv []). by rewrite app_nil_r in Hv.
Qed.

Lemma to_string_shape v :
  valid v -> year v <= 9999 ->
  exists y m d,
    to_string v = y ++ [45] ++ m ++ [45] ++ d
    /\ length y = 4%nat /\ length m = 2%nat /\ length d = 2%nat
    /\ Forall (fun c => is_ascii_digit c = true) (y ++ m ++ d)
    /\ parse_digits y = Some (year v) /\ parse_digits m = Some (month v) /\ parse_digits d = Some (day v).
Proof.
  intros (Hy & Hm & Hd) Hy'. pose proof (days_in_month_bounds (year v) (month v) Hm).
  assert (Hyr : 0 <= year v < 10 ^ Z.of_nat 4) by (simpl; lia).
  assert (Hmr : 0 <= month v < 10 ^ Z.of_nat 2) by (simpl; lia).
  assert (Hdr : 0 <= day v < 10 ^ Z.of_nat 2) by (simpl; lia).
  destruct (parse_pad0 (year v) 4 Hyr) as (Ly & Fy & _); [lia|].
  destruct (parse_pad0 (month v) 2 Hmr) as (Lm & Fm & _); [lia|].
  destruct (parse_pad0 (day v) 2 Hdr) as (Ld & Fd & _); [lia|].
  exists (pad0 4 (show_u (year v))), (pad0 2 (show_u (month v))), (pad0 2 (show_u (day v))).
  repeat split; try done.
  - by rewrite !Forall_app.
  - apply parse_digits_pad0; [done|lia].
  - apply parse_digits_pad0; [done|lia].
  - apply parse_digits_pad0; [done|lia].
Qed.

Lemma digits_ascii l : Forall (fun c => is_ascii_digit c = true) l -> is_ascii l.
Proof.
  intros H. eapply Forall_impl; [exact H|]. intros c Hc. unfold is_ascii_digit in Hc.
  apply in_range_spec in Hc. lia.
Qed.

Lemma slice_app a b lo hi : length a = lo -> slice lo hi (a ++ b) = take (hi - lo) b.
Proof. intros <-. unfold slice. by rewrite drop_app_length. Qed.

Lemma from_str_to_string v : valid v -> year v <= 9999 -> from_str (to_string v) = Ok v.
Proof.
  intros Hv Hy. destruct (to_string_shape v Hv Hy) as (y & m & d & -> & Ly & Lm & Ld & HF & Py & Pm & Pd).
  assert (Hb : as_bytes (y ++ [45] ++ m ++ [45] ++ d) = y ++ [45] ++ m ++ [45] ++ d).
  { apply as_bytes_ascii, Forall_app. rewrite !Forall_app in HF. destruct HF as (? & ? & ?).
    split; [by apply digits_ascii|]. constructor; [lia|]. apply Forall_app.
    split; [by apply digits_ascii|]. constructor; [lia|]. by apply digits_ascii. }
  unfold from_str. rewrite Hb.
  destruct y as [|y0 [|y1 [|y2 [|y3 [|]]]]]; try done.
  destruct m as [|m0 [|m1 [|]]]; try done. destruct d as [|d0 [|d1 [|]]]; try done.
  change (slice 0 4 _) with [y0; y1; y2; y3]. change (slice 5 7 _) with [m0; m1].
  change (slice 8 10 _) with [d0; d1].
  cbn [length app Nat.eqb negb lookup list_lookup orb]. rewrite !bool_decide_true by done. cbn [negb orb].
  rewrite Py, Pm, Pd. destruct Hv as (? & ? & Hd). pose proof (days_in_month_bounds (year v) (month v)).
  simpl. unfold u8_try_from. rewrite (try_from_in 0 u8_max (month v)) by (unfold u8_max; lia). simpl.
  rewrite (try_from_in 0 u8_max (day v)) by (unfold u8_max; lia). simpl.
  assert (from_ymd (year v) (month v) (day v) = Some v) as ->; [|done].
  apply from_ymd_Some; [lia|lia|lia|]. destruct v; done.
Qed.

Lemma from_str_inv raw v :
  from_str raw = Ok v -> valid v /\ year v <= 9999 /\ to_string v = raw.
Proof.
  unfold from_str. intros H.
  destruct (length (as_bytes raw) =? 10)%nat eqn:Hlen; [|done]. apply Nat.eqb_eq in Hlen.
  destruct (as_bytes raw) as [|y0 [|y1 [|y2 [|y3 [|s1 [|m0 [|m1 [|s2 [|d0 [|d1 [|]]]]]]]]]]] eqn:Hb; try done.
  cbn [lookup list_lookup negb orb] in H.
  case_bool_decide as Hs1; [|done]. case_bool_decide as Hs2; [|done]. simplify_eq. cbn [negb orb] in H.
  change (slice 0 4 _) with [y0; y1; y2; y3] in H. change (slice 5 7 _) with [m0; m1] in H.
  change (slice 8 10 _) with [d0; d1] in H.
  destruct (parse_digits_spec [y0; y1; y2; y3]) as [Ey Hy]; [simpl; lia|].
  destruct (parse_digits_spec [m0; m1]) as [Em Hm]; [simpl; lia|].
  destruct (parse_digits_spec [d0; d1]) as [Ed Hd]; [simpl; lia|].
  rewrite Ey, Em, Ed in H. clear Ey Em Ed.
  destruct (parse_digits_acc 0 [y0; y1; y2; y3]) as [y|] eqn:Py; [|done].
  destruct (parse_digits_acc 0 [m0; m1]) as [m|] eqn:Pm; [|done].
  destruct (parse_digits_acc 0 [d0; d1]) as [d|] eqn:Pd; [|done].
  specialize (Hy y eq_refl). specialize (Hm m eq_refl). specialize (Hd d eq_refl). simpl in Hy, Hm, Hd, H.
  unfold u8_try_from in H. rewrite (try_from_in 0 u8_max m) in H by (unfold u8_max; lia). simpl in H.
  rewrite (try_from_in 0 u8_max d) in H by (unfold u8_max; lia). simpl in H.
  apply ok_or_Ok, from_ymd_Some in H as [-> Hv]; [|unfold u16_max; lia|lia|lia].
  split; [done|]. split; [simpl; lia|].
  assert (Hraw : as_bytes raw = raw).
  { apply as_bytes_inv. rewrite Hb.
    apply parse_digits_acc_digits, digits_ascii in Py, Pm, Pd.
    assert (is_ascii ([y0; y1; y2; y3] ++ [45] ++ [m0; m1] ++ [45] ++ [d0; d1])) as Ha.
    { unfold is_ascii in *. repeat (apply Forall_app; split; [first [done|repeat constructor; lia]|]). done. }
    eapply Forall_impl; [exact Ha|]. simpl. lia. }
  rewrite <- Hraw, Hb. unfold to_string. cbn [year month day].
  rewrite (pad0_parse 4 [y0; y1; y2; y3]), (pad0_parse 2 [m0; m1]), (pad0_parse 2 [d0; d1]);
    first [done|lia|simpl; lia].
Qed.

(** ** transform.rs *)

Abbreviation method := str.

Record Transform := mkTransform {
  t_version : ApiVersion;
  applies_to : str -> method -> bool;
  t_downgrade_response : json -> json;
  t_upgrade_request : json -> json;
}.

(** [TransformRegistry]: the transforms, kept sorted by version. *)
Definition version_order (a b : Transform) : Prop := version_leb (t_version a) (t_version b) = true.
#[export] Instance version_order_dec a b : Decision (version_order a b).
Proof. unfold version_order. apply _. Defined.

(** [sort_by_key] is stable: insertion of the pushed transform after every
    transform that is not newer. *)
Fixpoint insert_sorted (t : Transform) (l : list Transform) : list Transform :=
  match l with
  | [] => [t]
  | x :: l' => if version_ltb (t_version t) (t_version x) then t :: l else x :: insert_sorted t l'
  end.
Definition registry_new : list Transform := [].
(** [with] pushes the transform and sorts the vector again. *)
Definition stable_sort (l : list Transform) : list Transform := foldl (fun acc t => insert_sorted t acc) [] l.
Definition registry_with (transforms : list Transform) (t : Transform) : list Transform :=
  stable_sort (transforms ++ [t]).
Definition oldest_change (transforms : list Transform) : option ApiVersion :=
  t_version <$> head transforms.

Definition applicable (pinned : ApiVersion) (route : str) (m : method) (t : Transform) : bool :=
  version_ltb pinned (t_version t) && applies_to t route m.

Definition downgrade_response (transforms : list Transform) (pinned : ApiVersion) (route : str)
    (m : method) (body : json) : json :=
  foldl (fun b t => if applicable pinned route m t then t_downgrade_response t b else b)
    body (reverse transforms).
Definition upgrade_request (transforms : list Transform) (pinned : ApiVersion) (route : str)
    (m : method) (body : json) : json :=
  foldl (fun b t => if applicable pinned route m t then t_upgrade_request t b else b) body transforms.
Definition touches (transforms : list Transform) (pinned : ApiVersion) (route : str) (m : method) : bool :=
  existsb (applicable pinned route m) transforms.

(** The registry a service builds: [new().with(t1).with(t2)..]. *)
Definition registry_of (l : list Transform) : list Transform := foldl registry_with registry_new l.

(** ** Lemmas on the order and the registry *)

Lemma version_compare_lex a b :
  match version_compare a b with
  | Eq => a = b
  | Lt => year a < year b \/ (year a = year b /\ (month a < month b \/ (month a = month b /\ day a < day b)))
  | Gt => year b < year a \/ (year a = year b /\ (month b < month a \/ (month a = month b /\ day b < day a)))
  end.
Proof.
  unfold version_compare. destruct a as [y1 m1 d1], b as [y2 m2 d2]; simpl.
  destruct (Z.compare_spec y1 y2); [|lia|lia]. destruct (Z.compare_spec m1 m2); [|lia|lia].
  destruct (Z.compare_spec d1 d2); [|lia|lia]. by subst.
Qed.

Lemma version_ltb_spec a b :
  version_ltb a b = true <->
  year a < year b \/ (year a = year b /\ (month a < month b \/ (month a = month b /\ day a < day b))).
Proof.
  unfold version_ltb. pose proof (version_compare_lex a b) as H. destruct (version_compare a b).
  - subst. split; [done|lia].
  - done.
  - split; [done|lia].
Qed.

Lemma version_leb_spec a b :
  version_leb a b = true <->
  year a < year b \/ (year a = year b /\ (month a < month b \/ (month a = month b /\ day a <= day b))).
Proof.
  unfold version_leb. rewrite negb_true_iff, <- not_true_iff_false, version_ltb_spec. lia.
Qed.

#[export] Instance version_order_total : Total version_order.
Proof. intros a b. unfold version_order. rewrite !version_leb_spec. lia. Qed.
#[export] Instance version_order_trans : Transitive version_order.
Proof. intros a b c. unfold version_order. rewrite !version_leb_spec. lia. Qed.

Lemma version_leb_antisym a b : version_leb a b = true -> version_leb b a = true -> a = b.
Proof.
  rewrite !version_leb_spec. intros H1 H2. destruct a as [y1 m1 d1], b as [y2 m2 d2]; simpl in *.
  f_equal; lia.
Qed.

Lemma insert_sorted_perm t l : insert_sorted t l ≡ₚ t :: l.
Proof.
  induction l as [|x l IH]; [done|]. simpl. destruct (version_ltb _ _); [done|].
  rewrite IH. apply Permutation_swap.
Qed.

Lemma insert_sorted_sorted t l :
  StronglySorted version_order l -> StronglySorted version_order (insert_sorted t l).
Proof.
  induction 1 as [|x l Hl IH Hx]; [repeat constructor|]. simpl.
  destruct (version_ltb (t_version t) (t_version x)) eqn:E.
  - constructor; [by constructor|]. assert (version_order t x) as Htx.
    { unfold version_order. apply version_leb_spec. apply version_ltb_spec in E. lia. }
    constructor; [done|]. eapply Forall_impl; [exact Hx|]. intros y Hy. by transitivity x.
  - constructor; [done|]. rewrite insert_sorted_perm. constructor; [|done].
    unfold version_order, version_leb. by rewrite E.
Qed.

Lemma foldl_insert_spec l acc :
  StronglySorted version_order acc ->
  StronglySorted version_order (foldl (fun acc t => insert_sorted t acc) acc l)
  /\ foldl (fun acc t => insert_sorted t acc) acc l ≡ₚ acc ++ l.
Proof.
  revert acc. induction l as [|t l IH]; intros acc Hacc; simpl; [by rewrite app_nil_r|].
  destruct (IH (insert_sorted t acc)) as [H1 H2]; [by apply insert_sorted_sorted|].
  split; [done|]. rewrite H2, insert_sorted_perm. by rewrite <- Permutation_middle.
Qed.

Lemma stable_sort_spec l : StronglySorted version_order (stable_sort l) /\ stable_sort l ≡ₚ l.
Proof. apply (foldl_insert_spec l []). constructor. Qed.

Lemma registry_of_spec l : StronglySorted version_order (registry_of l) /\ registry_of l ≡ₚ l.
Proof.
  unfold registry_of. assert (Hg : forall acc, StronglySorted version_order acc ->
    StronglySorted version_order (foldl registry_with acc l) /\ foldl registry_with acc l ≡ₚ acc ++ l).
  { induction l as [|t l IH]; intros acc Hacc; simpl; [by rewrite app_nil_r|].
    destruct (stable_sort_spec (acc ++ [t])) as [H1 H2].
    destruct (IH (registry_with acc t) H1) as [H3 H4]. split; [done|].
    rewrite H4. unfold registry_with. rewrite H2. by rewrite <- app_assoc. }
  apply Hg. constructor.
Qed.

Lemma registry_unique l1 l2 :
  l1 ≡ₚ l2 -> NoDup (t_version <$> l1) -> registry_of l1 = registry_of l2.
Proof.
  intros Hp Hnd. destruct (registry_of_spec l1) as [S1 P1], (registry_of_spec l2) as [S2 P2].
  apply (StronglySorted_unique_strong version_order); [|done|done|by rewrite P1, P2].
  intros a b Ha Hb H1 H2. rewrite P1 in Ha. rewrite P2, <- Hp in Hb.
  assert (Hv : t_version a = t_version b) by (by apply version_leb_antisym).
  clear -Hnd Ha Hb Hv. induction l1 as [|x l IH]; [set_solver|]. cbn in Hnd.
  apply NoDup_cons in Hnd as [Hx Hnd]. rewrite list_elem_of_fmap in Hx.
  apply elem_of_cons in Ha, Hb.
  destruct Ha as [->|Ha], Hb as [->|Hb]; [done| | |by apply IH]; exfalso; apply Hx; eauto.
Qed.

(** A sorted registry is cut by a version into the older and the newer changes. *)
Lemma sorted_cut p ts :
  StronglySorted version_order ts ->
  ts = List.filter (fun t => version_leb (t_version t) p) ts
       ++ List.filter (fun t => version_ltb p (t_version t)) ts.
Proof.
  induction 1 as [|t ts Hts IH Ht]; [done|]. cbn [List.filter]. unfold version_leb at 1.
  destruct (version_ltb p (t_version t)) eqn:E; simpl; [|by f_equal].
  assert (Hall : forall x, x ∈ ts -> version_ltb p (t_version x) = true).
  { intros x Hx. rewrite Forall_forall in Ht. specialize (Ht x Hx). unfold version_order in Ht.
    apply version_leb_spec in Ht. apply version_ltb_spec. apply version_ltb_spec in E. lia. }
  clear -Hall. assert (Hf : List.filter (fun t => version_leb (t_version t) p) ts = []
                            /\ List.filter (fun t => version_ltb p (t_version t)) ts = ts).
  { induction ts as [|x ts IH]; [done|]. cbn [List.filter]. unfold version_leb at 1.
    rewrite (Hall x) by set_solver. simpl. destruct IH as [-> ->]; [|done]. set_solver. }
  by destruct Hf as [-> ->].
Qed.

Lemma walk_none (f : Transform -> json -> json) (p : Transform -> bool) ts b :
  Forall (fun t => p t = false) ts -> foldl (fun b t => if p t then f t b else b) b ts = b.
Proof. intros H. revert b. induction H as [|t ts Ht _ IH]; intros b; [done|]. simpl. by rewrite Ht. Qed.

Lemma walk_ext (f : Transform -> json -> json) (p q : Transform -> bool) ts b :
  Forall (fun t => p t = q t) ts ->
  foldl (fun b t => if p t then f t b else b) b ts = foldl (fun b t => if q t then f t b else b) b ts.
Proof. intros H. revert b. induction H as [|t ts Ht _ IH]; intros b; [done|]. simpl. rewrite Ht. apply IH. Qed.

(** ** policy.rs *)

Definition DEFAULT_MAX_BODY_BYTES : Z := 4 * 1024 * 1024.

Record ApiVersionContext := mkContext {
  header : str;
  current : ApiVersion;
  oldest_supported : ApiVersion;
  default : ApiVersion;
  max_body_bytes : Z;
  registry : list Transform;
}.

Inductive InvalidHeaderName := NotAHeaderName | SunsetAfterCurrent.

Inductive VersionRejection :=
| MalformedVersion (raw : str)
| FromTheFuture (requested current : ApiVersion)
| Sunset (requested oldest_supported : ApiVersion)
| NotTransformable.

Section Policy.
Context `{HttpPackage}.

Definition context_new (header : str) (current oldest_supported : ApiVersion)
  : result InvalidHeaderName ApiVersionContext :=
  if version_ltb current oldest_supported then Err SunsetAfterCurrent
  else
    header ← ok_or (header_name_from_bytes (as_bytes header)) NotAHeaderName;
    Ok (mkContext header current oldest_supported oldest_supported DEFAULT_MAX_BODY_BYTES registry_new).

Definition with_registry (c : ApiVersionContext) (r : list Transform) : ApiVersionContext :=
  mkContext (header c) (current c) (oldest_supported c) (default c) (max_body_bytes c) r.
(** The [debug_assert!] is compiled out of a release build; the clamp is what
    remains. *)
Definition with_default (c : ApiVersionContext) (d : ApiVersion) : ApiVersionContext :=
  mkContext (header c) (current c) (oldest_supported c) (version_min d (current c)) (max_body_bytes c)
    (registry c).
Definition with_max_body_bytes (c : ApiVersionContext) (max : Z) : ApiVersionContext :=
  mkContext (header c) (current c) (oldest_supported c) (default c) max (registry c).

Definition resolve (c : ApiVersionContext) (headers : HeaderMap) (pinned : option ApiVersion)
  : result VersionRejection ApiVersion :=
  match header_get (header c) headers with
  | None => Ok (unwrap_or pinned (default c))
  | Some raw =>
      raw ← ok_or (header_to_str raw) (MalformedVersion []);
      version ← map_err (fun _ => MalformedVersion raw) (from_str raw);
      if version_ltb (current c) version then Err (FromTheFuture version (current c))
      else if version_ltb version (oldest_supported c) then Err (Sunset version (oldest_supported c))
      else Ok version
  end.

Definition response_header (version : ApiVersion) : bytes :=
  unwrap_or (header_value_from_str (to_string version)) (lit "unknown").
End Policy.

(** [VersionRejection::into_response]: status, machine code and message. *)
Definition rejection_parts (r : VersionRejection) : Z * str * str :=
  match r with
  | MalformedVersion raw =>
      (400, lit "invalid_api_version",
       lit "`" ++ raw ++ lit "` is not an API version; expected a date of the form YYYY-MM-DD")
  | FromTheFuture requested current =>
      (400, lit "unknown_api_version",
       lit "API version " ++ to_string requested ++ lit " is newer than " ++ to_string current
       ++ lit ", the latest served here")
  | Sunset requested oldest =>
      (410, lit "sunset_api_version",
       lit "API version " ++ to_string requested ++ lit " is no longer served; the oldest still supported is "
       ++ to_string oldest)
  | NotTransformable =>
      (500, lit "api_version_not_applicable",
       lit "the response could not be rendered in the requested API version")
  end.

(** ** layer.rs *)

Definition SERVED_HEADER : str := lit "x-api-version-served".
Definition CONTENT_TYPE : str := lit "content-type".
Definition CONTENT_LENGTH : str := lit "content-length".

(** A body either arrives whole or fails before its end. *)
Inductive Body := Full (b : bytes) | Broken.

(** The parts of a request the layer reads: the two extensions it looks up,
    the raw path, and the version extension it inserts. *)
Record Request := mkRequest {
  req_method : method;
  req_path : str;
  matched_path : option str;
  req_headers : HeaderMap;
  ext_pinned : option ApiVersion;
  ext_version : option ApiVersion;
  req_body : Body;
}.
Record Response := mkResponse { res_status : Z; res_headers : HeaderMap; res_body : Body }.

(** [axum::body::to_bytes]: an error over the limit or on a broken stream. *)
Definition to_bytes (b : Body) (limit : Z) : option bytes :=
  match b with
  | Full data => if Z.of_nat (length data) <=? limit then Some data else None
  | Broken => None
  end.

Definition req_with_body (r : Request) (h : HeaderMap) (b : Body) : Request :=
  mkRequest (req_method r) (req_path r) (matched_path r) h (ext_pinned r) (ext_version r) b.
Definition res_with_body (r : Response) (h : HeaderMap) (b : Body) : Response :=
  mkResponse (res_status r) h b.

Section Layer.
Context `{HttpPackage}.
(** [serde_json::from_slice::<Value>] and [serde_json::to_vec]. *)
Context (from_slice : bytes -> option json) (to_vec : json -> option bytes).

Definition is_json (headers : HeaderMap) : bool :=
  match header_get CONTENT_TYPE headers ≫= header_to_str with
  | None => false
  | Some value =>
      let value := to_ascii_lowercase (trim value) in
      starts_with (lit "application/json") value || starts_with (lit "application/problem+json") value
  end.

Definition set_content_length (headers : HeaderMap) (len : nat) : HeaderMap :=
  match header_value_from_str (show_u (Z.of_nat len)) with
  | Some value => header_insert CONTENT_LENGTH value headers
  | None => header_remove CONTENT_LENGTH headers
  end.

Definition rewrite_request (ctx : ApiVersionContext) (version : ApiVersion) (route : str) (m : method)
    (req : Request) : result VersionRejection Request :=
  if negb (is_json (req_headers req)) then Ok req
  else
    bytes ← ok_or (to_bytes (req_body req) (max_body_bytes ctx)) NotTransformable;
    if bool_decide (bytes = []) then Ok (req_with_body req (req_headers req) (Full bytes))
    else
      match from_slice bytes with
      | None => Ok (req_with_body req (req_headers req) (Full bytes))
      | Some value =>
          let value := upgrade_request (registry ctx) version route m value in
          bytes ← ok_or (to_vec value) NotTransformable;
          Ok (req_with_body req (set_content_length (req_headers req) (length bytes)) (Full bytes))
      end.

Definition rewrite_response (ctx : ApiVersionContext) (version : ApiVersion) (route : str) (m : method)
    (res : Response) : result VersionRejection Response :=
  if negb (is_json (res_headers res)) then Ok res
  else
    bytes ← ok_or (to_bytes (res_body res) (max_body_bytes ctx)) NotTransformable;
    if bool_decide (bytes = []) then Ok (res_with_body res (res_headers res) (Full bytes))
    else
      match from_slice bytes with
      | None => Ok (res_with_body res (res_headers res) (Full bytes))
      | Some value =>
          let value := downgrade_response (registry ctx) version route m value in
          bytes ← ok_or (to_vec value) NotTransformable;
          Ok (res_with_body res (set_content_length (res_headers res) (length bytes)) (Full bytes))
      end.

Definition with_served_header (version : ApiVersion) (res : Response) : Response :=
  mkResponse (res_status res) (header_insert SERVED_HEADER (response_header version) (res_headers res))
    (res_body res).

(** The route a transform sees: the matched template, else the raw path. *)
Definition route_of (req : Request) : str := unwrap_or (matched_path req) (req_path req).
Definition set_version (v : ApiVersion) (r : Request) : Request :=
  mkRequest (req_method r) (req_path r) (matched_path r) (req_headers r) (ext_pinned r) (Some v) (req_body r).

(** [Err] stands for the rejection response, so that the two ways a response
    is produced stay apart. *)
Definition negotiate (ctx : ApiVersionContext) (next : Request -> Response) (req : Request)
  : result VersionRejection Response :=
  version ← resolve ctx (req_headers req) (ext_pinned req);
  let route := route_of req in
  let m := req_method req in
  let req := set_version version req in
  if negb (touches (registry ctx) version route m) then Ok (with_served_header version (next req))
  else
    req ← rewrite_request ctx version route m req;
    res ← rewrite_response ctx version route m (next req);
    Ok (with_served_header version res).
End Layer.

(** ** Lemmas on the walks *)

Lemma applicable_older p route m t :
  version_leb (t_version t) p = true -> applicable p route m t = false.
Proof. unfold applicable, version_leb. intros Hl. apply negb_true_iff in Hl. by rewrite Hl. Qed.

(** Going back to [p] and going back further: above [q >= p] both pins select
    the same transforms, at or below [q] the newer pin selects none. *)
Lemma applicable_newer p q route m t :
  version_leb p q = true -> version_ltb q (t_version t) = true ->
  applicable p route m t = applicable q route m t.
Proof.
  unfold applicable. intros H1%version_leb_spec H2. rewrite H2.
  apply version_ltb_spec in H2. rewrite (proj2 (version_ltb_spec p (t_version t))) by lia. done.
Qed.

Definition up_to (q : ApiVersion) (ts : list Transform) : list Transform :=
  List.filter (fun t => version_leb (t_version t) q) ts.
Definition after (q : ApiVersion) (ts : list Transform) : list Transform :=
  List.filter (fun t => version_ltb q (t_version t)) ts.

Lemma after_newer p q route m ts :
  version_leb p q = true ->
  Forall (fun t => applicable p route m t = applicable q route m t) (after q ts).
Proof.
  intros Hpq. apply Forall_forall. intros t Ht. apply list_elem_of_In, filter_In in Ht as [_ Ht].
  by apply applicable_newer.
Qed.

Lemma up_to_none q route m ts : Forall (fun t => applicable q route m t = false) (up_to q ts).
Proof.
  apply Forall_forall. intros t Ht. apply list_elem_of_In, filter_In in Ht as [_ Ht].
  by apply applicable_older.
Qed.

Lemma downgrade_split p q route m ts b :
  StronglySorted version_order ts -> version_leb p q = true ->
  downgrade_response ts p route m b
  = downgrade_response (up_to q ts) p route m (downgrade_response ts q route m b).
Proof.
  intros Hs Hpq. unfold downgrade_response.
  replace (reverse ts) with (reverse (after q ts) ++ reverse (up_to q ts))
    by (rewrite <- reverse_app; f_equal; symmetry; exact (sorted_cut q ts Hs)).
  rewrite !foldl_app. f_equal.
  rewrite (walk_none t_downgrade_response (applicable q route m) (reverse (up_to q ts)));
    [|apply Forall_reverse, up_to_none].
  apply (walk_ext t_downgrade_response), Forall_reverse, (after_newer p q), Hpq.
Qed.

Lemma upgrade_split p q route m ts b :
  StronglySorted version_order ts -> version_leb p q = true ->
  upgrade_request ts p route m b
  = upgrade_request ts q route m (upgrade_request (up_to q ts) p route m b).
Proof.
  intros Hs Hpq. assert (Hcut : up_to q ts ++ after q ts = ts) by (symmetry; exact (sorted_cut q ts Hs)).
  pose proof (up_to_none q route m ts) as Hu. pose proof (after_newer p q route m ts Hpq) as Ha.
  unfold upgrade_request. generalize dependent (up_to q ts). generalize dependent (after q ts).
  intros a Ha u <- Hu. rewrite !foldl_app.
  rewrite (walk_none t_upgrade_request (applicable q route m) u); [|done]. by apply (walk_ext t_upgrade_request).
Qed.

Lemma touches_false p route m ts :
  touches ts p route m = false <-> Forall (fun t => applicable p route m t = false) ts.
Proof.
  unfold touches. induction ts as [|t ts IH]; simpl; [by split|].
  rewrite orb_false_iff, IH, Forall_cons. done.
Qed.

Lemma untouched_downgrade p route m ts b :
  touches ts p route m = false -> downgrade_response ts p route m b = b.
Proof. intros Ht%touches_false. by apply (walk_none t_downgrade_response), Forall_reverse. Qed.

Lemma untouched_upgrade p route m ts b :
  touches ts p route m = false -> upgrade_request ts p route m b = b.
Proof. intros Ht%touches_false. by apply (walk_none t_upgrade_request). Qed.

Lemma downgrade_upgrade p route m ts b :
  Forall (fun t => forall j, t_downgrade_response t (t_upgrade_request t j) = j) ts ->
  downgrade_response ts p route m (upgrade_request ts p route m b) = b.
Proof.
  intros Hinv. revert b. induction Hinv as [|t ts Ht _ IH]; intros b; [done|].
  unfold downgrade_response, upgrade_request in *. cbn [foldl]. rewrite reverse_cons, foldl_app, IH. simpl.
  destruct (applicable p route m t); [apply Ht|done].
Qed.

(** ** Lemmas on the policy and the layer *)

Lemma to_string_visible v : valid v -> visible (to_string v).
Proof.
  intros (Hy & Hm & Hd). unfold to_string.
  assert (Hp : forall w n, 0 <= n -> visible (pad0 w (show_u n))).
  { intros w n Hn. destruct (show_u_numeral n Hn) as [_ Hds _ _]. unfold visible, pad0.
    apply Forall_app. split; [apply Forall_replicate; lia|]. eapply Forall_impl; [exact Hds|].
    intros c Hc. unfold is_ascii_digit in Hc. apply in_range_spec in Hc. lia. }
  unfold visible in *. rewrite !Forall_app. repeat split; first [apply Hp; lia|repeat constructor; lia].
Qed.

Lemma show_u_visible n : 0 <= n -> visible (show_u n).
Proof.
  intros Hn. destruct (show_u_numeral n Hn) as [_ Hds _ _]. eapply Forall_impl; [exact Hds|].
  intros c Hc. unfold is_ascii_digit in Hc. apply in_range_spec in Hc. lia.
Qed.

Lemma resolve_valid `{HttpPackage} c headers pinned v :
  valid (default c) -> (forall p, pinned = Some p -> valid p) ->
  resolve c headers pinned = Ok v -> valid v.
Proof.
  intros Hd Hp. unfold resolve. destruct (header_get _ _) as [raw|].
  - intros (s & _ & Hv)%result_bind_Ok. apply result_bind_Ok in Hv as (w & Hw & Hv).
    apply map_err_Ok, from_str_inv in Hw as (Hw & _ & _).
    destruct (version_ltb (current c) w); [done|]. destruct (version_ltb w _); [done|]. by simplify_eq.
  - intros [= <-]. destruct pinned; simpl; [by apply Hp|done].
Qed.

(** What the layer relies on of JSON text: what [to_vec] prints parses back,
    and the empty input is not a document. *)
Class JsonText (from_slice : bytes -> option json) (to_vec : json -> option bytes) : Prop := {
  from_slice_to_vec v b : to_vec v = Some b -> from_slice b = Some v;
  from_slice_nil : from_slice [] = None;
}.

Section LayerLemmas.
Context `{HttpPackage} `{!HttpPackageLaws}.
Context (from_slice : bytes -> option json) (to_vec : json -> option bytes) `{!JsonText from_slice to_vec}.

(** The JSON document a message carries, when it carries one. *)
Definition document (headers : HeaderMap) (b : Body) : option json :=
  if is_json headers then match b with Full data => from_slice data | Broken => None end else None.

Lemma set_content_length_get headers len :
  header_get CONTENT_LENGTH (set_content_length headers len) = Some (show_u (Z.of_nat len)).
Proof.
  unfold set_content_length. rewrite header_value_from_str_visible by (apply show_u_visible; lia).
  apply header_get_insert.
Qed.

Lemma set_content_length_json headers len : is_json (set_content_length headers len) = is_json headers.
Proof.
  unfold is_json, set_content_length. destruct (header_value_from_str _).
  - by rewrite header_get_insert_ne by done.
  - unfold header_get, header_remove. by rewrite assoc_filter_neq by done.
Qed.

Lemma served_header_json v res : is_json (res_headers (with_served_header v res)) = is_json (res_headers res).
Proof. unfold is_json. simpl. by rewrite header_get_insert_ne by done. Qed.

Lemma rewrite_request_document ctx v route m req req' j :
  rewrite_request from_slice to_vec ctx v route m req = Ok req' ->
  document (req_headers req) (req_body req) = Some j ->
  document (req_headers req') (req_body req') = Some (upgrade_request (registry ctx) v route m j).
Proof.
  unfold rewrite_request, document. destruct (is_json (req_headers req)) eqn:Ej; [|done]. simpl.
  destruct (req_body req) as [data|]; [|done]. simpl. destruct (Z.of_nat (length data) <=? _); [|done]. simpl.
  intros Hr Hj. rewrite Hj in Hr. case_bool_decide as Hn; [by rewrite Hn, from_slice_nil in Hj|].
  destruct (to_vec _) as [out|] eqn:Eo; [|done]. simpl in Hr. simplify_eq. simpl.
  rewrite set_content_length_json, Ej. by apply from_slice_to_vec.
Qed.

Lemma rewrite_response_document ctx v route m res res' j :
  rewrite_response from_slice to_vec ctx v route m res = Ok res' ->
  document (res_headers res) (res_body res) = Some j ->
  document (res_headers res') (res_body res') = Some (downgrade_response (registry ctx) v route m j)
  /\ exists b, res_body res' = Full b /\ header_get CONTENT_LENGTH (res_headers res') = Some (show_u (Z.of_nat (length b))).
Proof.
  unfold rewrite_response, document. destruct (is_json (res_headers res)) eqn:Ej; [|done]. simpl.
  destruct (res_body res) as [data|]; [|done]. simpl. destruct (Z.of_nat (length data) <=? _); [|done]. simpl.
  intros Hr Hj. rewrite Hj in Hr. case_bool_decide as Hn; [by rewrite Hn, from_slice_nil in Hj|].
  destruct (to_vec _) as [out|] eqn:Eo; [|done]. simpl in Hr. simplify_eq. simpl.
  rewrite set_content_length_json, Ej, set_content_length_get. split; [by apply from_slice_to_vec|]. eauto.
Qed.
End LayerLemmas.

(** ** Concrete instances for the witnesses *)

Module Demo.
(** Documents that are one string, printed behind a quote mark. *)
Definition from_slice (b : bytes) : option json := JString <$> strip_prefix [34] b.
Definition to_vec (j : json) : option bytes :=
  match j with JString s => Some (34 :: s) | _ => None end.

#[export] Instance json_text : JsonText from_slice to_vec.
Proof. split; [|done]. intros j b Hb. destruct j; by simplify_eq/=. Qed.

(** A change that marks the strings of every route with a letter. *)
Definition marked (v : ApiVersion) (c : char) : Transform := {|
  t_version := v;
  applies_to _ _ := true;
  t_downgrade_response j :=
    match j with JString s => JString (unwrap_or (strip_prefix [c] s) s) | _ => j end;
  t_upgrade_request j := match j with JString s => JString (c :: s) | _ => j end;
|}.
Definition v1 := mkApiVersion 2024 1 31.
Definition v2 := mkApiVersion 2024 2 29.
Definition v3 := mkApiVersion 2025 6 1.
Definition changes := [marked v3 99; marked v2 98].
Definition ctx : ApiVersionContext :=
  mkContext (lit "x-demo-api-version") v3 v1 v1 DEFAULT_MAX_BODY_BYTES (registry_of changes).
Definition json_header : HeaderMap := [(CONTENT_TYPE, lit "application/json")].
(** A handler that sends back the body it was given. *)
Definition echo (r : Request) : Response := mkResponse 200 json_header (req_body r).
Definition req : Request :=
  mkRequest (lit "GET") (lit "/a") None (json_header ++ [(lit "x-demo-api-version", lit "2024-01-31")])
    None None (Full (34 :: lit "hi")).
End Demo.

(** ** Properties *)

(** [ApiVersion]'s derived (field by field) order is the calendar order:
    two versions that exist compare as their day counts do, with leap years
    and month lengths taken into account. *)
Theorem version_order_is_chronological a b :
  valid a -> valid b -> version_compare a b = Z.compare (day_number a) (day_number b).
Proof. apply version_compare_spec. Qed.

Lemma version_order_is_chronological_witness :
  version_compare Demo.v2 Demo.v3 = Z.compare (day_number Demo.v2) (day_number Demo.v3).
Proof. apply version_order_is_chronological; vm_compute; intuition discriminate. Defined.

(** Parsing is the inverse of printing, both ways: a string is accepted
    as the version [v] exactly when [v] is a date that exists, has a year of
    at most four digits and prints as that string.  In particular no other
    spelling of a date (unpadded, signed, trailing text) is accepted. *)
Theorem api_version_round_trip raw v :
  from_str raw = Ok v <-> valid v /\ year v <= 9999 /\ to_string v = raw.
Proof.
  split; [apply from_str_inv|]. intros (Hv & Hy & <-). by apply from_str_to_string.
Qed.

(** Finding: [from_ymd] takes any [u16] year, and a year past 9999 prints with
    five digits, which [from_str] refuses: such a version does not survive the
    header it is echoed in. *)
Theorem five_digit_year_not_readable :
  exists v, from_ymd 10000 1 1 = Some v /\ valid v /\ from_str (to_string v) = Err Malformed.
Proof.
  exists (mkApiVersion 10000 1 1). split; [done|]. split; [|done].
  unfold valid, u16_max; simpl; unfold days_in_month; simpl; lia.
Qed.

(** The registry is a sorted permutation of what was registered, and when
    the registered versions are distinct it does not depend on the order of
    the registrations. *)
Theorem registration_order_irrelevant l1 l2 :
  l1 ≡ₚ l2 -> NoDup (t_version <$> l1) ->
  registry_of l1 = registry_of l2
  /\ StronglySorted version_order (registry_of l1) /\ registry_of l1 ≡ₚ l1.
Proof. intros Hp Hn. split; [by apply registry_unique|apply registry_of_spec]. Qed.

Lemma registration_order_irrelevant_witness :
  registry_of Demo.changes = registry_of (reverse Demo.changes).
Proof.
  apply registration_order_irrelevant; [symmetry; apply reverse_Permutation|].
  apply (bool_decide_unpack _). vm_compute. exact I.
Defined.

(** Finding: two changes that carry the same version are applied in the order they
    were registered in, so that order does matter then, although the
    documentation of [with] says that it does not. *)
Theorem same_version_order_matters :
  exists a b j,
    t_version a = t_version b
    /\ downgrade_response (registry_of [a; b]) Demo.v1 (lit "/a") (lit "GET") j
       <> downgrade_response (registry_of [b; a]) Demo.v1 (lit "/a") (lit "GET") j.
Proof.
  exists (Demo.marked Demo.v2 97), (Demo.marked Demo.v2 98), (JString (lit "ab")). split; [done|].
  vm_compute. discriminate.
Qed.

(** The walks factor through every version in between.  Going back from
    the current shape to [p] is going back to a later [q] first and then undoing
    exactly the changes up to [q]; going forward from [p] is going forward to
    [q] and then on.  A pin older than every change therefore never sees the
    changes in another order. *)
Theorem walks_factor_through_versions l p q route m b :
  version_leb p q = true ->
  downgrade_response (registry_of l) p route m b
  = downgrade_response (up_to q (registry_of l)) p route m (downgrade_response (registry_of l) q route m b)
  /\ upgrade_request (registry_of l) p route m b
     = upgrade_request (registry_of l) q route m (upgrade_request (up_to q (registry_of l)) p route m b).
Proof.
  intros Hpq. destruct (registry_of_spec l) as [Hs _].
  split; [by apply downgrade_split|by apply upgrade_split].
Qed.

Lemma walks_factor_through_versions_witness :
  downgrade_response (registry_of Demo.changes) Demo.v1 (lit "/a") (lit "GET") (JString (lit "cbx"))
  = JString (lit "x")
  /\ downgrade_response (up_to Demo.v2 (registry_of Demo.changes)) Demo.v1 (lit "/a") (lit "GET")
       (downgrade_response (registry_of Demo.changes) Demo.v2 (lit "/a") (lit "GET") (JString (lit "cbx")))
     = JString (lit "x").
Proof.
  split; [vm_compute; reflexivity|].
  rewrite <- (proj1 (walks_factor_through_versions Demo.changes Demo.v1 Demo.v2 (lit "/a") (lit "GET")
    (JString (lit "cbx")) eq_refl)). vm_compute. reflexivity.
Defined.

(** When every registered change undoes on responses what it does to
    requests, a document sent at an old version and echoed back reaches the
    caller unchanged, whatever was registered in whatever order. *)
Theorem downgrade_inverts_upgrade l p route m b :
  Forall (fun t => forall j, t_downgrade_response t (t_upgrade_request t j) = j) l ->
  downgrade_response (registry_of l) p route m (upgrade_request (registry_of l) p route m b) = b.
Proof.
  intros Hl. apply downgrade_upgrade. destruct (registry_of_spec l) as [_ Hp]. by rewrite Hp.
Qed.

Lemma downgrade_inverts_upgrade_witness :
  downgrade_response (registry_of Demo.changes) Demo.v1 (lit "/a") (lit "GET")
    (upgrade_request (registry_of Demo.changes) Demo.v1 (lit "/a") (lit "GET") (JString (lit "x")))
  = JString (lit "x").
Proof. apply downgrade_inverts_upgrade. repeat constructor; intros []; done. Defined.

(** Finding: the sunset boundary is only enforced on the header.  A pin older than
    [oldest_supported] is served, although the documentation of [new] says
    that anything older is gone. *)
Theorem pin_bypasses_sunset :
  exists (c : ApiVersionContext) (pin : ApiVersion),
    @context_new visible_http (lit "x-demo-api-version") Demo.v3 Demo.v2 = Ok c
    /\ version_ltb pin (oldest_supported c) = true
    /\ @resolve visible_http c [] (Some pin) = Ok pin
    /\ @resolve visible_http c [(lit "x-demo-api-version", to_string pin)] None = Err (Sunset pin (oldest_supported c)).
Proof. eexists _, Demo.v1. split; [vm_compute; reflexivity|]. vm_compute. done. Qed.

(** C5: a caller is never shown a shape other than the one it speaks.  When
    the middleware answers at all, it resolved some version [v], names [v] in
    the served header, and ran the handler on a request that carries [v]; a
    JSON document of the caller reaches the handler upgraded from [v], and a
    JSON document of the handler reaches the caller downgraded to [v], with
    the content length of the bytes sent when it was rewritten. *)
Theorem negotiate_serves_one_version `{HttpPackageLaws} from_slice to_vec `{!JsonText from_slice to_vec}
    ctx next req res :
  valid (default ctx) -> (forall p, ext_pinned req = Some p -> valid p) ->
  negotiate from_slice to_vec ctx next req = Ok res ->
  exists v req',
    resolve ctx (req_headers req) (ext_pinned req) = Ok v
    /\ header_get SERVED_HEADER (res_headers res) = Some (to_string v)
    /\ ext_version req' = Some v
    /\ (forall j, document from_slice (req_headers req) (req_body req) = Some j ->
        document from_slice (req_headers req') (req_body req')
        = Some (upgrade_request (registry ctx) v (route_of req) (req_method req) j))
    /\ (forall j, document from_slice (res_headers (next req')) (res_body (next req')) = Some j ->
        document from_slice (res_headers res) (res_body res)
        = Some (downgrade_response (registry ctx) v (route_of req) (req_method req) j)
        /\ (touches (registry ctx) v (route_of req) (req_method req) = true ->
            exists b, res_body res = Full b
              /\ header_get CONTENT_LENGTH (res_headers res) = Some (show_u (Z.of_nat (length b))))).
Proof.
  intros Hd Hp. unfold negotiate. intros (v & Hv & Hn)%result_bind_Ok.
  assert (Hserved : forall r, header_get SERVED_HEADER (res_headers (with_served_header v r)) = Some (to_string v)).
  { intros r. simpl. rewrite header_get_insert. unfold response_header.
    by rewrite header_value_from_str_visible by (eapply to_string_visible, resolve_valid; eauto). }
  exists v. destruct (touches _ _ _ _) eqn:Et; simpl in Hn.
  - apply result_bind_Ok in Hn as (req' & Hreq & Hn). apply result_bind_Ok in Hn as (res' & Hres & [= <-]).
    exists req'. split; [done|]. split; [apply Hserved|]. split; [|split].
    + unfold rewrite_request in Hreq.
      destruct (negb _); simplify_eq; [done|]. apply result_bind_Ok in Hreq as (bs & _ & Hreq).
      repeat (case_match; simplify_eq/=; try done).
      by apply result_bind_Ok in Hreq as (? & _ & [= <-]).
    + intros j Hj. by eapply rewrite_request_document in Hreq.
    + intros j Hj. destruct (rewrite_response_document _ _ _ _ _ _ _ _ _ Hres Hj) as [H1 (b & H2 & H3)].
      unfold document in *. rewrite served_header_json. split; [done|]. intros _.
      exists b. split; [done|]. simpl. by rewrite header_get_insert_ne.
  - injection Hn as <-. exists (set_version v req). split; [done|]. split; [apply Hserved|]. split; [done|].
    split.
    + intros j Hj. by rewrite untouched_upgrade.
    + intros j Hj. rewrite untouched_downgrade by done. unfold document in *.
      rewrite served_header_json. done.
Qed.

Lemma negotiate_serves_one_version_witness :
  exists res,
    @negotiate visible_http Demo.from_slice Demo.to_vec Demo.ctx Demo.echo Demo.req = Ok res
    /\ header_get SERVED_HEADER (res_headers res) = Some (lit "2024-01-31").
Proof.
  eexists. split; [vm_compute; reflexivity|].
  destruct (@negotiate_serves_one_version visible_http visible_http_laws Demo.from_slice Demo.to_vec Demo.json_text
    Demo.ctx Demo.echo Demo.req
    (mkResponse 200 [(CONTENT_TYPE, lit "application/json"); (CONTENT_LENGTH, lit "3"); (SERVED_HEADER, lit "2024-01-31")]
      (Full (34 :: lit "hi"))))
    as (v & req' & Hv & Hs & _).
  - vm_compute. intuition discriminate.
  - done.
  - vm_compute. reflexivity.
  - reflexivity.
Defined.
