(* ===== verification/SerdeJson.v ===== *)
(** * JSON text (RFC 8259, [serde_json])

    The crates read and print JSON through [serde_json], which the models of
    the crates take as a parameter.  This file has a printer and a reader of
    the published grammar over the values of [Json], so that the parameter can
    be instantiated by functions on real text: what is printed reads back, and
    the laws the API-version layer assumes of the package are proved of them.
    Numbers with a fraction or an exponent are left out: the printer and the
    reader refuse them. *)

From S2P Require Import Prelude RustStr Json ApiVersion.

(** ** UTF-8 *)

(** A Unicode scalar value. *)
Definition is_scalar (c : char) : bool := in_range 0 55295 c || in_range 57344 1114111 c.
Definition continuation (b : Z) : option Z := if in_range 128 191 b then Some (b - 128) else None.
Definition scalar_above (lo c : Z) : option char := if (lo <=? c) && is_scalar c then Some c else None.

(** [str::from_utf8]: an overlong form, a surrogate or a stray byte is
    refused. *)
Fixpoint from_utf8 (b : bytes) : option str :=
  match b with
  | [] => Some []
  | x :: b =>
      if in_range 0 127 x then cons x <$> from_utf8 b
      else if in_range 192 223 x then
        match b with
        | y :: b => y ← continuation y; c ← scalar_above 128 ((x - 192) * 64 + y); cons c <$> from_utf8 b
        | _ => None
        end
      else if in_range 224 239 x then
        match b with
        | y :: z :: b =>
            y ← continuation y; z ← continuation z;
            c ← scalar_above 2048 (((x - 224) * 64 + y) * 64 + z); cons c <$> from_utf8 b
        | _ => None
        end
      else if in_range 240 247 x then
        match b with
        | y :: z :: w :: b =>
            y ← continuation y; z ← continuation z; w ← continuation w;
            c ← scalar_above 65536 ((((x - 240) * 64 + y) * 64 + z) * 64 + w); cons c <$> from_utf8 b
        | _ => None
        end
      else None
  end.

(** ** Printing *)

Definition escape (c : char) : str :=
  if c =? 34 then [92; 34]
  else if c =? 92 then [92; 92]
  else if c =? 8 then [92; 98]
  else if c =? 12 then [92; 102]
  else if c =? 10 then [92; 110]
  else if c =? 13 then [92; 114]
  else if c =? 9 then [92; 116]
  else if c <? 32 then [92; 117; 48; 48; hex_digit (c / 16); hex_digit (c mod 16)]
  else [c].
Definition print_string (s : str) : str := 34 :: flat_map escape s ++ [34].

(** The parts, separated by commas. *)
Definition commas (l : list str) : str :=
  match l with [] => [] | x :: l => x ++ flat_map (fun y => 44 :: y) l end.
Fixpoint print (v : json) : str :=
  match v with
  | JNull => lit "null"
  | JBool b => if b then lit "true" else lit "false"
  | JInt n => show_i n
  | JFloat _ => []
  | JString s => print_string s
  | JArray l => 91 :: commas (List.map print l) ++ [93]
  | JObject fs => 123 :: commas (List.map (fun kv => print_string kv.1 ++ 58 :: print kv.2) fs) ++ [125]
  end.

(** The values a [Value] of this model's kind can hold: characters are scalar
    values, integers are those of [i64] and [u64]. *)
Fixpoint printable (v : json) : bool :=
  match v with
  | JNull | JBool _ => true
  | JInt n => in_range i64_min u64_max n
  | JFloat _ => false
  | JString s => forallb is_scalar s
  | JArray l => forallb printable l
  | JObject fs => forallb (fun kv => forallb is_scalar kv.1 && printable kv.2) fs
  end.

(** ** Reading *)

Definition is_json_space (c : char) : bool := (c =? 32) || (c =? 9) || (c =? 10) || (c =? 13).
Definition skip : str -> str := drop_while is_json_space.

Fixpoint span (p : char -> bool) (s : str) : str * str :=
  match s with
  | c :: s' => if p c then let '(l, r) := span p s' in (c :: l, r) else ([], s)
  | [] => ([], [])
  end.

(** Digits are read where they are the number's own rendering: no zero in
    front.  A minus zero is a fraction to [serde_json]. *)
Definition read_number (s : str) : option (json * str) :=
  let '(negative, s) := match strip_prefix [45] s with Some s => (true, s) | None => (false, s) end in
  let '(ds, rest) := span is_ascii_digit s in
  n ← parse_nat ds;
  if negb (show_u n =s ds) || (negative && (n =? 0)) then None
  else if match rest with c :: _ => (c =? 46) || (c =? 69) || (c =? 101) | [] => false end then None
  else
    let n := if negative then - n else n in
    if in_range i64_min u64_max n then Some (JInt n, rest) else None.

Definition unescape (e : char) : option char :=
  if (e =? 34) || (e =? 92) || (e =? 47) then Some e
  else if e =? 98 then Some 8
  else if e =? 102 then Some 12
  else if e =? 110 then Some 10
  else if e =? 114 then Some 13
  else if e =? 116 then Some 9
  else None.
Definition hex4 (a b c d : char) : option Z :=
  a ← hex_val a; b ← hex_val b; c ← hex_val c; d ← hex_val d; Some (((a * 16 + b) * 16 + c) * 16 + d).

(** The characters up to the closing quote. *)
Fixpoint read_chars (s : str) : option (str * str) :=
  match s with
  | [] => None
  | c :: s =>
      if c =? 34 then Some ([], s)
      else if c =? 92 then
        match s with
        | [] => None
        | e :: s =>
            match unescape e with
            | Some d => '(t, r) ← read_chars s; Some (d :: t, r)
            | None =>
                if negb (e =? 117) then None
                else
                  match s with
                  | a :: b :: c :: d :: s =>
                      u ← hex4 a b c d;
                      if in_range 55296 56319 u then
                        match s with
                        | q :: v :: a :: b :: c :: d :: s =>
                            low ← hex4 a b c d;
                            if (q =? 92) && (v =? 117) && in_range 56320 57343 low then
                              '(t, r) ← read_chars s; Some (65536 + (u - 55296) * 1024 + (low - 56320) :: t, r)
                            else None
                        | _ => None
                        end
                      else if in_range 56320 57343 u then None
                      else '(t, r) ← read_chars s; Some (u :: t, r)
                  | _ => None
                  end
            end
        end
      else if c <? 32 then None
      else '(t, r) ← read_chars s; Some (c :: t, r)
  end.

(** A value, the elements of an array up to its bracket, the members of an
    object up to its brace.  The length of the text is fuel enough. *)
Fixpoint read_value (fuel : nat) (s : str) {struct fuel} : option (json * str) :=
  match fuel with
  | O => None
  | S fuel =>
      match skip s with
      | [] => None
      | c :: s' =>
          if c =? 34 then '(t, r) ← read_chars s'; Some (JString t, r)
          else if c =? 91 then
            match skip s' with
            | d :: r => if d =? 93 then Some (JArray [], r) else '(l, r) ← read_elements fuel s'; Some (JArray l, r)
            | [] => None
            end
          else if c =? 123 then
            match skip s' with
            | d :: r => if d =? 125 then Some (JObject [], r) else '(l, r) ← read_members fuel s'; Some (JObject l, r)
            | [] => None
            end
          else if c =? 110 then pair JNull <$> strip_prefix (lit "ull") s'
          else if c =? 116 then pair (JBool true) <$> strip_prefix (lit "rue") s'
          else if c =? 102 then pair (JBool false) <$> strip_prefix (lit "alse") s'
          else read_number (c :: s')
      end
  end
with read_elements (fuel : nat) (s : str) {struct fuel} : option (list json * str) :=
  match fuel with
  | O => None
  | S fuel =>
      '(v, r) ← read_value fuel s;
      match skip r with
      | c :: r =>
          if c =? 44 then '(l, r) ← read_elements fuel r; Some (v :: l, r)
          else if c =? 93 then Some ([v], r) else None
      | [] => None
      end
  end
with read_members (fuel : nat) (s : str) {struct fuel} : option (list (str * json) * str) :=
  match fuel with
  | O => None
  | S fuel =>
      s ← strip_prefix [34] (skip s);
      '(k, r) ← read_chars s;
      r ← strip_prefix [58] (skip r);
      '(v, r) ← read_value fuel r;
      match skip r with
      | c :: r =>
          if c =? 44 then '(l, r) ← read_members fuel r; Some ((k, v) :: l, r)
          else if c =? 125 then Some ([(k, v)], r) else None
      | [] => None
      end
  end.

(** [serde_json::from_str], [from_slice] and [to_vec]. *)
Definition from_str (s : str) : option json :=
  '(v, r) ← read_value (length s) s; if bool_decide (skip r = []) then Some v else None.
Definition from_slice (b : bytes) : option json := s ← from_utf8 b; from_str s.
Definition to_vec (v : json) : option bytes := if printable v then Some (as_bytes (print v)) else None.

(** ** Lemmas *)

Lemma in_range_false lo hi x : in_range lo hi x = false <-> x < lo \/ hi < x.
Proof. rewrite <- not_true_iff_false, in_range_spec. lia. Qed.
Lemma is_scalar_spec c : is_scalar c = true <-> 0 <= c <= 55295 \/ 57344 <= c <= 1114111.
Proof. unfold is_scalar. by rewrite orb_true_iff, !in_range_spec. Qed.

Lemma continuation_low n : 0 <= n < 64 -> continuation (128 + n) = Some n.
Proof. intros Hn. unfold continuation. rewrite (proj2 (in_range_spec _ _ _)) by lia. f_equal. lia. Qed.
Lemma scalar_above_scalar lo c : lo <= c -> is_scalar c = true -> scalar_above lo c = Some c.
Proof. intros Hlo Hc. unfold scalar_above. by rewrite (proj2 (Z.leb_le _ _)), Hc by done. Qed.

(** Which of the reader's branches a leading byte takes. *)
Ltac byte_class :=
  repeat match goal with
  | |- context [in_range ?lo ?hi ?x] =>
      first [rewrite (proj2 (in_range_spec lo hi x)) by lia | rewrite (proj2 (in_range_false lo hi x)) by lia]
  end.

Lemma from_utf8_char c b : is_scalar c = true -> from_utf8 (utf8_char c ++ b) = cons c <$> from_utf8 b.
Proof.
  intros Hs. pose proof (proj1 (is_scalar_spec c) Hs) as Hr. unfold utf8_char.
  change 63 with (Z.ones 6). rewrite !Z.land_ones, !Z.shiftr_div_pow2 by lia.
  change (2 ^ 6) with 64. change (2 ^ 12) with (64 * 64). change (2 ^ 18) with (64 * 64 * 64).
  rewrite <- !Z.div_div by lia.
  pose proof (Z.div_mod c 64 ltac:(lia)). pose proof (Z.mod_pos_bound c 64 ltac:(lia)).
  pose proof (Z.div_mod (c / 64) 64 ltac:(lia)). pose proof (Z.mod_pos_bound (c / 64) 64 ltac:(lia)).
  pose proof (Z.div_mod (c / 64 / 64) 64 ltac:(lia)). pose proof (Z.mod_pos_bound (c / 64 / 64) 64 ltac:(lia)).
  destruct (Z.ltb_spec c 128); [|destruct (Z.ltb_spec c 2048); [|destruct (Z.ltb_spec c 65536)]];
    cbn [app from_utf8]; byte_class; rewrite ?continuation_low by lia; simpl; try done.
  - replace (_ + c mod 64) with c by lia. by rewrite scalar_above_scalar.
  - replace (_ + c mod 64) with c by lia. by rewrite scalar_above_scalar.
  - replace (_ + c mod 64) with c by lia. by rewrite scalar_above_scalar.
Qed.

Lemma from_utf8_as_bytes s : forallb is_scalar s = true -> from_utf8 (as_bytes s) = Some s.
Proof.
  induction s as [|c s IH]; [done|]. cbn [forallb as_bytes flat_map]. intros [Hc Hs]%andb_true_iff.
  rewrite from_utf8_char by done. change (flat_map utf8_char s) with (as_bytes s). by rewrite IH.
Qed.

Lemma read_chars_escape c s :
  is_scalar c = true -> read_chars (escape c ++ s) = '(t, r) ← read_chars s; Some (c :: t, r).
Proof.
  intros Hc%is_scalar_spec. unfold escape.
  destruct (Z.eqb_spec c 34) as [->|]; [done|]. destruct (Z.eqb_spec c 92) as [->|]; [done|].
  destruct (Z.eqb_spec c 8) as [->|]; [done|]. destruct (Z.eqb_spec c 12) as [->|]; [done|].
  destruct (Z.eqb_spec c 10) as [->|]; [done|]. destruct (Z.eqb_spec c 13) as [->|]; [done|].
  destruct (Z.eqb_spec c 9) as [->|]; [done|]. destruct (Z.ltb_spec c 32).
  - cbn [app read_chars]. change (unescape 117) with (@None Z). cbn [Z.eqb Pos.eqb negb].
    unfold hex4. rewrite !hex_val_digit by (split; [apply Z.div_pos || apply Z.mod_pos_bound|apply Z.div_lt_upper_bound || apply Z.mod_pos_bound]; lia).
    change (hex_val 48) with (Some 0). cbn [mbind option_bind].
    replace (_ + c mod 16) with c by (pose proof (Z.div_mod c 16); lia). by byte_class.
  - cbn [app read_chars]. rewrite (proj2 (Z.eqb_neq c 34)), (proj2 (Z.eqb_neq c 92)), (proj2 (Z.ltb_ge c 32)) by lia. done.
Qed.

Lemma read_chars_print s rest :
  forallb is_scalar s = true -> read_chars (flat_map escape s ++ 34 :: rest) = Some (s, rest).
Proof.
  induction s as [|c s IH]; [done|]. cbn [forallb flat_map]. intros [Hc Hs]%andb_true_iff.
  by rewrite <- app_assoc, read_chars_escape, IH.
Qed.

Lemma span_digits ds rest :
  Forall (fun c => is_ascii_digit c = true) ds ->
  match rest with c :: _ => is_ascii_digit c = false | [] => True end ->
  span is_ascii_digit (ds ++ rest) = (ds, rest).
Proof.
  intros Hd Hr. induction Hd as [|d ds Hd _ IH]; cbn [app span].
  - destruct rest as [|c rest]; [done|]. cbn [span]. by rewrite Hr.
  - by rewrite Hd, IH.
Qed.

(** What follows a value inside a document. *)
Definition ends (rest : str) : Prop :=
  match rest with c :: _ => c = 44 \/ c = 93 \/ c = 125 | [] => True end.

Lemma ends_not_digit rest : ends rest -> match rest with c :: _ => is_ascii_digit c = false | [] => True end.
Proof. destruct rest as [|c rest]; [done|]. by intros [->|[->| ->]]. Qed.

Lemma read_number_show n rest :
  in_range i64_min u64_max n = true -> ends rest -> read_number (show_i n ++ rest) = Some (JInt n, rest).
Proof.
  intros Hn He. pose proof (ends_not_digit rest He) as Hd.
  assert (Hr : match rest with c :: _ => (c =? 46) || (c =? 69) || (c =? 101) | [] => false end = false)
    by (destruct rest as [|c rest]; [done|]; by destruct He as [->|[->| ->]]).
  unfold read_number, show_i. destruct (Z.ltb_spec n 0).
  - cbn [app strip_prefix]. rewrite Z.eqb_refl, span_digits by (done || apply show_u_numeral; lia).
    rewrite parse_nat_show_u by lia. cbn [mbind option_bind]. rewrite str_eqb_refl, Hr, (proj2 (Z.eqb_neq (- n) 0)) by lia.
    cbn [negb orb andb]. by rewrite Z.opp_involutive, Hn.
  - assert (Hs : strip_prefix [45] (show_u n ++ rest) = None).
    { pose proof (show_u_no_sign n 45 ltac:(lia) ltac:(lia)) as Hs. destruct (show_u_numeral n) as [Hne _ _ _]; [lia|].
      destruct (show_u n) as [|d s]; [done|]. cbn [app strip_prefix] in *. by destruct (45 =? d). }
    rewrite Hs, span_digits by (done || apply show_u_numeral; lia).
    rewrite parse_nat_show_u by lia. cbn [mbind option_bind]. rewrite str_eqb_refl, Hr. cbn [negb orb andb]. by rewrite Hn.
Qed.

(** The first character of a value. *)
Definition opens (c : char) : Prop := is_json_space c = false /\ c <> 93 /\ c <> 125.
Lemma digit_opens c : is_ascii_digit c = true -> opens c /\ in_range 45 57 c = true.
Proof.
  unfold is_ascii_digit. intros H%in_range_spec. split; [|apply in_range_spec; lia]. split; [|lia].
  unfold is_json_space. by rewrite !(proj2 (Z.eqb_neq c _)) by lia.
Qed.
Lemma show_i_head n : exists c s, show_i n = c :: s /\ opens c /\ in_range 45 57 c = true.
Proof.
  unfold show_i. destruct (Z.ltb_spec n 0); [by exists 45, (show_u (- n))|].
  destruct (show_u_numeral n) as [Hne Hd _ _]; [done|]. destruct (show_u n) as [|c s]; [done|].
  exists c, s. split; [done|]. apply digit_opens. by inversion Hd.
Qed.
Lemma print_head v : printable v = true -> exists c s, print v = c :: s /\ opens c.
Proof.
  destruct v as [|b|n|bits|s|l|fs]; cbn [printable print]; intros Hp; [|destruct b| |done|..];
    try (eexists _, _; split; [reflexivity|done]).
  destruct (show_i_head n) as (c & s & -> & Hc & _). eauto.
Qed.

Lemma skip_opens c s : opens c -> skip (c :: s) = c :: s.
Proof. intros [Hc _]. unfold skip. cbn [drop_while]. by rewrite Hc. Qed.
Lemma skip_ends rest : ends rest -> skip rest = rest.
Proof. destruct rest as [|c rest]; [done|]. by intros [->|[->| ->]]. Qed.

Lemma commas_cons x y l : commas (x :: y :: l) = x ++ 44 :: commas (y :: l).
Proof. done. Qed.

(** A reader with this fuel reads back every value whose text is no longer. *)
Definition reads (fuel : nat) : Prop :=
  forall v rest, printable v = true -> (length (print v) <= fuel)%nat -> ends rest ->
    read_value fuel (print v ++ rest) = Some (v, rest).

Lemma read_elements_print fuel l rest :
  (forall g, (g < fuel)%nat -> reads g) -> l <> [] -> forallb printable l = true ->
  (length (commas (List.map print l)) < fuel)%nat ->
  read_elements fuel (commas (List.map print l) ++ 93 :: rest) = Some (l, rest).
Proof.
  revert fuel. induction l as [|v [|w l] IH]; intros [|fuel] Hr Hn Hp Hf; [done|done|lia| |lia|];
    cbn [forallb] in Hp; apply andb_true_iff in Hp as [Hv Hl]; cbn [read_elements].
  - cbn [List.map commas flat_map] in *. rewrite app_nil_r in *.
    rewrite (Hr fuel ltac:(lia) v (93 :: rest)); [done|done|lia|simpl; auto].
  - cbn [List.map] in *. rewrite commas_cons in *. rewrite length_app in Hf. cbn [length] in Hf.
    rewrite <- app_assoc. cbn [app]. rewrite (Hr fuel ltac:(lia) v); [|done|lia|simpl; auto].
    cbn [mbind option_bind]. rewrite skip_ends by (simpl; auto). cbn [Z.eqb Pos.eqb].
    rewrite IH; [done| |done|done|lia]. intros g Hg. apply Hr. lia.
Qed.

Definition print_member (kv : str * json) : str := print_string kv.1 ++ 58 :: print kv.2.
Lemma print_member_app k v rest :
  print_member (k, v) ++ rest = 34 :: flat_map escape k ++ 34 :: 58 :: print v ++ rest.
Proof. unfold print_member, print_string. cbn [fst snd app]. by rewrite <- !app_assoc. Qed.
Lemma print_member_length k v : (length (print v) < length (print_member (k, v)))%nat.
Proof. unfold print_member, print_string. cbn [fst snd app length]. rewrite !length_app. cbn [length]. lia. Qed.

Lemma read_members_print fuel fs rest :
  (forall g, (g < fuel)%nat -> reads g) -> fs <> [] ->
  forallb (fun kv => forallb is_scalar kv.1 && printable kv.2) fs = true ->
  (length (commas (List.map print_member fs)) < fuel)%nat ->
  read_members fuel (commas (List.map print_member fs) ++ 125 :: rest) = Some (fs, rest).
Proof.
  revert fuel. induction fs as [|[k v] fs IH]; intros [|fuel] Hr Hn Hp Hf; [done|done|lia|].
  cbn [forallb fst snd] in Hp. apply andb_true_iff in Hp as [[Hk Hv]%andb_true_iff Hl].
  pose proof (print_member_length k v) as Hlen.
  assert (Hread : forall tail, ends tail -> (length (print v) <= fuel)%nat ->
    read_members (S fuel) (print_member (k, v) ++ tail) =
      match tail with
      | c :: r => if c =? 44 then '(l, r) ← read_members fuel r; Some ((k, v) :: l, r)
                  else if c =? 125 then Some ([(k, v)], r) else None
      | [] => None
      end).
  { intros tail Ht Hle. rewrite print_member_app. cbn [read_members]. rewrite skip_opens by done.
    cbn [strip_prefix]. rewrite Z.eqb_refl. cbn [mbind option_bind]. rewrite read_chars_print by done.
    cbn [mbind option_bind]. rewrite skip_opens by done. cbn [strip_prefix]. rewrite Z.eqb_refl. cbn [mbind option_bind].
    rewrite (Hr fuel ltac:(lia) v tail) by done. cbn [mbind option_bind]. by rewrite skip_ends. }
  destruct fs as [|m fs]; cbn [List.map] in *.
  - cbn [commas flat_map] in *. rewrite app_nil_r in *. rewrite Hread; [done|simpl; auto|lia].
  - rewrite commas_cons in *. rewrite length_app in Hf. cbn [length] in Hf.
    rewrite <- app_assoc. cbn [app]. rewrite Hread; [|simpl; auto|lia]. cbn [Z.eqb Pos.eqb].
    rewrite IH; [done| |done|done|lia]. intros g Hg. apply Hr. lia.
Qed.

Lemma read_value_number fuel c s :
  in_range 45 57 c = true -> read_value (S fuel) (c :: s) = read_number (c :: s).
Proof.
  intros Hc%in_range_spec. cbn [read_value]. rewrite skip_opens.
  - by rewrite !(proj2 (Z.eqb_neq c _)) by lia.
  - split; [|lia]. unfold is_json_space. by rewrite !(proj2 (Z.eqb_neq c _)) by lia.
Qed.

Lemma read_value_print fuel : reads fuel.
Proof.
  induction fuel as [fuel IH] using lt_wf_ind. intros v rest Hp Hf He.
  destruct fuel as [|fuel].
  { destruct (print_head v Hp) as (c & s & E & _). rewrite E in Hf. simpl in Hf. lia. }
  assert (IH' : forall g, (g < fuel)%nat -> reads g) by (intros g Hg; apply IH; lia).
  destruct v as [|b|n|bits|s|l|fs]; [done|by destruct b| |done|..].
  - destruct (show_i_head n) as (c & s & E & _ & Hc). cbn [print]. rewrite <- read_number_show by done.
    rewrite E. by apply read_value_number.
  - cbn [print print_string app]. rewrite <- app_assoc. cbn [app read_value]. rewrite skip_opens by done.
    cbn [Z.eqb Pos.eqb]. by rewrite read_chars_print.
  - cbn [print printable] in *. cbn [length] in Hf. rewrite length_app in Hf. cbn [length] in Hf.
    cbn [app read_value]. rewrite skip_opens, <- app_assoc by done. cbn [app Z.eqb Pos.eqb].
    destruct l as [|v l]; [done|].
    rewrite read_elements_print by (done || lia).
    cbn [forallb] in Hp. apply andb_true_iff in Hp as [(c & s & E & Ho)%print_head _].
    cbn [List.map commas]. rewrite E. cbn [app]. rewrite skip_opens by done.
    by rewrite (proj2 (Z.eqb_neq c 93)) by apply Ho.
  - cbn [print printable] in *. change (fun kv => print_string kv.1 ++ 58 :: print kv.2) with print_member in *.
    cbn [length] in Hf. rewrite length_app in Hf. cbn [length] in Hf.
    cbn [app read_value]. rewrite skip_opens, <- app_assoc by done. cbn [app Z.eqb Pos.eqb].
    destruct fs as [|[k v] fs]; [done|]. rewrite read_members_print by (done || lia). done.
Qed.

(** Text that was printed reads back. *)
Lemma from_str_print v : printable v = true -> from_str (print v) = Some v.
Proof.
  intros Hp. unfold from_str. pose proof (read_value_print (length (print v)) v [] Hp ltac:(lia) I) as H.
  rewrite app_nil_r in H. by rewrite H.
Qed.

(** Induction over documents. *)
Section Induction.
Context (P : json -> Prop) (Hnull : P JNull) (Hbool : forall b, P (JBool b)) (Hint : forall n, P (JInt n))
  (Hfloat : forall bits, P (JFloat bits)) (Hstring : forall s, P (JString s))
  (Harray : forall l, Forall P l -> P (JArray l)) (Hobject : forall fs, Forall (fun kv => P kv.2) fs -> P (JObject fs)).
Fixpoint json_induction (v : json) : P v :=
  match v with
  | JNull => Hnull
  | JBool b => Hbool b
  | JInt n => Hint n
  | JFloat bits => Hfloat bits
  | JString s => Hstring s
  | JArray l =>
      Harray l ((fix go l : Forall P l :=
        match l with [] => List.Forall_nil _ | v :: l => List.Forall_cons _ _ _ (json_induction v) (go l) end) l)
  | JObject fs =>
      Hobject fs ((fix go fs : Forall (fun kv => P kv.2) fs :=
        match fs with [] => List.Forall_nil _ | kv :: fs => List.Forall_cons _ _ _ (json_induction kv.2) (go fs) end) fs)
  end.
End Induction.

Abbreviation text s := (Forall (fun c => is_scalar c = true) s).
Lemma forallb_text s : forallb is_scalar s = true <-> text s.
Proof. rewrite forallb_forall, Forall_forall. by setoid_rewrite list_elem_of_In. Qed.
Lemma low_text c : 0 <= c < 128 -> is_scalar c = true.
Proof. intros Hc. apply is_scalar_spec. lia. Qed.
Lemma digits_text s : Forall (fun c => is_ascii_digit c = true) s -> text s.
Proof.
  intros Hs. eapply Forall_impl; [exact Hs|]. unfold is_ascii_digit. intros c Hc%in_range_spec. apply low_text. lia.
Qed.
Lemma show_i_text n : text (show_i n).
Proof.
  unfold show_i. destruct (Z.ltb_spec n 0).
  - constructor; [done|]. apply digits_text, show_u_numeral. lia.
  - apply digits_text, show_u_numeral. lia.
Qed.
Lemma escape_text c : is_scalar c = true -> text (escape c).
Proof.
  intros Hc. unfold escape. repeat case_match; repeat constructor; bool_simp; try done.
  all: apply is_scalar_spec in Hc; apply low_text.
  - pose proof (Z.div_pos c 16). assert (c / 16 < 16) by (apply Z.div_lt_upper_bound; lia). unfold hex_digit. case_match; bool_simp; lia.
  - pose proof (Z.mod_pos_bound c 16). unfold hex_digit. case_match; bool_simp; lia.
Qed.
Lemma print_string_text s : text s -> text (print_string s).
Proof.
  intros Hs. constructor; [done|]. apply Forall_app. split; [|by repeat constructor].
  induction Hs as [|c s Hc Hs IH]; [constructor|]. apply Forall_app. split; [by apply escape_text|done].
Qed.
Lemma commas_text l : Forall (fun s => text s) l -> text (commas l).
Proof.
  intros Hl. destruct Hl as [|x l Hx Hl]; [constructor|]. apply Forall_app. split; [done|].
  induction Hl as [|y l Hy Hl IH]; [constructor|]. constructor; [done|]. by apply Forall_app.
Qed.
Lemma print_text v : printable v = true -> text (print v).
Proof.
  induction v as [|b|n|bits|s|l IH|fs IH] using json_induction; cbn [print printable]; intros Hp.
  - by repeat constructor.
  - destruct b; by repeat constructor.
  - apply show_i_text.
  - done.
  - by apply print_string_text, forallb_text.
  - constructor; [done|]. apply Forall_app. split; [|by repeat constructor]. apply commas_text, Forall_map.
    rewrite forallb_forall in Hp. rewrite Forall_forall in IH |- *. intros v Hv. apply IH; [done|]. by apply Hp, list_elem_of_In.
  - constructor; [done|]. apply Forall_app. split; [|by repeat constructor]. apply commas_text, Forall_map.
    induction IH as [|[k v] fs Hv Hfs IHfs]; [constructor|]. cbn [forallb fst snd] in Hp.
    apply andb_true_iff in Hp as [[Hk%forallb_text Hpv]%andb_true_iff Hp]. constructor; [|by apply IHfs].
    apply Forall_app. split; [by apply print_string_text|]. constructor; [done|]. by apply Hv.
Qed.

(** The laws the API-version layer assumes of JSON text. *)
#[export] Instance json_text : JsonText from_slice to_vec.
Proof.
  split; [|done]. intros v b. unfold to_vec, from_slice. destruct (printable v) eqn:Hp; [|done]. intros [= <-].
  rewrite from_utf8_as_bytes by (by apply forallb_text, print_text). cbn [mbind option_bind]. by apply from_str_print.
Qed.
