(* ===== verification/Session.v ===== *)
(** * Refresh sessions ([crates/auth/src/session.rs])

    The [sessions] table is the list of its rows, every operation of the store
    a function on it; a transaction that fails leaves the table as it was.
    Clocks, random bytes and fresh identifiers are arguments ([Env]).  SHA-256,
    the URL-safe base64 encoding and chrono's arithmetic are parameters; [None]
    is the panic of an addition that leaves chrono's range.  [step] has the runs
    of the store with each operation one step, [Module ReadCommitted] the
    transactions as PostgreSQL interleaves them: the revocation of a family is
    split at the point where it takes its snapshot, other transactions commit
    between the two, and a transaction may be lost. *)

From S2P Require Import Prelude RustStr.

Abbreviation uuid := Z.
Abbreviation timestamp := Z.

(** [Duration::from_secs(14 * 24 * 60 * 60)], in microseconds. *)
Definition DEFAULT_REFRESH_TTL : Z := 14 * 24 * 60 * 60 * 1000000.

Inductive SessionError := NotFound | Expired | Revoked | ReuseDetected | Db.

Record Session := mkSession {
  id : uuid;
  user_id : uuid;
  family_id : uuid;
  refresh_token_hash : bytes;
  user_agent : option str;
  ip : option str;
  created_at : timestamp;
  last_used_at : timestamp;
  revoked_at : option timestamp;
  expires_at : timestamp;
}.

Record IssuedSession := mkIssued { session : Session; refresh_token_plain : str }.

(** What one call draws from outside: the two clocks, 32 random bytes and two
    version 4 identifiers. *)
Record Env := mkEnv {
  utc_now : timestamp;
  sql_now : timestamp;
  random : bytes;
  uuid1 : uuid;
  uuid2 : uuid;
}.

(** The trait [SessionStore], in state-passing style. *)
Class SessionStore (St : Type) := {
  store_create : Env -> uuid -> option str -> option str -> Z -> St -> option (result SessionError IssuedSession) * St;
  store_rotate : Env -> str -> Z -> St -> option (result SessionError IssuedSession) * St;
  store_revoke_family : Env -> uuid -> St -> result SessionError () * St;
  store_get_active : Env -> str -> St -> result SessionError Session;
}.

(** chrono: [Duration::from_std], and [DateTime::checked_add_signed], on whose
    failure [+] panics. *)
Record Chrono := mkChrono { from_std : Z -> option Z; checked_add_signed : timestamp -> Z -> option timestamp }.

Section Store.
Context (sha256 : bytes -> bytes) (base64 : bytes -> str) (chrono : Chrono).

Definition hash_refresh_token (plaintext : str) : bytes := sha256 (as_bytes plaintext).
Definition generate_refresh_token (e : Env) : str := base64 (random e).

(** [chrono::Duration::from_std(ttl).unwrap_or_else(|_| days(14))]. *)
Definition lifetime (refresh_ttl : Z) : Z := unwrap_or (from_std chrono refresh_ttl) DEFAULT_REFRESH_TTL.
Definition expiry (now : timestamp) (refresh_ttl : Z) : option timestamp :=
  checked_add_signed chrono now (lifetime refresh_ttl).

(** [INSERT INTO sessions]: the primary key must be new. *)
Definition insert_row (r : Session) (db : list Session) : option (list Session) :=
  if existsb (fun x => id x =? id r) db then None else Some (db ++ [r]).

Definition set_revoked (now : timestamp) (r : Session) : Session :=
  mkSession (id r) (user_id r) (family_id r) (refresh_token_hash r) (user_agent r) (ip r)
    (created_at r) (last_used_at r) (Some now) (expires_at r).
Definition update_where (p : Session -> bool) (now : timestamp) (db : list Session) : list Session :=
  (fun r => if p r then set_revoked now r else r) <$> db.
(** [WHERE family_id = $1 AND revoked_at IS NULL]. *)
Definition family_active (f : uuid) (r : Session) : bool :=
  (family_id r =? f) && negb (is_some (revoked_at r)).

Definition create (e : Env) (user : uuid) (agent addr : option str) (refresh_ttl : Z) (db : list Session)
  : option (result SessionError IssuedSession) * list Session :=
  let refresh_token := generate_refresh_token e in
  let refresh_hash := hash_refresh_token refresh_token in
  let now := utc_now e in
  match expiry now refresh_ttl with
  | None => (None, db)
  | Some expires_at =>
      let row := mkSession (uuid1 e) user (uuid2 e) refresh_hash agent addr now now None expires_at in
      match insert_row row db with
      | None => (Some (Err Db), db)
      | Some db' => (Some (Ok (mkIssued row refresh_token)), db')
      end
  end.

Definition by_hash (h : bytes) (r : Session) : bool := bool_decide (refresh_token_hash r = h).

(** A panic drops the transaction, which rolls back. *)
Definition rotate (e : Env) (token : str) (refresh_ttl : Z) (db : list Session)
  : option (result SessionError IssuedSession) * list Session :=
  let hash := hash_refresh_token token in
  match List.find (by_hash hash) db with
  | None => (Some (Err NotFound), db)
  | Some old =>
      if is_some (revoked_at old) then
        (Some (Err ReuseDetected), update_where (family_active (family_id old)) (sql_now e) db)
      else
        let now := utc_now e in
        if expires_at old <? now then (Some (Err Expired), db)
        else
          let db1 := update_where (fun r => id r =? id old) now db in
          let new_token := generate_refresh_token e in
          match expiry now refresh_ttl with
          | None => (None, db)
          | Some new_expires =>
              let row := mkSession (uuid1 e) (user_id old) (family_id old) (hash_refresh_token new_token)
                           None None now now None new_expires in
              match insert_row row db1 with
              | None => (Some (Err Db), db)
              | Some db2 => (Some (Ok (mkIssued row new_token)), db2)
              end
          end
  end.

Definition revoke_family (e : Env) (f : uuid) (db : list Session) : result SessionError () * list Session :=
  (Ok (), update_where (family_active f) (sql_now e) db).

Definition get_active (e : Env) (token : str) (db : list Session) : result SessionError Session :=
  let hash := hash_refresh_token token in
  ok_or (List.find (fun r => by_hash hash r && negb (is_some (revoked_at r)) && (sql_now e <? expires_at r)) db)
    NotFound.

#[export] Instance PgSessionStore : SessionStore (list Session) := {|
  store_create := create;
  store_rotate := rotate;
  store_revoke_family := revoke_family;
  store_get_active := get_active;
|}.

(** ** Runs: every operation one step *)

Inductive label :=
| LCreate (e : Env) (user : uuid) (agent addr : option str) (ttl : Z)
| LRotate (e : Env) (token : str) (ttl : Z)
| LRevoke (e : Env) (f : uuid).

Definition fresh_token (e : Env) (db : list Session) : Prop :=
  hash_refresh_token (generate_refresh_token e) ∉ (refresh_token_hash <$> db).
Definition fresh_family (e : Env) (db : list Session) : Prop := uuid2 e ∉ (family_id <$> db).

(** The random draws are new: a token whose hash is not stored, and on login a
    family that does not exist yet. *)
Inductive step : list Session -> label -> list Session -> Prop :=
| step_create db e user agent addr ttl :
    fresh_token e db -> fresh_family e db ->
    step db (LCreate e user agent addr ttl) (create e user agent addr ttl db).2
| step_rotate db e token ttl :
    fresh_token e db -> step db (LRotate e token ttl) (rotate e token ttl db).2
| step_revoke db e f : step db (LRevoke e f) (revoke_family e f db).2.

(** ** The invariant *)

Definition active (r : Session) : Prop := revoked_at r = None.
(** Presenting an unrevoked row's token is the only way into its family. *)
Record sessions_ok (db : list Session) : Prop := {
  ok_ids : NoDup (id <$> db);
  ok_hashes : NoDup (refresh_token_hash <$> db);
  ok_one_active : forall r s, r ∈ db -> s ∈ db -> active r -> active s -> family_id r = family_id s -> r = s;
}.

(** A family of which every member is revoked. *)
Definition family_dead (f : uuid) (db : list Session) : Prop :=
  f ∈ (family_id <$> db) /\ forall r, r ∈ db -> family_id r = f -> ~ active r.
End Store.

(** ** Lemmas on the statements *)

Lemma update_where_ids p now db : id <$> update_where p now db = id <$> db.
Proof. unfold update_where. rewrite <- list_fmap_compose. apply list_fmap_ext. intros _ r _. simpl. by destruct (p r). Qed.
Lemma update_where_hashes p now db : refresh_token_hash <$> update_where p now db = refresh_token_hash <$> db.
Proof. unfold update_where. rewrite <- list_fmap_compose. apply list_fmap_ext. intros _ r _. simpl. by destruct (p r). Qed.
Lemma update_where_families p now db : family_id <$> update_where p now db = family_id <$> db.
Proof. unfold update_where. rewrite <- list_fmap_compose. apply list_fmap_ext. intros _ r _. simpl. by destruct (p r). Qed.

(** A row that is still active after an update was there before, unselected. *)
Lemma update_where_active p now db r :
  r ∈ update_where p now db -> active r -> r ∈ db /\ p r = false.
Proof.
  unfold update_where. rewrite list_elem_of_fmap. intros (x & -> & Hx) Ha.
  destruct (p x) eqn:E; [done|auto].
Qed.

Lemma update_where_ok p now db : sessions_ok db -> sessions_ok (update_where p now db).
Proof.
  intros [Hi Hh Ha]. split.
  - by rewrite update_where_ids.
  - by rewrite update_where_hashes.
  - intros r s Hr Hs Har Has Hf. apply update_where_active in Hr as [Hr _]; [|done].
    apply update_where_active in Hs as [Hs _]; [|done]. by apply Ha.
Qed.

Lemma insert_row_Some r db db' : insert_row r db = Some db' -> db' = db ++ [r] /\ id r ∉ (id <$> db).
Proof.
  unfold insert_row. destruct (existsb _ db) eqn:E; [done|]. intros [= <-]. split; [done|].
  rewrite list_elem_of_fmap. intros (x & Hx & Hin). apply not_true_iff_false in E. apply E.
  apply existsb_exists. exists x. split; [by apply list_elem_of_In|]. by apply Z.eqb_eq.
Qed.

Lemma insert_row_ok r db db' :
  sessions_ok db -> insert_row r db = Some db' -> refresh_token_hash r ∉ (refresh_token_hash <$> db) ->
  (forall s, s ∈ db -> family_id s = family_id r -> ~ active s) ->
  sessions_ok db'.
Proof.
  intros [Hi Hh Ha] [-> Hid]%insert_row_Some Hhash Hfam. split.
  - rewrite fmap_app, NoDup_app. split; [done|]. split; [|apply NoDup_singleton].
    intros x Hx ->%list_elem_of_singleton. done.
  - rewrite fmap_app, NoDup_app. split; [done|]. split; [|apply NoDup_singleton].
    intros x Hx ->%list_elem_of_singleton. done.
  - intros x y Hx Hy Hax Hay Hf.
    apply elem_of_app in Hx as [Hx|Hx], Hy as [Hy|Hy]; try apply list_elem_of_singleton in Hx as ->; try apply list_elem_of_singleton in Hy as ->;
      [by apply Ha|exfalso; eapply Hfam; eauto|exfalso; eapply (Hfam y); eauto|done].
Qed.

Lemma find_by_hash h db r :
  List.find (by_hash h) db = Some r -> r ∈ db /\ refresh_token_hash r = h.
Proof.
  intros [Hin Hp]%find_some. apply list_elem_of_In in Hin. unfold by_hash in Hp. bool_simp. done.
Qed.

Lemma hash_unique db r s :
  NoDup (refresh_token_hash <$> db) -> r ∈ db -> s ∈ db -> refresh_token_hash r = refresh_token_hash s -> r = s.
Proof.
  induction db as [|x db IH]; [set_solver|]. cbn. rewrite NoDup_cons, list_elem_of_fmap, !elem_of_cons.
  intros [Hx Hn] [ ->|Hr] [ ->|Hs] He; [done| | |by apply IH]; exfalso; apply Hx; eauto.
Qed.

Lemma find_by_hash_intro db r :
  NoDup (refresh_token_hash <$> db) -> r ∈ db -> List.find (by_hash (refresh_token_hash r)) db = Some r.
Proof.
  intros Hn Hr. destruct (List.find _ db) as [s|] eqn:E.
  - apply find_by_hash in E as [Hs He]. f_equal. by eapply hash_unique.
  - eapply find_none in E; [|by apply list_elem_of_In]. unfold by_hash in E. by bool_simp.
Qed.

(** Revoking a family leaves no active member. *)
Lemma family_update_dead f now db :
  f ∈ (family_id <$> db) -> family_dead f (update_where (family_active f) now db).
Proof.
  intros Hf. split; [by rewrite update_where_families|].
  intros r Hr Hfr Ha. apply update_where_active in Hr as [_ Hp]; [|done].
  unfold family_active in Hp. rewrite Ha, Hfr, Z.eqb_refl in Hp. done.
Qed.

Lemma update_where_dead f p now db : family_dead f db -> family_dead f (update_where p now db).
Proof.
  intros [Hf Hd]. split; [by rewrite update_where_families|].
  intros r Hr Hfr Ha. apply update_where_active in Hr as [Hr _]; [|done]. by eapply Hd.
Qed.

Section StoreLemmas.
Context (sha256 : bytes -> bytes) (base64 : bytes -> str) (chrono : Chrono).
Local Abbreviation create := (create sha256 base64 chrono).
Local Abbreviation rotate := (rotate sha256 base64 chrono).
Local Abbreviation get_active := (get_active sha256).
Local Abbreviation hash := (hash_refresh_token sha256).
Local Abbreviation step := (step sha256 base64 chrono).

(** What a successful rotation did. *)
Lemma rotate_Ok e token ttl db i db' :
  rotate e token ttl db = (Some (Ok i), db') ->
  exists old x,
    old ∈ db /\ refresh_token_hash old = hash token /\ active old /\ utc_now e <= expires_at old
    /\ expiry chrono (utc_now e) ttl = Some x
    /\ i = mkIssued (mkSession (uuid1 e) (user_id old) (family_id old) (hash (base64 (random e))) None None
                       (utc_now e) (utc_now e) None x) (base64 (random e))
    /\ insert_row (session i) (update_where (fun r => id r =? id old) (utc_now e) db) = Some db'.
Proof.
  unfold Session.rotate. destruct (List.find _ db) as [old|] eqn:Ef; [|done].
  destruct (revoked_at old) eqn:Er; [done|]. simpl.
  destruct (expires_at old <? utc_now e) eqn:Ex; [done|]. bool_simp.
  destruct (expiry chrono _ _) as [x|] eqn:Ee; [|done].
  destruct (insert_row _ _) eqn:Ei; [|done]. intros [= <- <-].
  apply find_by_hash in Ef as [Hin Hh]. exists old, x. repeat split; done.
Qed.

(** A rotation that does not succeed either burns the family or changes nothing. *)
Lemma rotate_other e token ttl db o db' :
  rotate e token ttl db = (o, db') -> (forall i, o <> Some (Ok i)) ->
  db' = db
  \/ (o = Some (Err ReuseDetected) /\ exists old, old ∈ db /\ refresh_token_hash old = hash token /\ ~ active old
      /\ db' = update_where (family_active (family_id old)) (sql_now e) db).
Proof.
  unfold Session.rotate. destruct (List.find _ db) as [old|] eqn:Ef; [|intros [= <- <-]; auto].
  destruct (revoked_at old) eqn:Er; simpl.
  - intros [= <- <-] _. right. apply find_by_hash in Ef as [Hin Hh]. split; [done|]. exists old.
    repeat split; try done. unfold active. congruence.
  - destruct (expires_at old <? utc_now e); [intros [= <- <-]; auto|].
    destruct (expiry chrono _ _); [|intros [= <- <-]; auto].
    destruct (insert_row _ _); intros [= <- <-] Ho; [by edestruct Ho|auto].
Qed.

(** The three ways a rotation ends. *)
Lemma rotate_cases e token ttl db :
  (exists i db', rotate e token ttl db = (Some (Ok i), db'))
  \/ (rotate e token ttl db).2 = db
  \/ exists old, old ∈ db /\ refresh_token_hash old = hash token /\ ~ active old
       /\ (rotate e token ttl db).2 = update_where (family_active (family_id old)) (sql_now e) db.
Proof.
  destruct (rotate e token ttl db) as [[[i|err]|] db'] eqn:E; [by eauto| |];
    apply rotate_other in E as [ ->|(_ & old & ? & ? & ? & ->)]; try done; simpl; eauto 8.
Qed.

(** The rows of the family of a rotated row, once it is marked, are inactive. *)
Lemma rotated_family_inactive db old now s :
  sessions_ok db -> old ∈ db -> active old ->
  s ∈ update_where (fun r => id r =? id old) now db -> family_id s = family_id old -> ~ active s.
Proof.
  intros [_ _ Ha] Hold Hact Hs Hf Has. apply update_where_active in Hs as [Hs Hp]; [|done].
  assert (s = old) as -> by (by apply Ha). bool_simp. done.
Qed.

Lemma rotate_ok e token ttl db :
  sessions_ok db -> fresh_token sha256 base64 e db -> sessions_ok (rotate e token ttl db).2.
Proof.
  intros Hok Hfresh. destruct (rotate_cases e token ttl db) as [(i & db' & E)|[ ->|(old & _ & _ & _ & ->)]];
    [|done|by apply update_where_ok].
  rewrite E. apply rotate_Ok in E as (old & x & Hin & Hh & Hact & _ & _ & -> & Hins).
  eapply insert_row_ok; [by apply update_where_ok|exact Hins|by rewrite update_where_hashes|].
  intros s Hs Hf. by eapply rotated_family_inactive.
Qed.

(** A login inserts its row or changes nothing. *)
Lemma create_cases e user agent addr ttl db :
  (create e user agent addr ttl db).2 = db
  \/ exists row, insert_row row db = Some (create e user agent addr ttl db).2
     /\ family_id row = uuid2 e /\ refresh_token_hash row = hash (generate_refresh_token base64 e).
Proof.
  unfold Session.create. destruct (expiry chrono _ _) as [x|]; [|by left].
  destruct (insert_row _ db) as [db'|] eqn:E; [|by left]. right. by eexists.
Qed.

Lemma create_ok e user agent addr ttl db :
  sessions_ok db -> fresh_token sha256 base64 e db -> fresh_family e db ->
  sessions_ok (create e user agent addr ttl db).2.
Proof.
  intros Hok Hfresh Hfam. destruct (create_cases e user agent addr ttl db) as [ ->|(row & E & Hf & Hh)]; [done|].
  eapply insert_row_ok; [done|exact E|by rewrite Hh|].
  intros s Hs Hfs _. apply Hfam. rewrite <- Hf, <- Hfs. by apply list_elem_of_fmap_2.
Qed.

Lemma step_ok db l db' : sessions_ok db -> step db l db' -> sessions_ok db'.
Proof.
  intros Hok Hs. destruct Hs; [by apply create_ok|by apply rotate_ok|by apply update_where_ok].
Qed.

(** A row that joins a dead family would have to be active. *)
Lemma insert_row_dead f row db db' :
  family_dead f db -> insert_row row db = Some db' -> family_id row <> f -> family_dead f db'.
Proof.
  intros [Hin Hd] [-> _]%insert_row_Some Hf. split; [rewrite fmap_app; set_solver|].
  intros r [Hr|Hr]%elem_of_app Hrf; [|apply list_elem_of_singleton in Hr as ->]; [by apply Hd|done].
Qed.

(** Once every member of a family is revoked, no operation brings one back. *)
Lemma step_dead f db l db' : sessions_ok db -> family_dead f db -> step db l db' -> family_dead f db'.
Proof.
  intros Hok Hd Hs. destruct Hs as [db e user agent addr ttl Ht Hf|db e token ttl Ht|db e g].
  - destruct (create_cases e user agent addr ttl db) as [ ->|(row & E & Hrow & _)]; [done|].
    eapply insert_row_dead; [done|exact E|]. rewrite Hrow. intros <-. by apply Hf, Hd.
  - destruct (rotate_cases e token ttl db) as [(i & db' & E)|[ ->|(old & _ & _ & _ & ->)]];
      [|done|by apply update_where_dead].
    rewrite E. apply rotate_Ok in E as (old & x & Hin & Hh & Hact & _ & _ & -> & Hins).
    eapply insert_row_dead; [by apply update_where_dead|exact Hins|]. simpl. intros <-. by eapply Hd.
  - by apply update_where_dead.
Qed.

(** The new token of a rotation is live, the old one is not. *)
Lemma get_active_Ok e token db s :
  NoDup (refresh_token_hash <$> db) ->
  get_active e token db = Ok s <-> s ∈ db /\ refresh_token_hash s = hash token /\ active s /\ sql_now e < expires_at s.
Proof.
  intros Hn. unfold Session.get_active. rewrite ok_or_Ok. split.
  - intros [Hin Hp]%find_some. apply list_elem_of_In in Hin. unfold by_hash, active in *. bool_simp.
    destruct (revoked_at s); [done|]. done.
  - intros (Hin & Hh & Ha & Hx).
    set (p := fun r => by_hash (hash token) r && negb (is_some (revoked_at r)) && (sql_now e <? expires_at r)).
    assert (Hp : p s = true).
    { subst p. unfold by_hash. simpl. rewrite Ha, bool_decide_true by done. simpl. by apply Z.ltb_lt. }
    destruct (List.find p db) as [r|] eqn:E.
    + apply find_some in E as [Hr Hpr]. apply list_elem_of_In in Hr. subst p. unfold by_hash in Hpr. bool_simp.
      f_equal. eapply hash_unique; [exact Hn|done|done|congruence].
    + eapply find_none in E; [|by apply list_elem_of_In]. congruence.
Qed.
End StoreLemmas.

(** ** Interleaving at the snapshot

    Under READ COMMITTED the [UPDATE] that revokes a family selects the rows of
    the family it can see when it starts, waits for the rows another transaction
    holds, and then re-reads each selected row before it changes it.  A
    rotation that commits in between has already inserted its new row, which
    the snapshot does not have.  The other transactions are steps at their
    commit: a refresh holds the lock of the row it read until then, a login is
    one statement.  (That the row of a replay is revoked, which its [SELECT]
    found, stays true, so that the [SELECT] may be taken at the snapshot.) *)
Module ReadCommitted.
Section ReadCommitted.
Context (sha256 : bytes -> bytes) (base64 : bytes -> str) (chrono : Chrono).

(** A revocation in progress: the family and the rows its snapshot selected. *)
Record burn := mkBurn { burn_family : uuid; burn_selected : list uuid }.
Record state := mkState { db : list Session; burns : list burn }.
Definition init : state := mkState [] [].

(** The snapshot of the [UPDATE]. *)
Definition snapshot (f : uuid) (rows : list Session) : burn :=
  mkBurn f (id <$> List.filter (family_active f) rows).
(** [rotate] up to it, when the token was rotated out or revoked. *)
Definition burn_start (token : str) (rows : list Session) : option burn :=
  old ← List.find (by_hash (hash_refresh_token sha256 token)) rows;
  if is_some (revoked_at old) then Some (snapshot (family_id old) rows) else None.
Definition burn_end (b : burn) (now : timestamp) (rows : list Session) : list Session :=
  update_where (fun r => bool_decide (id r ∈ burn_selected b) && family_active (burn_family b) r) now rows.

(** A refresh carries what it answers. *)
Inductive rc_label :=
| Login (e : Env) (user : uuid) (agent addr : option str) (ttl : Z)
| Refresh (e : Env) (token : str) (ttl : Z) (answer : option (result SessionError IssuedSession))
| ReplayStart (token : str)
| RevokeStart (f : uuid)
| BurnCommit (b : burn) (now : timestamp)
| BurnLost (b : burn).

Inductive rc_step : state -> rc_label -> state -> Prop :=
| rc_login st e user agent addr ttl :
    fresh_token sha256 base64 e (db st) -> fresh_family e (db st) ->
    rc_step st (Login e user agent addr ttl) (mkState (create sha256 base64 chrono e user agent addr ttl (db st)).2 (burns st))
| rc_refresh st e token ttl answer rows :
    fresh_token sha256 base64 e (db st) -> burn_start token (db st) = None ->
    rotate sha256 base64 chrono e token ttl (db st) = (answer, rows) ->
    rc_step st (Refresh e token ttl answer) (mkState rows (burns st))
| rc_replay st token b :
    burn_start token (db st) = Some b -> rc_step st (ReplayStart token) (mkState (db st) (burns st ++ [b]))
| rc_revoke st f :
    rc_step st (RevokeStart f) (mkState (db st) (burns st ++ [snapshot f (db st)]))
| rc_commit st b now bs1 bs2 :
    burns st = bs1 ++ b :: bs2 ->
    rc_step st (BurnCommit b now) (mkState (burn_end b now (db st)) (bs1 ++ bs2))
| rc_lost st b bs1 bs2 :
    burns st = bs1 ++ b :: bs2 -> rc_step st (BurnLost b) (mkState (db st) (bs1 ++ bs2)).

(** A refresh of the history issued this session. *)
Definition issued_in (ls : list rc_label) (s : Session) : Prop :=
  exists e token ttl i, Refresh e token ttl (Some (Ok i)) ∈ ls /\ session i = s.

(** *** Lemmas *)

(** On the rows a step is a step of the store, an update that only revokes, or
    nothing. *)
Lemma rc_rows st l st' :
  rc_step st l st' ->
  (exists l', step sha256 base64 chrono (db st) l' (db st'))
  \/ (exists p now, db st' = update_where p now (db st)) \/ db st' = db st.
Proof.
  intros Hs. destruct Hs as [st e user agent addr ttl Ht Hf|st e token ttl answer rows Ht _ E| | |st b now| ]; cbn [db]; eauto.
  - left. exists (LCreate e user agent addr ttl). by apply step_create.
  - left. exists (LRotate e token ttl). change rows with (answer, rows).2. rewrite <- E. by apply step_rotate.
Qed.
Lemma rc_ok st l st' : sessions_ok (db st) -> rc_step st l st' -> sessions_ok (db st').
Proof.
  intros Hok Hr. apply rc_rows in Hr as [[l' Hs]|[(p & now & ->)| ->]]; [by eapply step_ok|by apply update_where_ok|done].
Qed.
Lemma rc_dead f st l st' :
  sessions_ok (db st) -> family_dead f (db st) -> rc_step st l st' -> family_dead f (db st').
Proof.
  intros Hok Hd Hr. apply rc_rows in Hr as [[l' Hs]|[(p & now & ->)| ->]]; [by eapply step_dead|by apply update_where_dead|done].
Qed.
Lemma rc_ok_run st ls st' : sessions_ok (db st) -> run rc_step st ls st' -> sessions_ok (db st').
Proof. apply (run_invariant _ (fun st => sessions_ok (db st))). apply rc_ok. Qed.
Lemma rc_ok_init ls st : run rc_step init ls st -> sessions_ok (db st).
Proof. apply rc_ok_run. split; [constructor|constructor|set_solver]. Qed.
Lemma rc_dead_run f st ls st' :
  sessions_ok (db st) -> family_dead f (db st) -> run rc_step st ls st' -> family_dead f (db st').
Proof.
  intros Hok Hd Hrun. refine (proj2 (run_invariant _ (fun x => sessions_ok (db x) /\ family_dead f (db x)) _ _ _ _ (conj Hok Hd) Hrun)).
  intros s l s' [H1 H2] Hs. split; [by eapply rc_ok|by eapply rc_dead].
Qed.

(** An active row of a known family was there before, or the step issued it. *)
Lemma rc_active_origin st l st' s :
  rc_step st l st' -> s ∈ db st' -> active s -> family_id s ∈ (family_id <$> db st) ->
  s ∈ db st \/ issued_in [l] s.
Proof.
  intros Hs Hin Ha Hf. destruct Hs as [st e user agent addr ttl _ Hnew|st e token ttl answer rows _ _ E| | |st b now| ];
    cbn [db] in *; [| |by left|by left| |by left].
  - destruct (create_cases sha256 base64 chrono e user agent addr ttl (db st)) as [E|(row & E & Hrow & _)]; [left; by rewrite E in Hin|].
    apply insert_row_Some in E as [E _]. rewrite E in Hin. apply elem_of_app in Hin as [Hin| ->%list_elem_of_singleton]; [by left|].
    rewrite Hrow in Hf. by destruct Hnew.
  - destruct (rotate_cases sha256 base64 chrono e token ttl (db st)) as [(i & rows' & Hr)|[Hr|(old & _ & _ & _ & Hr)]];
      rewrite E in Hr; cbn [snd] in Hr; simplify_eq.
    + apply rotate_Ok in E as (old & x & _ & _ & _ & _ & _ & _ & [-> _]%insert_row_Some).
      apply elem_of_app in Hin as [Hin| ->%list_elem_of_singleton].
      * left. by apply update_where_active in Hin as [Hin _].
      * right. exists e, token, ttl, i. by split; [apply list_elem_of_singleton|].
    + by left.
    + left. by apply update_where_active in Hin as [Hin _].
  - left. by apply update_where_active in Hin as [Hin _].
Qed.
Lemma rc_families st l st' f : rc_step st l st' -> f ∈ (family_id <$> db st) -> f ∈ (family_id <$> db st').
Proof.
  intros Hr Hf. apply rc_rows in Hr as [[l' Hs]|[(p & now & ->)| ->]]; [|by rewrite update_where_families|done].
  destruct Hs as [rows e user agent addr ttl _ _|rows e token ttl _|rows e g].
  - destruct (create_cases sha256 base64 chrono e user agent addr ttl rows) as [ ->|(row & [-> _]%insert_row_Some & _)]; [done|].
    rewrite fmap_app. set_solver.
  - destruct (rotate_cases sha256 base64 chrono e token ttl rows) as [(i & rows' & E)|[ ->|(old & _ & _ & _ & ->)]];
      [|done|by rewrite update_where_families].
    rewrite E. apply rotate_Ok in E as (old & x & _ & _ & _ & _ & _ & _ & [-> _]%insert_row_Some).
    cbn [snd]. rewrite fmap_app, update_where_families. set_solver.
  - cbn [revoke_family snd]. by rewrite update_where_families.
Qed.
Lemma rc_families_run st ls st' f : run rc_step st ls st' -> f ∈ (family_id <$> db st) -> f ∈ (family_id <$> db st').
Proof.
  intros Hrun Hf. refine (run_invariant _ (fun x => f ∈ (family_id <$> db x)) _ _ _ _ Hf Hrun). intros s l s' H Hs. by eapply rc_families.
Qed.
Lemma rc_active_origin_run st ls st' s :
  run rc_step st ls st' -> s ∈ db st' -> active s -> family_id s ∈ (family_id <$> db st) ->
  s ∈ db st \/ issued_in ls s.
Proof.
  intros Hrun Hin Ha Hf.
  revert Hin. induction Hrun as [st|st ls st1 l st2 Hrun IH Hstep]; intros Hin; [by left|].
  assert (family_id s ∈ (family_id <$> db st1)) as Hf1 by (by eapply rc_families_run).
  destruct (rc_active_origin _ _ _ _ Hstep Hin Ha Hf1) as [Hin1|(e & token & ttl & i & Hl & Hi)].
  - destruct (IH Hf Hin1) as [?|(e & token & ttl & i & Hl & Hi)]; [by left|right]. exists e, token, ttl, i. set_solver.
  - right. exists e, token, ttl, i. set_solver.
Qed.

(** Without an interleaved commit the two halves are the statement. *)
Lemma snapshot_commit f now rows : burn_end (snapshot f rows) now rows = update_where (family_active f) now rows.
Proof.
  unfold burn_end, update_where. apply list_fmap_ext. intros i r Hr. cbn [burn_family burn_selected snapshot].
  destruct (family_active f r) eqn:E.
  - rewrite bool_decide_true; [done|]. apply list_elem_of_fmap_2, list_elem_of_In, filter_In.
    split; [|done]. apply list_elem_of_In. by apply list_elem_of_lookup_2 in Hr.
  - by rewrite andb_false_r.
Qed.

(** What a commit leaves active of its family was issued since the snapshot. *)
Lemma commit_leaves f now st ls st1 bs s :
  run rc_step (mkState (db st) bs) ls st1 -> f ∈ (family_id <$> db st) ->
  s ∈ burn_end (snapshot f (db st)) now (db st1) -> active s -> family_id s = f -> issued_in ls s.
Proof.
  intros Hrun Hf Hin Ha Hs. apply update_where_active in Hin as [Hin Hp]; [|done].
  apply (rc_active_origin_run _ _ _ _ Hrun) in Hin as [Hin|?]; [|done|done|by rewrite Hs].
  exfalso. cbn [burn_family burn_selected snapshot db] in *.
  assert (family_active f s = true) as Hact by (unfold family_active; by rewrite Hs, Z.eqb_refl, Ha).
  rewrite Hact, andb_true_r in Hp. bool_simp. apply Hp, list_elem_of_fmap_2, list_elem_of_In, filter_In.
  split; [by apply list_elem_of_In|done].
Qed.
End ReadCommitted.
End ReadCommitted.

(** ** Concrete instances for the witnesses *)

Module Demo.
Definition hash (b : bytes) : bytes := b.
Definition encode (b : bytes) : str := b.
Definition chrono : Chrono := mkChrono (fun n => Some n) (fun t d => if t + d <=? 100000 then Some (t + d) else None).
Definition env (t : timestamp) (token : str) (i f : uuid) : Env := mkEnv t t token i f.
Definition login : label := LCreate (env 10 (lit "t1") 1 100) 7 None None 1000.
Definition db1 : list Session := (create hash encode chrono (env 10 (lit "t1") 1 100) 7 None None 1000 []).2.
Definition refresh1 : label := LRotate (env 20 (lit "t2") 2 0) (lit "t1") 1000.
Definition db2 : list Session := (rotate hash encode chrono (env 20 (lit "t2") 2 0) (lit "t1") 1000 db1).2.

Lemma session_run2 : run (step hash encode chrono) [] [login; refresh1] db2.
Proof.
  apply (run_snoc _ _ [login] db1).
  - apply (run_snoc _ _ [] []); [constructor|].
    apply (step_create hash encode chrono [] (env 10 (lit "t1") 1 100));
      apply (bool_decide_unpack _); vm_compute; exact I.
  - apply step_rotate. apply (bool_decide_unpack _). vm_compute. exact I.
Qed.

(** The same under READ COMMITTED. *)
Abbreviation rc_step := (ReadCommitted.rc_step hash encode chrono).
Definition issued2 : option (result SessionError IssuedSession) :=
  (rotate hash encode chrono (env 20 (lit "t2") 2 0) (lit "t1") 1000 db1).1.
Definition rc_labels : list ReadCommitted.rc_label :=
  [ReadCommitted.Login (env 10 (lit "t1") 1 100) 7 None None 1000;
   ReadCommitted.Refresh (env 20 (lit "t2") 2 0) (lit "t1") 1000 issued2].
Lemma rc_run2 : run rc_step ReadCommitted.init rc_labels (ReadCommitted.mkState db2 []).
Proof.
  apply (run_snoc _ _ [_] (ReadCommitted.mkState db1 [])).
  - apply (run_snoc _ _ [] ReadCommitted.init); [constructor|].
    apply (ReadCommitted.rc_login _ _ _ ReadCommitted.init (env 10 (lit "t1") 1 100));
      apply (bool_decide_unpack _); vm_compute; exact I.
  - apply (ReadCommitted.rc_refresh _ _ _ (ReadCommitted.mkState db1 [])); [|reflexivity|reflexivity].
    apply (bool_decide_unpack _). vm_compute. exact I.
Qed.
(** The row of the first token, rotated out. *)
Definition rotated_out : Session := mkSession 1 7 100 (lit "t1") None None 10 10 (Some 20) 1010.
End Demo.

(** ** Properties *)

(** C15: from an empty table, after any sequence of logins, refreshes (honest
    or replayed) and revocations, identifiers and token hashes are unique and a
    login family has at most one session that is not revoked. *)
Theorem one_active_session_per_family sha256 base64 chrono ls db :
  run (step sha256 base64 chrono) [] ls db -> sessions_ok db.
Proof.
  intros Hrun. refine (run_invariant _ sessions_ok _ _ _ _ _ Hrun).
  - intros. by eapply step_ok.
  - split; [constructor|constructor|set_solver].
Qed.

Lemma one_active_session_per_family_witness : sessions_ok Demo.db2.
Proof. apply (one_active_session_per_family _ _ _ _ _ Demo.session_run2). Defined.

(** C2: replaying a token that was rotated out (or revoked) burns its family,
    under READ COMMITTED.  In every reachable state the replay is detected,
    answers [ReuseDetected], and takes its snapshot of the family; whatever
    logins, refreshes, replays and revocations then commit before it does, the
    only sessions of the family that are active after its commit are ones a
    refresh issued in between; and when no refresh of the family committed in
    between, no member is active after the commit or after any later history,
    so that no token of that login, the thief's or the user's, works again.
    With nothing in between this is what [rotate] does. *)
Theorem reuse_burns_family sha256 base64 chrono ls0 st0 token old :
  run (ReadCommitted.rc_step sha256 base64 chrono) ReadCommitted.init ls0 st0 ->
  old ∈ ReadCommitted.db st0 -> refresh_token_hash old = hash_refresh_token sha256 token -> revoked_at old <> None ->
  exists b,
    ReadCommitted.burn_start sha256 token (ReadCommitted.db st0) = Some b
    /\ (forall e ttl, rotate sha256 base64 chrono e token ttl (ReadCommitted.db st0)
        = (Some (Err ReuseDetected), ReadCommitted.burn_end b (sql_now e) (ReadCommitted.db st0)))
    /\ forall ls1 st1 now st2,
      run (ReadCommitted.rc_step sha256 base64 chrono)
        (ReadCommitted.mkState (ReadCommitted.db st0) (ReadCommitted.burns st0 ++ [b])) ls1 st1 ->
      ReadCommitted.rc_step sha256 base64 chrono st1 (ReadCommitted.BurnCommit b now) st2 ->
      (forall s, s ∈ ReadCommitted.db st2 -> active s -> family_id s = family_id old -> ReadCommitted.issued_in ls1 s)
      /\ ((forall s, ReadCommitted.issued_in ls1 s -> family_id s <> family_id old) ->
          forall ls st3, run (ReadCommitted.rc_step sha256 base64 chrono) st2 ls st3 ->
            family_dead (family_id old) (ReadCommitted.db st3)
            /\ forall e token' s, get_active sha256 e token' (ReadCommitted.db st3) = Ok s -> family_id s <> family_id old).
Proof.
  intros Hrun0 Hin Hh Hr. pose proof (ReadCommitted.rc_ok_init _ _ _ _ _ Hrun0) as Hok0.
  set (f := family_id old). assert (Hf : f ∈ (family_id <$> ReadCommitted.db st0)) by (by apply list_elem_of_fmap_2).
  assert (Hfind : List.find (by_hash (hash_refresh_token sha256 token)) (ReadCommitted.db st0) = Some old).
  { rewrite <- Hh. apply find_by_hash_intro; [apply Hok0|done]. }
  assert (Hrev : is_some (revoked_at old) = true) by (by destruct (revoked_at old)).
  exists (ReadCommitted.snapshot f (ReadCommitted.db st0)). split; [|split].
  - unfold ReadCommitted.burn_start. rewrite Hfind. cbn [mbind option_bind]. by rewrite Hrev.
  - intros e ttl. unfold rotate. by rewrite Hfind, Hrev, ReadCommitted.snapshot_commit.
  - intros ls1 st1 now st2 Hrun1 Hcommit.
    assert (Hok1 : sessions_ok (ReadCommitted.db st1)) by (by eapply ReadCommitted.rc_ok_run; [|exact Hrun1]).
    pose proof (ReadCommitted.rc_ok _ _ _ _ _ _ Hok1 Hcommit) as Hok2.
    assert (Hleft : forall s, s ∈ ReadCommitted.db st2 -> active s -> family_id s = f -> ReadCommitted.issued_in ls1 s).
    { inversion Hcommit; subst. intros s Hs Ha Hsf. by eapply ReadCommitted.commit_leaves. }
    split; [done|]. intros Hnone ls st3 Hrun3.
    assert (Hdead : family_dead f (ReadCommitted.db st3)).
    { eapply ReadCommitted.rc_dead_run; [exact Hok2| |exact Hrun3]. split; [|intros s Hs Hsf Ha; by eapply Hnone; [by apply Hleft|]].
      eapply ReadCommitted.rc_families; [exact Hcommit|]. by eapply ReadCommitted.rc_families_run; [exact Hrun1|]. }
    split; [done|]. intros e token' s Hs Hsf. apply get_active_Ok in Hs as (Hs & _ & Ha & _).
    + by eapply Hdead.
    + apply (ReadCommitted.rc_ok_run _ _ _ _ _ _ Hok2 Hrun3).
Qed.

Lemma reuse_burns_family_witness :
  exists b st2, ReadCommitted.burn_start Demo.hash (lit "t1") Demo.db2 = Some b
    /\ Demo.rc_step (ReadCommitted.mkState Demo.db2 [b]) (ReadCommitted.BurnCommit b 32) st2
    /\ family_dead 100 (ReadCommitted.db st2).
Proof.
  destruct (reuse_burns_family Demo.hash Demo.encode Demo.chrono _ _ (lit "t1") Demo.rotated_out Demo.rc_run2)
    as (b & Hb & _ & H).
  - vm_compute. left.
  - reflexivity.
  - discriminate.
  - pose (st2 := ReadCommitted.mkState (ReadCommitted.burn_end b 32 Demo.db2) []).
    assert (Hc : Demo.rc_step (ReadCommitted.mkState Demo.db2 [b]) (ReadCommitted.BurnCommit b 32) st2)
      by (by apply (ReadCommitted.rc_commit _ _ _ (ReadCommitted.mkState Demo.db2 [b]) b 32 [] [])).
    exists b, st2. split; [exact Hb|]. split; [exact Hc|].
    destruct (H [] _ 32 st2 (run_nil _ _) Hc) as [_ Hd].
    apply (Hd ltac:(intros s (? & ? & ? & ? & Hin & _); by apply elem_of_nil in Hin) [] st2 (run_nil _ _)).
Defined.

(** A refresh hands the session on.  It succeeds for exactly the active,
    unexpired tokens (given a fresh identifier); the new token then
    authenticates the same user in the same family until it expires, and the
    old token authenticates nothing any more. *)
Theorem rotation_hands_over sha256 base64 chrono e token ttl db old :
  sessions_ok db -> fresh_token sha256 base64 e db -> uuid1 e ∉ (id <$> db) ->
  old ∈ db -> refresh_token_hash old = hash_refresh_token sha256 token ->
  revoked_at old = None -> utc_now e <= expires_at old -> is_Some (expiry chrono (utc_now e) ttl) ->
  exists i db',
    rotate sha256 base64 chrono e token ttl db = (Some (Ok i), db')
    /\ sessions_ok db'
    /\ user_id (session i) = user_id old /\ family_id (session i) = family_id old
    /\ (forall e', sql_now e' < expires_at (session i) ->
        get_active sha256 e' (refresh_token_plain i) db' = Ok (session i))
    /\ (forall e', get_active sha256 e' token db' = Err NotFound).
Proof.
  intros Hok Hfresh Hid Hin Hh Hact Hexp [x Hx].
  pose proof (rotate_ok sha256 base64 chrono e token ttl db Hok Hfresh) as Hok'.
  destruct (rotate _ _ _ _ _ _ db) as [o db'] eqn:E. cbn [snd] in Hok'.
  assert (exists i, o = Some (Ok i)) as [i ->].
  { unfold rotate in E. rewrite <- Hh, find_by_hash_intro, Hact in E by (done || apply Hok). simpl in E.
    rewrite (proj2 (Z.ltb_ge _ _)) in E by lia. rewrite Hx in E. unfold insert_row in E. simpl in E.
    destruct (existsb _ _) eqn:Ee; [|by injection E as <- _; eauto].
    apply existsb_exists in Ee as (y & Hy & Hye). bool_simp. exfalso.
    apply Hid. rewrite <- (update_where_ids (fun r => id r =? id old) (utc_now e)), <- Hye.
    by apply list_elem_of_fmap_2, list_elem_of_In. }
  apply rotate_Ok in E as (old' & x' & Hin' & Hh' & _ & _ & _ & -> & Hins).
  assert (old' = old) as -> by (eapply hash_unique; [apply Hok|done|done|congruence]).
  apply insert_row_Some in Hins as [-> _]. eexists _, _. split; [done|]. split; [done|]. split; [done|].
  split; [done|]. split.
  - intros e' He'. apply get_active_Ok; [apply Hok'|]. simpl. rewrite elem_of_app. set_solver.
  - intros e'. destruct (get_active _ _ _ _) as [s|[]] eqn:Eg; try (by unfold get_active in Eg; destruct (List.find _ _)).
    apply get_active_Ok in Eg as (Hs & Hhs & Has & _); [|apply Hok'].
    apply elem_of_app in Hs as [Hs|Hs].
    + exfalso. apply update_where_active in Hs as [Hs Hp]; [|done].
      assert (s = old) as -> by (eapply hash_unique; [apply Hok|done|done|congruence]). bool_simp. done.
    + apply list_elem_of_singleton in Hs as ->. exfalso. apply Hfresh. simpl in Hhs. unfold generate_refresh_token.
      rewrite Hhs, <- Hh. by apply list_elem_of_fmap_2.
Qed.

Lemma rotation_hands_over_witness :
  exists i, (rotate Demo.hash Demo.encode Demo.chrono (Demo.env 20 (lit "t2") 2 0) (lit "t1") 1000 Demo.db1).1 = Some (Ok i)
    /\ family_id (session i) = 100.
Proof.
  destruct (rotation_hands_over Demo.hash Demo.encode Demo.chrono (Demo.env 20 (lit "t2") 2 0) (lit "t1") 1000 Demo.db1
    (mkSession 1 7 100 (lit "t1") None None 10 10 None 1010)) as (i & db' & Hr & _ & _ & Hf & _).
  - split.
    + apply (bool_decide_unpack _). vm_compute. exact I.
    + apply (bool_decide_unpack _). vm_compute. exact I.
    + intros r1 r2 H1 H2 _ _ _. vm_compute in H1, H2. apply list_elem_of_singleton in H1, H2. congruence.
  - apply (bool_decide_unpack _). vm_compute. exact I.
  - apply (bool_decide_unpack _). vm_compute. exact I.
  - vm_compute. left.
  - reflexivity.
  - reflexivity.
  - vm_compute. discriminate.
  - vm_compute. eauto.
  - exists i. rewrite Hr, Hf. done.
Defined.

(** The burn is not atomic with a concurrent refresh.  There is an
    interleaving, each transaction committed as PostgreSQL commits it, in which
    a rotated-out token is replayed and detected while the family's current
    token is being refreshed, and the refreshed session is active afterwards:
    the family that the detection should have revoked lives on. *)
Theorem concurrent_refresh_survives_burn :
  exists i st b,
    run Demo.rc_step (ReadCommitted.mkState Demo.db2 [])
      [ReadCommitted.ReplayStart (lit "t1");
       ReadCommitted.Refresh (Demo.env 31 (lit "t3") 3 0) (lit "t2") 1000 (Some (Ok i));
       ReadCommitted.BurnCommit b 32] st
    /\ get_active Demo.hash (Demo.env 40 [] 0 0) (lit "t3") (ReadCommitted.db st) = Ok (session i)
    /\ family_id (session i) = ReadCommitted.burn_family b.
Proof.
  set (b := ReadCommitted.mkBurn 100 [2]).
  set (st1 := ReadCommitted.mkState Demo.db2 [b]).
  set (st2 := ReadCommitted.mkState
    (rotate Demo.hash Demo.encode Demo.chrono (Demo.env 31 (lit "t3") 3 0) (lit "t2") 1000 Demo.db2).2 [b]).
  exists (mkIssued (mkSession 3 7 100 (lit "t3") None None 31 31 None 1031) (lit "t3")),
    (ReadCommitted.mkState (ReadCommitted.burn_end b 32 (ReadCommitted.db st2)) []), b.
  split; [|split; [vm_compute; reflexivity|reflexivity]].
  apply (run_snoc _ _ [_; _] st2); [apply (run_snoc _ _ [_] st1); [apply (run_snoc _ _ [] (ReadCommitted.mkState Demo.db2 [])); [constructor|]|]|].
  - apply (ReadCommitted.rc_replay _ _ _ (ReadCommitted.mkState Demo.db2 []) (lit "t1") b). vm_compute. reflexivity.
  - apply (ReadCommitted.rc_refresh _ _ _ st1); [|vm_compute; reflexivity|vm_compute; reflexivity].
    unfold fresh_token. apply (bool_decide_unpack _). vm_compute. exact I.
  - apply (ReadCommitted.rc_commit _ _ _ st2 b 32 [] []). reflexivity.
Qed.
