(* ===== verification/Http.v ===== *)
(** * The safe outbound client ([crates/http/src/lib.rs])

    The address classification and the guarded fetch.  URL parsing, name
    resolution and the HTTP exchange belong to the [url], [tokio] and
    [reqwest] packages: they are the operations of the class [Outside], indexed
    by the number of the exchange because two look-ups of one name may answer
    differently.  A fetch returns, beside its result, the addresses it opened
    connections to. *)

From S2P Require Import Prelude RustStr Net Headers.

(** ** Address classification *)

Definition is_public_unicast_v4 (ip : Ipv4Addr) : bool :=
  if V4.is_unspecified ip || V4.is_loopback ip || V4.is_private ip || V4.is_link_local ip
     || V4.is_multicast ip || V4.is_broadcast ip || V4.is_documentation ip
  then false
  else if o0 ip =? 0 then false
  else if (o0 ip =? 100) && in_range 64 127 (o1 ip) then false
  else if (o0 ip =? 192) && (o1 ip =? 0) && (o2 ip =? 0) then false
  else if (o0 ip =? 192) && (o1 ip =? 0) && (o2 ip =? 2) then false
  else if (o0 ip =? 192) && (o1 ip =? 88) && (o2 ip =? 99) then false
  else if (o0 ip =? 198) && ((o1 ip =? 18) || (o1 ip =? 19)) then false
  else if 240 <=? o0 ip then false
  else true.

Definition embedded_v4 (ip : Ipv6Addr) : option Ipv4Addr :=
  match V6.to_ipv4 ip with
  | Some v4 => Some v4
  | None =>
      if (s0 ip =? 0x64) && (s1 ip =? 0xff9b) && forallb (Z.eqb 0) [s2 ip; s3 ip; s4 ip; s5 ip]
      then Some (V6.v4_of_segments (s6 ip) (s7 ip))
      else if s0 ip =? 0x2002 then Some (V6.v4_of_segments (s1 ip) (s2 ip))
      else None
  end.

Definition is_public_unicast_v6 (ip : Ipv6Addr) : bool :=
  if V6.is_unspecified ip || V6.is_loopback ip || V6.is_multicast ip then false
  else if (Z.land (s0 ip) 0xfe00 =? 0xfc00) || (Z.land (s0 ip) 0xffc0 =? 0xfe80)
          || (Z.land (s0 ip) 0xffc0 =? 0xfec0) then false
  else if (s0 ip =? 0x2001) && ((Z.land (s1 ip) 0xfe00 =? 0) || (s1 ip =? 0xdb8)) then false
  else if (s0 ip =? 0x3fff) && (Z.land (s1 ip) 0xf000 =? 0) then false
  else if (s0 ip =? 0x100) && (s1 ip =? 0) && (s2 ip =? 0) && (s3 ip =? 0) then false
  else if (s0 ip =? 0x64) && (s1 ip =? 0xff9b) && (s2 ip =? 1) then false
  else match embedded_v4 ip with
       | Some v4 => is_public_unicast_v4 v4
       | None => true
       end.

Definition is_public_unicast (ip : IpAddr) : bool :=
  match ip with V4 v4 => is_public_unicast_v4 v4 | V6 v6 => is_public_unicast_v6 v6 end.

(** ** The fetch *)

Inductive SafeFetchError :=
| InvalidUrl (e : str)
| UnsupportedScheme (s : str)
| MissingHost
| DnsLookup (e : str)
| DnsEmpty
| BlockedAddress (ip : IpAddr)
| TooManyRedirects (n : Z)
| BadRedirect
| BodyTooLarge (n : Z)
| Timeout
| Http (e : str).

Record SafeFetchOpts := mkOpts { timeout : Z; max_body_bytes : Z; max_redirects : Z }.
Definition SafeFetchOpts_default : SafeFetchOpts := mkOpts 15 (5 * 1024 * 1024) 5.

Record SafeResponse := mkSafeResponse { status : Z; body : bytes; final_url : str }.

(** A response of the exchange: the body arrives in chunks, any of which may
    fail. *)
Record WireResponse := mkWire {
  wire_status : Z;
  wire_location : option bytes;
  wire_url : str;
  wire_chunks : list (result str bytes);
}.

Inductive http_method := GET | POST (content_type : str) (form : str).

Class Outside (Url : Type) := {
  url_parse : str -> result str Url;
  url_join : Url -> str -> result str Url;
  url_to_string : Url -> str;
  scheme : Url -> str;
  host_str : Url -> option str;
  port_or_known_default : Url -> option Z;
  form_urlencoded : list (str * str) -> str;
  (** [lookup_host], per exchange. *)
  lookup_host : nat -> str -> result str (list SocketAddr);
  (** A client built with no proxy, no automatic redirect and [host] resolved
      to the pinned address, and its [send]. *)
  exchange : nat -> http_method -> Url -> str -> SocketAddr -> result str WireResponse;
}.

Section Fetch.
Context {Url : Type} `{Outside Url} `{HttpPackage}.

(** The addresses a fetch connected to, in order. *)
Abbreviation log := (list SocketAddr).

Definition resolve_and_validate (n : nat) (host : str) (port : Z) : result SafeFetchError SocketAddr :=
  match Parse.parse_ip host with
  | Some ip => if negb (is_public_unicast ip) then Err (BlockedAddress ip) else Ok (mkSocketAddr ip port)
  | None =>
      let target := host ++ [58] ++ show_u port in
      addrs ← map_err DnsLookup (lookup_host n target);
      match addrs with
      | [] => Err DnsEmpty
      | first :: _ =>
          match List.find (fun a => negb (is_public_unicast (sock_ip a))) addrs with
          | Some a => Err (BlockedAddress (sock_ip a))
          | None => Ok first
          end
      end
  end.

Definition http_or_https (s : str) : bool := (s =s lit "http") || (s =s lit "https").

(** The checks on one URL, up to the pinned address. *)
Definition admit_url (n : nat) (current : str) : result SafeFetchError (Url * str * SocketAddr) :=
  parsed ← map_err InvalidUrl (url_parse current);
  if negb (http_or_https (scheme parsed)) then Err (UnsupportedScheme (scheme parsed))
  else
    host ← ok_or (host_str parsed) MissingHost;
    port ← ok_or (port_or_known_default parsed) MissingHost;
    pinned ← resolve_and_validate n host port;
    Ok (parsed, host, pinned).

(** [while let Some(chunk) = stream.chunk().await?]. *)
Fixpoint read_chunks (max : Z) (acc : bytes) (chunks : list (result str bytes)) : result SafeFetchError bytes :=
  match chunks with
  | [] => Ok acc
  | Err e :: _ => Err (Http e)
  | Ok chunk :: rest =>
      if max <? Z.of_nat (length acc) + Z.of_nat (length chunk) then Err (BodyTooLarge max)
      else read_chunks max (acc ++ chunk) rest
  end.
Definition read_capped (resp : WireResponse) (max : Z) : result SafeFetchError SafeResponse :=
  b ← read_chunks max [] (wire_chunks resp);
  Ok (mkSafeResponse (wire_status resp) b (wire_url resp)).

Definition is_redirection (status : Z) : bool := in_range 300 399 status.

(** One iteration of the loop: a final answer, or the next URL. *)
Definition get_once (opts : SafeFetchOpts) (hops : Z) (n : nat) (current : str)
  : (result SafeFetchError SafeResponse + str) * log :=
  match admit_url n current with
  | Err e => (inl (Err e), [])
  | Ok (parsed, host, pinned) =>
      match exchange n GET parsed host pinned with
      | Err e => (inl (Err (Http e)), [pinned])
      | Ok resp =>
          if is_redirection (wire_status resp) then
            if max_redirects opts <=? hops then (inl (Err (TooManyRedirects (max_redirects opts))), [pinned])
            else
              match wire_location resp ≫= header_to_str with
              | None => (inl (Err BadRedirect), [pinned])
              | Some loc =>
                  match url_join parsed loc with
                  | Err e => (inl (Err (InvalidUrl e)), [pinned])
                  | Ok next => (inr (url_to_string next), [pinned])
                  end
              end
          else (inl (read_capped resp (max_body_bytes opts)), [pinned])
      end
  end.

(** [loop { .. hops += 1; continue; .. }] with [hops: u8]; [None] is the
    overflow of [hops] or the end of the fuel, neither of which happens when
    the fuel exceeds the redirects left. *)
Fixpoint get_loop (fuel : nat) (opts : SafeFetchOpts) (hops : Z) (n : nat) (current : str)
  : option (result SafeFetchError SafeResponse * log) :=
  match fuel with
  | O => None
  | S fuel' =>
      let '(r, l) := get_once opts hops n current in
      match r with
      | inl res => Some (res, l)
      | inr next =>
          hops' ← u8_try_from (hops + 1);
          '(res, l') ← get_loop fuel' opts hops' (S n) next;
          Some (res, l ++ l')
      end
  end.
Definition get_fuel (opts : SafeFetchOpts) : nat := S (Z.to_nat (max_redirects opts)).
Definition safe_get_inner (url : str) (opts : SafeFetchOpts) := get_loop (get_fuel opts) opts 0 0 url.

Definition safe_post_form_inner (url : str) (form : list (str * str)) (opts : SafeFetchOpts)
  : result SafeFetchError SafeResponse * log :=
  match admit_url 0 url with
  | Err e => (Err e, [])
  | Ok (parsed, host, pinned) =>
      match exchange 0 (POST (lit "application/x-www-form-urlencoded") (form_urlencoded form)) parsed host pinned with
      | Err e => (Err (Http e), [pinned])
      | Ok resp => (read_capped resp (max_body_bytes opts), [pinned])
      end
  end.

(** [tokio::time::timeout]: [deadline] is the number of connections opened
    when the deadline cuts the fetch, if it does. *)
Definition with_timeout (deadline : option nat) (r : result SafeFetchError SafeResponse * log)
  : result SafeFetchError SafeResponse * log :=
  match deadline with Some k => (Err Timeout, take k r.2) | None => r end.
Definition safe_get (deadline : option nat) (url : str) (opts : SafeFetchOpts) :=
  with_timeout deadline <$> safe_get_inner url opts.
Definition safe_post_form (deadline : option nat) (url : str) (form : list (str * str)) (opts : SafeFetchOpts) :=
  with_timeout deadline (safe_post_form_inner url form opts).
End Fetch.

(** ** Reference classification: the special-purpose blocks as CIDR prefixes *)

Definition v4_number (a : Ipv4Addr) : Z := ((o0 a * 256 + o1 a) * 256 + o2 a) * 256 + o3 a.
Definition v6_number (a : Ipv6Addr) : Z := foldl (fun acc s => acc * 65536 + s) 0 (segments a).
(** [base/len] of a [w]-bit address space. *)
Definition in_block (w n base len : Z) : Prop := n / 2 ^ (w - len) = base / 2 ^ (w - len).

Definition special_v4 : list (Ipv4Addr * Z) :=
  [(mkV4 0 0 0 0, 8); (mkV4 10 0 0 0, 8); (mkV4 100 64 0 0, 10); (mkV4 127 0 0 0, 8); (mkV4 169 254 0 0, 16);
   (mkV4 172 16 0 0, 12); (mkV4 192 0 0 0, 24); (mkV4 192 0 2 0, 24); (mkV4 192 88 99 0, 24);
   (mkV4 192 168 0 0, 16); (mkV4 198 18 0 0, 15); (mkV4 198 51 100 0, 24); (mkV4 203 0 113 0, 24);
   (mkV4 224 0 0 0, 4); (mkV4 240 0 0 0, 4)].
Definition special_v6 : list (Ipv6Addr * Z) :=
  [(mkV6 0 0 0 0 0 0 0 0, 128); (mkV6 0 0 0 0 0 0 0 1, 128); (mkV6 0xff00 0 0 0 0 0 0 0, 8);
   (mkV6 0xfc00 0 0 0 0 0 0 0, 7); (mkV6 0xfe80 0 0 0 0 0 0 0, 10); (mkV6 0xfec0 0 0 0 0 0 0 0, 10);
   (mkV6 0x2001 0 0 0 0 0 0 0, 23); (mkV6 0x2001 0xdb8 0 0 0 0 0 0, 32); (mkV6 0x3fff 0 0 0 0 0 0 0, 20);
   (mkV6 0x100 0 0 0 0 0 0 0, 64); (mkV6 0x64 0xff9b 1 0 0 0 0 0, 48)].

Definition reserved_v4 (a : Ipv4Addr) : Prop :=
  Exists (fun '(b, len) => in_block 32 (v4_number a) (v4_number b) len) special_v4.
(** The four transition formats that carry an IPv4 address. *)
Inductive carries : Ipv6Addr -> Ipv4Addr -> Prop :=
| carries_compatible a b c d :
    carries (mkV6 0 0 0 0 0 0 (a * 256 + b) (c * 256 + d)) (mkV4 a b c d)
| carries_mapped a b c d :
    carries (mkV6 0 0 0 0 0 0xffff (a * 256 + b) (c * 256 + d)) (mkV4 a b c d)
| carries_nat64 a b c d :
    carries (mkV6 0x64 0xff9b 0 0 0 0 (a * 256 + b) (c * 256 + d)) (mkV4 a b c d)
| carries_6to4 a b c d r3 r4 r5 r6 r7 :
    carries (mkV6 0x2002 (a * 256 + b) (c * 256 + d) r3 r4 r5 r6 r7) (mkV4 a b c d).
Definition reserved_v6 (a : Ipv6Addr) : Prop :=
  Exists (fun '(b, len) => in_block 128 (v6_number a) (v6_number b) len) special_v6
  \/ exists v4, wf4 v4 /\ carries a v4 /\ reserved_v4 v4.
Definition reserved (ip : IpAddr) : Prop :=
  match ip with V4 a => reserved_v4 a | V6 a => reserved_v6 a end.

(** ** The two classifications agree *)

Lemma div_join hi lo k : 0 <= lo < k -> (hi * k + lo) / k = hi.
Proof. intros. rewrite Z.div_add_l by lia. rewrite Z.div_small by lia. lia. Qed.
Lemma v4_prefix a :
  wf4 a -> v4_number a / 2 ^ 24 = o0 a /\ v4_number a / 2 ^ 16 = o0 a * 256 + o1 a
           /\ v4_number a / 2 ^ 8 = (o0 a * 256 + o1 a) * 256 + o2 a.
Proof.
  unfold wf4, v4_number, u8_max. intros. split; [|split].
  - replace (_ + o3 a) with (o0 a * 2 ^ 24 + ((o1 a * 256 + o2 a) * 256 + o3 a)) by lia. apply div_join. lia.
  - replace (_ + o3 a) with ((o0 a * 256 + o1 a) * 2 ^ 16 + (o2 a * 256 + o3 a)) by lia. apply div_join. lia.
  - apply (div_join _ (o3 a) 256). lia.
Qed.
Lemma in_block_prefix w n b len k :
  len <= k <= w -> in_block w n b len <-> (n / 2 ^ (w - k)) / 2 ^ (k - len) = (b / 2 ^ (w - k)) / 2 ^ (k - len).
Proof.
  intros Hk. unfold in_block. rewrite !Z.div_div by (try apply Z.pow_pos_nonneg; lia || apply Z.pow_nonzero; lia).
  rewrite <- Z.pow_add_r by lia. by replace (w - k + (k - len)) with (w - len) by lia.
Qed.
Lemma v4_block a b len :
  wf4 a -> wf4 b ->
  (0 <= len <= 8 -> in_block 32 (v4_number a) (v4_number b) len <-> o0 a / 2 ^ (8 - len) = o0 b / 2 ^ (8 - len))
  /\ (0 <= len <= 16 -> in_block 32 (v4_number a) (v4_number b) len
      <-> (o0 a * 256 + o1 a) / 2 ^ (16 - len) = (o0 b * 256 + o1 b) / 2 ^ (16 - len))
  /\ (in_block 32 (v4_number a) (v4_number b) 24 <-> o0 a = o0 b /\ o1 a = o1 b /\ o2 a = o2 b).
Proof.
  intros Ha Hb. destruct (v4_prefix a Ha) as (A1 & A2 & A3), (v4_prefix b Hb) as (B1 & B2 & B3).
  split; [|split].
  - intros. rewrite (in_block_prefix _ _ _ _ 8) by lia. change (32 - 8) with 24. by rewrite A1, B1.
  - intros. rewrite (in_block_prefix _ _ _ _ 16) by lia. change (32 - 16) with 16. by rewrite A2, B2.
  - unfold in_block. change (32 - 24) with 8. rewrite A3, B3. unfold wf4, u8_max in *. lia.
Qed.
Lemma div_const n b k : 0 < k -> n / k = b <-> b * k <= n < b * k + k.
Proof. intros. split; [intros <-; pose proof (Z.div_mod n k); pose proof (Z.mod_pos_bound n k); lia|].
 intros. symmetry. apply Z.div_unique with (n - b * k); lia. Qed.
Lemma reserved_v4_octets a : wf4 a ->
  reserved_v4 a <->
  o0 a = 0 \/ o0 a = 10 \/ (o0 a = 100 /\ 64 <= o1 a <= 127) \/ o0 a = 127 \/ (o0 a = 169 /\ o1 a = 254)
  \/ (o0 a = 172 /\ 16 <= o1 a <= 31) \/ (o0 a = 192 /\ o1 a = 0 /\ o2 a = 0) \/ (o0 a = 192 /\ o1 a = 0 /\ o2 a = 2)
  \/ (o0 a = 192 /\ o1 a = 88 /\ o2 a = 99) \/ (o0 a = 192 /\ o1 a = 168) \/ (o0 a = 198 /\ 18 <= o1 a <= 19)
  \/ (o0 a = 198 /\ o1 a = 51 /\ o2 a = 100) \/ (o0 a = 203 /\ o1 a = 0 /\ o2 a = 113)
  \/ 224 <= o0 a <= 239 \/ 240 <= o0 a.
Proof.
  intros Ha. unfold reserved_v4, special_v4. repeat rewrite Exists_cons. rewrite Exists_nil.
  assert (Hwf : forall p q r, 0 <= p <= 255 -> 0 <= q <= 255 -> 0 <= r <= 255 -> wf4 (mkV4 p q r 0)) by (unfold wf4, u8_max; simpl; lia).
  repeat match goal with |- context [in_block 32 _ (v4_number ?b) 24] => rewrite (proj2 (proj2 (v4_block a b 24 Ha ltac:(apply Hwf; lia)))) end.
  repeat match goal with |- context [in_block 32 _ (v4_number ?b) ?l] => first [rewrite (proj1 (v4_block a b l Ha ltac:(apply Hwf; lia)) ltac:(lia)) | rewrite (proj1 (proj2 (v4_block a b l Ha ltac:(apply Hwf; lia))) ltac:(lia))] end.
  unfold wf4, u8_max in Ha. cbn [o0 o1 o2 o3].
  repeat match goal with |- context [?x / 2 ^ ?k = ?b] => let k' := eval vm_compute in (2^k) in let b' := eval vm_compute in b in change (x / 2^k = b) with (x / k' = b'); rewrite (div_const x b' k') by lia end.
  repeat (apply Morphisms_Prop.or_iff_morphism; [lia|]). lia.
Qed.

Lemma if_false (c b : bool) : (if c then false else b) = false <-> c = true \/ b = false.
Proof. destruct c; intuition discriminate. Qed.

Ltac to_prop :=
  repeat first [rewrite if_false | rewrite orb_true_iff | rewrite andb_true_iff
               | rewrite Z.eqb_eq | rewrite in_range_spec | rewrite Z.leb_le].

Ltac split_or := repeat match goal with H : _ \/ _ |- _ => destruct H as [H|H] end.
Ltac pick := lazymatch goal with |- _ \/ _ => first [left; pick|right; pick] | |- _ => lia end.

Lemma public_v4_reserved a : wf4 a -> is_public_unicast_v4 a = false <-> reserved_v4 a.
Proof.
  intros Ha. rewrite reserved_v4_octets by done. unfold is_public_unicast_v4.
  unfold V4.is_unspecified, V4.is_loopback, V4.is_private, V4.is_link_local, V4.is_multicast,
    V4.is_broadcast, V4.is_documentation. unfold wf4, u8_max in Ha. to_prop.
  split; intros Hp; split_or; pick.
Qed.

(** A mask of the high bits keeps the quotient. *)
Lemma land_high_mask x k :
  0 <= k <= 16 -> 0 <= x <= u16_max -> Z.land x (2 ^ 16 - 2 ^ k) = x / 2 ^ k * 2 ^ k.
Proof.
  intros Hk Hx. rewrite <- Z.shiftl_mul_pow2, <- Z.shiftr_div_pow2, <- Z.ldiff_ones_r by lia.
  assert (Hlow : Z.land x (Z.ones 16) = x).
  { rewrite Z.land_ones by lia. apply Z.mod_small. unfold u16_max in Hx. lia. }
  rewrite <- Hlow at 2. apply Z.bits_inj'. intros n Hn.
  rewrite Z.ldiff_spec, !Z.land_spec, !Z.testbit_ones_nonneg by lia.
  replace (2 ^ 16 - 2 ^ k) with (Z.shiftl (Z.ones (16 - k)) k).
  2: { rewrite Z.shiftl_mul_pow2, Z.ones_equiv by lia.
       replace (2 ^ 16) with (2 ^ (16 - k) * 2 ^ k); [lia|]. rewrite <- Z.pow_add_r by lia. f_equal. lia. }
  rewrite Z.shiftl_spec by lia. destruct (Z.ltb_spec n k).
  - rewrite (Z.testbit_neg_r _ (n - k)) by lia. by rewrite !andb_false_r.
  - rewrite Z.testbit_ones_nonneg by lia. rewrite andb_true_r. f_equal.
    destruct (Z.ltb_spec (n - k) (16 - k)), (Z.ltb_spec n 16); try done; lia.
Qed.

Lemma v6_prefix a :
  wf6 a ->
  v6_number a / 2 ^ 112 = s0 a /\ v6_number a / 2 ^ 96 = s0 a * 65536 + s1 a
  /\ v6_number a / 2 ^ 80 = (s0 a * 65536 + s1 a) * 65536 + s2 a
  /\ v6_number a / 2 ^ 64 = ((s0 a * 65536 + s1 a) * 65536 + s2 a) * 65536 + s3 a.
Proof.
  unfold wf6, u16_max. intros [(A0 & A1 & A2 & A3) (A4 & A5 & A6 & A7)].
  set (r3 := ((s4 a * 65536 + s5 a) * 65536 + s6 a) * 65536 + s7 a).
  assert (R3 : 0 <= r3 < 2 ^ 64) by (subst r3; lia).
  set (r2 := s3 a * 2 ^ 64 + r3). assert (R2 : 0 <= r2 < 2 ^ 80) by (subst r2; lia).
  set (r1 := s2 a * 2 ^ 80 + r2). assert (R1 : 0 <= r1 < 2 ^ 96) by (subst r1; lia).
  set (r0 := s1 a * 2 ^ 96 + r1). assert (R0 : 0 <= r0 < 2 ^ 112) by (subst r0; lia).
  assert (E : v6_number a = s0 a * 2 ^ 112 + r0).
  { subst r0 r1 r2 r3. unfold v6_number, segments. cbn [foldl]. lia. }
  split; [|split; [|split]].
  - rewrite E. by apply div_join.
  - replace (v6_number a) with ((s0 a * 65536 + s1 a) * 2 ^ 96 + r1) by (subst r0; lia). by apply div_join.
  - replace (v6_number a) with (((s0 a * 65536 + s1 a) * 65536 + s2 a) * 2 ^ 80 + r2) by (subst r0 r1; lia).
    by apply div_join.
  - replace (v6_number a) with ((((s0 a * 65536 + s1 a) * 65536 + s2 a) * 65536 + s3 a) * 2 ^ 64 + r3)
      by (subst r0 r1 r2; lia). by apply div_join.
Qed.

Lemma v6_number_inj a b : wf6 a -> wf6 b -> v6_number a = v6_number b -> a = b.
Proof.
  intros Ha Hb E. destruct (v6_prefix a Ha) as (_ & _ & _ & A), (v6_prefix b Hb) as (_ & _ & _ & B).
  rewrite E, B in A. unfold v6_number, segments in E. cbn [foldl] in E.
  destruct a, b; unfold wf6, u16_max in *; simpl in *. f_equal; lia.
Qed.

Lemma v6_block a b :
  wf6 a -> wf6 b ->
  (forall len, 0 <= len <= 16 ->
     in_block 128 (v6_number a) (v6_number b) len <-> s0 a / 2 ^ (16 - len) = s0 b / 2 ^ (16 - len))
  /\ (forall len, 0 <= len <= 32 ->
     in_block 128 (v6_number a) (v6_number b) len
     <-> (s0 a * 65536 + s1 a) / 2 ^ (32 - len) = (s0 b * 65536 + s1 b) / 2 ^ (32 - len))
  /\ (in_block 128 (v6_number a) (v6_number b) 48 <-> s0 a = s0 b /\ s1 a = s1 b /\ s2 a = s2 b)
  /\ (in_block 128 (v6_number a) (v6_number b) 64 <-> s0 a = s0 b /\ s1 a = s1 b /\ s2 a = s2 b /\ s3 a = s3 b)
  /\ (in_block 128 (v6_number a) (v6_number b) 128 <-> a = b).
Proof.
  intros Ha Hb. destruct (v6_prefix a Ha) as (A1 & A2 & A3 & A4), (v6_prefix b Hb) as (B1 & B2 & B3 & B4).
  pose proof (v6_number_inj a b Ha Hb) as Hinj.
  split; [|split; [|split; [|split]]].
  - intros. rewrite (in_block_prefix _ _ _ _ 16) by lia. change (128 - 16) with 112. by rewrite A1, B1.
  - intros. rewrite (in_block_prefix _ _ _ _ 32) by lia. change (128 - 32) with 96. by rewrite A2, B2.
  - unfold in_block. change (128 - 48) with 80. rewrite A3, B3. unfold wf6, u16_max in *. lia.
  - unfold in_block. change (128 - 64) with 64. rewrite A4, B4. unfold wf6, u16_max in *. lia.
  - unfold in_block. rewrite Z.sub_diag, !Z.div_1_r. split; [done|congruence].
Qed.

Lemma embedded_carries a v : wf6 a -> embedded_v4 a = Some v -> wf4 v /\ carries a v.
Proof.
  assert (Hb : forall s, 0 <= s <= u16_max ->
    0 <= V6.hi_byte s <= u8_max /\ 0 <= V6.lo_byte s <= u8_max /\ s = V6.hi_byte s * 256 + V6.lo_byte s).
  { unfold V6.hi_byte, V6.lo_byte, u16_max, u8_max. intros s Hs.
    pose proof (Z.div_mod s 256). pose proof (Z.mod_pos_bound s 256). lia. }
  destruct a as [a0 a1 a2 a3 a4 a5 a6 a7]. intros [(_ & A1 & A2 & _) (_ & _ & A6 & A7)]. simpl in *.
  unfold embedded_v4, V6.to_ipv4, V6.v4_of_segments. cbn [s0 s1 s2 s3 s4 s5 s6 s7 forallb].
  destruct (Hb a1 A1) as (? & ? & E1), (Hb a2 A2) as (? & ? & E2),
    (Hb a6 A6) as (? & ? & E6), (Hb a7 A7) as (? & ? & E7).
  destruct (_ && ((a5 =? 0) || _)) eqn:C1.
  { intros [= <-]. split; [done|]. bool_simp. subst. rewrite E6, E7 at 1.
    destruct (a5 =? 0) eqn:E5; bool_simp; subst; [constructor|].
    assert (a5 = 65535) as -> by (destruct (a5 =? 65535) eqn:E; [by bool_simp|done]). constructor. }
  destruct ((a0 =? 0x64) && _ && _) eqn:C2.
  { intros [= <-]. split; [done|]. bool_simp. subst. rewrite E6, E7 at 1. constructor. }
  destruct (a0 =? 0x2002) eqn:C3; [|done].
  intros [= <-]. split; [done|]. bool_simp. subst. rewrite E1, E2 at 1. constructor.
Qed.

Lemma carries_embedded a v : wf4 v -> carries a v -> embedded_v4 a = Some v.
Proof.
  assert (Hj : forall h l, 0 <= l <= u8_max -> V6.hi_byte (h * 256 + l) = h /\ V6.lo_byte (h * 256 + l) = l).
  { unfold V6.hi_byte, V6.lo_byte, u8_max. intros h l Hl. split; [apply div_join; lia|].
    rewrite Z.add_comm, Z.mod_add by lia. apply Z.mod_small. lia. }
  intros (_ & H1 & _ & H3) Hc. destruct Hc; simpl in *; unfold embedded_v4, V6.to_ipv4, V6.v4_of_segments; simpl;
    destruct (Hj a b H1) as [-> ->], (Hj c d H3) as [-> ->]; done.
Qed.

Lemma wf6_const a b c : 0 <= a <= u16_max -> 0 <= b <= u16_max -> 0 <= c <= u16_max -> forall h, 0 <= h <= u16_max -> wf6 (mkV6 a b c 0 0 0 0 h).
Proof. unfold wf6, u16_max. simpl. lia. Qed.

Lemma special_v6_segments a :
  wf6 a ->
  Exists (fun '(b, len) => in_block 128 (v6_number a) (v6_number b) len) special_v6 <->
  a = mkV6 0 0 0 0 0 0 0 0 \/ a = mkV6 0 0 0 0 0 0 0 1
  \/ s0 a / 256 = 0xff \/ s0 a / 512 = 0x7e \/ s0 a / 64 = 0x3fa \/ s0 a / 64 = 0x3fb
  \/ (s0 a = 0x2001 /\ s1 a / 512 = 0) \/ (s0 a = 0x2001 /\ s1 a = 0xdb8)
  \/ (s0 a = 0x3fff /\ s1 a / 4096 = 0)
  \/ (s0 a = 0x100 /\ s1 a = 0 /\ s2 a = 0 /\ s3 a = 0) \/ (s0 a = 0x64 /\ s1 a = 0xff9b /\ s2 a = 1).
Proof.
  intros Ha. unfold special_v6. rewrite !Exists_cons, Exists_nil.
  assert (Hbl : forall p q r h, 0 <= p <= u16_max -> 0 <= q <= u16_max -> 0 <= r <= u16_max -> 0 <= h <= u16_max -> _)
    by exact (fun p q r h Hp Hq Hr Hh => v6_block a (mkV6 p q r 0 0 0 0 h) Ha (wf6_const p q r Hp Hq Hr h Hh)).
  unfold u16_max in Hbl.
  repeat (apply Morphisms_Prop.or_iff_morphism).
  - apply Hbl; lia.
  - apply Hbl; lia.
  - apply (Hbl 0xff00 0 0 0); lia.
  - apply (Hbl 0xfc00 0 0 0); lia.
  - apply (Hbl 0xfe80 0 0 0); lia.
  - apply (Hbl 0xfec0 0 0 0); lia.
  - rewrite (proj1 (proj2 (Hbl 0x2001 0 0 0 ltac:(lia) ltac:(lia) ltac:(lia) ltac:(lia))) 23) by lia.
    cbn [s0 s1]. change (2 ^ (32 - 23)) with 512. rewrite (div_const _ _ 512), (div_const _ 0 512) by lia.
    unfold wf6, u16_max in Ha. change ((8193 * 65536 + 0) / 512) with 1048704. lia.
  - rewrite (proj1 (proj2 (Hbl 0x2001 0xdb8 0 0 ltac:(lia) ltac:(lia) ltac:(lia) ltac:(lia))) 32) by lia.
    cbn [s0 s1]. change (2 ^ (32 - 32)) with 1. rewrite !Z.div_1_r. unfold wf6, u16_max in Ha. lia.
  - rewrite (proj1 (proj2 (Hbl 0x3fff 0 0 0 ltac:(lia) ltac:(lia) ltac:(lia) ltac:(lia))) 20) by lia.
    cbn [s0 s1]. change (2 ^ (32 - 20)) with 4096. rewrite (div_const _ _ 4096), (div_const _ 0 4096) by lia.
    unfold wf6, u16_max in Ha. change ((16383 * 65536 + 0) / 4096) with 262128. lia.
  - apply (Hbl 0x100 0 0 0); lia.
  - rewrite (proj1 (proj2 (proj2 (Hbl 0x64 0xff9b 1 0 ltac:(lia) ltac:(lia) ltac:(lia) ltac:(lia))))). simpl. tauto.
Qed.

Lemma mask_eq x m k c : m = 2 ^ 16 - 2 ^ k -> 0 <= k <= 16 -> 0 <= x <= u16_max -> c mod 2 ^ k = 0 ->
  Z.land x m = c <-> x / 2 ^ k = c / 2 ^ k.
Proof.
  intros -> Hk Hx Hc. rewrite land_high_mask by done.
  assert (0 < 2 ^ k) by (apply Z.pow_pos_nonneg; lia).
  assert (c = c / 2 ^ k * 2 ^ k) by (rewrite Z.mul_comm; rewrite (Z.div_mod c (2 ^ k)) at 1; lia).
  split; [intros <-; by rewrite Z.div_mul by lia|]. intros ->. lia.
Qed.

Lemma public_v6_special a :
  wf6 a ->
  is_public_unicast_v6 a = false <->
  Exists (fun '(b, len) => in_block 128 (v6_number a) (v6_number b) len) special_v6
  \/ exists v, embedded_v4 a = Some v /\ is_public_unicast_v4 v = false.
Proof.
  intros Ha. rewrite special_v6_segments by done. unfold is_public_unicast_v6. to_prop.
  assert (H0 : 0 <= s0 a <= u16_max) by apply Ha. assert (H1 : 0 <= s1 a <= u16_max) by apply Ha.
  unfold V6.is_multicast. rewrite Z.eqb_eq, (mask_eq (s0 a) 65280 8 65280) by done.
  rewrite (mask_eq (s0 a) 0xfe00 9 0xfc00), (mask_eq (s0 a) 0xffc0 6 0xfe80),
    (mask_eq (s0 a) 0xffc0 6 0xfec0), (mask_eq (s1 a) 0xfe00 9 0), (mask_eq (s1 a) 0xf000 12 0) by done.
  assert (Hu : V6.is_unspecified a = true <-> a = mkV6 0 0 0 0 0 0 0 0).
  { destruct a as [p q r s t u v w]. unfold V6.is_unspecified, segments. cbn [forallb s0 s1 s2 s3 s4 s5 s6 s7].
    rewrite !andb_true_iff, !Z.eqb_eq. split; [intuition congruence|]. by intros [= -> -> -> -> -> -> -> ->]. }
  assert (Hl : V6.is_loopback a = true <-> a = mkV6 0 0 0 0 0 0 0 1).
  { destruct a as [p q r s t u v w]. unfold V6.is_loopback. cbn [s0 s1 s2 s3 s4 s5 s6 s7].
    rewrite !andb_true_iff, !Z.eqb_eq. split; [intuition congruence|]. by intros [= -> -> -> -> -> -> -> ->]. }
  rewrite Hu, Hl.
  assert (He : (match embedded_v4 a with Some v4 => is_public_unicast_v4 v4 | None => true end) = false
    <-> exists v, embedded_v4 a = Some v /\ is_public_unicast_v4 v = false).
  { destruct (embedded_v4 a) as [v|]; [|naive_solver]. split; [eauto|]. by intros (w & [= <-] & Hw). }
  rewrite He. clear. change (2 ^ 8) with 256. change (2 ^ 9) with 512. change (2 ^ 6) with 64. change (2 ^ 12) with 4096.
  change (65280 / 256) with 0xff. change (0xfc00 / 512) with 0x7e. change (0xfe80 / 64) with 0x3fa.
  change (0xfec0 / 64) with 0x3fb. change (0 / 512) with 0. change (0 / 4096) with 0. tauto.
Qed.

Lemma public_reserved ip : wf_ip ip -> is_public_unicast ip = false <-> reserved ip.
Proof.
  destruct ip as [a|a]; simpl; [apply public_v4_reserved|]. intros Ha.
  rewrite public_v6_special by done. unfold reserved_v6. apply Morphisms_Prop.or_iff_morphism; [done|].
  split.
  - intros (v & Hv & Hp). destruct (embedded_carries a v Ha Hv) as [Hw Hc]. exists v.
    split; [done|]. split; [done|]. by apply public_v4_reserved.
  - intros (v & Hw & Hc & Hr). exists v. split; [by apply carries_embedded|]. by apply public_v4_reserved.
Qed.

(** ** Lemmas on the fetch *)

Section FetchLemmas.
Context {Url : Type} `{Outside Url} `{HttpPackage}.

Definition public (a : SocketAddr) : Prop := is_public_unicast (sock_ip a) = true.

Lemma resolve_public n host port a : resolve_and_validate n host port = Ok a -> public a.
Proof.
  unfold resolve_and_validate, public. destruct (Parse.parse_ip host) as [ip|].
  - destruct (is_public_unicast ip) eqn:E; [|done]. by intros [= <-].
  - destruct (lookup_host n _) as [addrs|e]; [|done]. simpl. destruct addrs as [|first rest]; [done|].
    destruct (List.find _ _) as [b|] eqn:E; [done|]. intros [= <-].
    by apply negb_false_iff, (find_none _ _ E first (or_introl eq_refl)).
Qed.

Lemma admit_public n url u h p : admit_url n url = Ok (u, h, p) -> public p.
Proof.
  unfold admit_url. intros (u' & _ & Hu)%result_bind_Ok. destruct (negb _); [done|].
  apply result_bind_Ok in Hu as (h' & _ & Hu). apply result_bind_Ok in Hu as (port & _ & Hu).
  apply result_bind_Ok in Hu as (p' & Hp & [= _ _ <-]). by eapply resolve_public.
Qed.

Lemma get_once_public opts hops n url r l :
  get_once opts hops n url = (r, l) -> Forall public l /\ (length l <= 1)%nat.
Proof.
  unfold get_once. destruct (admit_url n url) as [[[u h] p]|e] eqn:Ea.
  - apply admit_public in Ea. intros Hr.
    assert (l = [p]) as -> by (repeat case_match; by simplify_eq). split; [by constructor|done].
  - intros [= <- <-]. split; [constructor|simpl; lia].
Qed.

Lemma get_once_next opts hops n url next l :
  get_once opts hops n url = (inr next, l) -> hops < max_redirects opts.
Proof. unfold get_once. intros Hr. repeat case_match; simplify_eq; bool_simp; lia. Qed.

Lemma get_loop_total fuel opts hops n url :
  0 <= hops -> hops <= max_redirects opts <= u8_max -> max_redirects opts - hops < Z.of_nat fuel ->
  exists r l, get_loop fuel opts hops n url = Some (r, l) /\ Forall public l /\ (length l <= fuel)%nat.
Proof.
  revert hops n url. induction fuel as [|fuel IH]; intros hops n url Hh Hm Hf.
  { exfalso. lia. }
  cbn [get_loop]. destruct (get_once opts hops n url) as [[r|next] l] eqn:E.
  - apply get_once_public in E as [? ?]. exists r, l. split; [done|]. split; [done|]. lia.
  - pose proof (get_once_next _ _ _ _ _ _ E). apply get_once_public in E as [Hl Hlen].
    unfold u8_try_from. rewrite try_from_in by lia. simpl.
    destruct (IH (hops + 1) (S n) next) as (r' & l' & -> & Hl' & Hlen'); [lia|lia|lia|].
    simpl. eexists _, _. split; [done|]. rewrite Forall_app, length_app. split; [done|]. lia.
Qed.
(** A deadline can only cut the connections short. *)
Lemma with_timeout_public deadline r l :
  Forall public l -> exists r' l', with_timeout deadline (r, l) = (r', l') /\ Forall public l' /\ (length l' <= length l)%nat.
Proof.
  intros Hl. destruct deadline as [k|]; simpl; eexists _, _; (split; [done|]); [|done].
  split; [by apply Forall_take|]. rewrite length_take. lia.
Qed.

Lemma safe_get_public deadline url opts :
  0 <= max_redirects opts <= u8_max ->
  exists r l, safe_get deadline url opts = Some (r, l)
    /\ Forall public l /\ Z.of_nat (length l) <= max_redirects opts + 1.
Proof.
  intros Hm. unfold safe_get, safe_get_inner, get_fuel.
  destruct (get_loop_total (S (Z.to_nat (max_redirects opts))) opts 0 0 url) as (r & l & -> & Hl & Hlen); [lia|lia|lia|].
  destruct (with_timeout_public deadline r l Hl) as (r' & l' & E & Hl' & Hlen'). exists r', l'. simpl. rewrite E.
  split; [done|]. split; [done|]. lia.
Qed.

Lemma safe_post_form_public deadline url form opts :
  exists r l, safe_post_form deadline url form opts = (r, l) /\ Forall public l /\ (length l <= 1)%nat.
Proof.
  unfold safe_post_form.
  assert (Forall public (safe_post_form_inner url form opts).2
          /\ (length (safe_post_form_inner url form opts).2 <= 1)%nat) as [Hl Hlen].
  { unfold safe_post_form_inner. destruct (admit_url 0 url) as [[[u h] p]|e] eqn:Ea; [|split; [constructor|simpl; lia]].
    apply admit_public in Ea. destruct (exchange 0 _ u h p); simpl; (split; [by constructor|lia]). }
  destruct (safe_post_form_inner url form opts) as [r l]. simpl in Hl, Hlen.
  destruct (with_timeout_public deadline r l Hl) as (r' & l' & E & Hl' & Hlen'). exists r', l'.
  split; [done|]. split; [done|]. lia.
Qed.
End FetchLemmas.

(** Reading with a cap: without a failing chunk, the whole body or a refusal. *)
Lemma read_chunks_spec max acc (cs : list bytes) :
  Z.of_nat (length acc) <= max ->
  read_chunks max acc (Ok <$> cs)
  = if Z.of_nat (length (acc ++ concat cs)) <=? max then Ok (acc ++ concat cs) else Err (BodyTooLarge max).
Proof.
  revert acc. induction cs as [|c cs IH]; intros acc Hacc; simpl.
  { rewrite app_nil_r. by rewrite (proj2 (Z.leb_le _ _)). }
  destruct (max <? _) eqn:E; bool_simp.
  - rewrite (proj2 (Z.leb_gt _ _)); [done|]. rewrite !length_app. lia.
  - rewrite IH by (rewrite length_app; lia). by rewrite app_assoc.
Qed.

Lemma read_chunks_Ok max acc chunks b :
  Z.of_nat (length acc) <= max ->
  read_chunks max acc chunks = Ok b ->
  exists cs, chunks = Ok <$> cs /\ b = acc ++ concat cs /\ Z.of_nat (length b) <= max.
Proof.
  revert acc. induction chunks as [|[c|e] chunks IH]; intros acc Hacc Hr; simpl in Hr; [|case_match|done].
  - exists []. simplify_eq. by rewrite app_nil_r.
  - done.
  - bool_simp. apply IH in Hr as (cs & -> & -> & Hb); [|rewrite length_app; lia].
    exists (c :: cs). split; [done|]. by rewrite <- app_assoc in *.
Qed.

Section LoopOutcome.
Context {Url : Type} `{Outside Url} `{HttpPackage}.

(** A successful answer is one exchange's, read under the cap. *)
Lemma get_loop_Ok fuel opts hops n url resp l :
  get_loop fuel opts hops n url = Some (Ok resp, l) ->
  exists k u h p w,
    exchange k GET u h p = Ok w /\ last l = Some p /\ is_redirection (wire_status w) = false
    /\ read_capped w (max_body_bytes opts) = Ok resp.
Proof.
  revert hops n url l. induction fuel as [|fuel IH]; intros hops n url l; [done|]. cbn [get_loop].
  destruct (get_once opts hops n url) as [[r|next] l0] eqn:E.
  - intros [= -> ->]. unfold get_once in E. repeat case_match; simplify_eq.
    eexists _, _, _, _, _. done.
  - destruct (u8_try_from _) as [hops'|]; [|done]. simpl.
    destruct (get_loop fuel opts hops' (S n) next) as [[r' l']|] eqn:El; [|done]. simpl. intros [= -> <-].
    destruct (IH _ _ _ _ El) as (k & u & h & p & w & Hw & Hlast & Hrest).
    exists k, u, h, p, w. split; [done|]. split; [|done]. rewrite last_app, Hlast. done.
Qed.
End LoopOutcome.

(** ** A concrete outside for the witnesses: every name resolves to 8.8.8.8,
    the path [a] redirects to [b], which answers in two chunks. *)

Module Demo.
Definition dns : SocketAddr := mkSocketAddr (V4 (mkV4 8 8 8 8)) 80.
#[export] Instance outside : Outside str := {|
  url_parse s := Ok s;
  url_join _ loc := Ok loc;
  url_to_string u := u;
  scheme _ := lit "https";
  host_str u := Some u;
  port_or_known_default _ := Some 80;
  form_urlencoded _ := [];
  lookup_host _ _ := Ok [dns];
  exchange _ _ u _ _ :=
    if u =s lit "a" then Ok (mkWire 302 (Some (lit "b")) u [])
    else Ok (mkWire 200 None u [Ok [1; 2]; Ok [3]]);
|}.
Definition opts : SafeFetchOpts := SafeFetchOpts_default.
End Demo.

(** ** Properties *)

(** C14: the classification is the published registry.  An address is refused
    exactly when it lies in one of the special-purpose CIDR blocks, or is an
    IPv6 address in one of the four transition formats (IPv4-compatible,
    IPv4-mapped, NAT64, 6to4) whose IPv4 address does: the octet and mask tests
    of the code decide membership of the blocks. *)
Theorem is_public_unicast_decides_registry ip :
  wf_ip ip -> is_public_unicast ip = false <-> reserved ip.
Proof. apply public_reserved. Qed.

Lemma is_public_unicast_decides_registry_witness : reserved (V6 (mkV6 0x64 0xff9b 0 0 0 0 0xa9fe 0xa9fe)).
Proof.
  apply is_public_unicast_decides_registry; [|vm_compute; reflexivity].
  simpl. unfold wf6, u16_max. simpl. lia.
Defined.

(** C1: no request forgery.  [safe_get] always returns, after at most
    [max_redirects + 1] connections; whatever names resolve to (a different
    answer at every look-up included), wherever redirects point and whenever the
    deadline strikes, every connection it opened was to a public unicast
    address.  The same holds of [safe_post_form], which opens at most one. *)
Theorem fetch_contacts_only_public {Url} `{Outside Url} `{HttpPackage} deadline url form opts :
  0 <= max_redirects opts <= u8_max ->
  (exists r l, safe_get deadline url opts = Some (r, l)
     /\ Forall public l /\ Z.of_nat (length l) <= max_redirects opts + 1)
  /\ (exists r l, safe_post_form deadline url form opts = (r, l) /\ Forall public l /\ (length l <= 1)%nat).
Proof. intros Hm. split; [by apply safe_get_public|apply safe_post_form_public]. Qed.

Lemma fetch_contacts_only_public_witness :
  exists r l, @safe_get str Demo.outside visible_http None (lit "a") Demo.opts = Some (r, l)
    /\ Forall public l /\ l = [Demo.dns; Demo.dns].
Proof.
  destruct (proj1 (@fetch_contacts_only_public str Demo.outside visible_http None (lit "a") [] Demo.opts
    ltac:(vm_compute; split; discriminate))) as (r & l & E & Hl & _).
  exists r, l. split; [exact E|]. split; [exact Hl|]. vm_compute in E. injection E as _ <-. reflexivity.
Defined.

(** A body is delivered whole and under the cap, or not at all.  A
    successful [safe_get] returns the concatenated chunks of one exchange, the
    last one made, whose status was not a redirect, and they fit the cap; and
    a stream whose chunks all arrive is refused exactly when their total
    exceeds the cap, however they were cut. *)
Theorem body_cap_exact {Url} `{Outside Url} `{HttpPackage} url opts :
  0 <= max_body_bytes opts ->
  (forall resp l, safe_get None url opts = Some (Ok resp, l) ->
     exists n u h p w cs, exchange n GET u h p = Ok w /\ last l = Some p
       /\ is_redirection (wire_status w) = false
       /\ wire_chunks w = Ok <$> cs /\ body resp = concat cs /\ status resp = wire_status w
       /\ Z.of_nat (length (body resp)) <= max_body_bytes opts)
  /\ (forall w cs, wire_chunks w = Ok <$> cs ->
      read_capped w (max_body_bytes opts)
      = if Z.of_nat (length (concat cs)) <=? max_body_bytes opts
        then Ok (mkSafeResponse (wire_status w) (concat cs) (wire_url w))
        else Err (BodyTooLarge (max_body_bytes opts))).
Proof.
  intros Hm. split.
  - intros resp l Hg. unfold safe_get in Hg. destruct (safe_get_inner url opts) as [[r l']|] eqn:E; [|done].
    simpl in Hg. injection Hg as -> ->. apply get_loop_Ok in E as (n & u & h & p & w & Hw & Hlast & Hr & Hc).
    unfold read_capped in Hc. apply result_bind_Ok in Hc as (b & Hb & [= <-]).
    apply read_chunks_Ok in Hb as (cs & Hcs & -> & Hlen); [|simpl; lia].
    exists n, u, h, p, w, cs. done.
  - intros w cs Hcs. unfold read_capped. rewrite Hcs, (read_chunks_spec _ []) by (simpl; lia). simpl.
    by destruct (_ <=? _).
Qed.

Lemma body_cap_exact_witness :
  exists resp l, @safe_get str Demo.outside visible_http None (lit "a") Demo.opts = Some (Ok resp, l)
    /\ Z.of_nat (length (body resp)) <= max_body_bytes Demo.opts.
Proof.
  eexists _, _. split; [vm_compute; reflexivity|].
  destruct (proj1 (@body_cap_exact str Demo.outside visible_http (lit "a") Demo.opts ltac:(vm_compute; discriminate))
    (mkSafeResponse 200 [1; 2; 3] (lit "b")) [Demo.dns; Demo.dns] ltac:(vm_compute; reflexivity))
    as (n & u & h & p & w & cs & _ & _ & _ & _ & _ & _ & Hlen). exact Hlen.
Defined.
