(* ===== verification/Webhooks.v ===== *)
(** * Inbound webhooks ([crates/webhooks/src/lib.rs])

    Signature verification (plain, GitHub style, timestamped) over an HMAC
    that is a parameter, and the delivery store that drops redeliveries.
    [subtle]'s [ct_eq] is equality: its timing is not modelled. *)

From S2P Require Import Prelude RustStr.

Inductive SignatureError := MalformedHeader | Mismatch.
Inductive TimestampedError := MalformedTimestamp | Stale | Signature (e : SignatureError).

(** [trim_start_matches(p)] for a non-empty pattern: every leading copy. *)
Fixpoint trim_start_fuel (fuel : nat) (p s : str) : str :=
  match fuel with
  | O => s
  | S f => match strip_prefix p s with Some r => trim_start_fuel f p r | None => s end
  end.
Definition trim_start_matches (p s : str) : str := trim_start_fuel (length s) p s.

Definition ct_eq (a b : bytes) : bool :=
  if negb (length a =? length b)%nat then false else bool_decide (a = b).

Definition timestamped_input (timestamp : Z) (body : bytes) : bytes :=
  as_bytes (show_i timestamp ++ [46]) ++ body.

Section Verify.
(** [Hmac<Sha256>]: key, message, 32-byte tag. *)
Context (compute : bytes -> bytes -> bytes).

Definition verify_hex (secret body : bytes) (signature_hex : str) : result SignatureError () :=
  provided ← ok_or (hex_decode (trim signature_hex)) MalformedHeader;
  let expected := compute secret body in
  if ct_eq expected provided then Ok () else Err Mismatch.

Definition verify_github (secret body : bytes) (header : str) : result SignatureError () :=
  hex_part ← ok_or (strip_prefix (lit "sha256=") (trim header)) MalformedHeader;
  verify_hex secret body hex_part.

Definition sign_github (secret body : bytes) : str := lit "sha256=" ++ hex_encode (compute secret body).

Definition sign_timestamped (secret : bytes) (timestamp : Z) (body : bytes) : str :=
  sign_github secret (timestamped_input timestamp body).

Definition verify_timestamped (secret body : bytes) (timestamp_header signature_header : str)
    (now max_skew_secs : Z) : result TimestampedError bytes :=
  timestamp ← ok_or (parse_i64 (trim timestamp_header)) MalformedTimestamp;
  if Z.abs max_skew_secs <? abs_diff now timestamp then Err Stale
  else
    _ ← map_err Signature (verify_github secret (timestamped_input timestamp body) signature_header);
    let hex_part := trim_start_matches (lit "sha256=") (trim signature_header) in
    ok_or (hex_decode hex_part) (Signature MalformedHeader).
End Verify.

(** ** The delivery store *)

(** The trait [DeliveryStore], in state-passing style. *)
Class DeliveryStore (St : Type) := {
  seen : St -> str -> bool;
  record : St -> str -> bool * St;
}.
(** What its documentation promises. *)
Class DeliveryStoreLaws (St : Type) `{DeliveryStore St} : Prop := {
  record_new s d : (record s d).1 = negb (seen s d);
  seen_record s d d' : seen (record s d).2 d' = (d' =s d) || seen s d';
}.

(** [InMemoryDeliveryStore]: a [DashSet<String>]. *)
Record InMemoryDeliveryStore := mkInMemory { seen_set : gset str }.
Definition in_memory_new : InMemoryDeliveryStore := mkInMemory ∅.
#[export] Instance in_memory_store : DeliveryStore InMemoryDeliveryStore := {|
  seen s d := bool_decide (d ∈ seen_set s);
  record s d := (bool_decide (d ∉ seen_set s), mkInMemory ({[ d ]} ∪ seen_set s));
|}.
#[export] Instance in_memory_laws : DeliveryStoreLaws InMemoryDeliveryStore.
Proof.
  split; simpl.
  - intros s d. destruct (decide (d ∈ seen_set s)).
    + by rewrite bool_decide_false, bool_decide_true by set_solver.
    + by rewrite bool_decide_true, bool_decide_false by set_solver.
  - intros s d d'. apply eq_true_iff_eq. rewrite orb_true_iff, !bool_decide_eq_true, str_eqb_eq. set_solver.
Qed.

(** A consumer that handles the deliveries for which [record] answers [true]. *)
Fixpoint process {St} `{DeliveryStore St} (s : St) (deliveries : list str) : list str * St :=
  match deliveries with
  | [] => ([], s)
  | d :: rest =>
      let '(new, s') := record s d in
      let '(handled, s'') := process s' rest in
      (if new then d :: handled else handled, s'')
  end.

(** ** Lemmas *)

Lemma ct_eq_spec a b : ct_eq a b = true <-> a = b.
Proof.
  unfold ct_eq. destruct (length a =? length b)%nat eqn:E; simpl.
  - apply bool_decide_eq_true.
  - apply Nat.eqb_neq in E. split; [done|]. by intros ->.
Qed.

Lemma show_u_digits n : 0 <= n -> Forall (fun c => is_ascii_digit c = true) (show_u n).
Proof. intros Hn. apply (show_u_numeral n Hn). Qed.

(** A numeral has neither a dot nor a comma nor a character outside ASCII. *)
Lemma show_i_chars n : Forall (fun c => 0 <= c < 128 /\ c <> 46 /\ c <> 44) (show_i n).
Proof.
  assert (Hd : forall m, 0 <= m -> Forall (fun c => 0 <= c < 128 /\ c <> 46 /\ c <> 44) (show_u m)).
  { intros m Hm. eapply Forall_impl; [exact (show_u_digits m Hm)|]. intros c Hc.
    unfold is_ascii_digit in Hc. apply in_range_spec in Hc. lia. }
  unfold show_i. destruct (n <? 0) eqn:E; bool_simp; [constructor; [lia|]|]; apply Hd; lia.
Qed.

Lemma show_i_inj a b : i64_min <= a <= i64_max -> i64_min <= b <= i64_max -> show_i a = show_i b -> a = b.
Proof.
  intros Ha Hb He. pose proof (parse_int_show_i i64_min i64_max a Ha) as H1.
  rewrite He, (parse_int_show_i _ _ b Hb) in H1. congruence.
Qed.

Lemma timestamped_input_eq t body : timestamped_input t body = show_i t ++ 46 :: body.
Proof.
  unfold timestamped_input. rewrite as_bytes_ascii; [by rewrite <- app_assoc|].
  apply Forall_app. split; [|repeat constructor; lia].
  eapply Forall_impl; [exact (show_i_chars t)|]. simpl. tauto.
Qed.

(** The MAC input determines the timestamp and the body. *)
Lemma timestamped_input_inj t t' body body' :
  i64_min <= t <= i64_max -> i64_min <= t' <= i64_max ->
  timestamped_input t body = timestamped_input t' body' -> t = t' /\ body = body'.
Proof.
  rewrite !timestamped_input_eq. intros Ht Ht' E.
  assert (Hf : forall n, char_free 46 (show_i n)).
  { intros n. eapply Forall_impl; [exact (show_i_chars n)|]. simpl. tauto. }
  pose proof (split_once_app 46 (show_i t) body (Hf t)) as H1. rewrite E in H1.
  rewrite (split_once_app 46 (show_i t') body' (Hf t')) in H1. injection H1 as Hs <-.
  split; [|done]. by apply show_i_inj.
Qed.

Lemma verify_hex_Ok compute secret body sig :
  verify_hex compute secret body sig = Ok () <-> hex_decode (trim sig) = Some (compute secret body).
Proof.
  unfold verify_hex. rewrite result_bind_Ok. setoid_rewrite ok_or_Ok. split.
  - intros (p & Hp & Hc). destruct (ct_eq _ p) eqn:E; [|done]. apply ct_eq_spec in E. congruence.
  - intros Hp. eexists. split; [exact Hp|]. by rewrite (proj2 (ct_eq_spec _ _)).
Qed.

Lemma verify_github_Ok compute secret body header :
  verify_github compute secret body header = Ok () <->
  exists h, trim header = lit "sha256=" ++ h /\ hex_decode (trim h) = Some (compute secret body).
Proof.
  unfold verify_github. rewrite result_bind_Ok. setoid_rewrite ok_or_Ok. setoid_rewrite verify_hex_Ok.
  by setoid_rewrite strip_prefix_Some.
Qed.

Lemma hex_encode_no_ws b : is_byte_list b -> no_ws (hex_encode b).
Proof. eauto with kit. Qed.
#[export] Hint Resolve hex_encode_no_ws : kit.

Lemma sign_github_no_ws compute secret body :
  is_byte_list (compute secret body) -> no_ws (sign_github compute secret body).
Proof.
  intros Hb. unfold sign_github, no_ws. apply Forall_app. split; [repeat constructor|by apply hex_encode_no_ws].
Qed.

#[export] Hint Resolve sign_github_no_ws : kit.

Lemma show_i_no_ws n : no_ws (show_i n).
Proof.
  assert (Hd : forall c, c = 45 \/ is_ascii_digit c = true -> is_whitespace c = false).
  { intros c [->|Hc]; [done|]. unfold is_ascii_digit in Hc. apply in_range_spec in Hc.
    unfold is_whitespace, in_range. repeat (rewrite orb_false_iff). repeat (rewrite Z.eqb_neq).
    rewrite !andb_false_iff, !Z.leb_gt. lia. }
  unfold show_i. destruct (n <? 0) eqn:E; bool_simp; [constructor; [by apply Hd; left|]|];
    (eapply Forall_impl; [apply show_u_digits; lia|]); auto.
Qed.

(** What decodes as hexadecimal once trimmed does not start with the scheme. *)
Lemma hex_not_prefixed h b : hex_decode (trim h) = Some b -> strip_prefix (lit "sha256=") h = None.
Proof.
  intros Hh. destruct (strip_prefix _ h) as [r|] eqn:E; [|done]. exfalso. apply strip_prefix_Some in E. subst h.
  unfold trim in Hh. cbn [app lit drop_while] in Hh. change (is_whitespace _) with false in Hh. cbn iota in Hh.
  remember (Z.of_N (Ascii.N_of_ascii _) :: _) as t eqn:Et in Hh.
  destruct (drop_while_end_prefix is_whitespace t) as (post & Hp & Hf).
  destruct (drop_while_end is_whitespace t) as [|c l].
  - simpl in Hp. subst post t. inversion_clear Hf. done.
  - rewrite Et in Hp. simpl in Hp. injection Hp as <- _. destruct l as [|d l]; done.
Qed.

Lemma trim_start_once h :
  strip_prefix (lit "sha256=") h = None -> trim_start_matches (lit "sha256=") (lit "sha256=" ++ h) = h.
Proof.
  intros Hn. unfold trim_start_matches. rewrite length_app. change (length (lit "sha256=")) with 7%nat.
  remember (6 + length h)%nat as n. replace (7 + length h)%nat with (S n) by lia. cbn [trim_start_fuel].
  rewrite strip_prefix_app. destruct n as [|n]; [done|]. cbn [trim_start_fuel]. by rewrite Hn.
Qed.

Lemma github_accepts_own compute secret body :
  is_byte_list (compute secret body) -> verify_github compute secret body (sign_github compute secret body) = Ok ().
Proof.
  intros Hb. apply verify_github_Ok. exists (hex_encode (compute secret body)).
  rewrite (trim_no_ws (sign_github _ _ _)), (trim_no_ws (hex_encode _)) by auto with kit. auto with kit.
Qed.

(** Its own signature is accepted exactly within the window. *)
Lemma timestamped_own compute secret body t now skew :
  is_byte_list (compute secret (timestamped_input t body)) -> i64_min <= t <= i64_max ->
  verify_timestamped compute secret body (show_i t) (sign_timestamped compute secret t body) now skew
  = if Z.abs skew <? abs_diff now t then Err Stale else Ok (compute secret (timestamped_input t body)).
Proof.
  intros Hb Ht. unfold verify_timestamped.
  rewrite (trim_no_ws (show_i t)) by apply show_i_no_ws. unfold parse_i64. rewrite parse_int_show_i by done. simpl.
  destruct (Z.abs skew <? abs_diff now t); [done|]. unfold sign_timestamped. rewrite github_accepts_own by done. simpl.
  rewrite (trim_no_ws (sign_github _ _ _)) by (by apply sign_github_no_ws). unfold sign_github.
  rewrite trim_start_once; [by rewrite hex_decode_encode|]. eapply hex_not_prefixed.
  rewrite trim_no_ws by (by apply hex_encode_no_ws). by apply hex_decode_encode.
Qed.

(** ** Properties *)

(** A header is accepted for a body exactly when, spaces around it apart,
    it is [sha256=] and a hexadecimal spelling (either case) of that body's
    HMAC; in particular the header [sign_github] prints is accepted. *)
Theorem github_signature_exact compute secret body :
  is_byte_list (compute secret body) ->
  verify_github compute secret body (sign_github compute secret body) = Ok ()
  /\ forall header, verify_github compute secret body header = Ok () <->
       exists h, trim header = lit "sha256=" ++ h /\ hex_decode (trim h) = Some (compute secret body).
Proof.
  intros Hb. split; [by apply github_accepts_own|]. intros header. apply verify_github_Ok.
Qed.

Module Demo.
(** A stand-in tag: the length of the key and of the message. *)
Definition tag (k m : bytes) : bytes := [Z.of_nat (length k) mod 256; Z.of_nat (length m) mod 256].
Lemma tag_bytes k m : is_byte_list (tag k m).
Proof. unfold tag. repeat constructor; apply Z.mod_pos_bound; lia. Qed.
End Demo.

Lemma github_signature_exact_witness :
  verify_github Demo.tag [1; 2] [3] (sign_github Demo.tag [1; 2] [3]) = Ok ()
  /\ verify_github Demo.tag [1; 2] [3] (lit "  sha256=0201 ") = Ok ().
Proof.
  destruct (github_signature_exact Demo.tag [1; 2] [3] (Demo.tag_bytes _ _)) as [H1 H2].
  split; [exact H1|]. apply H2. exists (lit "0201"). split; vm_compute; reflexivity.
Defined.

(** C26: what [sign_timestamped] prints is accepted within the window, and an
    accepted delivery is authentic for its timestamp: the tag returned is the
    HMAC of the parsed timestamp and the body, the timestamp is within the
    window, and the bytes under the HMAC determine the timestamp and the body,
    so that no other pair shares them. *)
Theorem timestamped_signature_binds compute secret body t now skew :
  is_byte_list (compute secret (timestamped_input t body)) -> i64_min <= t <= i64_max ->
  (abs_diff now t <= Z.abs skew ->
     verify_timestamped compute secret body (show_i t) (sign_timestamped compute secret t body) now skew
     = Ok (compute secret (timestamped_input t body)))
  /\ (forall th sh tag, verify_timestamped compute secret body th sh now skew = Ok tag ->
       exists t', parse_i64 (trim th) = Some t' /\ abs_diff now t' <= Z.abs skew
         /\ tag = compute secret (timestamped_input t' body)
         /\ forall t'' body', i64_min <= t'' <= i64_max ->
              timestamped_input t'' body' = timestamped_input t' body -> t'' = t' /\ body' = body).
Proof.
  intros Hb Ht. split.
  - intros Hw. rewrite timestamped_own by done. by rewrite (proj2 (Z.ltb_ge _ _)) by lia.
  - intros th sh tag. unfold verify_timestamped. intros (t' & Ht'%ok_or_Ok & Hv)%result_bind_Ok.
    destruct (Z.abs skew <? abs_diff now t') eqn:Ew; [done|]. bool_simp.
    apply result_bind_Ok in Hv as ([] & Hg%map_err_Ok & Hh%ok_or_Ok).
    apply verify_github_Ok in Hg as (h & Hh1 & Hh2).
    exists t'. split; [done|]. split; [lia|]. rewrite Hh1 in Hh.
    assert (tag = compute secret (timestamped_input t' body)) as ->.
    { rewrite trim_start_once in Hh by (by eapply hex_not_prefixed).
      rewrite (trim_no_ws h) in Hh2 by (by eapply hex_decode_no_ws). congruence. }
    split; [done|]. intros t'' body' Ht'' E.
    assert (i64_min <= t' <= i64_max).
    { unfold parse_i64, parse_int in Ht'. apply bind_Some in Ht' as (n & _ & Hn). apply try_from_Some in Hn. lia. }
    by apply timestamped_input_inj.
Qed.

Lemma timestamped_signature_binds_witness :
  verify_timestamped Demo.tag [1; 2] [3] (show_i 1700000000)
    (sign_timestamped Demo.tag [1; 2] 1700000000 [3]) 1700000200 300
  = Ok (Demo.tag [1; 2] (timestamped_input 1700000000 [3])).
Proof.
  apply (timestamped_signature_binds Demo.tag [1; 2] [3] 1700000000 1700000200 300).
  - apply Demo.tag_bytes.
  - vm_compute. split; discriminate.
  - vm_compute. discriminate.
Defined.

(** Finding: a header with spaces between the scheme and the digits passes the
    GitHub check, and the same header over the timestamped bytes is then
    refused as malformed after its HMAC matched: the second decoding does not
    trim what the first one did. *)
Theorem timestamped_rejects_spaced_signature :
  exists secret body t sh,
    verify_github Demo.tag secret (timestamped_input t body) sh = Ok ()
    /\ verify_timestamped Demo.tag secret body (show_i t) sh t 300 = Err (Signature MalformedHeader).
Proof. exists [1; 2], [3], 7, (lit "sha256= 0203"). split; vm_compute; reflexivity. Qed.

(** With any store that keeps the promises of the trait, the in-memory
    one among them, a consumer that acts when [record] answers [true] handles
    every delivery identifier exactly once, however often and in whatever order
    deliveries repeat, and none that was recorded before. *)
Theorem redeliveries_dropped {St} `{DeliveryStoreLaws St} (s : St) deliveries :
  let '(handled, s') := process s deliveries in
  NoDup handled
  /\ (forall d, d ∈ handled <-> d ∈ deliveries /\ seen s d = false)
  /\ (forall d, seen s' d = true <-> seen s d = true \/ d ∈ deliveries).
Proof.
  revert s. induction deliveries as [|d ds IH]; intros s; cbn [process].
  { split; [constructor|]. split; intros d; set_solver. }
  pose proof (record_new s d) as Hn. pose proof (seen_record s d) as Hs.
  destruct (record s d) as [new s1]. simpl in Hn, Hs. specialize (IH s1).
  destruct (process s1 ds) as [handled s2]. destruct IH as (Hnd & Hin & Hseen).
  assert (Hd : d ∉ handled) by (rewrite Hin, Hs, str_eqb_refl; intros [_ ?]; done).
  split; [destruct new; [by constructor|done]|]. split.
  - intros x. assert (Hx : x ∈ handled <-> x ∈ ds /\ x <> d /\ seen s x = false).
    { rewrite Hin, Hs, orb_false_iff, str_eqb_neq. done. }
    destruct new; symmetry in Hn; [apply negb_true_iff in Hn|apply negb_false_iff in Hn].
    + rewrite !elem_of_cons, Hx. destruct (decide (x = d)) as [->|]; intuition.
    + rewrite elem_of_cons, Hx. destruct (decide (x = d)) as [->|]; [|intuition].
      rewrite Hn. intuition discriminate.
  - intros x. rewrite Hseen, Hs, orb_true_iff, str_eqb_eq, elem_of_cons. tauto.
Qed.

Lemma redeliveries_dropped_witness :
  NoDup (process in_memory_new [lit "a"; lit "b"; lit "a"]).1.
Proof.
  pose proof (redeliveries_dropped in_memory_new [lit "a"; lit "b"; lit "a"]) as H.
  destruct (process in_memory_new _) as [h s]. apply H.
Defined.
