(* ===== verification/Types.v ===== *)
(** * Shared domain types ([crates/types])

    [lib.rs]: the shared records, products, plans and subscription states.  [contact.rs]: the
    contact form and its checks. *)

From S2P Require Import Prelude RustStr.

Abbreviation uuid := Z.

Inductive Plan := Free | Pro | Team | Enterprise.
Inductive Product := FerrFlow | FerrVault | FerrTrack | FerrGrowth | FerrFleet.
Inductive SubscriptionStatus := Trialing | Active | PastDue | Canceled | Incomplete.

#[export] Instance Plan_eq_dec : EqDecision Plan.
Proof. solve_decision. Defined.
#[export] Instance Product_eq_dec : EqDecision Product.
Proof. solve_decision. Defined.
#[export] Instance SubscriptionStatus_eq_dec : EqDecision SubscriptionStatus.
Proof. solve_decision. Defined.

Definition slug (p : Product) : str :=
  lit match p with
      | FerrFlow => "ferrflow"
      | FerrVault => "ferrvault"
      | FerrTrack => "ferrtrack"
      | FerrGrowth => "ferrgrowth"
      | FerrFleet => "ferrfleet"
      end.
Definition all_products : list Product := [FerrFlow; FerrVault; FerrTrack; FerrGrowth; FerrFleet].
Definition paid : list Product := [FerrVault; FerrTrack; FerrGrowth; FerrFleet].
Definition is_paid (p : Product) : bool := match p with FerrFlow => false | _ => true end.

(** The records shared by the products; a [DateTime] is its microseconds. *)
Abbreviation datetime := Z.
Inductive Role := Owner | Admin | Member | Viewer.
Record User := mkUser {
  user_id : uuid;
  user_email : str;
  user_name : option str;
  user_created_at : datetime;
  email_verified_at : option datetime;
}.
Record Organization := mkOrganization {
  organization_id : uuid;
  organization_slug : str;
  organization_name : str;
  organization_created_at : datetime;
}.
Record Membership := mkMembership {
  member_user_id : uuid;
  member_organization_id : uuid;
  role : Role;
  ferrflow_role : option Role;
  ferrvault_role : option Role;
  ferrtrack_role : option Role;
  ferrgrowth_role : option Role;
  ferrfleet_role : option Role;
  joined_at : datetime;
}.
Record Subscription := mkSubscription {
  subscription_id : uuid;
  subscription_org_id : uuid;
  subscription_product : Product;
  tier : Plan;
  status : SubscriptionStatus;
  trial_ends_at : option datetime;
  current_period_end : option datetime;
  stripe_subscription_id : option str;
  subscription_created_at : datetime;
  subscription_updated_at : datetime;
}.

(** Every product is listed once, and exactly the
    paid ones are in [paid]. *)
Lemma products_partition : (forall p, p ∈ all_products) /\ NoDup all_products /\ List.filter is_paid all_products = paid.
Proof. split_and!; [intros []; apply (bool_decide_unpack _); vm_compute; exact I|apply (bool_decide_unpack _); vm_compute; exact I|done]. Qed.

Lemma slug_inj p q : slug p = slug q -> p = q.
Proof. destruct p, q; done. Qed.

(** ** contact.rs *)

Definition SUBJECT_MAX : nat := 200.
Definition MESSAGE_MAX : nat := Z.to_nat 10000.
Definition EMAIL_MAX : nat := 254.
Definition NAME_MAX : nat := 100.
Definition FROM_URL_MAX : nat := 2048.

Inductive ContactProduct :=
| CFerrlabs | CFerrflow | CFerrvault | CFerrtrack | CFerrgrowth | CFerrfleet | CFerrlens | CFerrgames
| CAwesomeAlternatives.
Inductive RequestKind := Question | Bug | Billing | Security | Privacy | OtherKind.

Definition product_label (p : ContactProduct) : str :=
  lit match p with
      | CFerrlabs => "ferrlabs"
      | CFerrflow => "ferrflow"
      | CFerrvault => "ferrvault"
      | CFerrtrack => "ferrtrack"
      | CFerrgrowth => "ferrgrowth"
      | CFerrfleet => "ferrfleet"
      | CFerrlens => "ferrlens"
      | CFerrgames => "ferrgames"
      | CAwesomeAlternatives => "awesome-alternatives"
      end.
Definition display_name (p : ContactProduct) : str :=
  lit match p with
      | CFerrlabs => "FerrLabs"
      | CFerrflow => "FerrFlow"
      | CFerrvault => "FerrVault"
      | CFerrtrack => "FerrTrack"
      | CFerrgrowth => "FerrGrowth"
      | CFerrfleet => "FerrFleet"
      | CFerrlens => "FerrLens"
      | CFerrgames => "FerrGames"
      | CAwesomeAlternatives => "awesome-alternatives"
      end.
Definition kind_label (k : RequestKind) : str :=
  lit match k with
      | Question => "question"
      | Bug => "bug"
      | Billing => "billing"
      | Security => "security"
      | Privacy => "privacy"
      | OtherKind => "other"
      end.

Record ContactRequest := mkContactRequest {
  request_id : uuid;
  product : ContactProduct;
  kind : RequestKind;
  subject : str;
  message : str;
  email : str;
  name : option str;
  org_id : option uuid;
  from_url : option str;
}.

Inductive InvalidContact := ISubject | IMessage | IEmail | IName | IFromUrl.
Definition display_contact_error (e : InvalidContact) : str :=
  match e with
  | ISubject => lit "subject must be 1 to " ++ show_u (Z.of_nat SUBJECT_MAX) ++ lit " characters"
  | IMessage => lit "message must be 1 to " ++ show_u (Z.of_nat MESSAGE_MAX) ++ lit " characters"
  | IEmail => lit "email is not a valid address"
  | IName => lit "name must be at most " ++ show_u (Z.of_nat NAME_MAX) ++ lit " characters"
  | IFromUrl => lit "from_url must be an https URL of at most " ++ show_u (Z.of_nat FROM_URL_MAX) ++ lit " characters"
  end.

Definition blank (s : str) : bool := bool_decide (trim s = []).
Definition filled_within (text : str) (max : nat) : bool := negb (blank text) && (length text <=? max)%nat.

Definition ends_with_char (c : char) (s : str) : bool := bool_decide (last s = Some c).
Definition plausible_email (email : str) : bool :=
  if (EMAIL_MAX <? length email)%nat || contains_char is_whitespace email then false
  else
    match rsplit_once 64 email with
    | None => false
    | Some (local, domain) =>
        negb (bool_decide (local = [])) && negb (starts_with [46] domain) && negb (ends_with_char 46 domain)
        && contains_char (Z.eqb 46) domain
    end.

Definition https_url (url : str) : bool :=
  (length url <=? FROM_URL_MAX)%nat
  && match strip_prefix (lit "https://") url with
     | None => false
     | Some rest => negb (bool_decide (rest = [])) && negb (contains_char is_whitespace rest)
     end.

Definition is_some_and {A} (o : option A) (p : A -> bool) : bool :=
  match o with Some a => p a | None => false end.

Definition check (r : ContactRequest) : result InvalidContact () :=
  if negb (filled_within (subject r) SUBJECT_MAX) then Err ISubject
  else if negb (filled_within (message r) MESSAGE_MAX) then Err IMessage
  else if negb (plausible_email (email r)) then Err IEmail
  else if is_some_and (name r) (fun n => (NAME_MAX <? length n)%nat) then Err IName
  else if is_some_and (from_url r) (fun u => negb (https_url u)) then Err IFromUrl
  else Ok ().

Definition labels (r : ContactRequest) : list str := [lit "contact"; product_label (product r); kind_label (kind r)].

(** ** What the checks mean *)

(** Some character of the text is not whitespace, and there are at most [max]. *)
Definition filled (text : str) (max : nat) : Prop := ~ Forall (fun c => is_whitespace c = true) text /\ (length text <= max)%nat.
(** [local@domain] with a dotted domain, no spaces, within the length limit. *)
Definition email_shape (e : str) : Prop :=
  (length e <= EMAIL_MAX)%nat /\ no_ws e
  /\ exists local domain, e = local ++ 64 :: domain /\ char_free 64 domain /\ local <> []
     /\ head domain <> Some 46 /\ last domain <> Some 46 /\ 46 ∈ domain.
Definition url_shape (u : str) : Prop :=
  (length u <= FROM_URL_MAX)%nat /\ exists rest, u = lit "https://" ++ rest /\ rest <> [] /\ no_ws rest.

Lemma drop_while_nil p s : drop_while p s = [] <-> Forall (fun c => p c = true) s.
Proof.
  induction s as [|c s IH]; [by split|]. simpl. rewrite Forall_cons.
  destruct (p c); [rewrite IH; tauto|]. split; [done|]. by intros [? _].
Qed.

Lemma trim_nil s : trim s = [] <-> Forall (fun c => is_whitespace c = true) s.
Proof.
  unfold trim, drop_while_end. rewrite <- drop_while_nil. split.
  - intros H. apply (f_equal reverse) in H. rewrite reverse_involutive in H. simpl in H.
    destruct (drop_while is_whitespace s) as [|c t] eqn:E; [done|]. exfalso.
    apply drop_while_nil in H. apply Forall_reverse in H. rewrite reverse_involutive in H.
    inversion_clear H as [|?? Hc _]. clear -E Hc. induction s as [|d s IH]; [done|]. simpl in E.
    destruct (is_whitespace d) eqn:Ed; [auto|]. simplify_eq. congruence.
  - by intros ->.
Qed.

Lemma filled_within_spec text max : filled_within text max = true <-> filled text max.
Proof.
  unfold filled_within, filled, blank. rewrite andb_true_iff, negb_true_iff, bool_decide_eq_false, Nat.leb_le, trim_nil.
  done.
Qed.

Lemma contains_ws_false s : contains_char is_whitespace s = false <-> no_ws s.
Proof.
  unfold contains_char, no_ws. induction s as [|c s IH]; simpl; [by split|].
  rewrite orb_false_iff, Forall_cons, IH. done.
Qed.

Lemma starts_with_char c s : starts_with [c] s = true <-> head s = Some c.
Proof.
  rewrite starts_with_spec. destruct s as [|d s]; simpl; [by split; [intros [? ?]|]|].
  split; [by intros [r [= -> ->]]|]. intros [= ->]. by exists s.
Qed.

Lemma plausible_email_spec e : plausible_email e = true <-> email_shape e.
Proof.
  unfold plausible_email, email_shape. rewrite <- contains_ws_false.
  destruct (EMAIL_MAX <? length e)%nat eqn:E1; simpl.
  { apply Nat.ltb_lt in E1. split; [done|]. intros [? _]. lia. }
  apply Nat.ltb_ge in E1. destruct (contains_char is_whitespace e) eqn:E2; [split; [done|intros (_ & ? & _); done]|].
  assert (Hshape : forall local domain : str,
    negb (bool_decide (local = [])) && negb (starts_with [46] domain) && negb (ends_with_char 46 domain)
      && contains_char (Z.eqb 46) domain = true
    <-> local <> [] /\ head domain <> Some 46 /\ last domain <> Some 46 /\ 46 ∈ domain).
  { intros local domain. unfold ends_with_char, contains_char.
    rewrite !andb_true_iff, !negb_true_iff, !bool_decide_eq_false, existsb_exists.
    rewrite <- (starts_with_char 46 domain), not_true_iff_false.
    assert ((exists x, In x domain /\ (46 =? x) = true) <-> 46 ∈ domain) as ->; [|tauto].
    rewrite list_elem_of_In. split; [|intros; by exists 46]. intros (x & Hx & ->%Z.eqb_eq). done. }
  destruct (rsplit_once 64 e) as [[local domain]|] eqn:E3.
  - rewrite Hshape. apply rsplit_once_Some in E3 as [He Hf]. split.
    + intros H. split; [done|]. split; [done|]. exists local, domain. done.
    + intros (_ & _ & l & d & He' & Hf' & H). rewrite He' in He.
      pose proof (rsplit_once_app 64 l d Hf') as H1. rewrite He, (rsplit_once_app 64 local domain Hf) in H1.
      by simplify_eq.
  - split; [done|]. intros (_ & _ & l & d & -> & Hf' & _). by rewrite rsplit_once_app in E3.
Qed.

Lemma https_url_spec u : https_url u = true <-> url_shape u.
Proof.
  unfold https_url, url_shape. rewrite andb_true_iff, Nat.leb_le. apply and_iff_compat_l.
  destruct (strip_prefix (lit "https://") u) as [rest|] eqn:E.
  - apply strip_prefix_Some in E. subst u. rewrite andb_true_iff, !negb_true_iff, bool_decide_eq_false, contains_ws_false.
    split; [eauto|]. intros (r & Hr & ?). apply app_inv_head in Hr. by subst.
  - split; [done|]. intros (r & -> & _). by rewrite strip_prefix_app in E.
Qed.

(** ** Properties *)

(** A contact request passes the checks exactly when its subject and
    message are not blank and within their limits, its address is a dotted
    [local@domain] without spaces, its optional name is within its limit and
    its optional URL is an https URL without spaces; and otherwise the error
    names the first field, in that order, that is wrong. *)
Theorem contact_check_exact r :
  let conditions :=
    [(ISubject, filled (subject r) SUBJECT_MAX); (IMessage, filled (message r) MESSAGE_MAX);
     (IEmail, email_shape (email r)); (IName, forall n, name r = Some n -> (length n <= NAME_MAX)%nat);
     (IFromUrl, forall u, from_url r = Some u -> url_shape u)] in
  (check r = Ok () <-> Forall (fun c => c.2) conditions)
  /\ (forall e, check r = Err e <->
      exists before P after, conditions = before ++ (e, P) :: after /\ Forall (fun c => c.2) before /\ ~ P).
Proof.
  intros conditions.
  assert (Hn : is_some_and (name r) (fun n => (NAME_MAX <? length n)%nat) = false
    <-> forall n, name r = Some n -> (length n <= NAME_MAX)%nat).
  { destruct (name r) as [n|]; simpl; [|naive_solver]. rewrite Nat.ltb_ge. naive_solver. }
  assert (Hu : is_some_and (from_url r) (fun u => negb (https_url u)) = false
    <-> forall u, from_url r = Some u -> url_shape u).
  { destruct (from_url r) as [u|]; simpl; [|naive_solver]. rewrite negb_false_iff, https_url_spec. naive_solver. }
  pose proof (filled_within_spec (subject r) SUBJECT_MAX) as Hs.
  pose proof (filled_within_spec (message r) MESSAGE_MAX) as Hm.
  pose proof (plausible_email_spec (email r)) as He. unfold check. subst conditions.
  revert Hs Hm He Hn Hu.
  generalize (filled (subject r) SUBJECT_MAX) (filled (message r) MESSAGE_MAX) (email_shape (email r))
    (forall n, name r = Some n -> (length n <= NAME_MAX)%nat) (forall u, from_url r = Some u -> url_shape u)
    (filled_within (subject r) SUBJECT_MAX) (filled_within (message r) MESSAGE_MAX) (plausible_email (email r))
    (is_some_and (name r) (fun n => (NAME_MAX <? length n)%nat))
    (is_some_and (from_url r) (fun u => negb (https_url u))).
  intros P1 P2 P3 P4 P5 b1 b2 b3 b4 b5 H1 H2 H3 H4 H5.
  assert (Hcut : forall e, (exists before P after,
      [(ISubject, P1); (IMessage, P2); (IEmail, P3); (IName, P4); (IFromUrl, P5)] = before ++ (e, P) :: after
      /\ Forall (fun c => c.2) before /\ ~ P) <->
    (e = ISubject /\ ~ P1) \/ (e = IMessage /\ P1 /\ ~ P2) \/ (e = IEmail /\ P1 /\ P2 /\ ~ P3)
    \/ (e = IName /\ P1 /\ P2 /\ P3 /\ ~ P4) \/ (e = IFromUrl /\ P1 /\ P2 /\ P3 /\ P4 /\ ~ P5)).
  { intros e. split.
    - intros (before & P & after & Hb & Hf & HP).
      destruct before as [|? [|? [|? [|? [|? [|? ?]]]]]]; simplify_eq/=; rewrite ?Forall_cons in Hf; simpl in Hf; tauto.
    - intros [[-> ?]|[[-> ?]|[[-> ?]|[[-> ?]|[-> ?]]]]].
      + eexists [], _, _. split; [done|]. split; [constructor|tauto].
      + eexists [_], _, _. split; [done|]. rewrite Forall_cons, Forall_nil. simpl. tauto.
      + eexists [_; _], _, _. split; [done|]. rewrite !Forall_cons, Forall_nil. simpl. tauto.
      + eexists [_; _; _], _, _. split; [done|]. rewrite !Forall_cons, Forall_nil. simpl. tauto.
      + eexists [_; _; _; _], _, _. split; [done|]. rewrite !Forall_cons, Forall_nil. simpl. tauto. }
  split; [|intros e; rewrite Hcut; clear Hcut]; rewrite ?Forall_cons, ?Forall_nil; simpl;
    destruct b1, b2, b3, b4, b5; simpl; intuition (congruence || discriminate).
Qed.
