(* ===== verification/Billing.v ===== *)
(** * Billing ([crates/billing])

    [webhooks.rs]: the Stripe signature header.  [events.rs]: what a webhook
    event changes.  [client.rs]: the calls to the Stripe API.  [error.rs]: the
    errors and their rendering.  The HMAC, the Stripe API and the
    deserialisation of JSON text are parameters. *)

From S2P Require Import Prelude RustStr Json Errors Types Webhooks.

Inductive StripeSignatureError :=
| MissingHeader
| MalformedStripeHeader
| TimestampOutOfTolerance
| NoMatch.

Inductive BillingError :=
| Stripe (e : str)
| SignatureVerification (e : StripeSignatureError)
| MalformedPayload (e : str)
| MissingField (f : str).

(** [From<BillingError> for ApiError]. *)
Definition into_api_error (e : BillingError) : ApiError :=
  match e with
  | SignatureVerification _ => Unauthorized
  | MalformedPayload msg => BadRequest msg
  | MissingField field => BadRequest field
  | Stripe e => Internal (lit "stripe: " ++ e)
  end.

(** ** webhooks.rs *)

Definition DEFAULT_TOLERANCE_SECS : Z := 300.

Record ParsedHeader := mkParsedHeader { timestamp : Z; v1_signatures : list bytes }.

(** One iteration of the loop over the pairs. *)
Definition header_pair (st : option Z * list bytes) (pair : str) : result StripeSignatureError (option Z * list bytes) :=
  '(key, value) ← ok_or (split_once 61 pair) MalformedStripeHeader;
  if trim key =s lit "t" then
    t ← ok_or (parse_i64 (trim value)) MalformedStripeHeader; Ok (Some t, st.2)
  else if trim key =s lit "v1" then
    b ← ok_or (hex_decode (trim value)) MalformedStripeHeader; Ok (st.1, st.2 ++ [b])
  else Ok st.
Fixpoint header_pairs (st : option Z * list bytes) (pairs : list str)
  : result StripeSignatureError (option Z * list bytes) :=
  match pairs with
  | [] => Ok st
  | p :: rest => st' ← header_pair st p; header_pairs st' rest
  end.
Definition parse_signature_header (header : str) : result StripeSignatureError ParsedHeader :=
  st ← header_pairs (None, []) (split 44 header);
  t ← ok_or st.1 MalformedStripeHeader;
  if bool_decide (st.2 = []) then Err MalformedStripeHeader else Ok (mkParsedHeader t st.2).

Section Stripe.
(** HMAC-SHA256. *)
Context (hmac : bytes -> bytes -> bytes).

Definition expected_signature (secret : bytes) (t : Z) (body : bytes) : bytes :=
  hmac secret (as_bytes (show_i t) ++ [46] ++ body).

Definition verify_signature (payload : bytes) (signature_header : str) (secret : bytes) (now tolerance_secs : Z)
  : result StripeSignatureError Z :=
  parsed ← parse_signature_header signature_header;
  let tolerance := unwrap_or (u64_try_from (Z.max tolerance_secs 0)) u64_max in
  if tolerance <? abs_diff now (timestamp parsed) then Err TimestampOutOfTolerance
  else
    let expected := expected_signature secret (timestamp parsed) payload in
    let matched := existsb (fun candidate => ct_eq candidate expected) (v1_signatures parsed) in
    if matched then Ok (timestamp parsed) else Err NoMatch.

Definition verify_optional_signature (payload : bytes) (signature_header : option str) (secret : bytes)
    (now tolerance_secs : Z) : result StripeSignatureError Z :=
  header ← ok_or signature_header MissingHeader;
  verify_signature payload header secret now tolerance_secs.
End Stripe.

(** ** events.rs *)

Record SubscriptionChange := mkChange {
  stripe_subscription_id : str;
  stripe_customer_id : str;
  change_org_id : str;
  change_product : Product;
  tier : Plan;
  status : SubscriptionStatus;
}.
Inductive WebhookEvent :=
| InvoicePaid (c : SubscriptionChange)
| SubscriptionUpdated (c : SubscriptionChange)
| SubscriptionDeleted (c : SubscriptionChange)
| OtherEvent (event_type : str).

Record Metadata := mkMetadata { md_org_id : option str; md_product : option str; md_tier : option str }.
Definition Metadata_default : Metadata := mkMetadata None None None.
Record RawEvent := mkRawEvent { event_type : str; data_object : json }.
Record RawSubscriptionObject := mkRawSub { sub_id : str; sub_customer : str; sub_status : str; sub_metadata : Metadata }.
Record InvoiceLine := mkLine { line_metadata : Metadata; line_subscription : option str }.
Record RawInvoiceObject := mkRawInvoice {
  inv_subscription : option str;
  inv_customer : str;
  inv_metadata : Metadata;
  inv_lines : list InvoiceLine;
}.

Definition product_from_slug (s : str) : option Product := List.find (fun p => slug p =s s) all_products.
Definition tier_from_str (value : str) : Plan :=
  unwrap_or (str_case value [("pro", Pro); ("team", Team); ("enterprise", Enterprise)]%string) Free.
Definition status_from_stripe (value : str) : SubscriptionStatus :=
  unwrap_or (str_case value
    [("trialing", Trialing); ("active", Active); ("past_due", PastDue); ("unpaid", PastDue);
     ("canceled", Canceled)]%string) Incomplete.

(** The fields both kinds of object read from their metadata. *)
Definition routing (md : Metadata) : result BillingError (str * Product * Plan) :=
  org_id ← ok_or (md_org_id md) (MissingField (lit "metadata.org_id"));
  product_slug ← ok_or (md_product md) (MissingField (lit "metadata.product"));
  product ← ok_or (product_from_slug product_slug) (MissingField (lit "metadata.product (unknown slug)"));
  Ok (org_id, product, match md_tier md with None => Free | Some t => tier_from_str t end).

Definition change_from_subscription (raw : RawSubscriptionObject) (status_override : option SubscriptionStatus)
  : result BillingError SubscriptionChange :=
  '(org_id, product, tier) ← routing (sub_metadata raw);
  Ok (mkChange (sub_id raw) (sub_customer raw) org_id product tier
        (unwrap_or status_override (status_from_stripe (sub_status raw)))).

Definition change_from_invoice (raw : RawInvoiceObject) : result BillingError SubscriptionChange :=
  let line_meta := head (inv_lines raw) in
  let metadata :=
    if is_some (md_org_id (inv_metadata raw)) then inv_metadata raw
    else match line_meta with None => inv_metadata raw | Some l => line_metadata l end in
  '(org_id, product, tier) ← routing metadata;
  subscription_id ← ok_or (match inv_subscription raw with
                           | Some s => Some s
                           | None => line_meta ≫= line_subscription
                           end) (MissingField (lit "subscription"));
  Ok (mkChange subscription_id (inv_customer raw) org_id product tier Active).

Section Events.
(** [serde_json::from_slice::<RawEvent>] and the two [from_value]s. *)
Context (event_from_slice : bytes -> result str RawEvent).
Context (invoice_from_value : json -> result str RawInvoiceObject).
Context (subscription_from_value : json -> result str RawSubscriptionObject).

Definition parse_event (payload : bytes) : result BillingError WebhookEvent :=
  raw ← map_err MalformedPayload (event_from_slice payload);
  if event_type raw =s lit "invoice.paid" then
    invoice ← map_err MalformedPayload (invoice_from_value (data_object raw));
    InvoicePaid <$> change_from_invoice invoice
  else if event_type raw =s lit "customer.subscription.updated" then
    sub ← map_err MalformedPayload (subscription_from_value (data_object raw));
    SubscriptionUpdated <$> change_from_subscription sub None
  else if event_type raw =s lit "customer.subscription.deleted" then
    sub ← map_err MalformedPayload (subscription_from_value (data_object raw));
    SubscriptionDeleted <$> change_from_subscription sub (Some Canceled)
  else Ok (OtherEvent (event_type raw)).
End Events.

(** ** client.rs *)

Record PlanPrice := mkPlanPrice { plan_product : Product; plan_tier : Plan; price_id : str }.

Definition tier_slug (p : Plan) : str :=
  lit match p with Free => "free" | Pro => "pro" | Team => "team" | Enterprise => "enterprise" end.

(** A [HashMap<String, String>]. *)
Definition subscription_metadata (org_id : str) (plan : PlanPrice) : gmap str str :=
  <[lit "tier" := tier_slug (plan_tier plan)]>
    (<[lit "product" := slug (plan_product plan)]> (<[lit "org_id" := org_id]> ∅)).

(** The Stripe objects as far as the crate reads them. *)
Record StripeSubscription := mkStripeSubscription {
  ss_id : str;
  ss_customer : str;
  ss_items : list (str * str);
  ss_metadata : gmap str str;
}.
Record StripeCustomer := mkStripeCustomer { sc_id : str; sc_metadata : gmap str str }.

(** The API, in state-passing style over the remote state [R]. *)
Class StripeApi (R : Type) := {
  customer_id_parse : str -> option str;
  subscription_id_parse : str -> option str;
  (** [inr tt] is a deleted customer. *)
  retrieve_customer : str -> R -> result str (StripeCustomer + ());
  create_customer : str -> gmap str str -> R -> result str StripeCustomer * R;
  post_subscription : str -> str -> gmap str str -> R -> result str StripeSubscription * R;
  retrieve_subscription : str -> R -> result str StripeSubscription;
  (** Item to replace, its new price, metadata to merge. *)
  patch_subscription : str -> str -> str -> gmap str str -> R -> result str StripeSubscription * R;
  delete_subscription : str -> R -> result str StripeSubscription * R;
}.

Section Client.
Context {R : Type} `{StripeApi R}.

Definition stripe_call {A} (r : result str A * R) : result BillingError A * R := (map_err Stripe r.1, r.2).

Definition ensure_customer (org_id email : str) (existing : option str) (w : R)
  : result BillingError StripeCustomer * R :=
  match existing with
  | Some id =>
      (customer_id ← ok_or (customer_id_parse id) (MissingField (lit "stripe_customer_id"));
       found ← map_err Stripe (retrieve_customer customer_id w);
       match found with inl c => Ok c | inr _ => Err (MissingField (lit "customer is deleted")) end, w)
  | None => stripe_call (create_customer email (<[lit "org_id" := org_id]> ∅) w)
  end.

Definition create_subscription (customer_id org_id : str) (plan : PlanPrice) (w : R)
  : result BillingError StripeSubscription * R :=
  match customer_id_parse customer_id with
  | None => (Err (MissingField (lit "stripe_customer_id")), w)
  | Some customer => stripe_call (post_subscription customer (price_id plan) (subscription_metadata org_id plan) w)
  end.

Definition update_tier (subscription_id org_id : str) (plan : PlanPrice) (w : R)
  : result BillingError StripeSubscription * R :=
  match subscription_id_parse subscription_id with
  | None => (Err (MissingField (lit "stripe_subscription_id")), w)
  | Some id =>
      match retrieve_subscription id w with
      | Err e => (Err (Stripe e), w)
      | Ok current =>
          match head (ss_items current) with
          | None => (Err (MissingField (lit "subscription has no items")), w)
          | Some (item_id, _) =>
              stripe_call (patch_subscription id item_id (price_id plan) (subscription_metadata org_id plan) w)
          end
      end
  end.

Definition cancel_subscription (subscription_id : str) (w : R) : result BillingError StripeSubscription * R :=
  match subscription_id_parse subscription_id with
  | None => (Err (MissingField (lit "stripe_subscription_id")), w)
  | Some id => stripe_call (delete_subscription id w)
  end.

Definition get_subscription (subscription_id : str) (w : R) : result BillingError StripeSubscription :=
  id ← ok_or (subscription_id_parse subscription_id) (MissingField (lit "stripe_subscription_id"));
  map_err Stripe (retrieve_subscription id w).
End Client.

(** What the client relies on: Stripe stores the metadata it is sent, keyed
    over what was there. *)
Class StripeApiLaws (R : Type) `{StripeApi R} : Prop := {
  post_keeps_metadata c p md w s w' : post_subscription c p md w = (Ok s, w') -> ss_metadata s = md;
  patch_merges_metadata i it p md w s w' k v :
    patch_subscription i it p md w = (Ok s, w') -> md !! k = Some v -> ss_metadata s !! k = Some v;
}.

(** The metadata of a webhook object, as the object's own map has it. *)
Definition metadata_of (m : gmap str str) : Metadata :=
  mkMetadata (m !! lit "org_id") (m !! lit "product") (m !! lit "tier").

(** ** Lemmas *)

Lemma product_from_slug_slug p : product_from_slug (slug p) = Some p.
Proof. by destruct p. Qed.
Lemma product_from_slug_Some s p : product_from_slug s = Some p -> s = slug p.
Proof. intros [_ Hp]%find_some. by apply str_eqb_eq in Hp. Qed.
Lemma tier_round_trip p : tier_from_str (tier_slug p) = p.
Proof. by destruct p. Qed.

Lemma routing_of_metadata m org plan :
  (forall k v, subscription_metadata org plan !! k = Some v -> m !! k = Some v) ->
  routing (metadata_of m) = Ok (org, plan_product plan, plan_tier plan).
Proof.
  intros Hm. unfold routing, metadata_of. cbn [md_org_id md_product md_tier].
  rewrite (Hm (lit "org_id") org), (Hm (lit "product") (slug (plan_product plan))),
    (Hm (lit "tier") (tier_slug (plan_tier plan))).
  - simpl. rewrite product_from_slug_slug. simpl. by rewrite tier_round_trip.
  - by unfold subscription_metadata; simplify_map_eq.
  - unfold subscription_metadata. by rewrite lookup_insert_ne, lookup_insert_eq by done.
  - unfold subscription_metadata. by rewrite !lookup_insert_ne, lookup_insert_eq by done.
Qed.

(** The loop over the pairs, from any intermediate state. *)
Lemma header_pairs_app st l1 l2 : header_pairs st (l1 ++ l2) = header_pairs st l1 ≫= fun st' => header_pairs st' l2.
Proof.
  revert st. induction l1 as [|p l1 IH]; intros st; [done|]. simpl.
  destruct (header_pair st p); [|done]. simpl. apply IH.
Qed.

Lemma expected_signature_input hmac secret t body :
  expected_signature hmac secret t body = hmac secret (timestamped_input t body).
Proof.
  unfold expected_signature. rewrite timestamped_input_eq, as_bytes_ascii; [done|].
  eapply Forall_impl; [exact (show_i_chars t)|]. simpl. tauto.
Qed.

Lemma verify_signature_Ok hmac payload header secret now tol t :
  verify_signature hmac payload header secret now tol = Ok t <->
  exists sigs, parse_signature_header header = Ok (mkParsedHeader t sigs)
    /\ abs_diff now t <= unwrap_or (u64_try_from (Z.max tol 0)) u64_max
    /\ hmac secret (timestamped_input t payload) ∈ sigs.
Proof.
  unfold verify_signature. rewrite result_bind_Ok. split.
  - intros ([t' sigs] & Hp & Hv). simpl in Hv. destruct (_ <? abs_diff now t') eqn:Ew; [done|]. bool_simp.
    destruct (existsb _ sigs) eqn:Ee; [|done]. simplify_eq. exists sigs. split; [done|]. split; [lia|].
    apply existsb_exists in Ee as (c & Hc & Hct). apply ct_eq_spec in Hct. subst c.
    rewrite expected_signature_input in Hc. by apply list_elem_of_In.
  - intros (sigs & Hp & Hw & Hin). eexists. split; [exact Hp|]. simpl.
    rewrite (proj2 (Z.ltb_ge _ _)) by lia.
    rewrite (proj2 (existsb_exists _ _)); [done|].
    eexists. split; [apply list_elem_of_In; exact Hin|]. apply ct_eq_spec. by rewrite expected_signature_input.
Qed.

(** The header Stripe documents: one timestamp and one signature. *)
Definition stripe_header (t : Z) (sig : bytes) : str := lit "t=" ++ show_i t ++ lit ",v1=" ++ hex_encode sig.

Lemma header_pair_t st v : header_pair st (lit "t" ++ 61 :: v)
  = (t ← ok_or (parse_i64 (trim v)) MalformedStripeHeader; Ok (Some t, st.2)).
Proof. unfold header_pair. rewrite split_once_app by (vm_compute; repeat (constructor; [discriminate|]); constructor). done. Qed.
Lemma header_pair_v1 st v : header_pair st (lit "v1" ++ 61 :: v)
  = (b ← ok_or (hex_decode (trim v)) MalformedStripeHeader; Ok (st.1, st.2 ++ [b])).
Proof. unfold header_pair. rewrite split_once_app by (vm_compute; repeat (constructor; [discriminate|]); constructor). done. Qed.

Lemma stripe_header_parses t sig :
  i64_min <= t <= i64_max -> is_byte_list sig ->
  parse_signature_header (stripe_header t sig) = Ok (mkParsedHeader t [sig]).
Proof.
  intros Ht Hb. unfold parse_signature_header, stripe_header.
  assert (Hs : split 44 (lit "t=" ++ show_i t ++ lit ",v1=" ++ hex_encode sig)
               = [lit "t" ++ 61 :: show_i t; lit "v1" ++ 61 :: hex_encode sig]).
  { assert (Hhex : char_free 44 (hex_encode sig)).
    { pose proof (hex_decode_encode sig Hb) as Hd. clear -Hb. induction Hb as [|x l Hx Hl IH]; [constructor|].
      assert (Hc : forall d, 0 <= d < 16 -> hex_digit d <> 44).
      { intros d Hd. unfold hex_digit. destruct (d <? 10); lia. }
      constructor; [apply Hc; split; [apply Z.div_pos; lia|apply Z.div_lt_upper_bound; lia]|].
      constructor; [apply Hc, Z.mod_pos_bound; lia|exact IH]. }
    rewrite <- (split_join 44 [lit "t" ++ 61 :: show_i t; lit "v1" ++ 61 :: hex_encode sig]).
    - reflexivity.
    - done.
    - constructor; [|constructor; [|constructor]]; unfold char_free in *; simpl; repeat constructor; try lia; try done.
      eapply Forall_impl; [exact (show_i_chars t)|]. simpl. tauto. }
  rewrite Hs. cbn [header_pairs]. rewrite header_pair_t, (trim_no_ws (show_i t)) by apply show_i_no_ws.
  unfold parse_i64. rewrite parse_int_show_i by done. cbn [ok_or mbind result_bind].
  rewrite header_pair_v1, (trim_no_ws (hex_encode sig)) by (by apply hex_encode_no_ws).
  by rewrite hex_decode_encode.
Qed.

Module Demo.
Definition tag := Webhooks.Demo.tag.
Definition plan : PlanPrice := mkPlanPrice FerrVault Team (lit "price_1").

(** Stripe with one subscription slot. *)
#[export] Instance slot : StripeApi (option StripeSubscription) := {|
  customer_id_parse s := Some s;
  subscription_id_parse s := Some s;
  retrieve_customer c _ := Ok (inl (mkStripeCustomer c ∅));
  create_customer _ md w := (Ok (mkStripeCustomer (lit "cus_1") md), w);
  post_subscription c p md _ :=
    let s := mkStripeSubscription (lit "sub_1") c [(lit "si_1", p)] md in (Ok s, Some s);
  retrieve_subscription _ w := ok_or w (lit "missing");
  patch_subscription _ it p md w :=
    match w with
    | None => (Err (lit "missing"), w)
    | Some s => let s' := mkStripeSubscription (ss_id s) (ss_customer s) [(it, p)] (md ∪ ss_metadata s) in (Ok s', Some s')
    end;
  delete_subscription _ w := (ok_or w (lit "missing"), None);
|}.
#[export] Instance slot_laws : StripeApiLaws (option StripeSubscription).
Proof.
  split.
  - intros c p md w s w' [= <- _]. done.
  - intros i it p md [s0|] s w' k v; simpl; [|done]. intros [= <- _] Hk. simpl. by apply lookup_union_Some_l.
Qed.
End Demo.

(** ** Properties *)

(** C27: a delivery is accepted exactly when its header parses to a timestamp
    within the tolerance (a negative tolerance counting as none) and a list of
    signatures that has the HMAC of that timestamp and that body; the
    documented header is accepted, and the bytes under the HMAC determine the
    timestamp and the body, so that an accepted signature vouches for no other
    delivery. *)
Theorem stripe_signature_exact hmac payload secret now tol :
  (forall m, is_byte_list (hmac secret m)) ->
  (forall header t, verify_signature hmac payload header secret now tol = Ok t <->
     exists sigs, parse_signature_header header = Ok (mkParsedHeader t sigs)
       /\ abs_diff now t <= unwrap_or (u64_try_from (Z.max tol 0)) u64_max
       /\ hmac secret (timestamped_input t payload) ∈ sigs)
  /\ (forall t, i64_min <= t <= i64_max -> abs_diff now t <= tol <= i64_max ->
      verify_signature hmac payload (stripe_header t (expected_signature hmac secret t payload)) secret now tol = Ok t)
  /\ (forall t t' payload', i64_min <= t <= i64_max -> i64_min <= t' <= i64_max ->
      timestamped_input t payload = timestamped_input t' payload' -> t = t' /\ payload = payload').
Proof.
  intros Hb. split; [|split].
  - intros header t. apply verify_signature_Ok.
  - intros t Ht Hw. apply verify_signature_Ok. exists [expected_signature hmac secret t payload].
    split; [apply stripe_header_parses; [done|apply Hb]|]. split.
    + unfold u64_try_from. rewrite try_from_in; [simpl; lia|]. unfold abs_diff, u64_max, i64_max in *. lia.
    + rewrite expected_signature_input. set_solver.
  - intros t t' payload' Ht Ht'. by apply timestamped_input_inj.
Qed.

Lemma stripe_signature_exact_witness :
  verify_signature Demo.tag [1; 2] (stripe_header 1000 (expected_signature Demo.tag [9] 1000 [1; 2])) [9] 1100 300
  = Ok 1000.
Proof.
  apply (stripe_signature_exact Demo.tag [1; 2] [9] 1100 300 (Webhooks.Demo.tag_bytes [9])).
  - vm_compute. split; discriminate.
  - vm_compute. split; discriminate.
Defined.

(** The metadata the client stamps routes the webhooks back.  Whatever
    Stripe answers to [create_subscription] or [update_tier], an event about
    that subscription parses to the organisation, the product and the tier of
    the call; an update keeps Stripe's status, a deletion is always
    [Canceled], and an invoice that only carries them on its first line is
    routed the same way and is always [Active]. *)
Theorem stamped_metadata_routes_events {R} `{StripeApiLaws R} org plan cust sub w s w' id' customer st inv :
  create_subscription cust org plan w = (Ok s, w') \/ update_tier sub org plan w = (Ok s, w') ->
  let raw := mkRawSub id' customer st (metadata_of (ss_metadata s)) in
  change_from_subscription raw None
  = Ok (mkChange id' customer org (plan_product plan) (plan_tier plan) (status_from_stripe st))
  /\ change_from_subscription raw (Some Canceled)
     = Ok (mkChange id' customer org (plan_product plan) (plan_tier plan) Canceled)
  /\ change_from_invoice (mkRawInvoice inv customer Metadata_default [mkLine (metadata_of (ss_metadata s)) (Some id')])
     = Ok (mkChange (unwrap_or inv id') customer org (plan_product plan) (plan_tier plan) Active).
Proof.
  intros Hs raw.
  assert (Hr : routing (metadata_of (ss_metadata s)) = Ok (org, plan_product plan, plan_tier plan)).
  { apply routing_of_metadata. intros k v Hk. destruct Hs as [Hs|Hs].
    - unfold create_subscription in Hs. destruct (customer_id_parse cust); [|done].
      unfold stripe_call in Hs. destruct (post_subscription _ _ _ w) as [[s'|] w1] eqn:Ep; [|done].
      simpl in Hs. injection Hs as -> ->. apply post_keeps_metadata in Ep. congruence.
    - unfold update_tier in Hs. destruct (subscription_id_parse sub); [|done].
      destruct (retrieve_subscription _ w) as [cur|]; [|done].
      destruct (head (ss_items cur)) as [[it ?]|]; [|done]. unfold stripe_call in Hs.
      destruct (patch_subscription _ _ _ _ w) as [[s'|] w1] eqn:Ep; [|done].
      simpl in Hs. injection Hs as -> ->. by eapply patch_merges_metadata. }
  subst raw. unfold change_from_subscription, change_from_invoice. cbn [sub_metadata inv_metadata inv_lines head md_org_id is_some Metadata_default line_metadata].
  rewrite Hr. split; [done|]. split; [done|]. by destruct inv.
Qed.

Lemma stamped_metadata_routes_events_witness :
  exists s, (@create_subscription _ Demo.slot (lit "cus_1") (lit "org-7") Demo.plan None).1 = Ok s
    /\ change_from_subscription (mkRawSub (lit "sub_1") (lit "cus_1") (lit "active") (metadata_of (ss_metadata s))) None
       = Ok (mkChange (lit "sub_1") (lit "cus_1") (lit "org-7") FerrVault Team Active).
Proof.
  eexists. split; [reflexivity|].
  apply (@stamped_metadata_routes_events _ Demo.slot Demo.slot_laws (lit "org-7") Demo.plan (lit "cus_1") (lit "sub_1")
    None _ (Some (mkStripeSubscription (lit "sub_1") (lit "cus_1") [(lit "si_1", lit "price_1")]
      (subscription_metadata (lit "org-7") Demo.plan))) (lit "sub_1") (lit "cus_1") (lit "active") None).
  left. reflexivity.
Defined.

(** An event this crate does not know is acknowledged, never an error;
    and whatever goes wrong is the caller's fault in the rendering: a bad
    signature answers 401, a payload that is not an event or lacks a field
    400, and only a failure of Stripe itself 500, without its text. *)
Theorem billing_errors_are_classified efs ifv sfv payload :
  (forall raw, efs payload = Ok raw ->
     event_type raw ∉ [lit "invoice.paid"; lit "customer.subscription.updated"; lit "customer.subscription.deleted"] ->
     parse_event efs ifv sfv payload = Ok (OtherEvent (event_type raw)))
  /\ (forall e, parse_event efs ifv sfv payload = Err e ->
      (parts (into_api_error e)).1.1 = 400
      /\ ((exists msg, e = MalformedPayload msg) \/ exists f, e = MissingField f))
  /\ (forall e, (parts (into_api_error (SignatureVerification e))).1.1 = 401)
  /\ (forall e e', parts (into_api_error (Stripe e)) = parts (into_api_error (Stripe e'))).
Proof.
  assert (Hrt : forall md e, routing md = Err e -> exists f, e = MissingField f).
  { intros md e. unfold routing.
    destruct (md_org_id md); simpl; [|naive_solver]. destruct (md_product md); simpl; [|naive_solver].
    destruct (product_from_slug _); simpl; [done|naive_solver]. }
  assert (Hcs : forall raw o e, change_from_subscription raw o = Err e -> exists f, e = MissingField f).
  { intros raw o e. unfold change_from_subscription. destruct (routing _) as [[[? ?] ?]|] eqn:E; [done|].
    simpl. intros [= <-]. by eapply Hrt. }
  assert (Hci : forall raw e, change_from_invoice raw = Err e -> exists f, e = MissingField f).
  { intros raw e. unfold change_from_invoice. destruct (routing _) as [[[? ?] ?]|] eqn:E; simpl.
    - destruct (match inv_subscription raw with Some _ => _ | None => _ end); simpl; [done|]. intros [= <-]. eauto.
    - intros [= <-]. by eapply Hrt. }
  split; [|split; [|done]].
  - intros raw Hraw Hty. unfold parse_event. rewrite Hraw. simpl.
    rewrite !elem_of_cons in Hty. rewrite !(proj2 (str_eqb_neq _ _)) by tauto. done.
  - intros e He. assert ((exists msg, e = MalformedPayload msg) \/ exists f, e = MissingField f) as Hk.
    { unfold parse_event in He. destruct (efs payload) as [raw|]; simpl in He; [|simplify_eq; eauto].
      destruct (event_type raw =s _).
      { destruct (ifv _) as [x|]; simpl in He; [|simplify_eq; eauto].
        destruct (change_from_invoice x) eqn:E; simplify_eq/=. eauto. }
      destruct (event_type raw =s _).
      { destruct (sfv _) as [x|]; simpl in He; [|simplify_eq; eauto].
        destruct (change_from_subscription x None) eqn:E; simplify_eq/=. eauto. }
      destruct (event_type raw =s _); [|done].
      destruct (sfv _) as [x|]; simpl in He; [|simplify_eq; eauto].
      destruct (change_from_subscription x _) eqn:E; simplify_eq/=. eauto. }
    split; [|done]. by destruct Hk as [[msg ->]|[f ->]].
Qed.
