(* ===== verification/Crypto.v ===== *)
(** * Envelope encryption ([crates/crypto])

    [lib.rs]: the AES-GCM framing, the [KeyProvider] trait with its two
    backends and the DEK cache of the KMS backend.  [gcp_kms.rs]: the KMS
    client's requests and the classification of its answers.  AES-GCM, base64,
    the token provider and the HTTP exchange are parameters; error texts are
    kept as far as the code distinguishes them. *)

From S2P Require Import Prelude RustStr Json.

Definition NONCE_SIZE : nat := 12.

(** [aes_gcm::Aes256Gcm]: 32-byte keys, 12-byte nonces. *)
Class AesGcm := {
  gcm_encrypt : bytes -> bytes -> bytes -> option bytes;
  gcm_decrypt : bytes -> bytes -> bytes -> option bytes;
}.
Class AesGcmLaws `{AesGcm} : Prop := {
  gcm_decrypt_encrypt k n p c : gcm_encrypt k n p = Some c -> gcm_decrypt k n c = Some p;
}.

Inductive CryptoError :=
| BadDek (len : nat)
| EncryptionFailed
| CiphertextTooShort
| InvalidNonce
| DecryptionFailed
| BadHex
| BadKekLength (len : nat)
| WrongBackend
| NotUtf8
| Kms (e : str).

Section Framing.
Context `{AesGcm}.

(** [Key::try_from]: exactly 32 bytes. *)
Definition as_key (dek : bytes) : result CryptoError bytes :=
  if (length dek =? 32)%nat then Ok dek else Err (BadDek (length dek)).

(** [nonce] is the 12 random bytes drawn for this call. *)
Definition encrypt_value (nonce plaintext dek : bytes) : result CryptoError bytes :=
  key ← as_key dek;
  ciphertext ← ok_or (gcm_encrypt key nonce plaintext) EncryptionFailed;
  Ok (nonce ++ ciphertext).

Definition decrypt_value (encrypted dek : bytes) : result CryptoError bytes :=
  if (length encrypted <? NONCE_SIZE)%nat then Err CiphertextTooShort
  else
    key ← as_key dek;
    let nonce := take NONCE_SIZE encrypted in
    if negb (length nonce =? NONCE_SIZE)%nat then Err InvalidNonce
    else ok_or (gcm_decrypt key nonce (drop NONCE_SIZE encrypted)) DecryptionFailed.
End Framing.

Definition parse_kek (hex_key : str) : result CryptoError bytes :=
  b ← ok_or (hex_decode hex_key) BadHex;
  if negb (length b =? 32)%nat then Err (BadKekLength (length b)) else Ok b.

(** ** The trait [KeyProvider], in state-passing style: [Env] is what a call
    draws from outside. *)
Class KeyProvider (Env St : Type) := {
  wrap_dek : Env -> bytes -> St -> result CryptoError bytes * St;
  unwrap_dek : Env -> bytes -> St -> result CryptoError bytes * St;
  health_check : Env -> St -> result CryptoError () * St;
}.
(** The contract clients rely on: what a provider wrapped, it unwraps. *)
Class KeyProviderLaws (Env St : Type) `{KeyProvider Env St} (good_env : Env -> Prop) (good : St -> Prop) : Prop := {
  provider_good_wrap e d s : good s -> good_env e -> good (wrap_dek e d s).2;
  provider_good_unwrap e d s : good s -> good_env e -> good (unwrap_dek e d s).2;
  provider_round_trip e e' d s s' w :
    good s -> good s' -> good_env e -> good_env e' -> (wrap_dek e d s).1 = Ok w ->
    forall r, (unwrap_dek e' w s').1 = Ok r -> r = d;
}.

Definition GCP_KMS_PREFIX : bytes := lit "gcp-kms:".
Definition is_gcp_kms_ciphertext (b : bytes) : bool := starts_with GCP_KMS_PREFIX b.

(** *** Local KEK *)

Record LocalKek := mkLocalKek { kek : bytes }.

(** The environment of a call is its nonce. *)
#[export] Instance local_provider `{AesGcm} : KeyProvider bytes LocalKek := {|
  wrap_dek nonce d s := (encrypt_value nonce d (kek s), s);
  unwrap_dek _ w s :=
    (if is_gcp_kms_ciphertext w then Err WrongBackend else decrypt_value w (kek s), s);
  health_check _ s := (Ok (), s);
|}.

(** *** GCP KMS *)

Record CachedDek := mkCachedDek { plaintext : bytes; cached_at : instant }.

Definition TTL : Z := 60 * 1000000.
Definition MAX_ENTRIES : nat := 1024.
Definition HEALTH_TTL : Z := 10 * 1000000.

Record GcpKmsKek := mkGcpKmsKek {
  key_name : str;
  cache : gmap bytes CachedDek;
  ttl : Z;
  max_entries : nat;
  last_health_ok : option instant;
}.
Definition gcp_new (key_name : str) : GcpKmsKek := mkGcpKmsKek key_name ∅ TTL MAX_ENTRIES None.


Definition cache_get (now : instant) (ttl : Z) (key : bytes) (c : gmap bytes CachedDek)
  : option bytes * gmap bytes CachedDek :=
  match c !! key with
  | Some entry =>
      if elapsed now (cached_at entry) <? ttl then (Some (plaintext entry), c) else (None, delete key c)
  | None => (None, c)
  end.

Definition older (a b : bytes * CachedDek) : Prop := cached_at a.2 <= cached_at b.2.
#[export] Instance older_dec a b : Decision (older a b).
Proof. unfold older. apply _. Defined.
#[export] Instance older_total : Total older.
Proof. intros a b. unfold older. lia. Qed.
#[export] Instance older_trans : Transitive older.
Proof. intros a b c. unfold older. lia. Qed.

(** [drained] is what [cache.drain().collect()] yielded: the entries in the
    order of the hash map. *)
Definition evict (max : nat) (drained : list (bytes * CachedDek)) : gmap bytes CachedDek :=
  list_to_map (drop (max / 2) (merge_sort older drained)).
Definition cache_put (now : instant) (max : nat) (drained : list (bytes * CachedDek)) (key pt : bytes)
    (c : gmap bytes CachedDek) : gmap bytes CachedDek :=
  let c' := if (max <=? size c)%nat then evict max drained else c in
  <[key := mkCachedDek pt now]> c'.

(** ** gcp_kms.rs *)

Definition KMS_SCOPE : str := lit "https://www.googleapis.com/auth/cloud-platform".
Definition KMS_BASE : str := lit "https://cloudkms.googleapis.com/v1".

Inductive KmsError :=
| KmsAuth (e : str)
| KmsHttp (e : str)
| KmsAuthDenied (body : str)
| KmsNotFound
| KmsApi (status : Z) (body : str)
| KmsProtocol (e : str).

(** A REST answer: status, text of the body, and the one field the caller
    deserialises, when that succeeds. *)
Record KmsResponse := mkKmsResponse { k_status : Z; k_text : str; k_field : result str str }.

Class KmsOutside := {
  token : instant -> str -> result str str;
  b64_encode : bytes -> str;
  b64_decode : str -> option bytes;
  (** [POST url] with a bearer token and a one-field JSON body. *)
  kms_post : instant -> str -> str -> str * str -> result str KmsResponse;
}.

Section Client.
Context `{KmsOutside}.

Definition bearer (now : instant) : result KmsError str :=
  map_err (fun e => KmsAuth (lit "fetch token: " ++ e)) (token now KMS_SCOPE).

Definition parse (resp : KmsResponse) : result KmsError str :=
  if in_range 200 299 (k_status resp) then map_err KmsHttp (k_field resp)
  else Err (if (k_status resp =? 401) || (k_status resp =? 403) then KmsAuthDenied (k_text resp)
            else if k_status resp =? 404 then KmsNotFound
            else KmsApi (k_status resp) (k_text resp)).

Definition kms_call (now : instant) (name verb : str) (b : str * str) : result KmsError str :=
  tok ← bearer now;
  resp ← map_err KmsHttp (kms_post now (KMS_BASE ++ [47] ++ name ++ [58] ++ verb) tok b);
  parse resp.

Definition encrypt (now : instant) (name : str) (pt : bytes) : result KmsError str :=
  kms_call now name (lit "encrypt") (lit "plaintext", b64_encode pt).
Definition decrypt (now : instant) (name ct : str) : result KmsError bytes :=
  out ← kms_call now name (lit "decrypt") (lit "ciphertext", ct);
  ok_or (b64_decode out) (KmsProtocol (lit "bad base64 in plaintext")).
Definition asymmetric_sign_ed25519 (now : instant) (version_name : str) (message : bytes) : result KmsError bytes :=
  out ← kms_call now version_name (lit "asymmetricSign") (lit "data", b64_encode message);
  ok_or (b64_decode out) (KmsProtocol (lit "bad base64 in signature")).
End Client.

Section GcpProvider.
Context `{KmsOutside}.
(** [std::str::from_utf8]. *)
Context (from_utf8 : bytes -> option str).

(** The instants a call reads: at the look-up, at KMS's answer and at the
    insertion; and the order in which the hash map would be drained. *)
Record Call := mkCall { at_get : instant; at_kms : instant; at_put : instant; drained : list (bytes * CachedDek) }.

Definition kms_err {A} (r : result KmsError A) : result CryptoError A :=
  map_err (fun _ => Kms (lit "gcp kms")) r.

Definition gcp_wrap (e : Call) (d : bytes) (s : GcpKmsKek) : result CryptoError bytes * GcpKmsKek :=
  (ct ← kms_err (encrypt (at_kms e) (key_name s) d); Ok (GCP_KMS_PREFIX ++ as_bytes ct), s).

Definition set_cache (s : GcpKmsKek) (c : gmap bytes CachedDek) : GcpKmsKek :=
  mkGcpKmsKek (key_name s) c (ttl s) (max_entries s) (last_health_ok s).

(** The part of [unwrap_dek] that asks KMS. *)
Definition kms_unwrap (now : instant) (name : str) (w : bytes) : result CryptoError bytes :=
  ct ← ok_or (from_utf8 (drop (length GCP_KMS_PREFIX) w)) NotUtf8;
  kms_err (decrypt now name ct).

Definition gcp_unwrap (e : Call) (w : bytes) (s : GcpKmsKek) : result CryptoError bytes * GcpKmsKek :=
  if negb (is_gcp_kms_ciphertext w) then (Err WrongBackend, s)
  else
    let '(hit, c) := cache_get (at_get e) (ttl s) w (cache s) in
    match hit with
    | Some p => (Ok p, set_cache s c)
    | None =>
        match kms_unwrap (at_kms e) (key_name s) w with
        | Err err => (Err err, set_cache s c)
        | Ok p => (Ok p, set_cache s (cache_put (at_put e) (max_entries s) (drained e) w p c))
        end
    end.

(** A probe is a real wrap; its success is remembered for ten seconds. *)
Definition gcp_probe (e : Call) (s : GcpKmsKek) : result CryptoError () * GcpKmsKek :=
  match encrypt (at_kms e) (key_name s) (lit "readyz-probe") with
  | Err _ => (Err (Kms (lit "gcp kms health probe")), s)
  | Ok _ => (Ok (), mkGcpKmsKek (key_name s) (cache s) (ttl s) (max_entries s) (Some (at_put e)))
  end.
Definition gcp_health (e : Call) (s : GcpKmsKek) : result CryptoError () * GcpKmsKek :=
  match last_health_ok s with
  | Some t => if elapsed (at_get e) t <? HEALTH_TTL then (Ok (), s) else gcp_probe e s
  | None => gcp_probe e s
  end.

#[export] Instance gcp_provider : KeyProvider Call GcpKmsKek := {|
  wrap_dek := gcp_wrap;
  unwrap_dek := gcp_unwrap;
  health_check := gcp_health;
|}.
End GcpProvider.

(** ** Lemmas on the framing and the backends *)

Lemma as_key_Ok d k : as_key d = Ok k <-> k = d /\ length d = 32%nat.
Proof.
  unfold as_key. destruct (length d =? 32)%nat eqn:E.
  - apply Nat.eqb_eq in E. naive_solver.
  - apply Nat.eqb_neq in E. naive_solver.
Qed.

Lemma encrypt_value_Ok `{AesGcm} nonce p d w :
  encrypt_value nonce p d = Ok w ->
  exists c, length d = 32%nat /\ gcm_encrypt d nonce p = Some c /\ w = nonce ++ c.
Proof.
  unfold encrypt_value. intros (k & [-> Hl]%as_key_Ok & Hw)%result_bind_Ok.
  apply result_bind_Ok in Hw as (c & Hc%ok_or_Ok & [= <-]). eauto.
Qed.

Lemma decrypt_encrypted `{AesGcmLaws} nonce p d w :
  length nonce = NONCE_SIZE -> encrypt_value nonce p d = Ok w -> decrypt_value w d = Ok p.
Proof.
  intros Hn (c & Hl & Hc & ->)%encrypt_value_Ok. unfold decrypt_value.
  rewrite length_app, Hn. rewrite (proj2 (Nat.ltb_ge _ _)) by lia.
  rewrite (proj2 (as_key_Ok d d)) by done. cbn [mbind result_bind].
  rewrite <- Hn, take_app_length, drop_app_length, Hn. simpl.
  by rewrite (gcm_decrypt_encrypt _ _ _ _ Hc).
Qed.

(** The backend marker is read off the nonce of a local ciphertext. *)
Lemma local_not_marked nonce c :
  length nonce = NONCE_SIZE -> is_gcp_kms_ciphertext nonce = false -> is_gcp_kms_ciphertext (nonce ++ c) = false.
Proof.
  unfold is_gcp_kms_ciphertext. intros Hn Hm. apply not_true_iff_false. intros Hs.
  apply starts_with_spec in Hs as [r Hr]. apply not_true_iff_false in Hm. apply Hm, starts_with_spec.
  exists (drop (length GCP_KMS_PREFIX) nonce).
  assert (Ht : take (length GCP_KMS_PREFIX) nonce = GCP_KMS_PREFIX).
  { pose proof (f_equal (take (length GCP_KMS_PREFIX)) Hr) as E. rewrite take_app_length in E.
    rewrite take_app_le in E; [done|]. rewrite Hn. vm_compute. lia. }
  rewrite <- Ht at 1. by rewrite take_drop.
Qed.

Definition local_env (nonce : bytes) : Prop := length nonce = NONCE_SIZE /\ is_gcp_kms_ciphertext nonce = false.

Lemma local_round_trip `{AesGcmLaws} nonce nonce' d s w :
  local_env nonce -> (wrap_dek nonce d s).1 = Ok w -> (unwrap_dek nonce' w s).1 = Ok d.
Proof.
  intros [Hn Hm] Hw. simpl in *. pose proof Hw as Hw'. apply encrypt_value_Ok in Hw' as (c & _ & _ & ->).
  rewrite local_not_marked by done. by apply decrypt_encrypted with nonce.
Qed.

#[export] Instance local_laws `{AesGcmLaws} k : KeyProviderLaws bytes LocalKek local_env (fun s => s = mkLocalKek k).
Proof.
  split; [done|done|]. intros e e' d s s' w -> -> He _ Hw r Hr.
  rewrite (local_round_trip _ _ _ _ _ He Hw) in Hr. congruence.
Qed.

(** ** Lemmas on the cache *)

(** Eviction keeps the newer half: nothing kept is older than what went. *)
Lemma evict_spec max dr c :
  dr ≡ₚ map_to_list c ->
  size (evict max dr) = (size c - max / 2)%nat
  /\ (forall k e, evict max dr !! k = Some e -> c !! k = Some e)
  /\ (forall k e k' e', evict max dr !! k = Some e -> c !! k' = Some e' -> evict max dr !! k' = None ->
      cached_at e' <= cached_at e).
Proof.
  intros Hp. unfold evict.
  assert (Hms : merge_sort older dr ≡ₚ map_to_list c) by (by rewrite merge_sort_Permutation).
  assert (Hsorted : StronglySorted older (merge_sort older dr)) by (by apply (StronglySorted_merge_sort _)).
  assert (Hnd : NoDup (merge_sort older dr).*1) by (rewrite Hms; apply NoDup_fst_map_to_list).
  assert (Hlen : length (merge_sort older dr) = size c)
    by (by rewrite (Permutation_length Hms), length_map_to_list).
  assert (Hin : forall k e, (k, e) ∈ merge_sort older dr <-> c !! k = Some e)
    by (intros; by rewrite Hms, elem_of_map_to_list).
  clear Hms Hp. rewrite <- (take_drop (max / 2) (merge_sort older dr)) in Hsorted, Hnd, Hin.
  set (gone := take (max / 2) (merge_sort older dr)) in *.
  assert (Hdl : length (drop (max / 2) (merge_sort older dr)) = (size c - max / 2)%nat)
    by (rewrite length_drop; lia).
  generalize dependent (drop (max / 2) (merge_sort older dr)). intros kept Hsorted Hnd Hin Hdl.
  rewrite fmap_app in Hnd. apply NoDup_app in Hnd as (_ & _ & Hnd).
  split; [by rewrite map_size_list_to_map|]. split.
  - intros k e Hk%elem_of_list_to_map_2. apply Hin. set_solver.
  - intros k e k' e' Hk%elem_of_list_to_map_2 Hk' Hno%not_elem_of_list_to_map_2.
    apply Hin, elem_of_app in Hk' as [Hk'|Hk'].
    + apply StronglySorted_app in Hsorted as (Hlt & _ & _). exact (Hlt _ _ Hk' Hk).
    + exfalso. apply Hno. by apply (list_elem_of_fmap_2 fst) in Hk'.
Qed.

Lemma cache_put_spec now max dr key pt c :
  dr ≡ₚ map_to_list c -> (2 <= max)%nat -> (size c <= max)%nat ->
  (size (cache_put now max dr key pt c) <= max)%nat
  /\ forall k e, cache_put now max dr key pt c !! k = Some e ->
     (k = key /\ e = mkCachedDek pt now) \/ c !! k = Some e.
Proof.
  intros Hp Hmax Hsize. unfold cache_put. destruct (evict_spec max dr c Hp) as (H1 & H2 & _).
  assert (0 < max / 2)%nat by (apply Nat.div_str_pos; lia).
  set (c' := if (max <=? size c)%nat then evict max dr else c).
  assert (Hc' : (size c' < max)%nat /\ forall k e, c' !! k = Some e -> c !! k = Some e).
  { subst c'. destruct (max <=? size c)%nat eqn:E; [apply Nat.leb_le in E|apply Nat.leb_gt in E]; split; auto; lia. }
  split.
  - rewrite map_size_insert. destruct (c' !! key); simpl; lia.
  - intros k e. destruct (decide (k = key)) as [->|Hne].
    + rewrite lookup_insert_eq. intros [= <-]. auto.
    + rewrite lookup_insert_ne by done. intros Hk. right. by apply Hc'.
Qed.

Lemma cache_get_spec now ttl key c hit c' :
  cache_get now ttl key c = (hit, c') ->
  (forall k e, c' !! k = Some e -> c !! k = Some e) /\ (size c' <= size c)%nat
  /\ (forall p, hit = Some p -> exists e, c !! key = Some e /\ plaintext e = p /\ now - cached_at e < ttl).
Proof.
  unfold cache_get. destruct (c !! key) as [e|] eqn:E; [|intros [= <- <-]; split; [done|]; split; [done|]; done].
  unfold elapsed. destruct (Z.max 0 _ <? ttl) eqn:Et; bool_simp; intros [= <- <-].
  - split; [done|]. split; [done|]. intros p [= <-]. exists e. split; [done|]. split; [done|]. lia.
  - split; [|split; [|done]].
    + intros k x Hk. by apply lookup_delete_Some in Hk as [_ Hk].
    + rewrite map_size_delete, E. lia.
Qed.

(** ** Concurrent unwraps

    The look-up, the call to KMS and the insertion are three critical
    sections; any number of requests interleave them. *)
Module Concurrent.
Section Concurrent.
(** What KMS answers for a stored ciphertext at an instant, and how long after
    an answer its insertion may come. *)
Context (kms : instant -> bytes -> result CryptoError bytes) (latency : Z).

Record state := mkState { st_cache : gmap bytes CachedDek; in_flight : list (bytes * bytes * instant) }.
Definition init : state := mkState ∅ [].

Inductive label :=
| Hit (now : instant) (key p : bytes)
| Miss (now : instant) (key : bytes)
| Answer (now : instant) (key p : bytes)
| Store (now : instant) (key p : bytes).

Inductive step : state -> label -> state -> Prop :=
| step_hit st now key p c :
    cache_get now TTL key (st_cache st) = (Some p, c) -> step st (Hit now key p) (mkState c (in_flight st))
| step_miss st now key c :
    cache_get now TTL key (st_cache st) = (None, c) -> step st (Miss now key) (mkState c (in_flight st))
| step_answer st now key p :
    kms now key = Ok p -> step st (Answer now key p) (mkState (st_cache st) (in_flight st ++ [(key, p, now)]))
| step_store st now key p t fl1 fl2 dr :
    in_flight st = fl1 ++ (key, p, t) :: fl2 -> t <= now <= t + latency ->
    dr ≡ₚ map_to_list (st_cache st) ->
    step st (Store now key p)
      (mkState (cache_put now MAX_ENTRIES dr key p (st_cache st)) (fl1 ++ fl2)).

(** Everything held was KMS's answer, not long before. *)
Record cache_ok (st : state) : Prop := {
  ok_size : (size (st_cache st) <= MAX_ENTRIES)%nat;
  ok_cached : forall k e, st_cache st !! k = Some e ->
    exists t, kms t k = Ok (plaintext e) /\ cached_at e - latency <= t <= cached_at e;
  ok_in_flight : forall k p t, (k, p, t) ∈ in_flight st -> kms t k = Ok p;
}.

Lemma cache_ok_step st l st' : cache_ok st -> step st l st' -> cache_ok st'.
Proof.
  intros [Hs Hc Hf] Hstep. destruct Hstep as [st now key p c Hg|st now key c Hg|st now key p Hk|st now key p t fl1 fl2 dr Hfl Ht Hp].
  - apply cache_get_spec in Hg as (H1 & H2 & _). split; simpl; [lia| |done]. intros k e Hk. apply Hc. by apply H1.
  - apply cache_get_spec in Hg as (H1 & H2 & _). split; simpl; [lia| |done]. intros k e Hk. apply Hc. by apply H1.
  - split; simpl; [done|done|]. intros k q t [Hin|Hin]%elem_of_app; [by apply Hf|].
    apply list_elem_of_singleton in Hin. by simplify_eq.
  - destruct (cache_put_spec now MAX_ENTRIES dr key p (st_cache st) Hp) as [H1 H2]; [unfold MAX_ENTRIES; lia|done|].
    rewrite Hfl in Hf. split; simpl; [done| |].
    + intros k e Hk. apply H2 in Hk as [[-> ->]|Hk]; [|by apply Hc].
      exists t. simpl. split; [apply Hf; set_solver|lia].
    + intros k q u Hin. apply Hf. set_solver.
Qed.
End Concurrent.
End Concurrent.

(** ** The KMS backend keeps the provider's contract *)

Section GcpLaws.
Context `{KmsOutside} (from_utf8 : bytes -> option str) (name : str).
(** What the backend relies on: KMS decrypts what it encrypted, whenever it
    answers, and the ciphertext string it returned is read back from its bytes. *)
Context (kms_inverse : forall t t' d ct p, encrypt t name d = Ok ct -> decrypt t' name ct = Ok p -> p = d).
Context (utf8_inverse : forall ct, from_utf8 (as_bytes ct) = Some ct).

Definition gcp_env (s : GcpKmsKek) (e : Call) : Prop := drained e ≡ₚ map_to_list (cache s).

(** Every cached plaintext is the one KMS wrapped. *)
Definition gcp_good (s : GcpKmsKek) : Prop :=
  key_name s = name
  /\ forall k e, cache s !! k = Some e ->
     forall t d ct, encrypt t name d = Ok ct -> k = GCP_KMS_PREFIX ++ as_bytes ct -> plaintext e = d.

Lemma kms_unwrap_wrapped t t' d ct p :
  encrypt t name d = Ok ct -> kms_unwrap from_utf8 t' name (GCP_KMS_PREFIX ++ as_bytes ct) = Ok p -> p = d.
Proof.
  intros He. unfold kms_unwrap. rewrite drop_app_length, utf8_inverse. cbn [ok_or mbind result_bind].
  unfold kms_err. intros Hd%map_err_Ok. by eapply kms_inverse.
Qed.

Lemma gcp_unwrap_spec e w s r s' :
  gcp_good s -> gcp_env s e -> gcp_unwrap from_utf8 e w s = (r, s') ->
  gcp_good s'
  /\ forall p t d ct, r = Ok p -> encrypt t name d = Ok ct -> w = GCP_KMS_PREFIX ++ as_bytes ct -> p = d.
Proof.
  intros [Hn Hc] Henv. unfold gcp_unwrap. destruct (is_gcp_kms_ciphertext w) eqn:Em; [|intros [= <- <-]; done].
  cbn [negb]. destruct (cache_get _ _ w (cache s)) as [hit c] eqn:Eg.
  pose proof (cache_get_spec _ _ _ _ _ _ Eg) as (H1 & _ & H3). destruct hit as [p|].
  - intros [= <- <-]. split.
    + split; [done|]. simpl. intros k x Hk. by apply Hc, H1.
    + intros q t d ct [= <-] He ->. destruct (H3 p eq_refl) as (x & Hx & <- & _). by eapply Hc.
  - destruct (kms_unwrap from_utf8 (at_kms e) (key_name s) w) as [p|err] eqn:Ek; intros [= <- <-].
    + rewrite Hn in Ek. split.
      * split; [done|]. simpl. intros k x Hk t d ct He ->. unfold cache_put in Hk.
        destruct (decide (GCP_KMS_PREFIX ++ as_bytes ct = w)) as [E|E].
        -- subst w. rewrite lookup_insert_eq in Hk. injection Hk as <-. simpl. by eapply kms_unwrap_wrapped.
        -- rewrite lookup_insert_ne in Hk by done. eapply (Hc _ x); [|exact He|done].
           destruct (max_entries s <=? size c)%nat; [|by apply H1].
           unfold evict in Hk. apply elem_of_list_to_map_2 in Hk.
           apply elem_of_map_to_list. rewrite <- Henv, <- (merge_sort_Permutation older (drained e)).
           rewrite <- (take_drop (max_entries s / 2) (merge_sort older (drained e))). apply elem_of_app. by right.
      * intros q t d ct [= <-] He ->. by eapply kms_unwrap_wrapped.
    + split; [|done]. split; [done|]. simpl. intros k x Hk. by apply Hc, H1.
Qed.
End GcpLaws.

(** ** Concrete instances for the witnesses *)

Module Demo.
(** A cipher that reverses, with a 16-byte tag. *)
#[export] Instance toy_gcm : AesGcm := {|
  gcm_encrypt k n p := Some (replicate 16 0 ++ reverse p);
  gcm_decrypt k n c := if (length c <? 16)%nat then None else Some (reverse (drop 16 c));
|}.
#[export] Instance toy_laws : AesGcmLaws.
Proof.
  split. intros k n p c Hc. cbn in Hc. injection Hc as <-. cbn [gcm_decrypt toy_gcm].
  change (Some (reverse (reverse p)) = Some p). by rewrite reverse_involutive.
Qed.
Definition nonce : bytes := replicate 12 7.
Definition kek : LocalKek := mkLocalKek (replicate 32 1).
(** KMS answers with the ciphertext itself. *)
Definition kms (t : instant) (k : bytes) : result CryptoError bytes := Ok k.
Definition st1 : Concurrent.state := Concurrent.mkState ∅ [([1; 2], [1; 2], 5)].
Definition st2 : Concurrent.state := Concurrent.mkState {[ [1; 2] := mkCachedDek [1; 2] 6 ]} [].
End Demo.

(** ** Properties *)

(** Sealing is undone by unsealing.  A DEK wrapped under a local KEK with
    a fresh nonce unwraps to itself under that KEK, whatever is drawn then, as
    long as the nonce does not happen to spell the [gcp-kms:] marker; the
    sealed bytes are the nonce and the ciphertext; and each backend refuses
    what the other one wrapped instead of decrypting it. *)
Theorem local_envelope_round_trip `{AesGcmLaws} `{KmsOutside} utf8 nonce nonce' d s w :
  local_env nonce -> (wrap_dek nonce d s).1 = Ok w ->
  (unwrap_dek nonce' w s).1 = Ok d
  /\ take NONCE_SIZE w = nonce
  /\ (forall e g, (gcp_unwrap utf8 e w g).1 = Err WrongBackend)
  /\ (forall e g w', (gcp_wrap e d g).1 = Ok w' -> (unwrap_dek nonce' w' s).1 = Err WrongBackend).
Proof.
  intros He Hw. split; [by eapply local_round_trip|]. destruct He as [Hn Hm].
  simpl in Hw. apply encrypt_value_Ok in Hw as (c & _ & _ & ->). split; [|split].
  - by rewrite <- Hn, take_app_length.
  - intros e g. unfold gcp_unwrap. by rewrite local_not_marked.
  - intros e g w'. unfold gcp_wrap. simpl. intros (ct & _ & [= <-])%result_bind_Ok.
    unfold is_gcp_kms_ciphertext. by rewrite (proj2 (starts_with_spec _ _)) by eauto.
Qed.

Definition no_kms : KmsOutside := {|
  token _ _ := Err [];
  b64_encode b := b;
  b64_decode s := Some s;
  kms_post _ _ _ _ := Err [];
|}.

Lemma local_envelope_round_trip_witness :
  exists w, (@wrap_dek _ _ (@local_provider Demo.toy_gcm) Demo.nonce [1; 2; 3] Demo.kek).1 = Ok w
    /\ (@unwrap_dek _ _ (@local_provider Demo.toy_gcm) Demo.nonce w Demo.kek).1 = Ok [1; 2; 3].
Proof.
  eexists. split; [vm_compute; reflexivity|].
  apply (@local_envelope_round_trip Demo.toy_gcm Demo.toy_laws no_kms (fun b => Some b) Demo.nonce).
  - split; vm_compute; reflexivity.
  - vm_compute. reflexivity.
Defined.

(** C25: the DEK cache is bounded and fresh.  Whatever unwraps run at once and
    however their look-ups, KMS calls and insertions interleave, the cache
    never holds more than 1024 entries, and a hit hands out a plaintext that
    KMS itself returned for that very ciphertext less than a minute (and the
    latency of one call) before. *)
Theorem dek_cache_bounded_and_fresh kms latency ls st now key p :
  run (Concurrent.step kms latency) Concurrent.init ls st ->
  (size (Concurrent.st_cache st) <= MAX_ENTRIES)%nat
  /\ forall st', Concurrent.step kms latency st (Concurrent.Hit now key p) st' ->
     exists t, kms t key = Ok p /\ now - t < TTL + latency.
Proof.
  intros Hrun.
  assert (Hok : Concurrent.cache_ok kms latency st).
  { refine (run_invariant _ (Concurrent.cache_ok kms latency) _ _ _ _ _ Hrun).
    - intros. by eapply Concurrent.cache_ok_step.
    - split; simpl; [rewrite map_size_empty; lia| |set_solver].
      intros k e Hk. by rewrite lookup_empty in Hk. }
  destruct Hok as [Hs Hc _]. split; [done|]. intros st' Hstep. inversion_clear Hstep as [? ? ? ? c Hg| | |].
  apply cache_get_spec in Hg as (_ & _ & Hhit). destruct (Hhit p eq_refl) as (e & He & <- & Ht).
  destruct (Hc _ _ He) as (t & Hk & Hb). exists t. split; [done|]. lia.
Qed.

Lemma dek_cache_bounded_and_fresh_witness :
  exists t, Demo.kms t [1; 2] = Ok [1; 2] /\ 100 - t < TTL + 10.
Proof.
  refine (proj2 (dek_cache_bounded_and_fresh Demo.kms 10
    [Concurrent.Answer 5 [1; 2] [1; 2]; Concurrent.Store 6 [1; 2] [1; 2]] Demo.st2 100 [1; 2] [1; 2] _) Demo.st2 _).
  - apply (run_snoc _ _ [_] Demo.st1); [apply (run_snoc _ _ [] Concurrent.init); [constructor|]|].
    + apply (Concurrent.step_answer _ _ Concurrent.init). reflexivity.
    + apply (Concurrent.step_store Demo.kms 10 Demo.st1 6 [1; 2] [1; 2] 5 [] [] []); [reflexivity|lia|reflexivity].
  - apply (Concurrent.step_hit _ _ Demo.st2). vm_compute. reflexivity.
Defined.
