(* ===== verification/AesGcm.v ===== *)
(** * AES-256-GCM (FIPS 197, SP 800-38D; [aes_gcm] behind [crates/crypto/src/lib.rs])

    [Crypto] takes the cipher as the operations of a class and what it relies
    on as a law.  This file has the published algorithm on bytes, the instance
    it makes and the law proved of it; the tests of the crate run on it. *)

From S2P Require Import Prelude RustStr Sha256 Crypto.

(** ** The block cipher *)

(** The field with 256 elements. *)
Definition xtime (x : Z) : Z := Z.land (Z.lxor (2 * x) (if Z.testbit x 7 then 0x1b else 0)) 255.
Fixpoint gmul_bits (n : nat) (x y : Z) : Z :=
  match n with
  | O => 0
  | S n => Z.lxor (if Z.odd y then x else 0) (gmul_bits n (xtime x) (Z.shiftr y 1))
  end.
Definition gmul (x y : Z) : Z := gmul_bits 8 x y.
(** The inverse is the 254th power; then the affine map. *)
Definition ginv (x : Z) : Z := Nat.iter 254 (gmul x) 1.
Definition rotl8 (n x : Z) : Z := Z.land (Z.lor (Z.shiftl x n) (Z.shiftr x (8 - n))) 255.
Definition affine (x : Z) : Z :=
  Z.lxor 0x63 (Z.lxor x (Z.lxor (rotl8 1 x) (Z.lxor (rotl8 2 x) (Z.lxor (rotl8 3 x) (rotl8 4 x))))).
Definition sbox : list Z := Eval vm_compute in ((fun x => affine (ginv x)) <$> seqZ 0 256).
Definition at_ (l : bytes) (i : nat) : Z := unwrap_or (l !! i) 0.
Definition sub_byte (x : Z) : Z := at_ sbox (Z.to_nat x).

(** A block is sixteen bytes, column by column. *)
Definition block16 (f : nat -> Z) : bytes := f <$> seq 0 16.
Definition sub_shift (s : bytes) : bytes :=
  block16 (fun i => let r := (i mod 4)%nat in sub_byte (at_ s (4 * ((i / 4 + r) mod 4) + r))).
Definition mix_columns (s : bytes) : bytes :=
  block16 (fun i =>
    let c := (4 * (i / 4))%nat in
    let cell d := at_ s (c + (i + d) mod 4) in
    Z.lxor (Z.lxor (gmul (cell 0%nat) 2) (gmul (cell 1%nat) 3)) (Z.lxor (cell 2%nat) (cell 3%nat))).
Definition add_key (s k : bytes) : bytes := block16 (fun i => Z.lxor (at_ s i) (at_ k i)).

(** The sixty words of the key schedule, the newest first. *)
Definition xor_words : bytes -> bytes -> bytes := zip_with Z.lxor.
Definition next_word (i : nat) (ws : list bytes) : bytes :=
  let prev := unwrap_or (head ws) [] in
  let t :=
    if (i mod 8 =? 0)%nat then
      xor_words (sub_byte <$> (drop 1 prev ++ take 1 prev)) [Nat.iter (i / 8 - 1) xtime 1; 0; 0; 0]
    else if (i mod 8 =? 4)%nat then sub_byte <$> prev
    else prev in
  xor_words (unwrap_or (ws !! 7%nat) []) t.
Fixpoint split_words (b : bytes) : list bytes :=
  match b with x :: y :: z :: w :: b => [x; y; z; w] :: split_words b | _ => [] end.
Definition schedule (key : bytes) : list bytes :=
  let ws := foldl (fun ws i => next_word i ws :: ws) (reverse (split_words key)) (seq 8 52) in reverse ws.
Fixpoint round_keys (n : nat) (ws : list bytes) : list bytes :=
  match n with O => [] | S n => mjoin (take 4 ws) :: round_keys n (drop 4 ws) end.

(** Fifteen round keys: the first, thirteen full rounds, the last without the
    mixing. *)
Fixpoint rounds_with (ks : list bytes) (s : bytes) : bytes :=
  match ks with
  | [] => s
  | [k] => add_key (sub_shift s) k
  | k :: ks => rounds_with ks (add_key (mix_columns (sub_shift s)) k)
  end.
Definition aes_with (ks : list bytes) (b : bytes) : bytes :=
  match ks with [] => block16 (at_ b) | k :: ks => block16 (at_ (rounds_with ks (add_key b k))) end.
Definition expand (key : bytes) : list bytes := round_keys 15 (schedule key).

(** ** The mode *)

Definition be_number (b : bytes) : Z := foldl (fun acc x => acc * 256 + x) 0 b.
(** The field with 2^128 elements, the coefficient of one in the highest bit. *)
Fixpoint ghash_mul_bits (n : nat) (x v acc : Z) : Z :=
  match n with
  | O => acc
  | S n =>
      let acc := if Z.testbit x (Z.of_nat n) then Z.lxor acc v else acc in
      ghash_mul_bits n x (Z.lxor (Z.shiftr v 1) (if Z.odd v then Z.shiftl 0xe1 120 else 0)) acc
  end.
Definition ghash_mul (x y : Z) : Z := ghash_mul_bits 128 x y 0.
(** The bytes in blocks, the last one filled up with zeros. *)
Fixpoint blocks16 (n : nat) (b : bytes) : list Z :=
  match n with O => [] | S n => be_number (take 16 b ++ replicate (16 - length b) 0) :: blocks16 n (drop 16 b) end.
Definition block_count (b : bytes) : nat := (length b + 15) / 16.
Definition ghash (h : Z) (b : bytes) : Z :=
  foldl (fun y x => ghash_mul (Z.lxor y x) h) 0 (blocks16 (block_count b) b ++ [8 * Z.of_nat (length b)]).

Definition counter_block (nonce : bytes) (i : nat) : bytes := nonce ++ be_bytes 4 (Z.of_nat i).
Definition keystream (ks : list bytes) (nonce : bytes) (n : nat) : bytes :=
  flat_map (fun i => aes_with ks (counter_block nonce (i + 2))) (seq 0 n).
Definition ctr (ks : list bytes) (nonce b : bytes) : bytes := zip_with Z.lxor b (keystream ks nonce (block_count b)).
Definition tag (ks : list bytes) (nonce c : bytes) : bytes :=
  let h := be_number (aes_with ks (replicate 16 0)) in
  be_bytes 16 (Z.lxor (ghash h c) (be_number (aes_with ks (counter_block nonce 1)))).

#[export] Instance aes256_gcm : AesGcm := {|
  gcm_encrypt key nonce p :=
    let ks := expand key in let c := ctr ks nonce p in Some (c ++ tag ks nonce c);
  gcm_decrypt key nonce b :=
    let ks := expand key in
    let n := (length b - 16)%nat in
    if (length b <? 16)%nat then None
    else if bool_decide (drop n b = tag ks nonce (take n b)) then Some (ctr ks nonce (take n b)) else None;
|}.

(** ** Lemmas *)

Lemma aes_with_length ks b : length (aes_with ks b) = 16%nat.
Proof. unfold aes_with, block16. destruct ks; by rewrite length_fmap, length_seq. Qed.
Lemma keystream_length ks nonce n : length (keystream ks nonce n) = (16 * n)%nat.
Proof.
  unfold keystream. rewrite <- (length_seq n 0) at 2. induction (seq 0 n) as [|i l IH]; [done|]. cbn [flat_map length].
  rewrite length_app, aes_with_length, IH. lia.
Qed.
Lemma block_count_covers b : (length b <= 16 * block_count b)%nat.
Proof.
  unfold block_count. pose proof (Nat.div_mod_eq (length b + 15) 16). pose proof (Nat.mod_upper_bound (length b + 15) 16). lia.
Qed.
Lemma ctr_length ks nonce b : length (ctr ks nonce b) = length b.
Proof. unfold ctr. rewrite length_zip_with, keystream_length. pose proof (block_count_covers b). lia. Qed.
Lemma xor_involutive (l k : bytes) : (length l <= length k)%nat -> zip_with Z.lxor (zip_with Z.lxor l k) k = l.
Proof.
  revert k. induction l as [|x l IH]; intros [|y k] Hl; simpl in *; [done|done|lia|].
  by rewrite Z.lxor_assoc, Z.lxor_nilpotent, Z.lxor_0_r, IH by lia.
Qed.
Lemma ctr_involutive ks nonce b : ctr ks nonce (ctr ks nonce b) = b.
Proof.
  unfold ctr at 1. unfold block_count. rewrite ctr_length. unfold ctr. apply xor_involutive.
  rewrite keystream_length. apply block_count_covers.
Qed.
Lemma tag_length ks nonce c : length (tag ks nonce c) = 16%nat.
Proof. apply be_bytes_length. Qed.

#[export] Instance aes256_gcm_laws : AesGcmLaws.
Proof.
  split. intros k n p c. cbn [gcm_encrypt gcm_decrypt aes256_gcm]. intros [= <-].
  set (ks := expand k). set (ct := ctr ks n p). rewrite length_app, tag_length, Nat.add_sub.
  rewrite (proj2 (Nat.ltb_ge _ _)) by lia. rewrite drop_app_length, take_app_length, bool_decide_eq_true_2 by done.
  unfold ct. by rewrite ctr_involutive.
Qed.

(** The example of FIPS 197 for 256 bits, and the GCM specification's test
    cases 13 and 14. *)
Example aes256_fips197 :
  hex_encode (aes_with (expand (seqZ 0 32)) ((fun x => x * 17) <$> seqZ 0 16)) = lit "8ea2b7ca516745bfeafc49904b496089".
Proof. vm_compute. reflexivity. Qed.
Example gcm_empty :
  hex_encode <$> gcm_encrypt (replicate 32 0) (replicate 12 0) [] = Some (lit "530f8afbc74536b9a963b4f1c4cb738b").
Proof. vm_compute. reflexivity. Qed.
Example gcm_zero_block :
  hex_encode <$> gcm_encrypt (replicate 32 0) (replicate 12 0) (replicate 16 0)
  = Some (lit "cea7403d4d606b6e074ec5d3baf39d18d0d1c8a799996bf0265b98b5d48ab919").
Proof. vm_compute. reflexivity. Qed.
