(* ===== verification/Totp.v ===== *)
(** * Two-factor authentication ([crates/auth/src/totp.rs])

    Seed sealing through any key provider, step verification with replay
    protection, and single-use recovery codes.  The one-time-password
    arithmetic is [totp_rs]'s and is a parameter, as are SHA-256 and base64;
    random bytes and clocks are arguments. *)

From S2P Require Import Prelude RustStr Webhooks Crypto.

Definition TOTP_DIGITS : Z := 6.
Definition TOTP_STEP_SECS : Z := 30.
Definition TOTP_SKEW : Z := 1.
Definition DEFAULT_RECOVERY_CODE_COUNT : nat := 10.
Definition ISSUER : str := lit "FerrLabs".

Inductive TotpError := InvalidConfig (e : str) | CryptoFailed (e : CryptoError) | ClockError.

Record TotpEnrollment := mkEnrollment { seed : bytes; account : str }.
(** [generate]: the 20 random bytes are an argument. *)
Definition generate (random : bytes) (account_email : str) : TotpEnrollment := mkEnrollment random account_email.
Definition from_seed (s : bytes) (account_email : str) : TotpEnrollment := mkEnrollment s account_email.

(** [totp_rs] at the parameters of the crate (SHA-1, six digits, skew 1, 30 s):
    [build] validates seed and account, the rest work on a built value. *)
Class TotpPackage := {
  totp_build : bytes -> str -> result str ();
  totp_url : bytes -> str -> result str str;
  totp_code : bytes -> Z -> str;
  totp_check : bytes -> str -> Z -> option Z;
}.
Class TotpPackageLaws `{TotpPackage} : Prop := {
  check_sound s code t step :
    totp_check s code t = Some step ->
    code = totp_code s step /\ t / TOTP_STEP_SECS - TOTP_SKEW <= step <= t / TOTP_STEP_SECS + TOTP_SKEW;
}.

Section Totp.
Context `{TotpPackage}.

Definition totp (e : TotpEnrollment) : result TotpError () := map_err InvalidConfig (totp_build (seed e) (account e)).

Definition provisioning_uri (e : TotpEnrollment) : result TotpError str :=
  _ ← totp e; map_err InvalidConfig (totp_url (seed e) (account e)).

Definition is_none_or {A} (o : option A) (p : A -> bool) : bool := match o with None => true | Some a => p a end.

Definition verify_step_at (e : TotpEnrollment) (code : str) (unix_time : Z) (last_used_step : option Z)
  : result TotpError (option Z) :=
  _ ← totp e;
  Ok (step ← totp_check (seed e) code unix_time;
      if is_none_or last_used_step (fun l => l <? step) then Some step else None).

Definition verify_at (e : TotpEnrollment) (code : str) (unix_time : Z) : result TotpError bool :=
  r ← verify_step_at e code unix_time None; Ok (is_some r).

(** [unix_now]: [None] is a clock before the epoch. *)
Definition unix_now (clock : option Z) : result TotpError Z := ok_or clock ClockError.
Definition verify_step_now (clock : option Z) (e : TotpEnrollment) (code : str) (last : option Z)
  : result TotpError (option Z) :=
  now ← unix_now clock; verify_step_at e code now last.
Definition verify_now (clock : option Z) (e : TotpEnrollment) (code : str) : result TotpError bool :=
  now ← unix_now clock; verify_at e code now.

Definition current_code_at (e : TotpEnrollment) (unix_time : Z) : result TotpError str :=
  _ ← totp e; Ok (totp_code (seed e) (unix_time / TOTP_STEP_SECS)).
End Totp.

Section Sealing.
Context {Env St : Type} `{KeyProvider Env St}.

Definition seal_seed (e : Env) (t : TotpEnrollment) (s : St) : result TotpError bytes * St :=
  let '(r, s') := wrap_dek e (seed t) s in (map_err CryptoFailed r, s').
Definition unseal_seed (e : Env) (sealed : bytes) (s : St) : result TotpError bytes * St :=
  let '(r, s') := unwrap_dek e sealed s in (map_err CryptoFailed r, s').
End Sealing.

(** ** Recovery codes *)

Record RecoveryCode := mkRecoveryCode { plaintext : str; hash : bytes }.

Section Recovery.
Context (sha256 : bytes -> bytes) (base64 : bytes -> str).

Definition hash_recovery_code (code : str) : bytes := sha256 (as_bytes code).
(** One draw of ten random bytes per code. *)
Definition generate_recovery_codes (draws : list bytes) : list RecoveryCode :=
  (fun b => let p := base64 b in mkRecoveryCode p (hash_recovery_code p)) <$> draws.

(** The loop keeps the last index that matches. *)
Fixpoint scan (presented : bytes) (idx : nat) (matched : option nat) (hashes : list bytes) : option nat :=
  match hashes with
  | [] => matched
  | stored :: rest => scan presented (S idx) (if ct_eq presented stored then Some idx else matched) rest
  end.
Definition verify_and_consume (code : str) (hashes : list bytes) : option nat :=
  scan (hash_recovery_code code) 0 None hashes.
End Recovery.

(** ** Callers: what the documentation asks of them *)

(** Logins that persist the returned step. *)
Fixpoint logins `{TotpPackage} (e : TotpEnrollment) (last : option Z) (attempts : list (str * Z)) : list (str * Z * Z) :=
  match attempts with
  | [] => []
  | (code, t) :: rest =>
      match verify_step_at e code t last with
      | Ok (Some step) => (code, t, step) :: logins e (Some step) rest
      | _ => logins e last rest
      end
  end.

(** Recoveries that delete the matched hash. *)
Fixpoint recoveries (sha256 : bytes -> bytes) (hashes : list bytes) (codes : list str) : list str * list bytes :=
  match codes with
  | [] => ([], hashes)
  | code :: rest =>
      match verify_and_consume sha256 code hashes with
      | Some i => let '(ok, h) := recoveries sha256 (delete i hashes) rest in (code :: ok, h)
      | None => recoveries sha256 hashes rest
      end
  end.

(** ** Lemmas *)

Lemma scan_spec p hashes idx m :
  match scan p idx m hashes with
  | Some i => (m = Some i /\ p ∉ hashes) \/ exists j, i = (idx + j)%nat /\ hashes !! j = Some p
  | None => m = None /\ p ∉ hashes
  end.
Proof.
  revert idx m. induction hashes as [|h hashes IH]; intros idx m; cbn [scan].
  { destruct m; [left|]; split; try done; set_solver. }
  specialize (IH (S idx) (if ct_eq p h then Some idx else m)).
  destruct (ct_eq p h) eqn:E.
  - apply ct_eq_spec in E. subst h. destruct (scan _ _ _ _) as [i|]; [|by destruct IH].
    right. destruct IH as [[[= <-] _]|(j & -> & Hj)].
    + exists 0%nat. split; [lia|done].
    + exists (S j). split; [lia|done].
  - assert (p <> h) by (intros ->; apply not_true_iff_false in E; apply E; by apply ct_eq_spec).
    destruct (scan _ _ _ _) as [i|].
    + destruct IH as [[-> Hn]|(j & -> & Hj)]; [left; split; [done|set_solver]|].
      right. exists (S j). split; [lia|done].
    + destruct IH as [-> Hn]. split; [done|set_solver].
Qed.

Lemma verify_and_consume_spec sha256 code hashes :
  match verify_and_consume sha256 code hashes with
  | Some i => hashes !! i = Some (hash_recovery_code sha256 code)
  | None => hash_recovery_code sha256 code ∉ hashes
  end.
Proof.
  unfold verify_and_consume. pose proof (scan_spec (hash_recovery_code sha256 code) hashes 0 None) as Hs.
  destruct (scan _ _ _ _) as [i|]; [|apply Hs]. destruct Hs as [[? _]|(j & -> & Hj)]; [done|]. exact Hj.
Qed.

(** The scan returns the last match. *)
Lemma scan_last p hashes i :
  scan p 0 None hashes = Some i <-> hashes !! i = Some p /\ forall j, (i < j)%nat -> hashes !! j <> Some p.
Proof.
  assert (Hgen : forall idx m, scan p idx m hashes = Some i <->
    (exists j, i = (idx + j)%nat /\ hashes !! j = Some p /\ forall k, (j < k)%nat -> hashes !! k <> Some p)
    \/ (m = Some i /\ p ∉ hashes)).
  { induction hashes as [|h hashes IH]; intros idx m; cbn [scan].
    { split; [intros ->; right; set_solver|]. by intros [(j & _ & Hj & _)|[-> _]]. }
    rewrite IH. clear IH. split.
    - intros [(j & -> & Hj & Hk)|[Hm Hn]].
      + left. exists (S j). split; [lia|]. split; [done|]. intros [|k] Hlt; [lia|]. apply Hk. lia.
      + destruct (ct_eq p h) eqn:E.
        * apply ct_eq_spec in E. subst h. injection Hm as <-. left. exists 0%nat. split; [lia|]. split; [done|].
          intros [|k] Hlt; [lia|]. intros Hk. apply Hn. by eapply list_elem_of_lookup_2.
        * right. split; [done|]. apply not_elem_of_cons. split; [|done]. intros ->. apply not_true_iff_false in E. by apply E, ct_eq_spec.
    - intros [(j & -> & Hj & Hk)|[-> Hn]].
      + destruct j as [|j].
        * injection Hj as ->. right. rewrite (proj2 (ct_eq_spec p p) eq_refl). split; [f_equal; lia|].
          intros Hin. apply list_elem_of_lookup_1 in Hin as [k Hin]. apply (Hk (S k)); [lia|done].
        * left. exists j. split; [lia|]. split; [done|]. intros k Hlt. apply (Hk (S k)). lia.
      + right. apply not_elem_of_cons in Hn as [Hne Hn]. split; [|done].
        destruct (ct_eq p h) eqn:E; [|done]. apply ct_eq_spec in E. done. }
  rewrite Hgen. split.
  - intros [(j & -> & Hj & Hk)|[? _]]; [|done]. done.
  - intros [Hi Hk]. left. by exists i.
Qed.

(** Accepted codes and remaining hashes share out the stored ones. *)
Lemma recoveries_spec sha256 codes hashes :
  let '(accepted, remaining) := recoveries sha256 hashes codes in
  (hash_recovery_code sha256 <$> accepted) ++ remaining ≡ₚ hashes
  /\ sublist accepted codes
  /\ forall h, h ∈ hashes -> h ∈ (hash_recovery_code sha256 <$> codes) -> h ∈ (hash_recovery_code sha256 <$> accepted).
Proof.
  revert hashes. induction codes as [|code codes IH]; intros hashes; cbn [recoveries].
  { split; [done|]. split; [constructor|]. set_solver. }
  pose proof (verify_and_consume_spec sha256 code hashes) as Hv.
  destruct (verify_and_consume sha256 code hashes) as [i|].
  - specialize (IH (delete i hashes)). destruct (recoveries sha256 (delete i hashes) codes) as [ok rest].
    destruct IH as (H1 & H2 & H3). pose proof (delete_Permutation hashes i _ Hv) as Hp.
    split; [by rewrite Hp, fmap_cons; cbn [app]; rewrite H1|]. split; [by constructor|].
    intros h Hh. rewrite !fmap_cons, !elem_of_cons. rewrite Hp in Hh. apply elem_of_cons in Hh as [ ->|Hh]; [by left|].
    intros [ ->|Hc]; [by left|]. right. by apply H3.
  - specialize (IH hashes). destruct (recoveries sha256 hashes codes) as [ok rest]. destruct IH as (H1 & H2 & H3).
    split; [done|]. split; [by constructor|]. intros h Hh. rewrite fmap_cons, elem_of_cons. intros [ ->|Hc]; [done|by apply H3].
Qed.

Lemma logins_steps `{TotpPackageLaws} e last attempts :
  StronglySorted Z.lt (snd <$> logins e last attempts)
  /\ (forall l, last = Some l -> Forall (Z.lt l) (snd <$> logins e last attempts))
  /\ Forall (fun '(code, t, step) => code = totp_code (seed e) step
       /\ t / TOTP_STEP_SECS - TOTP_SKEW <= step <= t / TOTP_STEP_SECS + TOTP_SKEW) (logins e last attempts).
Proof.
  revert last. induction attempts as [|[code t] rest IH]; intros last; cbn [logins]; [repeat constructor|].
  unfold verify_step_at. destruct (totp e) as [[]|]; simpl; [|apply IH].
  destruct (totp_check (seed e) code t) as [step|] eqn:Ec; simpl; [|apply IH].
  destruct (is_none_or last _) eqn:El; [|apply IH].
  destruct (IH (Some step)) as (H1 & H2 & H3). specialize (H2 step eq_refl). cbn [fmap list_fmap snd].
  split; [by constructor|]. split.
  - intros l ->. simpl in El. bool_simp. constructor; [done|]. eapply Forall_impl; [exact H2|]. simpl. lia.
  - constructor; [by apply check_sound|done].
Qed.

(** ** Concrete instances for the witnesses *)

Module Demo.
(** Codes that are the step itself. *)
#[export] Instance plain_totp : TotpPackage := {|
  totp_build _ _ := Ok ();
  totp_url _ _ := Ok [];
  totp_code _ step := show_u step;
  totp_check _ code t :=
    List.find (fun step => code =s show_u step)
      [t / TOTP_STEP_SECS - 1; t / TOTP_STEP_SECS; t / TOTP_STEP_SECS + 1];
|}.
#[export] Instance plain_totp_laws : TotpPackageLaws.
Proof.
  split. intros s code t step Hf. cbn [totp_check plain_totp] in Hf. apply find_some in Hf as [Hin He].
  apply str_eqb_eq in He. split; [done|]. unfold TOTP_SKEW. simpl in Hin. lia.
Qed.
Definition enrolled : TotpEnrollment := from_seed [1] (lit "a@b.c").
End Demo.

(** ** Properties *)

(** C28: a one-time code works once.  However attempts and clock readings
    follow each other, as long as the returned step is persisted the accepted
    steps are strictly increasing, so that no code is accepted a second time
    for its step, and every accepted code is the seed's code for a step at
    most one away from the time it was presented at. *)
Theorem totp_codes_accepted_once `{TotpPackageLaws} e last attempts :
  let accepted := logins e last attempts in
  StronglySorted Z.lt (snd <$> accepted)
  /\ (forall l, last = Some l -> Forall (Z.lt l) (snd <$> accepted))
  /\ NoDup (snd <$> accepted)
  /\ Forall (fun '(code, t, step) => code = totp_code (seed e) step
       /\ t / TOTP_STEP_SECS - TOTP_SKEW <= step <= t / TOTP_STEP_SECS + TOTP_SKEW) accepted.
Proof.
  intros accepted. destruct (logins_steps e last attempts) as (H1 & H2 & H3).
  split; [done|]. split; [done|]. split; [|done].
  fold accepted in H1. induction H1 as [|x l Hl IH Hx]; constructor; [|done].
  intros Hin. rewrite Forall_forall in Hx. specialize (Hx x Hin). lia.
Qed.

Lemma totp_codes_accepted_once_witness :
  NoDup (snd <$> @logins Demo.plain_totp Demo.enrolled None [(lit "33", 1000); (lit "33", 1001); (lit "34", 1010)])
  /\ length (@logins Demo.plain_totp Demo.enrolled None [(lit "33", 1000); (lit "33", 1001); (lit "34", 1010)]) = 2%nat.
Proof.
  split; [|vm_compute; reflexivity].
  apply (@totp_codes_accepted_once Demo.plain_totp Demo.plain_totp_laws).
Defined.

(** C29: recovery codes.  [verify_and_consume] answers the last index whose
    hash is that of the code, and nothing when there is none; it consumes
    nothing itself.  For a caller that deletes the hash at the returned index, as
    the documentation and the tests of the crate do, the hashes of the accepted
    codes and the ones left are together the hashes that were stored: a code is
    accepted no more often than its hash is stored, never when it is not, and at
    least once when it is stored and the code presented; so exactly once when the
    stored hashes are distinct. *)
Theorem recovery_codes_single_use sha256 :
  (forall code hashes i, verify_and_consume sha256 code hashes = Some i <->
     hashes !! i = Some (hash_recovery_code sha256 code)
     /\ forall j, (i < j)%nat -> hashes !! j <> Some (hash_recovery_code sha256 code))
  /\ (forall code hashes, verify_and_consume sha256 code hashes = None <-> hash_recovery_code sha256 code ∉ hashes)
  /\ (forall hashes codes,
      let '(accepted, remaining) := recoveries sha256 hashes codes in
      let used := hash_recovery_code sha256 <$> accepted in
      used ++ remaining ≡ₚ hashes
      /\ sublist accepted codes
      /\ (forall h, h ∈ hashes -> h ∈ (hash_recovery_code sha256 <$> codes) -> h ∈ used)
      /\ (NoDup hashes -> NoDup used)).
Proof.
  split; [|split].
  - intros code hashes i. unfold verify_and_consume. apply scan_last.
  - intros code hashes. pose proof (verify_and_consume_spec sha256 code hashes) as Hv.
    destruct (verify_and_consume sha256 code hashes); split; try done. intros Hn. destruct Hn. by eapply list_elem_of_lookup_2.
  - intros hashes codes. pose proof (recoveries_spec sha256 codes hashes) as Hr.
    destruct (recoveries sha256 hashes codes) as [accepted remaining]. destruct Hr as (Hp & Hs & Hu).
    split; [done|]. split; [done|]. split; [done|]. intros Hn. rewrite <- Hp in Hn. by apply NoDup_app in Hn as [Hn _].
Qed.

(** Sealing a seed is undone by unsealing, with any provider that keeps
    the contract of [KeyProvider], whatever state the provider is in by then:
    if the seed unseals at all, it is the seed that was sealed. *)
Theorem sealed_seed_unseals {Env St} `{KeyProviderLaws Env St good_env good} e e' t s s' sealed :
  good s -> good s' -> good_env e -> good_env e' ->
  (seal_seed e t s).1 = Ok sealed ->
  forall r, (unseal_seed e' sealed s').1 = Ok r -> r = seed t.
Proof.
  unfold seal_seed, unseal_seed. intros Hs Hs' He He' Hw r Hr.
  destruct (wrap_dek e (seed t) s) as [w s1] eqn:Ew. destruct (unwrap_dek e' sealed s') as [u s2] eqn:Eu.
  simpl in *. apply map_err_Ok in Hw, Hr.
  apply (provider_round_trip e e' (seed t) s s' sealed); try done; [by rewrite Ew|by rewrite Eu].
Qed.

Lemma sealed_seed_unseals_witness :
  exists sealed r,
    (@seal_seed _ _ (@local_provider Crypto.Demo.toy_gcm) Crypto.Demo.nonce Demo.enrolled Crypto.Demo.kek).1 = Ok sealed
    /\ (@unseal_seed _ _ (@local_provider Crypto.Demo.toy_gcm) Crypto.Demo.nonce sealed Crypto.Demo.kek).1 = Ok r
    /\ r = seed Demo.enrolled.
Proof.
  eexists _, _. split; [vm_compute; reflexivity|]. split; [vm_compute; reflexivity|].
  apply (@sealed_seed_unseals _ _ _ _ _ (@local_laws Crypto.Demo.toy_gcm Crypto.Demo.toy_laws (replicate 32 1))
    Crypto.Demo.nonce Crypto.Demo.nonce Demo.enrolled Crypto.Demo.kek Crypto.Demo.kek
    (Crypto.Demo.nonce ++ replicate 16 0 ++ [1])); try (split; vm_compute; reflexivity); vm_compute; reflexivity.
Defined.
