(* ===== verification/Sha1.v ===== *)
(** * One-time passwords (SHA-1, RFC 4226, RFC 6238; [totp_rs] behind [crates/auth/src/totp.rs])

    [Totp] takes the one-time-password package as the operations of a class
    and what it relies on as a law.  This file has the published algorithm on
    bytes (SHA-1, its HMAC, dynamic truncation, the search of the steps around
    an instant), the instance it makes, and the law proved of it; the tests of
    the crate run on it. *)

From S2P Require Import Prelude RustStr Sha256 Totp.

(** ** SHA-1 *)

Definition rotl (n x : Z) : Z := rotr (32 - n) x.
Record sha1_state := mkSha1 { sa : Z; sb : Z; sc : Z; sd : Z; se : Z }.
(** The words count the nibbles up and down; the constants of the four groups
    of rounds are square roots. *)
Definition sha1_initial : sha1_state := mkSha1 0x67452301 0xefcdab89 0x98badcfe 0x10325476 0xc3d2e1f0.
Definition root_constant (n : Z) : Z := Z.sqrt (Z.shiftl n 60).
Definition parity (x y z : Z) : Z := Z.lxor (Z.lxor x y) z.
Definition sha1_groups : list ((Z -> Z -> Z -> Z) * Z) :=
  [(ch, root_constant 2); (parity, root_constant 3); (maj, root_constant 5); (parity, root_constant 10)].
Definition sha1_extend (w : list Z) : list Z :=
  drop 1 w ++ [rotl 1 (Z.lxor (Z.lxor (nth_word 13 w) (nth_word 8 w)) (Z.lxor (nth_word 2 w) (nth_word 0 w)))].
Definition sha1_round (f : Z -> Z -> Z -> Z) (k w : Z) (s : sha1_state) : sha1_state :=
  mkSha1 (mask32 (rotl 5 (sa s) + f (sb s) (sc s) (sd s) + se s + k + w)) (sa s) (rotl 30 (sb s)) (sc s) (sd s).
(** [n] rounds of a group, then the next groups. *)
Fixpoint sha1_rounds (n : nat) (f : Z -> Z -> Z -> Z) (k : Z) (ws : list Z * sha1_state) : list Z * sha1_state :=
  match n with
  | O => ws
  | S n => let '(w, s) := ws in sha1_rounds n f k (sha1_extend w, sha1_round f k (nth_word 0 w) s)
  end.
Definition sha1_compress (s : sha1_state) (block : list Z) : sha1_state :=
  let r := (foldl (fun ws g => sha1_rounds 20 g.1 g.2 ws) (block, s) sha1_groups).2 in
  mkSha1 (add32 (sa s) (sa r)) (add32 (sb s) (sb r)) (add32 (sc s) (sc r)) (add32 (sd s) (sd r)) (add32 (se s) (se r)).
Definition sha1 (m : bytes) : bytes :=
  let w := words (pad m) in
  let s := foldl sha1_compress sha1_initial (blocks (length w / 16) w) in
  flat_map (be_bytes 4) [sa s; sb s; sc s; sd s; se s].
Definition hmac_sha1 (k m : bytes) : bytes :=
  let k := if (64 <? length k)%nat then sha1 k else k in
  let k := k ++ replicate (64 - length k) 0 in
  sha1 ((Z.lxor 0x5c <$> k) ++ sha1 ((Z.lxor 0x36 <$> k) ++ m)).

(** ** Codes *)

(** Dynamic truncation: 31 bits at the offset the last nibble gives. *)
Definition truncated (mac : bytes) : Z :=
  let offset := Z.to_nat (Z.land (nth_word 19 mac) 15) in
  Z.land (foldl (fun acc x => acc * 256 + x) 0 (take 4 (drop offset mac))) 0x7fffffff.
Definition hotp (digits : nat) (seed : bytes) (counter : Z) : str :=
  pad0 digits (show_u (truncated (hmac_sha1 seed (be_bytes 8 counter)) mod 10 ^ Z.of_nat digits)).

(** Base32 without padding, for the provisioning URI: five bytes at a time. *)
Definition base32_char (d : Z) : char := if d <? 26 then 65 + d else 24 + d.
Fixpoint bits_of (n : nat) (x : Z) : list bool :=
  match n with O => [] | S n => Z.testbit x (Z.of_nat n) :: bits_of n x end.
Definition of_bits (l : list bool) : Z := foldl (fun acc (b : bool) => 2 * acc + if b then 1 else 0) 0 l.
Fixpoint chunks (fuel : nat) (l : list bool) : list (list bool) :=
  match fuel, l with
  | S fuel, _ :: _ => (take 5 l ++ replicate (5 - length l) false) :: chunks fuel (drop 5 l)
  | _, _ => []
  end.
Definition base32 (b : bytes) : str :=
  let bits := flat_map (bits_of 8) b in (fun l => base32_char (of_bits l)) <$> chunks (length bits) bits.

(** A path segment: everything but the unreserved characters is encoded. *)
Definition url_segment (s : str) : str :=
  flat_map (fun b => if bool_decide (b ∈ [45; 46; 95; 126]) then [b] else percent_byte b) (as_bytes s).

(** The package at the crate's parameters.  A seed under 128 bits or an
    account with a colon is refused; the steps around the instant are tried
    from the oldest. *)
Definition steps_around (t : Z) : list Z :=
  (fun i => t / TOTP_STEP_SECS - TOTP_SKEW + Z.of_nat i) <$> seq 0 (Z.to_nat (2 * TOTP_SKEW + 1)).
#[export] Instance sha1_totp : TotpPackage := {|
  totp_build seed account :=
    if (length seed <? 16)%nat then Err (lit "SecretTooSmall")
    else if bool_decide (58 ∈ account) then Err (lit "AccountName") else Ok ();
  totp_url seed account :=
    Ok (lit "otpauth://totp/" ++ ISSUER ++ [58] ++ url_segment account ++ lit "?secret=" ++ base32 seed
        ++ lit "&issuer=" ++ ISSUER);
  totp_code seed step := hotp (Z.to_nat TOTP_DIGITS) seed step;
  totp_check seed code t := List.find (fun step => code =s hotp (Z.to_nat TOTP_DIGITS) seed step) (steps_around t);
|}.

(** ** Lemmas *)

#[export] Instance sha1_totp_laws : TotpPackageLaws.
Proof.
  split. intros s code t step [Hin Hc%str_eqb_eq]%find_some. split; [done|].
  apply list_elem_of_In, list_elem_of_fmap in Hin as (i & -> & Hi%elem_of_seq). unfold TOTP_SKEW in *. lia.
Qed.

(** Every code has the digits the crate asks for. *)
Lemma hotp_length digits seed counter : (0 < digits)%nat -> length (hotp digits seed counter) = digits.
Proof.
  intros Hd. unfold hotp. apply parse_pad0; [|done]. apply Z.mod_pos_bound. apply Z.pow_pos_nonneg; lia.
Qed.

(** The published vectors: FIPS 180, RFC 2202 and RFC 4226. *)
Example sha1_abc : hex_encode (sha1 (lit "abc")) = lit "a9993e364706816aba3e25717850c26c9cd0d89d".
Proof. vm_compute. reflexivity. Qed.
Example hmac_sha1_jefe :
  hex_encode (hmac_sha1 (lit "Jefe") (lit "what do ya want for nothing?")) = lit "effcdf6ae5eb2fa2d27416d5f184df9c259a7c79".
Proof. vm_compute. reflexivity. Qed.
Example hotp_rfc4226 :
  hotp 6 (lit "12345678901234567890") <$> [0; 1; 2; 3; 4]
  = lit <$> ["755224"; "287082"; "359152"; "969429"; "338314"]%string.
Proof. vm_compute. reflexivity. Qed.
