(* ===== verification/ClientIp.v ===== *)
(** * Client addresses behind proxies ([crates/ratelimit/src/ip.rs])

    The trusted-proxy extraction of the client address from
    [X-Forwarded-For]. *)

From S2P Require Import Prelude RustStr Net.

Record TrustedProxies := mkTrusted { trusted_hops : nat }.
Definition none : TrustedProxies := mkTrusted 0.
Definition count (n : nat) : TrustedProxies := mkTrusted n.

(** The parseable entries of the header, in order. *)
Definition xff_chain (raw : str) : list IpAddr := omap (fun part => Parse.parse_ip (trim part)) (split 44 raw).

Definition client_ip (peer : IpAddr) (xff : option str) (trusted : TrustedProxies) : IpAddr :=
  let hops := trusted_hops trusted in
  if (hops =? 0)%nat then peer
  else
    match xff with
    | None => peer
    | Some raw =>
        let chain := xff_chain raw in
        match chain with
        | [] => peer
        | first :: _ =>
            if (length chain <=? hops)%nat then first
            else default first (chain !! (length chain - hops)%nat)
        end
    end.

(** ** Lemmas *)

(** Appending an entry to the header appends its parts. *)
Lemma split_append a b : split 44 (a ++ 44 :: b) = split 44 a ++ split 44 b.
Proof.
  induction a as [|d a IH]; cbn [app split]; [by rewrite Z.eqb_refl|].
  destruct (d =? 44); [by rewrite IH|]. rewrite IH.
  pose proof (split_not_nil 44 a). by destruct (split 44 a).
Qed.

Lemma xff_chain_append a b : xff_chain (a ++ 44 :: b) = xff_chain a ++ xff_chain b.
Proof. unfold xff_chain. by rewrite split_append, omap_app. Qed.

(** What one honest proxy appends: a comma-free text that reads as an address. *)
Definition honest_entry (s : str) (ip : IpAddr) : Prop := char_free 44 s /\ Parse.parse_ip (trim s) = Some ip.

Lemma xff_chain_entry s ip : honest_entry s ip -> xff_chain s = [ip].
Proof. intros [Hf Hp]. unfold xff_chain. rewrite split_char_free by done. simpl. by rewrite Hp. Qed.

(** The header after the trusted proxies appended their entries. *)
Definition append_entries (raw : str) (entries : list str) : str :=
  foldl (fun acc e => acc ++ 44 :: e) raw entries.

Lemma xff_chain_entries raw entries ips :
  Forall2 honest_entry entries ips -> xff_chain (append_entries raw entries) = xff_chain raw ++ ips.
Proof.
  intros H. revert raw. induction H as [|e ip entries ips He _ IH]; intros raw; simpl; [by rewrite app_nil_r|].
  unfold append_entries in *. simpl. rewrite IH, xff_chain_append, (xff_chain_entry e ip He), <- app_assoc. done.
Qed.

(** Counting from the right over a chain that ends with the trusted entries. *)
Lemma chain_from_right (peer : IpAddr) forged ip ips :
  match forged ++ ip :: ips return IpAddr with
  | [] => peer
  | first :: _ =>
      if (length (forged ++ ip :: ips) <=? S (length ips))%nat then first
      else default first ((forged ++ ip :: ips) !! (length (forged ++ ip :: ips) - S (length ips))%nat)
  end = ip.
Proof.
  destruct forged as [|f fs]; cbn [app].
  - cbn [length]. by rewrite (proj2 (Nat.leb_le _ _)) by lia.
  - cbn [length]. rewrite length_app. cbn [length]. rewrite (proj2 (Nat.leb_gt _ _)) by lia.
    replace (S (length fs + S (length ips)) - S (length ips))%nat with (S (length fs)) by lia.
    rewrite app_comm_cons, lookup_app_r by (cbn [length]; lia). cbn [length]. by rewrite Nat.sub_diag.
Qed.

Module Demo.
Definition peer : IpAddr := V4 (mkV4 10 0 0 1).
Definition client : IpAddr := V4 (mkV4 203 0 114 9).
End Demo.

(** ** Properties *)

(** An [X-Forwarded-For] header cannot be forged past the trusted hops.
    Whatever the caller sent (addresses, garbage, nothing that parses), when
    the [n] trusted proxies each appended the address they saw, the address
    chosen is the one the outermost of them appended; and with no trusted hop,
    or no header, it is the peer. *)
Theorem client_ip_unspoofable peer forged entry ip entries ips :
  honest_entry entry ip -> Forall2 honest_entry entries ips ->
  client_ip peer (Some (append_entries forged (entry :: entries))) (count (S (length ips))) = ip
  /\ (forall xff, client_ip peer xff none = peer)
  /\ (forall t, client_ip peer None t = peer).
Proof.
  intros He Hes. split; [|split; [done|]].
  - unfold client_ip, count. cbn [trusted_hops Nat.eqb].
    rewrite (xff_chain_entries forged (entry :: entries) (ip :: ips)) by (by constructor).
    apply chain_from_right.
  - intros t. unfold client_ip. by destruct (_ =? 0)%nat.
Qed.

Lemma client_ip_unspoofable_witness :
  client_ip Demo.peer (Some (append_entries (lit "1.1.1.1, 2.2.2.2") [lit " 203.0.114.9"])) (count 1) = Demo.client.
Proof.
  apply (client_ip_unspoofable Demo.peer (lit "1.1.1.1, 2.2.2.2") (lit " 203.0.114.9") Demo.client [] []).
  - split; [vm_compute; repeat (constructor; [discriminate|]); constructor|vm_compute; reflexivity].
  - constructor.
Defined.

(** Finding: entries that do not parse are dropped before the count from the
    right.  When the trusted proxy appends an address with a port, which is a
    form proxies use and the parser refuses, the entry of the caller takes its
    place and the address is the caller's choice. *)
Theorem unparseable_hop_shifts_the_count :
  exists peer forged entry,
    client_ip peer (Some (append_entries forged [entry])) (count 1) = V4 (mkV4 6 6 6 6)
    /\ forged = lit "6.6.6.6" /\ entry = lit "203.0.114.9:443".
Proof. exists Demo.peer, (lit "6.6.6.6"), (lit "203.0.114.9:443"). vm_compute. auto. Qed.
