(* ===== verification/Jwt.v ===== *)
(** * Access tokens ([crates/auth/src/jwt.rs], [middleware.rs])

    Issuing and verifying signed tokens over the [jsonwebtoken] package, whose
    signing, parsing and claim validation are the operations of a class and
    whose documented behaviour is the laws of a second one (used by the license
    tokens too); then the request extractor. *)

From S2P Require Import Prelude RustStr Headers Errors.

Abbreviation uuid := Z.

(** ** [jsonwebtoken] *)

Inductive ErrorKind :=
| InvalidSignature
| ExpiredSignature
| ImmatureSignature
| InvalidIssuer
| InvalidAudience
| MissingRequiredClaim (claim : str)
| OtherErrorKind.

(** The registered claims of a token, and what [Validation] asks of them. *)
Record Registered := mkRegistered { r_iss : option str; r_aud : option str; r_exp : option Z; r_nbf : option Z }.
Record Validation := mkValidation {
  v_iss : list str;
  v_aud : option (list str);
  v_required : list str;
  v_exp : bool;
  v_nbf : bool;
  v_leeway : Z;
}.

Definition claim_present (r : Registered) (c : str) : Prop :=
  (c = lit "iss" -> is_Some (r_iss r)) /\ (c = lit "aud" -> is_Some (r_aud r))
  /\ (c = lit "exp" -> is_Some (r_exp r)) /\ (c = lit "nbf" -> is_Some (r_nbf r)).
(** A token that is accepted: the required claims are there, the issuer and
    the audience are expected ones (no audience, when none is expected), and
    the instant is inside the validity window. *)
Record claims_ok (v : Validation) (now : Z) (r : Registered) : Prop := {
  ok_required : Forall (claim_present r) (v_required v);
  ok_iss : forall i, r_iss r = Some i -> i ∈ v_iss v;
  ok_aud : match v_aud v with
           | Some l => forall a, r_aud r = Some a -> a ∈ l
           | None => r_aud r = None
           end;
  ok_exp : v_exp v = true -> forall e, r_exp r = Some e -> now <= e + v_leeway v;
  ok_nbf : v_nbf v = true -> forall n, r_nbf r = Some n -> n <= now + v_leeway v;
}.

Class JwtPackage (EK DK C : Type) := {
  encoding_key_from_pem : bytes -> result str EK;
  decoding_key_from_pem : bytes -> result str DK;
  (** [encode] with an EdDSA header. *)
  jwt_encode : C -> EK -> option str;
  (** [decode] at an instant. *)
  jwt_decode : Z -> str -> DK -> Validation -> result ErrorKind C;
  (** The keys belong together; the token carries a good signature of these
      claims under the key. *)
  key_pair : EK -> DK -> Prop;
  signed : DK -> str -> C -> Prop;
}.
Class JwtPackageLaws (EK DK C : Type) `{JwtPackage EK DK C} (reg : C -> Registered) : Prop := {
  encode_signs ek dk c tok : key_pair ek dk -> jwt_encode c ek = Some tok -> signed dk tok c;
  signed_payload dk dk' tok c c' : signed dk tok c -> signed dk' tok c' -> c = c';
  decode_sound now tok dk v c : jwt_decode now tok dk v = Ok c -> signed dk tok c /\ claims_ok v now (reg c);
  decode_complete now tok dk v c : signed dk tok c -> claims_ok v now (reg c) -> jwt_decode now tok dk v = Ok c;
}.

(** ** jwt.rs *)

Definition DEFAULT_ACCESS_TTL : Z := 15 * 60.

Inductive JwtError :=
| Invalid
| Expired
| WrongIssuer
| WrongAudience
| NotYetValid
| VerifyOnly
| KeyLoad (e : str)
| InternalJwt.

Record Claims := mkClaims {
  sub : uuid;
  iss : str;
  exp : Z;
  iat : Z;
  aud : option str;
  nbf : option Z;
  org : option uuid;
}.
#[export] Instance Claims_eq_dec : EqDecision Claims.
Proof. solve_decision. Defined.
Definition registered (c : Claims) : Registered := mkRegistered (Some (iss c)) (aud c) (Some (exp c)) (nbf c).

Definition map_error (k : ErrorKind) : JwtError :=
  match k with
  | ExpiredSignature => Expired
  | ImmatureSignature => NotYetValid
  | InvalidIssuer => WrongIssuer
  | InvalidAudience => WrongAudience
  | MissingRequiredClaim claim => if claim =s lit "aud" then WrongAudience else Invalid
  | _ => Invalid
  end.

Section Jwt.
Context {EK DK : Type} `{JwtPackage EK DK Claims}.

Record JwtConfig := mkJwtConfig {
  encoding_key : option EK;
  decoding_keys : list DK;
  issuer : str;
  audience : option str;
  access_ttl_seconds : Z;
}.

(** [i64::try_from(access_ttl.as_secs()).unwrap_or(i64::MAX)]. *)
Definition ttl_seconds (secs : Z) : Z := unwrap_or (i64_try_from secs) i64_max.

Definition from_ed25519_pems (private_pem public_pem : bytes) (iss : str) (access_ttl : Z) : result JwtError JwtConfig :=
  ek ← map_err (fun e => KeyLoad (lit "private key: " ++ e)) (encoding_key_from_pem private_pem);
  dk ← map_err (fun e => KeyLoad (lit "public key: " ++ e)) (decoding_key_from_pem public_pem);
  Ok (mkJwtConfig (Some ek) [dk] iss None (ttl_seconds access_ttl)).

Definition verifier_from_public_pem (public_pem : bytes) (iss : str) : result JwtError JwtConfig :=
  dk ← map_err (fun e => KeyLoad (lit "public key: " ++ e)) (decoding_key_from_pem public_pem);
  Ok (mkJwtConfig None [dk] iss None (ttl_seconds DEFAULT_ACCESS_TTL)).

Definition with_audience (c : JwtConfig) (a : str) : JwtConfig :=
  mkJwtConfig (encoding_key c) (decoding_keys c) (issuer c) (Some a) (access_ttl_seconds c).

Definition with_previous_public_pem (c : JwtConfig) (public_pem : bytes) : result JwtError JwtConfig :=
  dk ← map_err (fun e => KeyLoad (lit "previous public key: " ++ e)) (decoding_key_from_pem public_pem);
  Ok (mkJwtConfig (encoding_key c) (decoding_keys c ++ [dk]) (issuer c) (audience c) (access_ttl_seconds c)).

Definition validation (c : JwtConfig) : Validation :=
  match audience c with
  | Some a => mkValidation [issuer c] (Some [a]) [lit "exp"; lit "iss"; lit "aud"] true true 0
  | None => mkValidation [issuer c] None [lit "exp"; lit "iss"] true true 0
  end.

(** [now + access_ttl_seconds] is an [i64] addition; [checks] tells whether the
    build checks for overflow, [None] is the panic. *)
Definition issue_token_for (checks : bool) (now : Z) (c : JwtConfig) (user_id : uuid) (o : option uuid) (a : option str)
  : option (result JwtError str) :=
  match encoding_key c with
  | None => Some (Err VerifyOnly)
  | Some ek =>
      exp ← i64_add checks now (access_ttl_seconds c);
      let claims := mkClaims user_id (issuer c) exp now a None o in
      Some (ok_or (jwt_encode claims ek) InternalJwt)
  end.
Definition issue_token (checks : bool) (now : Z) (c : JwtConfig) (user_id : uuid) (o : option uuid)
  : option (result JwtError str) :=
  issue_token_for checks now c user_id o (audience c).

Definition is_signature_error (k : ErrorKind) : bool := match k with InvalidSignature => true | _ => false end.

(** The loop over the keys: the claims, or the error to report. *)
Fixpoint verify_loop (now : Z) (tok : str) (v : Validation) (best_error : option ErrorKind) (keys : list DK)
  : result (option ErrorKind) Claims :=
  match keys with
  | [] => Err best_error
  | key :: rest =>
      match jwt_decode now tok key v with
      | Ok c => Ok c
      | Err error =>
          let claim_failure := negb (is_signature_error error) in
          verify_loop now tok v (if negb (is_some best_error) || claim_failure then Some error else best_error) rest
      end
  end.

(** [None] is the panic of [expect] on a config without a key. *)
Definition verify_token (now : Z) (c : JwtConfig) (tok : str) : option (result JwtError Claims) :=
  match verify_loop now tok (validation c) None (decoding_keys c) with
  | Ok claims => Some (Ok claims)
  | Err best_error => k ← best_error; Some (Err (map_error k))
  end.

(** ** middleware.rs *)

Record AuthUser := mkAuthUser { user_id : uuid; active_org : option uuid }.
Definition require_org (u : AuthUser) : result ApiError uuid := ok_or (active_org u) Unauthorized.

Context `{HttpPackage}.
Definition bearer_token (headers : HeaderMap) : option str :=
  v ← header_get (lit "authorization") headers; s ← header_to_str v; strip_prefix (lit "Bearer ") s.

Definition extract (now : Z) (c : JwtConfig) (headers : HeaderMap) : option (result ApiError AuthUser) :=
  match bearer_token headers with
  | None => Some (Err Unauthorized)
  | Some tok =>
      r ← verify_token now c tok;
      Some (claims ← map_err (fun _ => Unauthorized) r; Ok (mkAuthUser (sub claims) (org claims)))
  end.
End Jwt.
Arguments JwtConfig : clear implicits.

(** ** Lemmas *)

Section JwtLemmas.
Context {EK DK : Type} `{JwtPackage EK DK Claims} `{!JwtPackageLaws EK DK Claims registered}.

Lemma verify_loop_Ok now tok v be keys c :
  verify_loop now tok v be keys = Ok c -> exists dk, dk ∈ keys /\ jwt_decode now tok dk v = Ok c.
Proof.
  revert be. induction keys as [|k keys IH]; intros be; cbn [verify_loop]; [done|].
  destruct (jwt_decode now tok k v) as [c'|e] eqn:E.
  - intros [= ->]. exists k. split; [set_solver|done].
  - intros (dk & Hin & Hd)%IH. exists dk. split; [set_solver|done].
Qed.

Lemma verify_loop_accepts now tok v be keys dk c :
  dk ∈ keys -> signed dk tok c -> claims_ok v now (registered c) -> verify_loop now tok v be keys = Ok c.
Proof.
  intros Hin Hs Hok. revert be. induction keys as [|k keys IH]; intros be; [set_solver|]. cbn [verify_loop].
  destruct (jwt_decode now tok k v) as [c'|e] eqn:E.
  - apply decode_sound in E as [Hs' _]. f_equal. by eapply signed_payload.
  - apply elem_of_cons in Hin as [->|Hin]; [|by apply IH].
    rewrite (decode_complete _ _ _ _ _ Hs Hok) in E. done.
Qed.

Lemma verify_loop_some_error now tok v be keys e :
  verify_loop now tok v be keys = Err e -> keys <> [] \/ is_Some be -> is_Some e.
Proof.
  revert be. induction keys as [|k keys IH]; intros be; cbn [verify_loop].
  - intros [= <-] [?|?]; done.
  - destruct (jwt_decode now tok k v) as [c'|err]; [done|]. intros Hv _. apply (IH _ Hv). right.
    destruct be, (is_signature_error err); simpl; eauto.
Qed.

(** With one key that recognises the signature and the others that do not,
    the error reported is that key's. *)
Lemma verify_loop_claim_error now tok v be k1 dk k2 e :
  Forall (fun k => jwt_decode now tok k v = Err InvalidSignature) (k1 ++ k2) ->
  jwt_decode now tok dk v = Err e -> e <> InvalidSignature -> (forall b, be = Some b -> b = InvalidSignature) ->
  verify_loop now tok v be (k1 ++ dk :: k2) = Err (Some e).
Proof.
  intros Hf Hdk He. apply Forall_app in Hf as [H1 H2]. revert be. induction H1 as [|k k1 Hk _ IH]; intros be Hbe.
  - cbn [app verify_loop]. rewrite Hdk. assert (is_signature_error e = false) as -> by (by destruct e).
    rewrite orb_true_r. clear -H2. induction H2 as [|k k2 Hk _ IH]; [done|]. cbn [verify_loop]. rewrite Hk. done.
  - cbn [app verify_loop]. rewrite Hk. apply IH. intros b. simpl. rewrite orb_false_r.
    destruct be; simpl; [auto|]. by intros [= <-].
Qed.

Lemma issue_token_Ok checks now (c : JwtConfig EK DK) user o ek tok :
  encoding_key c = Some ek ->
  issue_token checks now c user o = Some (Ok tok) <->
  exists x, i64_add checks now (access_ttl_seconds c) = Some x
    /\ jwt_encode (mkClaims user (issuer c) x now (audience c) None o) ek = Some tok.
Proof.
  intros Hek. unfold issue_token, issue_token_for. rewrite Hek. destruct (i64_add _ _ _) as [x|]; simpl; [|naive_solver].
  split.
  - intros [= Hj%ok_or_Ok]. eauto.
  - intros (y & [= <-] & ->). done.
Qed.

Lemma validation_ok (c : JwtConfig EK DK) now r :
  claims_ok (validation c) now r <->
  r_iss r = Some (issuer c) /\ r_aud r = audience c
  /\ (exists e, r_exp r = Some e /\ now <= e) /\ (forall n, r_nbf r = Some n -> n <= now).
Proof.
  unfold validation. split.
  - intros [Hreq Hiss Haud Hexp Hnbf]. destruct (audience c) as [a|]; simpl in *.
    + rewrite !Forall_cons in Hreq. destruct Hreq as (He & Hi & Ha & _).
      destruct He as (_ & _ & [e He] & _); [done|]. destruct Hi as ([i Hi] & _); [done|].
      destruct Ha as (_ & [x Hx] & _); [done|].
      specialize (Hiss i Hi). specialize (Haud x Hx). apply list_elem_of_singleton in Hiss, Haud. subst.
      split; [done|]. split; [done|]. split.
      * exists e. split; [done|]. specialize (Hexp eq_refl e He). lia.
      * intros n Hn. specialize (Hnbf eq_refl n Hn). lia.
    + rewrite !Forall_cons in Hreq. destruct Hreq as (He & Hi & _).
      destruct He as (_ & _ & [e He] & _); [done|]. destruct Hi as ([i Hi] & _); [done|].
      specialize (Hiss i Hi). apply list_elem_of_singleton in Hiss. subst.
      split; [done|]. split; [done|]. split.
      * exists e. split; [done|]. specialize (Hexp eq_refl e He). lia.
      * intros n Hn. specialize (Hnbf eq_refl n Hn). lia.
  - intros (Hi & Ha & (e & He & Hn) & Hb).
    assert (Hp : forall cl, cl ∈ [lit "exp"; lit "iss"] \/ (cl = lit "aud" /\ is_Some (audience c)) -> claim_present r cl).
    { intros cl Hcl. unfold claim_present. rewrite Hi, He, Ha.
      split; [by eauto|]. split; [|split; [by eauto|]].
      - intros ->. destruct Hcl as [Hcl|[_ Hcl]]; [|done]. by repeat (apply elem_of_cons in Hcl as [Hcl|Hcl]; [done|]); apply elem_of_nil in Hcl.
      - intros ->. destruct Hcl as [Hcl|[Hcl _]]; [|done]. by repeat (apply elem_of_cons in Hcl as [Hcl|Hcl]; [done|]); apply elem_of_nil in Hcl. }
    destruct (audience c) as [a|] eqn:Ea; split; simpl.
    + repeat (constructor; [apply Hp; rewrite !elem_of_cons; eauto 6|]). constructor.
    + rewrite Hi. intros i [= <-]. set_solver.
    + rewrite Ha. intros x [= <-]. set_solver.
    + rewrite He. intros _ x [= <-]. lia.
    + intros _ n Hn'. specialize (Hb n Hn'). lia.
    + repeat (constructor; [apply Hp; rewrite !elem_of_cons; eauto 6|]). constructor.
    + rewrite Hi. intros i [= <-]. set_solver.
    + done.
    + rewrite He. intros _ x [= <-]. lia.
    + intros _ n Hn'. specialize (Hb n Hn'). lia.
Qed.
End JwtLemmas.

(** ** A concrete package for the witnesses

    Tokens are the key and a serialisation of the claims. *)
Module Demo.
Definition present (r : Registered) (c : str) : bool :=
  (negb (c =s lit "iss") || is_some (r_iss r)) && (negb (c =s lit "aud") || is_some (r_aud r))
  && (negb (c =s lit "exp") || is_some (r_exp r)) && (negb (c =s lit "nbf") || is_some (r_nbf r)).
Definition accepted (v : Validation) (now : Z) (r : Registered) : bool :=
  forallb (present r) (v_required v)
  && match r_iss r with Some i => bool_decide (i ∈ v_iss v) | None => true end
  && match v_aud v, r_aud r with
     | Some l, Some a => bool_decide (a ∈ l)
     | Some _, None => true
     | None, a => negb (is_some a)
     end
  && (negb (v_exp v) || match r_exp r with Some e => now <=? e + v_leeway v | None => true end)
  && (negb (v_nbf v) || match r_nbf r with Some n => n <=? now + v_leeway v | None => true end).

Lemma is_some_spec {A} (o : option A) : is_some o = true <-> is_Some o.
Proof. destruct o; simpl; [split; eauto|]. split; [done|]. by intros [? ?]. Qed.

Lemma present_spec r c : present r c = true <-> claim_present r c.
Proof.
  unfold present, claim_present. rewrite !andb_true_iff, !orb_true_iff, !negb_true_iff, !is_some_spec, !str_eqb_neq.
  destruct (decide (c = lit "iss")), (decide (c = lit "aud")), (decide (c = lit "exp")), (decide (c = lit "nbf")); tauto.
Qed.

Lemma accepted_spec v now r : accepted v now r = true <-> claims_ok v now r.
Proof.
  unfold accepted. rewrite !andb_true_iff, !orb_true_iff, !negb_true_iff, forallb_forall.
  assert (Hreq : (forall x, In x (v_required v) -> present r x = true) <-> Forall (claim_present r) (v_required v)).
  { rewrite Forall_forall. setoid_rewrite list_elem_of_In. by setoid_rewrite present_spec. }
  rewrite Hreq. split.
  - intros ((((H1 & H2) & H3) & H4) & H5). split; [done| | | |].
    + intros i Hi. rewrite Hi in H2. by bool_simp.
    + destruct (v_aud v); [intros a Ha; rewrite Ha in H3; by bool_simp|by destruct (r_aud r)].
    + intros Hv e He. destruct H4 as [H4|H4]; [congruence|]. rewrite He in H4. by bool_simp.
    + intros Hv e He. destruct H5 as [H5|H5]; [congruence|]. rewrite He in H5. by bool_simp.
  - intros [H1 H2 H3 H4 H5]. split; [split; [split; [split; [done|]|]|]|].
    + destruct (r_iss r); [|done]. apply bool_decide_eq_true. auto.
    + destruct (v_aud v), (r_aud r); try done. apply bool_decide_eq_true. auto.
    + destruct (v_exp v); [right|by left]. destruct (r_exp r); [|done]. apply Z.leb_le. auto.
    + destruct (v_nbf v); [right|by left]. destruct (r_nbf r); [|done]. apply Z.leb_le. auto.
Qed.

Section Package.
Context {C : Type} (ser : C -> option (list Z)) (de : list Z -> option C) (reg : C -> Registered).
Context (de_ser : forall c l, ser c = Some l -> de l = Some c).

Definition raw (tok : str) : option (Z * C) :=
  match tok with k :: l => c ← de l; Some (k, c) | [] => None end.
Definition package : JwtPackage Z Z C := {|
  encoding_key_from_pem b := ok_or (head b) [];
  decoding_key_from_pem b := ok_or (head b) [];
  jwt_encode c k := l ← ser c; Some (k :: l);
  jwt_decode now tok dk v :=
    match raw tok with
    | None => Err OtherErrorKind
    | Some (k, c) =>
        if negb (k =? dk) then Err InvalidSignature
        else if accepted v now (reg c) then Ok c else Err ExpiredSignature
    end;
  key_pair ek dk := ek = dk;
  signed dk tok c := raw tok = Some (dk, c);
|}.
Lemma package_laws : @JwtPackageLaws Z Z C package reg.
Proof using de_ser.
  split; simpl.
  - intros ek dk c tok -> Ht. destruct (ser c) as [l|] eqn:E; [|done]. simplify_eq/=. by rewrite (de_ser _ _ E).
  - intros dk dk' tok c c' Hc Hc'. congruence.
  - intros now tok dk v c. destruct (raw tok) as [[k c']|]; [|done].
    destruct (k =? dk) eqn:E; [|done]. simpl. destruct (accepted v now (reg c')) eqn:Ea; [|done].
    intros [= <-]. bool_simp. subst. split; [done|]. by apply accepted_spec.
  - intros now tok dk v c Hs Hok. rewrite Hs, Z.eqb_refl. simpl. by rewrite (proj2 (accepted_spec _ _ _)).
Qed.
End Package.

(** Claims of one issuer with no audience and no organisation. *)
Definition ser (c : Claims) : option (list Z) :=
  if bool_decide (c = mkClaims (sub c) (lit "ferr") (exp c) (iat c) None None None)
  then Some [sub c; exp c; iat c] else None.
Definition de (l : list Z) : option Claims :=
  match l with [s; e; i] => Some (mkClaims s (lit "ferr") e i None None None) | _ => None end.
Lemma de_ser c l : ser c = Some l -> de l = Some c.
Proof. unfold ser. case_bool_decide as Hc; [|done]. intros [= <-]. by rewrite Hc. Qed.
Definition jwt : JwtPackage Z Z Claims := package ser de registered.
Definition jwt_laws : @JwtPackageLaws Z Z Claims jwt registered := package_laws ser de registered de_ser.
Definition config : JwtConfig Z Z := mkJwtConfig (Some 5) [5] (lit "ferr") None 900.
(** A verifier in the middle of a rotation. *)
Definition verifier : JwtConfig Z Z := mkJwtConfig None [6; 5] (lit "ferr") None 900.
End Demo.

(** ** Properties *)

(** C6: [verify_token] accepts exactly the good tokens, and never panics: on
    a config with a key it answers, and it answers with claims exactly when one
    of the configured keys (the current one or one kept for a rotation) signed
    them, their issuer is the configured one, their audience is the configured
    one (none, when none is configured) and the instant is in their window.
    Hence a token issued under one of these keys for the same issuer and
    audience, its expiry being a time an [i64] holds, verifies to the user and
    organisation it was issued for until it expires; and when its signer's key is configured and refuses a claim while
    the other keys do not know the signature, that refusal is what the caller
    reads. *)
Theorem verify_token_exact {EK DK} `{JwtPackageLaws EK DK Claims registered} now (vc : JwtConfig EK DK) tok :
  decoding_keys vc <> [] ->
  (exists r, verify_token now vc tok = Some r)
  /\ (forall cl, verify_token now vc tok = Some (Ok cl) <->
      exists dk, dk ∈ decoding_keys vc /\ signed dk tok cl /\ iss cl = issuer vc /\ aud cl = audience vc
        /\ now <= exp cl /\ forall n, nbf cl = Some n -> n <= now)
  /\ (forall checks t0 c user o ek dk, encoding_key c = Some ek -> key_pair ek dk -> dk ∈ decoding_keys vc ->
      issuer vc = issuer c -> audience vc = audience c ->
      i64_min <= t0 + access_ttl_seconds c <= i64_max -> now <= t0 + access_ttl_seconds c ->
      issue_token checks t0 c user o = Some (Ok tok) ->
      verify_token now vc tok
      = Some (Ok (mkClaims user (issuer c) (t0 + access_ttl_seconds c) t0 (audience c) None o)))
  /\ (forall k1 dk k2 e, decoding_keys vc = k1 ++ dk :: k2 ->
      Forall (fun k => jwt_decode now tok k (validation vc) = Err InvalidSignature) (k1 ++ k2) ->
      jwt_decode now tok dk (validation vc) = Err e -> e <> InvalidSignature ->
      verify_token now vc tok = Some (Err (map_error e))).
Proof.
  intros Hne.
  assert (Hacc : forall cl dk, dk ∈ decoding_keys vc -> signed dk tok cl ->
    claims_ok (validation vc) now (registered cl) -> verify_token now vc tok = Some (Ok cl)).
  { intros cl dk Hin Hs Hok. unfold verify_token. by rewrite (verify_loop_accepts _ _ _ _ _ _ _ Hin Hs Hok). }
  split; [|split; [|split]].
  - unfold verify_token. destruct (verify_loop _ _ _ _ _) as [c|be] eqn:E; [eauto|].
    destruct (verify_loop_some_error _ _ _ _ _ _ E (or_introl Hne)) as [k ->]. simpl. eauto.
  - intros cl. split.
    + unfold verify_token. destruct (verify_loop _ _ _ _ _) as [c|be] eqn:E; [|by destruct be].
      intros [= ->]. apply verify_loop_Ok in E as (dk & Hin & [Hs Hok]%decode_sound).
      apply validation_ok in Hok as (Hi & Ha & (e & He & Hn) & Hb). simpl in *. simplify_eq.
      exists dk. repeat split; try done.
    + intros (dk & Hin & Hs & Hi & Ha & He & Hb). apply (Hacc cl dk Hin Hs), validation_ok. simpl.
      rewrite Hi. repeat split; try done. eauto.
  - intros checks t0 c user o ek dk Hek Hkp Hin Hi Ha Ht Hn Hiss.
    apply (issue_token_Ok _ _ _ _ _ _ _ Hek) in Hiss as (x & Hx & Hiss). rewrite i64_add_in in Hx by done. injection Hx as <-.
    apply (Hacc _ dk Hin); [by eapply encode_signs|]. apply validation_ok. simpl.
    split; [by rewrite Hi|]. split; [done|]. split; [eauto|done].
  - intros k1 dk k2 e Hk Hf Hdk He. unfold verify_token. rewrite Hk.
    by rewrite (verify_loop_claim_error now tok (validation vc) None k1 dk k2 e).
Qed.

Lemma verify_token_exact_witness :
  exists tok, @issue_token Z Z Demo.jwt true 1000 Demo.config 42 None = Some (Ok tok)
    /\ @verify_token Z Z Demo.jwt 1500 Demo.verifier tok
       = Some (Ok (mkClaims 42 (lit "ferr") 1900 1000 None None None)).
Proof.
  eexists. split; [vm_compute; reflexivity|].
  apply (proj1 (proj2 (proj2 (@verify_token_exact Z Z Demo.jwt Demo.jwt_laws 1500 Demo.verifier [5; 42; 1900; 1000]
    ltac:(discriminate)))) true 1000 Demo.config 42 None 5 5); try reflexivity.
  - vm_compute. right. left.
  - vm_compute. split; discriminate.
  - vm_compute. discriminate.
Defined.

(** Finding: a lifetime too long for an [i64] gives no usable token.
    [from_ed25519_pems] saturates it at [i64::MAX] seconds, as if for a token
    that never expires, but the expiry is then the sum of that and the clock:
    with overflow checks every issue panics, without them the expiry wraps to a
    time before the epoch, and no verifier accepts the token. *)
Theorem saturated_ttl_unusable {EK DK} `{JwtPackageLaws EK DK Claims registered} t0 (c : JwtConfig EK DK) user o ek dk :
  access_ttl_seconds c = ttl_seconds u64_max -> 0 < t0 <= i64_max -> encoding_key c = Some ek -> key_pair ek dk ->
  issue_token true t0 c user o = None
  /\ forall tok, issue_token false t0 c user o = Some (Ok tok) ->
     forall now vc cl, 0 <= now -> decoding_keys vc <> [] -> verify_token now vc tok <> Some (Ok cl).
Proof.
  intros Httl Ht Hek Hkp. change (ttl_seconds u64_max) with i64_max in Httl.
  assert (Hover : forall checks, i64_add checks t0 (access_ttl_seconds c) = (if checks then None else Some (t0 + i64_max - 2 ^ 64))
    /\ t0 + i64_max - 2 ^ 64 < 0) by (intros checks; rewrite Httl; apply i64_add_over; lia).
  split.
  - unfold issue_token, issue_token_for. rewrite Hek. by rewrite (proj1 (Hover true)).
  - intros tok Htok now vc cl Hnow Hne Hv. apply (issue_token_Ok _ _ _ _ _ _ _ Hek) in Htok as (x & Hx & Henc).
    destruct (Hover false) as [Ho Hneg]. rewrite Ho in Hx. injection Hx as <-. apply (encode_signs _ _ _ _ Hkp) in Henc.
    unfold verify_token in Hv. destruct (verify_loop _ _ _ _ _) as [c'|be] eqn:E; [|by destruct be]. injection Hv as ->.
    apply verify_loop_Ok in E as (dk' & _ & [Hs (_ & _ & (e & He & Hle) & _)%validation_ok]%decode_sound).
    rewrite (signed_payload _ _ _ _ _ Hs Henc) in He. simpl in He. injection He as <-. lia.
Qed.

Lemma saturated_ttl_unusable_witness :
  @issue_token Z Z Demo.jwt true 1000 (mkJwtConfig (Some 5) [5] (lit "ferr") None (ttl_seconds u64_max)) 42 None = None.
Proof.
  apply (proj1 (@saturated_ttl_unusable Z Z Demo.jwt Demo.jwt_laws 1000
    (mkJwtConfig (Some 5) [5] (lit "ferr") None (ttl_seconds u64_max)) 42 None 5 5
    eq_refl ltac:(vm_compute; split; [reflexivity|discriminate]) eq_refl eq_refl)).
Defined.
