(* ===== verification/License.v ===== *)
(** * Offline licenses ([crates/license])

    [lib.rs]: minting and verifying license tokens over the [jsonwebtoken]
    package of [Jwt], and what a license unlocks.  [bin/licensegen.rs]: the
    minting tool, its arguments already parsed.  Times are microseconds;
    chrono's representable range is a parameter. *)

From S2P Require Import Prelude RustStr Jwt.

Abbreviation datetime := Z.

Definition ISSUER : str := lit "ferrlabs-licensing".

Inductive LicenseError :=
| InvalidLicense
| LicenseExpired
| LicenseNotYetValid
| LicenseWrongIssuer
| WrongProduct
| LicenseKeyLoad (e : str)
| LicenseInternal.

Inductive LicenseKind := Admin | Customer.
Inductive LicenseTier := LFree | LPro | LTeam | LEnterprise.

#[export] Instance LicenseKind_eq_dec : EqDecision LicenseKind.
Proof. solve_decision. Defined.
#[export] Instance LicenseTier_eq_dec : EqDecision LicenseTier.
Proof. solve_decision. Defined.

Record LicenseClaims := mkLicenseClaims {
  l_sub : str;
  l_iss : str;
  l_aud : str;
  l_exp : Z;
  l_iat : Z;
  l_nbf : Z;
  l_kind : LicenseKind;
  l_tier : LicenseTier;
  l_org : option str;
  l_seats : option Z;
  l_features : list str;
}.
#[export] Instance LicenseClaims_eq_dec : EqDecision LicenseClaims.
Proof. solve_decision. Defined.
Definition license_registered (c : LicenseClaims) : Registered :=
  mkRegistered (Some (l_iss c)) (Some (l_aud c)) (Some (l_exp c)) (Some (l_nbf c)).

Record License := mkLicense {
  id : str;
  product : str;
  org : option str;
  kind : LicenseKind;
  tier : LicenseTier;
  seats : option Z;
  features : list str;
  issued_at : datetime;
  expires_at : datetime;
}.
(** [LicenseSpec] has the same fields. *)
Abbreviation LicenseSpec := License.

Definition is_admin (l : License) : bool := match kind l with Admin => true | Customer => false end.
Definition allows (l : License) (feature : str) : bool :=
  is_admin l || existsb (fun f => f =s feature) (features l).
Definition seat_limit (l : License) : option Z := if is_admin l then None else seats l.

Definition map_jwt_err (k : ErrorKind) : LicenseError :=
  match k with
  | ExpiredSignature => LicenseExpired
  | ImmatureSignature => LicenseNotYetValid
  | InvalidIssuer => LicenseWrongIssuer
  | InvalidAudience => WrongProduct
  | _ => InvalidLicense
  end.

(** [DateTime::timestamp]: whole seconds, rounded down. *)
Definition timestamp (d : datetime) : Z := d / 1000000.

Section License.
Context {EK DK : Type} `{JwtPackage EK DK LicenseClaims}.
(** The seconds chrono represents. *)
Context (in_chrono_range : Z -> bool).

Definition from_timestamp (secs : Z) : option datetime := if in_chrono_range secs then Some (secs * 1000000) else None.

Definition license_validation (product : str) : Validation :=
  mkValidation [ISSUER] (Some [product]) [lit "exp"; lit "iss"; lit "aud"; lit "nbf"] true true 0.

Definition verifier_from_pem (public_pem : bytes) : result LicenseError DK :=
  map_err (fun e => LicenseKeyLoad (lit "public key: " ++ e)) (decoding_key_from_pem public_pem).

Definition verify (now : Z) (dk : DK) (token product : str) : result LicenseError License :=
  claims ← map_err map_jwt_err (jwt_decode now token dk (license_validation product));
  issued ← ok_or (from_timestamp (l_iat claims)) InvalidLicense;
  expires ← ok_or (from_timestamp (l_exp claims)) InvalidLicense;
  Ok (mkLicense (l_sub claims) (l_aud claims) (l_org claims) (l_kind claims) (l_tier claims) (l_seats claims)
        (l_features claims) issued expires).

Definition signer_from_pem (private_pem : bytes) : result LicenseError EK :=
  map_err (fun e => LicenseKeyLoad (lit "private key: " ++ e)) (encoding_key_from_pem private_pem).

Definition claims_of_spec (spec : LicenseSpec) : LicenseClaims :=
  mkLicenseClaims (id spec) ISSUER (product spec) (timestamp (expires_at spec)) (timestamp (issued_at spec))
    (timestamp (issued_at spec)) (kind spec) (tier spec) (org spec) (seats spec) (features spec).
Definition sign (ek : EK) (spec : LicenseSpec) : result LicenseError str :=
  ok_or (jwt_encode (claims_of_spec spec) ek) LicenseInternal.

(** ** bin/licensegen.rs *)

Definition parse_features (raw : str) : list str :=
  List.filter (fun f => negb (bool_decide (f = []))) (trim <$> split 44 raw).

Record Args := mkArgs {
  arg_id : str;
  arg_product : str;
  arg_kind : LicenseKind;
  arg_tier : LicenseTier;
  arg_org : option str;
  arg_seats : option Z;
  arg_features : str;
  expires_in_days : Z;
}.
(** [main] from the loaded key on: [None] is [ExitCode::FAILURE]. *)
Definition mint (now : datetime) (ek : EK) (args : Args) : option str :=
  res_ok (sign ek (mkLicense (arg_id args) (arg_product args) (arg_org args) (arg_kind args) (arg_tier args)
    (arg_seats args) (parse_features (arg_features args)) now (now + expires_in_days args * 86400 * 1000000))).
End License.

(** ** Lemmas *)

Lemma license_validation_ok product now c :
  claims_ok (license_validation product) now (license_registered c) <->
  l_iss c = ISSUER /\ l_aud c = product /\ l_nbf c <= now <= l_exp c.
Proof.
  split.
  - intros [_ Hi Ha He Hn]. simpl in *. specialize (Hi _ eq_refl). specialize (Ha _ eq_refl).
    apply list_elem_of_singleton in Hi, Ha. specialize (He eq_refl _ eq_refl). specialize (Hn eq_refl _ eq_refl).
    split; [done|]. split; [done|]. lia.
  - intros (Hi & Ha & Hw). split; simpl.
    + repeat (constructor; [unfold claim_present; simpl; eauto 8|]). constructor.
    + rewrite Hi. intros i [= <-]. set_solver.
    + rewrite Ha. intros i [= <-]. set_solver.
    + intros _ e [= <-]. lia.
    + intros _ e [= <-]. lia.
Qed.

(** The tool's features: no blanks, nothing empty, and printing with commas
    reads back. *)
Lemma parse_features_join fs :
  fs <> [] -> Forall (fun f => char_free 44 f /\ no_ws f /\ f <> []) fs -> parse_features (join [44] fs) = fs.
Proof.
  intros Hne Hf. unfold parse_features. rewrite split_join; [|done|].
  - clear Hne. induction Hf as [|f fs (Hc & Hw & Hn) _ IH]; [done|]. cbn [fmap list_fmap List.filter].
    rewrite trim_no_ws, bool_decide_false by done. simpl. by f_equal.
  - eapply Forall_impl; [exact Hf|]. simpl. tauto.
Qed.

Module Demo.
(** Licenses of one product, serialised as their times and seats. *)
Definition ser (c : LicenseClaims) : option (list Z) :=
  match l_seats c with
  | Some n =>
      if bool_decide (c = mkLicenseClaims (lit "lic") ISSUER (lit "ferrvault") (l_exp c) (l_iat c) (l_nbf c)
                            Customer LTeam None (Some n) [lit "audit"])
      then Some [l_exp c; l_iat c; l_nbf c; n] else None
  | None => None
  end.
Definition de (l : list Z) : option LicenseClaims :=
  match l with
  | [e; i; b; n] =>
      Some (mkLicenseClaims (lit "lic") ISSUER (lit "ferrvault") e i b Customer LTeam None (Some n) [lit "audit"])
  | _ => None
  end.
Lemma license_de_ser c l : ser c = Some l -> de l = Some c.
Proof.
  unfold ser. destruct (l_seats c) as [n|]; [|done]. case_bool_decide as Hc; [|done]. intros [= <-]. by rewrite Hc.
Qed.
Definition jwt : JwtPackage Z Z LicenseClaims := Jwt.Demo.package ser de license_registered.
Definition jwt_laws : @JwtPackageLaws Z Z LicenseClaims jwt license_registered :=
  Jwt.Demo.package_laws ser de license_registered license_de_ser.
Definition spec : LicenseSpec :=
  mkLicense (lit "lic") (lit "ferrvault") None Customer LTeam (Some 25) [lit "audit"] 1000000 2000000500.
Definition any (_ : Z) : bool := true.
End Demo.

(** ** Properties *)

(** C7: a license unlocks what was minted and nothing else.  Verifying
    succeeds only for claims that the key signed under the FerrLabs issuer for
    the very product asked about, inside their window; a license signed for a
    product verifies for it from the second it was issued to the second it
    expires and then carries the minted identity, limits and features, with the
    times cut to seconds; it never verifies for another product; and an admin
    license lifts every limit while a customer license has exactly its
    features and seats. *)
Theorem license_binds_product {EK DK} `{JwtPackageLaws EK DK LicenseClaims license_registered} range now dk :
  (forall tok p l, verify range now dk tok p = Ok l ->
     product l = p /\ exists c, signed dk tok c /\ l_iss c = ISSUER /\ l_aud c = p /\ l_nbf c <= now <= l_exp c
       /\ expires_at l = l_exp c * 1000000 /\ features l = l_features c /\ seats l = l_seats c /\ kind l = l_kind c)
  /\ (forall ek spec tok, key_pair ek dk -> sign ek spec = Ok tok ->
      range (timestamp (issued_at spec)) = true -> range (timestamp (expires_at spec)) = true ->
      (timestamp (issued_at spec) <= now <= timestamp (expires_at spec) ->
         verify range now dk tok (product spec)
         = Ok (mkLicense (id spec) (product spec) (org spec) (kind spec) (tier spec) (seats spec) (features spec)
                 (timestamp (issued_at spec) * 1000000) (timestamp (expires_at spec) * 1000000)))
      /\ (forall p, p <> product spec -> is_ok (verify range now dk tok p) = false))
  /\ (forall l f, allows l f = true <-> kind l = Admin \/ f ∈ features l)
  /\ (forall l, seat_limit l = match kind l with Admin => None | Customer => seats l end).
Proof.
  split; [|split; [|split]].
  - intros tok p l. unfold verify. intros (c & Hd%map_err_Ok & Hl)%result_bind_Ok.
    apply decode_sound in Hd as [Hs (Hi & Ha & Hw)%license_validation_ok].
    apply result_bind_Ok in Hl as (i & _ & Hl). apply result_bind_Ok in Hl as (e & He%ok_or_Ok & [= <-]).
    unfold from_timestamp in He. destruct (range (l_exp c)); [|done]. simplify_eq/=.
    split; [done|]. exists c. repeat split; try done; lia.
  - intros ek spec tok Hkp Hsign Hr1 Hr2. unfold sign in Hsign. apply ok_or_Ok in Hsign.
    pose proof (encode_signs _ _ _ _ Hkp Hsign) as Hsg. split.
    + intros Hw. unfold verify.
      assert (jwt_decode now tok dk (license_validation (product spec)) = Ok (claims_of_spec spec)) as ->.
      { apply decode_complete; [done|]. by apply license_validation_ok. }
      simpl. unfold from_timestamp. by rewrite Hr1, Hr2.
    + intros p Hp. destruct (verify range now dk tok p) as [l|] eqn:E; [|done]. exfalso.
      unfold verify in E. apply result_bind_Ok in E as (c & Hd%map_err_Ok & _).
      apply decode_sound in Hd as [Hs (_ & Ha & _)%license_validation_ok].
      rewrite (signed_payload _ _ _ _ _ Hs Hsg) in Ha. by apply Hp.
  - intros l f. unfold allows, is_admin. rewrite orb_true_iff, existsb_exists.
    setoid_rewrite str_eqb_eq. setoid_rewrite <- list_elem_of_In. split.
    + intros [Hk|(x & Hx & ->)]; [|auto]. destruct (kind l); [auto|done].
    + intros [->|Hx]; [by left|right; eauto].
  - intros l. unfold seat_limit, is_admin. by destruct (kind l).
Qed.

Lemma license_binds_product_witness :
  exists tok l, @sign Z Z Demo.jwt 5 Demo.spec = Ok tok
    /\ @verify Z Z Demo.jwt Demo.any 1500 5 tok (lit "ferrvault") = Ok l /\ expires_at l = 2000000000.
Proof.
  eexists _, _. split; [vm_compute; reflexivity|].
  split; [apply (proj1 (proj2 (@license_binds_product Z Z Demo.jwt Demo.jwt_laws Demo.any 1500 5)) 5 Demo.spec
    [5; 2000; 1; 1; 25]); try reflexivity; vm_compute; split; discriminate|].
  reflexivity.
Defined.
