(* ===== verification/Oauth.v ===== *)
(** * OAuth 2.0 login ([crates/oauth/src/lib.rs])

    The providers and their constants, the authorization request, the code
    exchange and the normalised user.  Random bytes are arguments; SHA-256, the
    URL-safe base64 encoding, query strings, the requests themselves and the
    reading of JSON bodies into the code's structs belong to other packages:
    they are the operations of classes, with the documented behaviour of query
    strings as laws. *)

From S2P Require Import Prelude RustStr Errors Net Headers Http.

(** ** Query strings ([url] package) *)

Class UrlQuery (Url : Type) := {
  url_query : Url -> option str;
  url_fragment : Url -> option str;
  (** [query_pairs_mut().append_pair(k, v)], and [query_pairs()]. *)
  append_pair : Url -> str -> str -> Url;
  query_pairs : Url -> list (str * str);
}.
Class UrlQueryLaws (Url : Type) `{Outside Url, UrlQuery Url} : Prop := {
  query_pairs_append u k v : query_pairs (append_pair u k v) = query_pairs u ++ [(k, v)];
  (** A serialised URL parses back to itself. *)
  url_reparse u : url_parse (url_to_string u) = Ok u;
}.

Definition append_pairs {Url : Type} `{UrlQuery Url} (u : Url) (l : list (str * str)) : Url :=
  foldl (fun u '(k, v) => append_pair u k v) u l.
Lemma query_pairs_append_pairs {Url : Type} `{UrlQueryLaws Url} (u : Url) l :
  query_pairs (append_pairs u l) = query_pairs u ++ l.
Proof.
  revert u. induction l as [|[k v] l IH]; intros u; simpl; [by rewrite app_nil_r|].
  by rewrite IH, query_pairs_append, <- app_assoc.
Qed.

(** ** PKCE and random tokens *)

Class TokenPackages := {
  sha256 : bytes -> bytes;
  base64url : bytes -> str;
}.
(** [URL_SAFE_NO_PAD.encode] of the 32 random bytes. *)
Definition random_token `{TokenPackages} (random : bytes) : str := base64url random.
Definition pkce_challenge_s256 `{TokenPackages} (verifier : str) : str := base64url (sha256 (as_bytes verifier)).

(** ** Providers *)

Inductive OAuthProvider := Google | GitHub | Discord.
#[export] Instance OAuthProvider_eq_dec : EqDecision OAuthProvider.
Proof. solve_decision. Defined.

Definition as_str (p : OAuthProvider) : str :=
  match p with Google => lit "google" | GitHub => lit "github" | Discord => lit "discord" end.
Definition authorize_endpoint (p : OAuthProvider) : str :=
  match p with
  | Google => lit "https://accounts.google.com/o/oauth2/v2/auth"
  | GitHub => lit "https://github.com/login/oauth/authorize"
  | Discord => lit "https://discord.com/api/oauth2/authorize"
  end.
Definition token_endpoint (p : OAuthProvider) : str :=
  match p with
  | Google => lit "https://oauth2.googleapis.com/token"
  | GitHub => lit "https://github.com/login/oauth/access_token"
  | Discord => lit "https://discord.com/api/oauth2/token"
  end.
Definition userinfo_endpoint (p : OAuthProvider) : str :=
  match p with
  | Google => lit "https://openidconnect.googleapis.com/v1/userinfo"
  | GitHub => lit "https://api.github.com/user"
  | Discord => lit "https://discord.com/api/users/@me"
  end.
Definition default_scope (p : OAuthProvider) : str :=
  match p with
  | Google => lit "openid email profile"
  | GitHub => lit "read:user user:email"
  | Discord => lit "identify"
  end.
Definition supports_pkce (p : OAuthProvider) : bool := match p with Google => true | _ => false end.

(** [FromStr]; the error carries the name that was not recognised. *)
Definition provider_from_str (s : str) : result str OAuthProvider :=
  if s =s lit "google" then Ok Google
  else if s =s lit "github" then Ok GitHub
  else if s =s lit "discord" then Ok Discord
  else Err s.

Inductive OAuthError :=
| OAuthHttp (e : str)
| Provider (msg : str)
| MissingField (field : str).

Definition oauth_api_error (err : OAuthError) : ApiError :=
  match err with
  | Provider msg => BadRequest msg
  | MissingField field => BadRequest (lit "oauth: missing " ++ field)
  | OAuthHttp e => Internal (lit "oauth http: " ++ e)
  end.

(** ** The client *)

Record OAuthClient := mkOAuthClient {
  provider : OAuthProvider;
  oa_client_id : str;
  oa_client_secret : str;
  oa_redirect_uri : str;
  oa_scope : str;
}.
Record AuthorizeRequest := mkAuthorizeRequest { ar_url : str; ar_state : str; ar_pkce_verifier : option str }.
Record OAuthUser := mkOAuthUser {
  ou_provider : OAuthProvider;
  provider_user_id : str;
  ou_email : option str;
  ou_email_verified : bool;
  ou_name : option str;
}.

Definition oauth_new (p : OAuthProvider) (id secret redirect : str) (scope : option str) : OAuthClient :=
  mkOAuthClient p id secret redirect (unwrap_or scope (default_scope p)).

(** The two draws of random bytes; the second is made for a PKCE provider
    only.  [None] is the panic of [expect] on the constant endpoint. *)
Definition authorize_url {Url : Type} `{Outside Url, UrlQuery Url, TokenPackages} (r1 r2 : bytes) (c : OAuthClient)
  : option AuthorizeRequest :=
  let state := random_token r1 in
  let pkce_verifier := if supports_pkce (provider c) then Some (random_token r2) else None in
  match url_parse (authorize_endpoint (provider c)) with
  | Err _ => None
  | Ok url =>
      let url := append_pairs url
        [(lit "client_id", oa_client_id c); (lit "redirect_uri", oa_redirect_uri c);
         (lit "response_type", lit "code"); (lit "scope", oa_scope c); (lit "state", state)] in
      let url := match pkce_verifier with
                 | Some verifier =>
                     append_pairs url [(lit "code_challenge", pkce_challenge_s256 verifier);
                                       (lit "code_challenge_method", lit "S256")]
                 | None => url
                 end in
      Some (mkAuthorizeRequest (url_to_string url) state pkce_verifier)
  end.

(** A request of the [reqwest] client and its answer: the transport error or
    the status and body.  [oa_error_for_status] and the readers render the
    package's own errors. *)
Record OAuthRequest := mkOAuthRequest { rq_url : str; rq_headers : list (str * str); rq_bearer : option str; rq_body : option str }.
Record TokenResponse := mkTokenResponse { access_token : option str; tr_error : option str }.
Record GoogleUserInfo := mkGoogle { g_sub : str; g_email : option str; g_email_verified : bool; g_name : option str }.
Record GitHubUserInfo := mkGitHub { gh_id : Z; gh_email : option str; gh_name : option str; gh_login : option str }.
Record DiscordUserInfo := mkDiscord
  { d_id : str; d_username : str; d_global_name : option str; d_email : option str; d_verified : bool }.

Class OAuthOutside := {
  oa_send : OAuthRequest -> result str (Z * bytes);
  (** [error_for_status]: the error of a client or server error status. *)
  oa_status_error : Z -> str;
  oa_text : bytes -> result str str;
  oa_token_json : bytes -> result str TokenResponse;
  google_json : str -> result str GoogleUserInfo;
  github_json : str -> result str GitHubUserInfo;
  discord_json : str -> result str DiscordUserInfo;
}.

Definition oa_exchange `{OAuthOutside} (rq : OAuthRequest) : result OAuthError bytes :=
  '(status, body) ← map_err OAuthHttp (oa_send rq);
  if in_range 400 599 status then Err (OAuthHttp (oa_status_error status)) else Ok body.

Definition exchange_form (c : OAuthClient) (code : str) (pkce_verifier : option str) : list (str * str) :=
  [(lit "client_id", oa_client_id c); (lit "client_secret", oa_client_secret c); (lit "code", code);
   (lit "grant_type", lit "authorization_code"); (lit "redirect_uri", oa_redirect_uri c)]
  ++ match pkce_verifier with Some v => [(lit "code_verifier", v)] | None => [] end.

Definition oauth_exchange_code {Url : Type} `{Outside Url, OAuthOutside} (c : OAuthClient) (code : str) (pkce_verifier : option str)
  : result OAuthError str :=
  let body := form_urlencoded (exchange_form c code pkce_verifier) in
  resp ← oa_exchange (mkOAuthRequest (token_endpoint (provider c))
           [(lit "accept", lit "application/json"); (lit "content-type", lit "application/x-www-form-urlencoded")]
           None (Some body));
  token ← map_err OAuthHttp (oa_token_json resp);
  match tr_error token with
  | Some err => Err (Provider err)
  | None => ok_or (access_token token) (MissingField (lit "access_token"))
  end.

(** [Option::or]. *)
Definition option_or {A} (a b : option A) : option A := match a with Some _ => a | None => b end.

Definition parse_user `{OAuthOutside} (p : OAuthProvider) (body : str) : result OAuthError OAuthUser :=
  match p with
  | Google =>
      info ← map_err (fun e => Provider (lit "google userinfo: " ++ e)) (google_json body);
      Ok (mkOAuthUser p (g_sub info) (g_email info) (g_email_verified info) (g_name info))
  | GitHub =>
      info ← map_err (fun e => Provider (lit "github user: " ++ e)) (github_json body);
      Ok (mkOAuthUser p (show_u (gh_id info)) (gh_email info) false (option_or (gh_name info) (gh_login info)))
  | Discord =>
      info ← map_err (fun e => Provider (lit "discord user: " ++ e)) (discord_json body);
      Ok (mkOAuthUser p (d_id info) (d_email info) (d_verified info)
            (option_or (d_global_name info) (Some (d_username info))))
  end.

Definition fetch_user `{OAuthOutside} (c : OAuthClient) (access : str) : result OAuthError OAuthUser :=
  resp ← oa_exchange (mkOAuthRequest (userinfo_endpoint (provider c))
           [(lit "user-agent", lit "ferrlabs-auth"); (lit "accept", lit "application/json")] (Some access) None);
  body ← map_err OAuthHttp (oa_text resp);
  parse_user (provider c) body.

(** ** Lemmas *)

(** A segment resolves to a provider exactly when it is its name. *)
Lemma provider_from_str_spec s p : provider_from_str s = Ok p <-> s = as_str p.
Proof.
  unfold provider_from_str. split.
  - repeat case_match; intros [= <-];
      match goal with H : (s =s _) = true |- _ => by apply str_eqb_eq in H as -> end.
  - intros ->. by destruct p.
Qed.
