(* ===== verification/Oidc.v ===== *)
(** * OpenID Connect login ([crates/oauth/src/oidc.rs])

    Discovery, the authorization request, the code exchange with the JWKS
    cache, and the validation of ID tokens.  Every request goes through the
    guarded client ([Http]); the tokens, keys and key sets of [jsonwebtoken]
    and the reading of JSON bodies are operations of a class, with what the
    package documents of them as the laws of a second one.  The mutex around
    the cache makes its reading and its writing two critical sections, with a
    request to the issuer in between: [Concurrent] interleaves them. *)

From S2P Require Import Prelude RustStr Json Net Headers Http Errors Oauth.

Definition JWKS_MIN_REFRESH : Z := 60 * 1000000.
Definition JWKS_MAX_AGE : Z := 3600 * 1000000.
Definition CLOCK_LEEWAY_SECS : Z := 60.
Definition DEFAULT_SCOPE : str := lit "openid email profile".
Definition DISCOVERY_PATH : str := lit "/.well-known/openid-configuration".
Definition ERROR_BODY_CHARS : nat := 300.

(** A failure's [reason]: the fetch error, or a text. *)
Inductive Reason := OfFetch (e : SafeFetchError) | OfText (s : str).

Inductive OidcError :=
| IssuerUrl (raw : str)
| Discovery (issuer : str) (reason : Reason)
| IssuerMismatch (expected found : str)
| Endpoint (name value : str)
| NoUsableAlgorithm
| TokenRequest (reason : Reason)
| TokenEndpoint (status : Z) (body : str)
| MissingIdToken
| UnexpectedAlgorithm (alg : str)
| UnknownKey (kid : str)
| Jwks (issuer : str) (reason : Reason)
| IdToken (reason : str)
| NonceMismatch
| AzpMismatch.

(** [From<OidcError> for ApiError], over the rendering of errors. *)
Definition oidc_api_error (to_string : OidcError -> str) (err : OidcError) : ApiError :=
  match err with
  | IssuerUrl _ | IssuerMismatch _ _ | Endpoint _ _ | NoUsableAlgorithm => BadRequest (to_string err)
  | UnexpectedAlgorithm _ | UnknownKey _ | IdToken _ | NonceMismatch | AzpMismatch | MissingIdToken => Unauthorized
  | Discovery _ _ | Jwks _ _ | TokenRequest _ | TokenEndpoint _ _ => Internal (to_string err)
  end.

Record IssuerMetadata := mkMeta {
  m_issuer : str;
  authorization_endpoint : str;
  m_token_endpoint : str;
  jwks_uri : str;
  id_token_signing_alg_values_supported : list str;
}.
Record OidcAuthorizeRequest := mkOidcAuthorize
  { oar_url : str; oar_state : str; oar_nonce : str; oar_pkce_verifier : str }.
Record OidcIdentity := mkIdentity
  { id_issuer : str; subject : str; email : option str; email_verified : bool; name : option str }.

(** ** [jsonwebtoken] *)

Inductive Algorithm :=
| HS256 | HS384 | HS512 | ES256 | ES384 | RS256 | RS384 | RS512 | PS256 | PS384 | PS512 | EdDSA.
#[export] Instance Algorithm_eq_dec : EqDecision Algorithm.
Proof. solve_decision. Defined.

Record Header := mkHeader { h_alg : Algorithm; h_kid : option str }.
(** The fields of [Validation] the code sets; [exp] is checked, [nbf] is not,
    as [Validation::new] leaves them. *)
Record IdValidation := mkIdValidation
  { iv_alg : Algorithm; iv_leeway : Z; iv_iss : list str; iv_aud : list str; iv_required : list str }.

(** A claims map is a JSON object's entries. *)
Abbreviation claims_map := (list (str * json)).

Class OidcPackages (Jwk DK : Type) := {
  algorithm_from_str : str -> option Algorithm;
  algorithm_debug : Algorithm -> str;
  (** [jwk.common]: the key's name, and the algorithm it declares: its text,
      and the signature algorithm it is, when it is one. *)
  jwk_kid : Jwk -> option str;
  jwk_alg : Jwk -> option (str * option Algorithm);
  (** [JwkSet::find]. *)
  jwks_find : list Jwk -> str -> option Jwk;
  decode_header : str -> result str Header;
  from_jwk : Jwk -> result str DK;
  decode : Z -> str -> DK -> IdValidation -> result str claims_map;
  (** The token carries a good signature of these claims by this algorithm
      under this key. *)
  id_signed : DK -> Algorithm -> str -> claims_map -> Prop;
  (** The instant a [NumericDate] stands for. *)
  numeric_date : json -> option Z;
  (** [serde_json::from_slice] at the code's types, and
      [String::from_utf8_lossy]. *)
  meta_from_slice : bytes -> result str IssuerMetadata;
  jwks_from_slice : bytes -> result str (list Jwk);
  token_from_slice : bytes -> result str (option str);
  from_utf8_lossy : bytes -> str;
}.

(** A claim that is one of the strings, or an array of strings with one of
    them. *)
Definition names_one_of (l : list str) (v : json) : Prop :=
  (exists s, v = JString s /\ s ∈ l)
  \/ (exists ss s, v = JArray (JString <$> ss) /\ s ∈ ss /\ s ∈ l).
Record id_claims_ok {Jwk DK} `{OidcPackages Jwk DK} (v : IdValidation) (now : Z) (c : claims_map) : Prop := {
  ik_required : Forall (fun k => is_Some (assoc k c)) (iv_required v);
  ik_iss : forall j, assoc (lit "iss") c = Some j -> names_one_of (iv_iss v) j;
  ik_aud : forall j, assoc (lit "aud") c = Some j -> names_one_of (iv_aud v) j;
  ik_exp : forall j, assoc (lit "exp") c = Some j -> exists e, numeric_date j = Some e /\ now <= e + iv_leeway v;
  ik_sub : lit "sub" ∈ iv_required v -> exists s, assoc (lit "sub") c = Some (JString s);
}.
Class OidcPackagesLaws (Jwk DK : Type) `{OidcPackages Jwk DK} : Prop := {
  find_sound l k j : jwks_find l k = Some j -> j ∈ l /\ jwk_kid j = Some k;
  find_complete l k j : j ∈ l -> jwk_kid j = Some k -> is_Some (jwks_find l k);
  decode_id_sound now tok key v c :
    decode now tok key v = Ok c -> id_signed key (iv_alg v) tok c /\ id_claims_ok v now c;
  decode_id_complete now tok key v c :
    id_signed key (iv_alg v) tok c -> id_claims_ok v now c -> decode now tok key v = Ok c;
}.

(** ** Issuers and their metadata *)

Definition https : str := lit "https".
Definition slash : char := 47.

Definition normalize_issuer {Url : Type} `{Outside Url, UrlQuery Url} (raw : str) : result OidcError str :=
  parsed ← map_err (fun _ => IssuerUrl raw) (url_parse (trim raw));
  if negb (scheme parsed =s https) || is_some (url_query parsed) || is_some (url_fragment parsed)
  then Err (IssuerUrl raw)
  else if negb (is_some (host_str parsed)) then Err (IssuerUrl raw)
  else Ok (trim_end_matches slash (url_to_string parsed)).

Definition discovery_url (issuer : str) : str := issuer ++ DISCOVERY_PATH.

(** The body of the loop over the three endpoints, and the loop. *)
Definition check_endpoint {Url : Type} `{Outside Url} (name value : str) : result OidcError () :=
  url ← map_err (fun _ => Endpoint name value) (url_parse value);
  if negb (scheme url =s https) then Err (Endpoint name value) else Ok ().
Fixpoint check_endpoints {Url : Type} `{Outside Url} (l : list (str * str)) : result OidcError () :=
  match l with
  | [] => Ok ()
  | (name, value) :: l' => _ ← check_endpoint name value; check_endpoints l'
  end.

Definition check_metadata {Url : Type} `{Outside Url} (expected_issuer : str) (meta : IssuerMetadata)
  : result OidcError () :=
  let found := trim_end_matches slash (m_issuer meta) in
  if negb (found =s expected_issuer) then Err (IssuerMismatch expected_issuer (m_issuer meta))
  else check_endpoints [(lit "authorization_endpoint", authorization_endpoint meta);
                        (lit "token_endpoint", m_token_endpoint meta);
                        (lit "jwks_uri", jwks_uri meta)].

Definition is_asymmetric (alg : Algorithm) : bool :=
  match alg with HS256 | HS384 | HS512 => false | _ => true end.

Record IdTokenExpectations := mkExpectations
  { x_issuer : str; x_client_id : str; x_nonce : str; x_algorithms : list Algorithm }.

Section Tokens.
Context {Jwk DK : Type} `{OidcPackages Jwk DK}.

Definition signing_algorithms (meta : IssuerMetadata) : result OidcError (list Algorithm) :=
  match id_token_signing_alg_values_supported meta with
  | [] => Ok [RS256]
  | names =>
      match List.filter is_asymmetric (omap algorithm_from_str names) with
      | [] => Err NoUsableAlgorithm
      | usable => Ok usable
      end
  end.

(** ** ID tokens *)

Definition select_key (jwks : list Jwk) (header : Header) : result OidcError Jwk :=
  jwk ← match h_kid header with
        | Some kid => ok_or (jwks_find jwks kid) (UnknownKey kid)
        | None => match jwks with [only] => Ok only | _ => Err (UnknownKey (lit "<no kid>")) end
        end;
  match jwk_alg jwk with
  | None => Ok jwk
  | Some (text, declared) =>
      declared ← ok_or declared (UnexpectedAlgorithm text);
      if bool_decide (declared = h_alg header) then Ok jwk
      else Err (UnexpectedAlgorithm (algorithm_debug (h_alg header)))
  end.

Definition claim_str (key : str) (claims : claims_map) : option str := assoc key claims ≫= json_as_str.

Definition check_claims (claims : claims_map) (x : IdTokenExpectations) : result OidcError () :=
  if negb (bool_decide (claim_str (lit "nonce") claims = Some (x_nonce x))) then Err NonceMismatch
  else if bool_decide (unwrap_or (claim_str (lit "sub") claims) [] = [])
  then Err (IdToken (lit "sub is missing or is not a non-empty string"))
  else
    let several_audiences :=
      match assoc (lit "aud") claims ≫= as_array with Some auds => (1 <? length auds)%nat | None => false end in
    if several_audiences && negb (bool_decide (claim_str (lit "azp") claims = Some (x_client_id x)))
    then Err AzpMismatch else Ok ().

Definition id_validation (alg : Algorithm) (x : IdTokenExpectations) : IdValidation :=
  mkIdValidation alg CLOCK_LEEWAY_SECS [x_issuer x] [x_client_id x] [lit "iss"; lit "aud"; lit "exp"; lit "sub"].

Definition validate_id_token (now : Z) (token : str) (jwks : list Jwk) (x : IdTokenExpectations)
  : result OidcError claims_map :=
  header ← map_err IdToken (decode_header token);
  if negb (bool_decide (h_alg header ∈ x_algorithms x))
  then Err (UnexpectedAlgorithm (algorithm_debug (h_alg header)))
  else
    jwk ← select_key jwks header;
    key ← map_err IdToken (from_jwk jwk);
    claims ← map_err IdToken (decode now token key (id_validation (h_alg header) x));
    _ ← check_claims claims x;
    Ok claims.

Definition identity_from_claims (issuer : str) (claims : claims_map) : OidcIdentity :=
  mkIdentity issuer
    (unwrap_or (claim_str (lit "sub") claims) [])
    (claim_str (lit "email") claims)
    (unwrap_or (assoc (lit "email_verified") claims ≫= as_bool) false)
    (claim_str (lit "name") claims).

(** ** The key cache *)

Record CachedJwks := mkCachedJwks { set : list Jwk; fetched_at : instant }.

Definition serves_kid (s : list Jwk) (kid : option str) : bool :=
  match kid with None => true | Some k => is_some (jwks_find s k) end.
Definition cached_keys (now : instant) (cache : option CachedJwks) (kid : option str) : option (list Jwk) :=
  cached ← cache;
  let age := elapsed now (fetched_at cached) in
  if JWKS_MAX_AGE <=? age then None
  else if serves_kid (set cached) kid || (age <? JWKS_MIN_REFRESH) then Some (set cached)
  else None.
End Tokens.
Arguments CachedJwks : clear implicits.

Definition truncate (body : str) : str := take ERROR_BODY_CHARS body.

(** ** Discovery and the client *)

Record OidcClient := mkClient {
  meta : IssuerMetadata;
  client_id : str;
  client_secret : str;
  redirect_uri : str;
  scope : str;
  algorithms : list Algorithm;
  fetch : SafeFetchOpts;
}.

(** The network as one request of the client sees it, and when the request's
    deadline cuts it, if it does. *)
Record Net (Url : Type) := mkNet { outside : Outside Url; deadline : option nat }.
Arguments mkNet {Url} outside deadline.
Arguments outside {Url} n.
Arguments deadline {Url} n.

Section Client.
Context {Url Jwk DK : Type} `{OidcPackages Jwk DK} `{HttpPackage}.

(** [safe_get], expecting status 200, and the reading of the body.  The outer
    option is the guarded fetch's own (never [None]); the list holds the
    addresses contacted. *)
Definition get_json {A} (net : Net Url) (opts : SafeFetchOpts) (url : str) (wrap : Reason -> OidcError)
    (from_slice : bytes -> result str A) : option (result OidcError A * list SocketAddr) :=
  '(r, l) ← @safe_get Url (outside net) _ (deadline net) url opts;
  Some (match r with
        | Err e => Err (wrap (OfFetch e))
        | Ok response =>
            if negb (status response =? 200) then Err (wrap (OfText (lit "status " ++ show_u (status response))))
            else map_err (fun e => wrap (OfText e)) (from_slice (body response))
        end, l).

Definition discover `{UrlQuery Url} (net : Net Url) (issuer : str)
  : option (result OidcError IssuerMetadata * list SocketAddr) :=
  match @normalize_issuer Url (outside net) _ issuer with
  | Err e => Some (Err e, [])
  | Ok issuer =>
      '(r, l) ← get_json net SafeFetchOpts_default (discovery_url issuer) (Discovery issuer) meta_from_slice;
      Some (meta ← r; _ ← @check_metadata Url (outside net) issuer meta; Ok meta, l)
  end.

Definition oidc_new (m : IssuerMetadata) (id secret redirect : str) (scope : option str) : result OidcError OidcClient :=
  algs ← signing_algorithms m;
  Ok (mkClient m id secret redirect (unwrap_or scope DEFAULT_SCOPE) algs SafeFetchOpts_default).

(** The three draws of random bytes.  [None] is the panic of [expect]. *)
Definition authorize `{Outside Url, UrlQuery Url, TokenPackages} (r1 r2 r3 : bytes) (c : OidcClient)
  : option OidcAuthorizeRequest :=
  let state := random_token r1 in
  let nonce := random_token r2 in
  let pkce_verifier := random_token r3 in
  match url_parse (authorization_endpoint (meta c)) with
  | Err _ => None
  | Ok url =>
      let url := append_pairs url
        [(lit "client_id", client_id c); (lit "redirect_uri", redirect_uri c); (lit "response_type", lit "code");
         (lit "scope", scope c); (lit "state", state); (lit "nonce", nonce);
         (lit "code_challenge", pkce_challenge_s256 pkce_verifier); (lit "code_challenge_method", lit "S256")] in
      Some (mkOidcAuthorize (url_to_string url) state nonce pkce_verifier)
  end.

Definition fetch_keys (net : Net Url) (c : OidcClient) : option (result OidcError (list Jwk) * list SocketAddr) :=
  get_json net (fetch c) (jwks_uri (meta c)) (Jwks (m_issuer (meta c))) jwks_from_slice.

(** What [keys_for] answers from a set it just fetched. *)
Definition serve_fetched (set : list Jwk) (kid : option str) : result OidcError (list Jwk) :=
  match kid with
  | Some k => if negb (is_some (jwks_find set k)) then Err (UnknownKey k) else Ok set
  | None => Ok set
  end.

(** [t1] is when the cache is read and [t2] when the fetched set is stored. *)
Definition keys_for (net : Net Url) (t1 t2 : instant) (c : OidcClient) (cache : option (CachedJwks Jwk)) (kid : option str)
  : option (result OidcError (list Jwk) * option (CachedJwks Jwk) * list SocketAddr) :=
  match cached_keys t1 cache kid with
  | Some cached => Some (Ok cached, cache, [])
  | None =>
      '(r, l) ← fetch_keys net c;
      match r with
      | Err e => Some (Err e, cache, l)
      | Ok set => Some (serve_fetched set kid, Some (mkCachedJwks set t2), l)
      end
  end.

Definition token_form (c : OidcClient) (code pkce_verifier : str) : list (str * str) :=
  [(lit "grant_type", lit "authorization_code"); (lit "code", code); (lit "redirect_uri", redirect_uri c);
   (lit "client_id", client_id c); (lit "client_secret", client_secret c); (lit "code_verifier", pkce_verifier)].

(** The token request, up to the ID token it returned. *)
Definition request_id_token (net : Net Url) (c : OidcClient) (code pkce_verifier : str)
  : result OidcError str * list SocketAddr :=
  let '(r, l) := @safe_post_form Url (outside net) (deadline net) (m_token_endpoint (meta c))
                   (token_form c code pkce_verifier) (fetch c) in
  (match r with
   | Err e => Err (TokenRequest (OfFetch e))
   | Ok response =>
       if negb (status response =? 200)
       then Err (TokenEndpoint (status response) (truncate (from_utf8_lossy (body response))))
       else
         token ← map_err (TokenEndpoint (status response)) (token_from_slice (body response));
         ok_or token MissingIdToken
   end, l).

Definition expectations (c : OidcClient) (nonce : str) : IdTokenExpectations :=
  mkExpectations (trim_end_matches slash (m_issuer (meta c))) (client_id c) nonce (algorithms c).

(** The networks of the two requests, the instants of [keys_for] and the
    time of the validation, in seconds. *)
Record World := mkWorld { net_token : Net Url; net_keys : Net Url; at_read : instant; at_store : instant; at_validate : Z }.

Definition exchange_code (w : World) (c : OidcClient) (cache : option (CachedJwks Jwk)) (code pkce_verifier nonce : str)
  : option (result OidcError (OidcIdentity * claims_map) * option (CachedJwks Jwk) * list SocketAddr) :=
  let '(r, l) := request_id_token (net_token w) c code pkce_verifier in
  match r with
  | Err e => Some (Err e, cache, l)
  | Ok id_token =>
      match map_err IdToken (decode_header id_token) with
      | Err e => Some (Err e, cache, l)
      | Ok header =>
          '(rk, cache', l') ← keys_for (net_keys w) (at_read w) (at_store w) c cache (h_kid header);
          Some (jwks ← rk;
                claims ← validate_id_token (at_validate w) id_token jwks (expectations c nonce);
                Ok (identity_from_claims (m_issuer (meta c)) claims, claims), cache', l ++ l')
      end
  end.
End Client.
Arguments World : clear implicits.

(** ** Specifications *)

(** The key of a set a token's header selects, fit for its algorithm. *)
Definition key_for {Jwk DK} `{OidcPackages Jwk DK} (jwks : list Jwk) (h : Header) (jwk : Jwk) : Prop :=
  match h_kid h with Some k => jwks_find jwks k = Some jwk | None => jwks = [jwk] end
  /\ (forall text a, jwk_alg jwk = Some (text, a) -> a = Some (h_alg h)).

(** What an accepted token says. *)
Record acceptable {Jwk DK} `{OidcPackages Jwk DK} (now : Z) (x : IdTokenExpectations) (c : claims_map) : Prop := {
  acc_iss : exists j, assoc (lit "iss") c = Some j /\ names_one_of [x_issuer x] j;
  acc_aud : exists j, assoc (lit "aud") c = Some j /\ names_one_of [x_client_id x] j;
  acc_exp : exists j e, assoc (lit "exp") c = Some j /\ numeric_date j = Some e /\ now <= e + 60;
  acc_sub : exists s, assoc (lit "sub") c = Some (JString s) /\ s <> [];
  acc_nonce : assoc (lit "nonce") c = Some (JString (x_nonce x));
  acc_azp : forall a b l, assoc (lit "aud") c = Some (JArray (a :: b :: l)) ->
    assoc (lit "azp") c = Some (JString (x_client_id x));
}.

(** The algorithms an issuer's metadata allow: those it lists, RS256 when it
    lists none. *)
Definition advertised {Jwk DK} `{OidcPackages Jwk DK} (m : IssuerMetadata) (alg : Algorithm) : Prop :=
  (id_token_signing_alg_values_supported m = [] /\ alg = RS256)
  \/ exists n, n ∈ id_token_signing_alg_values_supported m /\ algorithm_from_str n = Some alg.

(** ** Lemmas *)

Lemma names_one_of_string l s : names_one_of l (JString s) <-> s ∈ l.
Proof. unfold names_one_of. naive_solver. Qed.

Section TokenLemmas.
Context {Jwk DK : Type} `{OidcPackagesLaws Jwk DK}.

Lemma claim_str_Some k (c : claims_map) s : claim_str k c = Some s <-> assoc k c = Some (JString s).
Proof. unfold claim_str. destruct (assoc k c) as [[]|]; simpl; naive_solver. Qed.

Lemma select_key_Ok jwks h jwk : select_key jwks h = Ok jwk <-> key_for jwks h jwk.
Proof.
  unfold select_key, key_for. rewrite result_bind_Ok.
  assert (Hpick : forall j, (match h_kid h with
      | Some kid => ok_or (jwks_find jwks kid) (UnknownKey kid)
      | None => match jwks with [only] => Ok only | _ => Err (UnknownKey (lit "<no kid>")) end
      end = Ok j) <-> match h_kid h with Some k => jwks_find jwks k = Some j | None => jwks = [j] end).
  { intros j. destruct (h_kid h); [apply ok_or_Ok|]. destruct jwks as [|? []]; naive_solver. }
  setoid_rewrite Hpick.
  assert (Halg : forall j, match jwk_alg j with
      | None => Ok j
      | Some (text, declared) =>
          declared ← ok_or declared (UnexpectedAlgorithm text);
          if bool_decide (declared = h_alg h) then Ok j
          else Err (UnexpectedAlgorithm (algorithm_debug (h_alg h)))
      end = Ok jwk <-> j = jwk /\ forall text a, jwk_alg j = Some (text, a) -> a = Some (h_alg h)).
  { intros j. destruct (jwk_alg j) as [[text [d|]]|]; simpl; [case_bool_decide| |]; naive_solver. }
  setoid_rewrite Halg. naive_solver.
Qed.

Lemma key_for_in jwks h jwk : key_for jwks h jwk -> jwk ∈ jwks /\ (forall k, h_kid h = Some k -> jwk_kid jwk = Some k).
Proof.
  intros [Hk _]. destruct (h_kid h) as [k|].
  - apply find_sound in Hk as [? ?]. naive_solver.
  - subst. split; [set_solver|done].
Qed.

Lemma check_claims_Ok c x :
  check_claims c x = Ok () <->
  assoc (lit "nonce") c = Some (JString (x_nonce x))
  /\ (exists s, assoc (lit "sub") c = Some (JString s) /\ s <> [])
  /\ (forall a b l, assoc (lit "aud") c = Some (JArray (a :: b :: l)) ->
      assoc (lit "azp") c = Some (JString (x_client_id x))).
Proof.
  unfold check_claims. rewrite <- !claim_str_Some. setoid_rewrite <- claim_str_Some.
  case_bool_decide as Hn; cbn [negb]; [|naive_solver]. case_bool_decide as Hs.
  { split; [done|]. intros (_ & (s & Hs' & Hne) & _). rewrite Hs' in Hs. done. }
  assert (exists s, claim_str (lit "sub") c = Some s /\ s <> []) as Hsub.
  { destruct (claim_str (lit "sub") c) as [s|]; [exists s; by split|by destruct Hs]. }
  case_bool_decide as Ha; rewrite ?andb_false_r, ?andb_true_r; [naive_solver|].
  destruct (assoc (lit "aud") c) as [[]|]; simpl; try naive_solver.
  destruct l as [|a [|b l]]; simpl; naive_solver.
Qed.

Lemma id_validation_ok now alg x c :
  id_claims_ok (id_validation alg x) now c <->
  (exists j, assoc (lit "iss") c = Some j /\ names_one_of [x_issuer x] j)
  /\ (exists j, assoc (lit "aud") c = Some j /\ names_one_of [x_client_id x] j)
  /\ (exists j e, assoc (lit "exp") c = Some j /\ numeric_date j = Some e /\ now <= e + 60)
  /\ (exists s, assoc (lit "sub") c = Some (JString s)).
Proof.
  split.
  - intros [Hreq Hiss Haud Hexp Hsub]. cbn [iv_required id_validation] in *.
    rewrite !Forall_cons in Hreq. destruct Hreq as ([i Hi] & [a Ha] & [e He] & _).
    destruct (Hexp e He) as (t & Ht & Hle). simpl in Hle. unfold CLOCK_LEEWAY_SECS in Hle.
    repeat split; [eauto..|]. apply Hsub. rewrite !elem_of_cons. auto.
  - intros ((i & Hi & Hi') & (a & Ha & Ha') & (e & t & He & Ht & Hle) & (s & Hs)).
    split; cbn [iv_required iv_iss iv_aud iv_leeway id_validation].
    + rewrite !Forall_cons. eauto 10.
    + naive_solver.
    + naive_solver.
    + intros j Hj. simplify_eq. eauto.
    + eauto.
Qed.

Lemma validate_id_token_Ok now tok jwks x c :
  validate_id_token now tok jwks x = Ok c <->
  exists h jwk key, decode_header tok = Ok h /\ h_alg h ∈ x_algorithms x /\ key_for jwks h jwk
    /\ from_jwk jwk = Ok key /\ id_signed key (h_alg h) tok c /\ acceptable now x c.
Proof.
  unfold validate_id_token. split.
  - intros (h & Hh%map_err_Ok & Hv)%result_bind_Ok. case_bool_decide as Ha; [|done]. simpl in Hv.
    apply result_bind_Ok in Hv as (jwk & Hj%select_key_Ok & Hv).
    apply result_bind_Ok in Hv as (key & Hk%map_err_Ok & Hv).
    apply result_bind_Ok in Hv as (c' & [Hs Hok]%map_err_Ok%decode_id_sound & Hv).
    apply result_bind_Ok in Hv as ([] & Hc%check_claims_Ok & [= ->]).
    apply id_validation_ok in Hok. exists h, jwk, key. destruct Hok as (? & ? & ? & _), Hc as (? & ? & ?).
    do 5 (split; [done|]). by split.
  - intros (h & jwk & key & Hh & Ha & Hj & Hk & Hs & [Hi Hau He Hsub Hn Hz]).
    rewrite Hh. simpl. rewrite bool_decide_true by done. simpl. apply select_key_Ok in Hj. rewrite Hj. simpl.
    rewrite Hk. simpl. rewrite (decode_id_complete _ _ _ (id_validation (h_alg h) x) c); [simpl|done|].
    + rewrite (proj2 (check_claims_Ok c x)); [done|]. done.
    + apply id_validation_ok. split; [done|]. split; [done|]. split; [done|]. naive_solver.
Qed.

Lemma signing_algorithms_Ok m algs alg :
  signing_algorithms m = Ok algs -> alg ∈ algs ->
  is_asymmetric alg = true /\ advertised m alg.
Proof.
  unfold signing_algorithms, advertised. destruct (id_token_signing_alg_values_supported m) as [|n ns].
  - intros [= <-] ->%list_elem_of_singleton. auto.
  - destruct (List.filter _ _) as [|a l] eqn:E; [done|]. intros [= <-] Hin. rewrite <- E in Hin.
    apply list_elem_of_In, filter_In in Hin as [Hin Has]. split; [done|]. right.
    apply list_elem_of_In, list_elem_of_omap in Hin as (n' & ? & ?). eauto.
Qed.
End TokenLemmas.

(** ** The cache under interleaved logins *)

Section CacheLemmas.
Context {Jwk DK : Type} `{OidcPackages Jwk DK}.

Lemma cached_keys_Some now cache kid s :
  cached_keys now cache kid = Some s ->
  exists t, cache = Some (mkCachedJwks s t) /\ elapsed now t < JWKS_MAX_AGE
    /\ (serves_kid s kid = true \/ elapsed now t < JWKS_MIN_REFRESH).
Proof.
  unfold cached_keys. destruct cache as [[s' t]|]; [|done]. cbn. repeat case_match; bool_simp; try done.
  intros [= <-]. exists t. split; [done|]. split; [done|].
  match goal with H : (_ || _) = true |- _ => apply orb_true_iff in H as [?|?]; bool_simp; auto end.
Qed.

Lemma cached_keys_None now s t kid :
  cached_keys now (Some (mkCachedJwks s t)) kid = None ->
  JWKS_MAX_AGE <= elapsed now t \/ (serves_kid s kid = false /\ JWKS_MIN_REFRESH <= elapsed now t).
Proof. unfold cached_keys. cbn. repeat case_match; bool_simp; naive_solver. Qed.
End CacheLemmas.

Module Concurrent.
Section Concurrent.
Context {Jwk DK : Type} `{OidcPackages Jwk DK}.

(** The shared cache, the logins waiting for the issuer's key set, and the
    clock, which does not go back. *)
Record state := mkState { c_cache : option (CachedJwks Jwk); c_fetching : list (option str); c_clock : instant }.
Definition init : state := mkState None [] 0.

Inductive label :=
| Served (t : instant) (kid : option str) (keys : list Jwk)
| Asked (t : instant) (kid : option str)
| Stored (t : instant) (kid : option str) (keys : list Jwk) (answer : result OidcError (list Jwk))
| Failed (t : instant) (kid : option str).

Inductive step : state -> label -> state -> Prop :=
| step_served st t kid keys :
    c_clock st <= t -> cached_keys t (c_cache st) kid = Some keys ->
    step st (Served t kid keys) (mkState (c_cache st) (c_fetching st) t)
| step_asked st t kid :
    c_clock st <= t -> cached_keys t (c_cache st) kid = None ->
    step st (Asked t kid) (mkState (c_cache st) (c_fetching st ++ [kid]) t)
| step_stored st t kid keys f1 f2 :
    c_clock st <= t -> c_fetching st = f1 ++ kid :: f2 ->
    step st (Stored t kid keys (serve_fetched keys kid)) (mkState (Some (mkCachedJwks keys t)) (f1 ++ f2) t)
| step_failed st t kid f1 f2 :
    c_clock st <= t -> c_fetching st = f1 ++ kid :: f2 ->
    step st (Failed t kid) (mkState (c_cache st) (f1 ++ f2) t).

(** The last set a history stored, with its time. *)
Definition last_stored (ls : list label) : option (CachedJwks Jwk) :=
  foldl (fun acc l => match l with Stored t _ keys _ => Some (mkCachedJwks keys t) | _ => acc end) None ls.

(** The cache holds it, and nothing stored is later. *)
Record latest (ls : list label) (st : state) : Prop := {
  lt_last : c_cache st = last_stored ls;
  lt_newest : forall t kid keys a, Stored t kid keys a ∈ ls ->
    exists keys' t', c_cache st = Some (mkCachedJwks keys' t') /\ t <= t';
  lt_clock : forall keys t, c_cache st = Some (mkCachedJwks keys t) -> t <= c_clock st;
}.

Lemma latest_skip ls st l st' :
  latest ls st -> c_cache st' = c_cache st -> c_clock st <= c_clock st' ->
  (forall t kid keys a, l <> Stored t kid keys a) -> latest (ls ++ [l]) st'.
Proof.
  intros [H0 H1 H2] Hc Ht Hl. split; rewrite ?Hc.
  - rewrite H0. unfold last_stored. rewrite foldl_app. cbn. destruct l; try done. by edestruct Hl.
  - intros t kid keys a Hin. rewrite elem_of_app, list_elem_of_singleton in Hin.
    destruct Hin as [Hin|Hin]; [by eapply H1|by edestruct Hl].
  - intros keys t Hk. apply H2 in Hk. lia.
Qed.

Lemma latest_run ls st : run step init ls st -> latest ls st.
Proof.
  intros Hrun. remember init as s0 eqn:E0. induction Hrun as [|s ls s' l s'' Hrun IH Hstep].
  { subst. split; [done|set_solver|done]. }
  specialize (IH E0). destruct Hstep as [st t kid keys|st t kid|st t kid keys f1 f2 Ht Hf|st t kid f1 f2];
    try (by eapply latest_skip).
  split; cbn [c_cache c_clock].
  - unfold last_stored. by rewrite foldl_app.
  - intros t' kid' keys' a Hin. exists keys, t. split; [done|]. rewrite elem_of_app, list_elem_of_singleton in Hin.
    destruct Hin as [Hin|[= -> -> -> ->]]; [|lia].
    apply (lt_newest _ _ IH) in Hin as (k2 & t2 & Hk & ?). apply (lt_clock _ _ IH) in Hk. lia.
  - intros k t' [= <- <-]. lia.
Qed.

(** The state a label was fired from. *)
Lemma latest_before ls st l1 l l2 :
  run step init ls st -> ls = l1 ++ l :: l2 -> exists s1 s2, latest l1 s1 /\ step s1 l s2.
Proof. intros Hrun ->. apply run_at_label in Hrun as (s1 & s2 & Hr & Hs). exists s1, s2. split; [by apply latest_run|done]. Qed.
End Concurrent.
Arguments state : clear implicits.
Arguments label : clear implicits.
End Concurrent.

(** ** The client's requests *)

Section ClientLemmas.
Context {Url Jwk DK : Type} `{OidcPackages Jwk DK} `{HttpPackage}.

Definition redirects_ok (opts : SafeFetchOpts) : Prop := 0 <= max_redirects opts <= u8_max.

Lemma get_json_public {A} (n : Net Url) opts url wrap (fs : bytes -> result str A) :
  redirects_ok opts -> exists r l, get_json n opts url wrap fs = Some (r, l) /\ Forall public l.
Proof.
  intros Ho. unfold get_json.
  destruct (@safe_get_public Url (outside n) _ (deadline n) url opts Ho) as (r & l & -> & Hl & _).
  simpl. eauto.
Qed.

Lemma request_id_token_public (n : Net Url) c code v : Forall public (request_id_token n c code v).2.
Proof.
  unfold request_id_token.
  destruct (@safe_post_form_public Url (outside n) (deadline n) (m_token_endpoint (meta c)) (token_form c code v) (fetch c))
    as (r & l & -> & Hl & _). done.
Qed.

(** Where a key set that [keys_for] returns comes from. *)
Definition keys_from (n : Net Url) (t1 t2 : instant) (c : OidcClient) (cache cache' : option (CachedJwks Jwk))
    (jwks : list Jwk) : Prop :=
  (exists t, cache = Some (mkCachedJwks jwks t) /\ elapsed t1 t < JWKS_MAX_AGE /\ cache' = cache)
  \/ (exists l, fetch_keys n c = Some (Ok jwks, l) /\ cache' = Some (mkCachedJwks jwks t2)).

Lemma keys_for_spec (n : Net Url) t1 t2 c cache kid :
  redirects_ok (fetch c) ->
  exists r cache' l, keys_for n t1 t2 c cache kid = Some (r, cache', l) /\ Forall public l
    /\ forall jwks, r = Ok jwks -> keys_from n t1 t2 c cache cache' jwks.
Proof.
  intros Ho. unfold keys_for. destruct (cached_keys t1 cache kid) as [s|] eqn:E.
  - eexists _, _, _. split; [done|]. split; [constructor|]. intros jwks [= <-]. left.
    apply cached_keys_Some in E as (t & ? & ? & _). by exists t.
  - destruct (get_json_public n (fetch c) (jwks_uri (meta c)) (Jwks (m_issuer (meta c))) jwks_from_slice Ho)
      as (r & l & Hg & Hl). unfold keys_from, fetch_keys. rewrite Hg. simpl.
    destruct r as [s|e]; eexists _, _, _; (split; [done|]); (split; [done|]); [|done].
    intros jwks Hj. right. exists l. unfold serve_fetched in Hj.
    destruct kid as [k|]; [destruct (is_some _); [|done]|]; by injection Hj as <-.
Qed.

Lemma oidc_new_Ok m id secret redirect sc c :
  oidc_new m id secret redirect sc = Ok c ->
  meta c = m /\ client_id c = id /\ signing_algorithms m = Ok (algorithms c) /\ redirects_ok (fetch c)
  /\ redirect_uri c = redirect /\ client_secret c = secret /\ scope c = unwrap_or sc DEFAULT_SCOPE.
Proof.
  unfold oidc_new. intros (algs & Ha & [= <-])%result_bind_Ok. simpl. split; [done|]. split; [done|].
  split; [done|]. split; [vm_compute; by split|done].
Qed.

Lemma check_endpoints_Ok `{Outside Url} l :
  check_endpoints l = Ok () <-> Forall (fun '(_, v) => exists u, url_parse v = Ok u /\ scheme u = https) l.
Proof.
  induction l as [|[k v] l IH]; [done|]. rewrite Forall_cons. cbn [check_endpoints]. rewrite result_bind_Ok. setoid_rewrite IH.
  assert (Hc : (exists a : (), check_endpoint k v = Ok a) <-> exists u, url_parse v = Ok u /\ scheme u = https).
  { unfold check_endpoint. destruct (url_parse v) as [u|e]; simpl; [|naive_solver].
    destruct (scheme u =s https) eqn:E; simpl.
    - apply str_eqb_eq in E. naive_solver.
    - apply str_eqb_neq in E. naive_solver. }
  rewrite <- Hc. naive_solver.
Qed.

Lemma discover_Ok `{UrlQuery Url} n raw m l :
  discover n raw = Some (Ok m, l) ->
  @normalize_issuer Url (outside n) _ raw = Ok (trim_end_matches slash (m_issuer m))
  /\ Forall (fun v => exists u, @url_parse Url (outside n) v = Ok u /\ @scheme Url (outside n) u = https)
       [authorization_endpoint m; m_token_endpoint m; jwks_uri m].
Proof.
  unfold discover. destruct (@normalize_issuer Url (outside n) _ raw) as [i|e]; [|done].
  destruct (get_json _ _ _ _ _) as [[r l']|]; [|done]. simpl. intros [= Hr _].
  apply result_bind_Ok in Hr as (m' & -> & Hr). apply result_bind_Ok in Hr as ([] & Hc & [= ->]).
  unfold check_metadata in Hc. destruct (_ =s i) eqn:E; [|done]. apply str_eqb_eq in E. rewrite E.
  split; [done|]. apply check_endpoints_Ok in Hc.
  inversion_clear Hc as [|? ? He1 Hc1]. inversion_clear Hc1 as [|? ? He2 Hc2]. inversion_clear Hc2.
  by repeat constructor.
Qed.
End ClientLemmas.

(** ** Concrete packages for the witnesses

    One key [k1]; a token is its signing key, its expiry and what follows the
    issuer's name in its [iss].  A URL is a text and the pairs appended to it. *)
Module Demo.
Definition claims_of (issuer : str) (e : Z) : claims_map :=
  [(lit "iss", JString issuer); (lit "aud", JString (lit "app")); (lit "exp", JInt e); (lit "sub", JString (lit "u1"));
   (lit "nonce", JString (lit "n1"))].
Definition payload (tok : str) : option (Z * str * Z) :=
  match tok with k :: e :: rest => Some (k, lit "https://idp" ++ rest, e) | _ => None end.
Definition accepts (v : IdValidation) (now : Z) (issuer : str) (e : Z) : bool :=
  forallb (fun k => is_some (assoc k (claims_of issuer e))) (iv_required v)
  && bool_decide (issuer ∈ iv_iss v) && bool_decide (lit "app" ∈ iv_aud v) && (now <=? e + iv_leeway v).
Definition metadata (issuer : str) : IssuerMetadata :=
  mkMeta issuer (lit "https://idp/auth") (lit "https://idp/token") (lit "https://idp/jwks") [lit "RS256"].

Definition packages : OidcPackages (str * Z) Z := {|
  algorithm_from_str s := if s =s lit "RS256" then Some RS256 else None;
  algorithm_debug _ := lit "RS256";
  jwk_kid j := Some j.1;
  jwk_alg _ := None;
  jwks_find l k := List.find (fun j => j.1 =s k) l;
  decode_header _ := Ok (mkHeader RS256 (Some (lit "k1")));
  from_jwk j := Ok j.2;
  decode now tok key v :=
    match payload tok with
    | Some (k, i, e) => if (k =? key) && bool_decide (iv_alg v = RS256) && accepts v now i e then Ok (claims_of i e) else Err []
    | None => Err []
    end;
  id_signed key alg tok c := alg = RS256 /\ exists i e, payload tok = Some (key, i, e) /\ c = claims_of i e;
  numeric_date j := match j with JInt n => Some n | _ => None end;
  meta_from_slice _ := Ok (metadata (lit "https://idp"));
  jwks_from_slice _ := Ok [(lit "k1", 5)];
  token_from_slice _ := Ok (Some [5; 1000]);
  from_utf8_lossy b := b;
|}.

Lemma accepts_spec v now i e : accepts v now i e = true <-> @id_claims_ok _ _ packages v now (claims_of i e).
Proof.
  assert (Hreq : forallb (fun k => is_some (assoc k (claims_of i e))) (iv_required v) = true
    <-> Forall (fun k => is_Some (assoc k (claims_of i e))) (iv_required v)).
  { rewrite forallb_forall, Forall_forall. setoid_rewrite list_elem_of_In.
    split; intros Hk x Hx; specialize (Hk x Hx); destruct (assoc x _); naive_solver. }
  unfold accepts. rewrite !andb_true_iff, Hreq, !bool_decide_eq_true, Z.leb_le. split.
  - intros (((H1 & H2) & H3) & H4). split; [done| | | |by eexists]; intros j [= <-].
    + by apply names_one_of_string.
    + by apply names_one_of_string.
    + by exists e.
  - intros [H1 H2 H3 H4 _]. specialize (H2 _ eq_refl). specialize (H3 _ eq_refl). specialize (H4 _ eq_refl).
    apply names_one_of_string in H2, H3. destruct H4 as (e' & [= <-] & ?). done.
Qed.

Lemma packages_laws : @OidcPackagesLaws _ _ packages.
Proof.
  split; simpl.
  - intros l k j [Hin Hk]%find_some. apply str_eqb_eq in Hk as <-. split; [by apply list_elem_of_In|done].
  - intros l k j Hin [= <-]. destruct (List.find _ l) eqn:E; [done|].
    apply list_elem_of_In, (find_none _ _ E j) in Hin. by rewrite str_eqb_refl in Hin.
  - intros now tok key v c. destruct (payload tok) as [[[k i] e]|]; [|done].
    destruct (_ && _) eqn:E; [|done]. intros [= <-]. bool_simp. subst.
    split; [split; [done|by exists i, e]|by apply accepts_spec].
  - intros now tok key v c (-> & i & e & -> & ->) Hok%accepts_spec. by rewrite Z.eqb_refl, Hok.
Qed.

Abbreviation url := (str * list (str * str))%type.
Definition to_string (u : url) : str :=
  match u with
  | (s, []) => if bool_decide (length s = 1%nat) then [Z.pos (encode u)] else s
  | _ => [Z.pos (encode u)]
  end.
Definition parse_url (s : str) : result str url :=
  match s with
  | [Z.pos p] => ok_or (countable.decode p) []
  | _ => Ok (s, [])
  end.
Definition outside : Outside url := {|
  url_parse := parse_url;
  url_join u loc := parse_url loc;
  url_to_string := to_string;
  scheme _ := lit "https";
  host_str _ := Some (lit "idp");
  port_or_known_default _ := Some 443;
  form_urlencoded _ := [];
  lookup_host _ _ := Ok [Http.Demo.dns];
  exchange _ _ u _ _ := Ok (mkWire 200 None [] [Ok [1]]);
|}.
Definition query : UrlQuery url := {|
  url_query _ := None;
  url_fragment _ := None;
  append_pair u k v := (u.1, u.2 ++ [(k, v)]);
  query_pairs u := u.2;
|}.
Lemma query_laws : @UrlQueryLaws url outside query.
Proof.
  split; [done|]. intros [s l]. simpl. unfold to_string, parse_url. destruct l as [|kv l].
  - case_bool_decide as Hs; [by rewrite decode_encode|]. by destruct s as [|[] []].
  - by rewrite decode_encode.
Qed.
Definition net : Net url := mkNet outside None.
Definition tokens : TokenPackages := {| sha256 b := b; base64url b := b |}.
Definition client (issuer : str) : OidcClient :=
  mkClient (metadata issuer) (lit "app") (lit "secret") (lit "cb") DEFAULT_SCOPE [RS256] SafeFetchOpts_default.
Definition world : World url := mkWorld net net 0 1 900.
End Demo.

(** ** Properties *)

(** C8: which ID tokens are accepted, exactly.  [validate_id_token] returns
    claims if and only if the token's header names an expected algorithm, the
    set has the key the header selects (the one of its [kid], or the only key
    when it has none) and that key declares no other algorithm, the claims carry
    a good signature under it, and they say what they must: issuer and audience
    of this client, not expired (within a minute), a non-empty subject, the
    nonce of this attempt and, with several audiences, an [azp] naming this
    client. *)
Theorem validate_id_token_exact {Jwk DK} `{OidcPackagesLaws Jwk DK} now tok jwks x claims :
  validate_id_token now tok jwks x = Ok claims <->
  exists h jwk key, decode_header tok = Ok h /\ h_alg h ∈ x_algorithms x
    /\ jwk ∈ jwks /\ key_for jwks h jwk
    /\ from_jwk jwk = Ok key /\ id_signed key (h_alg h) tok claims /\ acceptable now x claims.
Proof.
  rewrite validate_id_token_Ok. split.
  - intros (h & jwk & key & ? & ? & Hk & ?). destruct (key_for_in _ _ _ Hk). exists h, jwk, key. done.
  - intros (h & jwk & key & ? & ? & _ & ?). exists h, jwk, key. done.
Qed.

Lemma validate_id_token_exact_witness :
  @validate_id_token _ _ Demo.packages 1060 [5; 1000] [(lit "k1", 5)]
    (expectations (Demo.client (lit "https://idp")) (lit "n1")) = Ok (Demo.claims_of (lit "https://idp") 1000).
Proof.
  apply (@validate_id_token_exact _ _ Demo.packages Demo.packages_laws).
  exists (mkHeader RS256 (Some (lit "k1"))), (lit "k1", 5), 5.
  split; [reflexivity|]. split; [apply (bool_decide_unpack _); vm_compute; exact I|]. split; [left|].
  split; [split; [vm_compute; reflexivity|discriminate]|]. split; [reflexivity|].
  split; [split; [reflexivity|eexists _, _; split; reflexivity]|]. split.
  - eexists. split; [reflexivity|]. apply names_one_of_string, list_elem_of_singleton. vm_compute. reflexivity.
  - eexists. split; [reflexivity|]. apply names_one_of_string, list_elem_of_singleton. reflexivity.
  - eexists _, _. split; [reflexivity|]. split; [reflexivity|]. lia.
  - eexists. split; [reflexivity|]. discriminate.
  - reflexivity.
  - discriminate.
Defined.

(** C9: a login that succeeds was vouched for by the issuer.  Whatever the
    token endpoint, the key endpoint and the cache hold, [exchange_code] always
    returns and contacts public addresses only; and if it returns an identity,
    the token endpoint answered this code and verifier with a token signed, by
    an asymmetric algorithm the issuer advertises, under a key of the issuer's
    set, that set being the cached one, less than an hour old, or one just
    fetched, which becomes the cached one; its claims are acceptable for this
    client and this attempt's nonce, and the identity is the issuer's name and
    the token's own non-empty subject. *)
Theorem oidc_login_sound {Url Jwk DK} `{OidcPackagesLaws Jwk DK} `{HttpPackage} m id secret redirect sc c
    (w : World Url) cache code verifier nonce :
  oidc_new m id secret redirect sc = Ok c ->
  exists r cache' l, exchange_code w c cache code verifier nonce = Some (r, cache', l)
  /\ Forall public l
  /\ forall identity claims, r = Ok (identity, claims) ->
     exists tok h jwks jwk key,
       (request_id_token (net_token w) c code verifier).1 = Ok tok /\ decode_header tok = Ok h
       /\ is_asymmetric (h_alg h) = true /\ advertised m (h_alg h)
       /\ keys_from (net_keys w) (at_read w) (at_store w) c cache cache' jwks
       /\ jwk ∈ jwks /\ key_for jwks h jwk /\ from_jwk jwk = Ok key /\ id_signed key (h_alg h) tok claims
       /\ acceptable (at_validate w)
            (mkExpectations (trim_end_matches slash (m_issuer m)) id nonce (algorithms c)) claims
       /\ id_issuer identity = m_issuer m
       /\ assoc (lit "sub") claims = Some (JString (subject identity)) /\ subject identity <> [].
Proof.
  intros (Hm & Hid & Halg & Hf & _)%oidc_new_Ok. subst m id. unfold exchange_code.
  pose proof (request_id_token_public (net_token w) c code verifier) as Hpub.
  destruct (request_id_token (net_token w) c code verifier) as [[tok|e] l]; simpl in Hpub;
    [|eexists _, _, _; split; [done|]; split; [done|]; done].
  destruct (decode_header tok) as [h|e] eqn:Eh; [|eexists _, _, _; split; [done|]; split; [done|]; done]. cbn [map_err].
  destruct (keys_for_spec (net_keys w) (at_read w) (at_store w) c cache (h_kid h) Hf) as (rk & cache' & l' & -> & Hl' & Hk).
  eexists _, _, _. split; [reflexivity|]. split; [by apply Forall_app|]. intros identity claims Hr.
  apply result_bind_Ok in Hr as (jwks & -> & Hr). apply result_bind_Ok in Hr as (cl & Hv & [= <- <-]).
  apply validate_id_token_Ok in Hv as (h' & jwk & key & Hh & Ha & Hkf & Hfj & Hs & Hacc).
  rewrite Eh in Hh. injection Hh as <-. destruct (key_for_in _ _ _ Hkf) as [Hin _].
  destruct (signing_algorithms_Ok _ _ _ Halg Ha) as [Has Hadv].
  exists tok, h, jwks, jwk, key. do 3 (split; [done|]). split; [exact Hadv|]. split; [by apply Hk|].
  do 5 (split; [done|]). split; [done|]. destruct (acc_sub _ _ _ Hacc) as (s & Hsub & Hne).
  unfold identity_from_claims. cbn [subject]. apply claim_str_Some in Hsub as Hc. rewrite Hc. done.
Qed.

Lemma oidc_login_sound_witness :
  exists r cache' l, @exchange_code _ _ _ Demo.packages visible_http Demo.world (Demo.client (lit "https://idp")) None
      (lit "code") (lit "v") (lit "n1") = Some (r, cache', l)
    /\ Forall public l
    /\ r = Ok (mkIdentity (lit "https://idp") (lit "u1") None false None, Demo.claims_of (lit "https://idp") 1000).
Proof.
  destruct (@oidc_login_sound _ _ _ Demo.packages Demo.packages_laws visible_http (Demo.metadata (lit "https://idp"))
    (lit "app") (lit "secret") (lit "cb") None (Demo.client (lit "https://idp")) Demo.world None (lit "code") (lit "v")
    (lit "n1") ltac:(vm_compute; reflexivity)) as (r & cache' & l & E & Hl & _).
  exists r, cache', l. split; [exact E|]. split; [exact Hl|]. vm_compute in E. injection E as <- _ _. vm_compute. reflexivity.
Defined.

(** C23: a login attempt is bound from end to end.  For a client built from
    discovered metadata, the document is the requested issuer's (up to a final
    slash), the authorization request is always built (the [expect] cannot
    panic), its endpoint is https, and its URL, parsed back, carries after the
    endpoint's own parameters this client's identifier, redirect and scope and
    the state, the nonce and the S256 challenge of the verifier that the caller
    keeps; the token request then sends the verifier and redirect of the same
    attempt, and an identity comes only with a token that carries its nonce. *)
Theorem oidc_attempt_bound {Url Jwk DK} `{OidcPackagesLaws Jwk DK} `{HttpPackage} `{UrlQueryLaws Url} `{TokenPackages}
    d raw m l id secret redirect sc c r1 r2 r3 :
  discover (mkNet _ d) raw = Some (Ok m, l) -> oidc_new m id secret redirect sc = Ok c ->
  normalize_issuer raw = Ok (trim_end_matches slash (m_issuer m))
  /\ exists req u u0, authorize r1 r2 r3 c = Some req
     /\ url_parse (authorization_endpoint m) = Ok u0 /\ scheme u0 = https
     /\ url_parse (oar_url req) = Ok u
     /\ query_pairs u = query_pairs u0 ++
          [(lit "client_id", id); (lit "redirect_uri", redirect); (lit "response_type", lit "code");
           (lit "scope", unwrap_or sc DEFAULT_SCOPE); (lit "state", oar_state req); (lit "nonce", oar_nonce req);
           (lit "code_challenge", pkce_challenge_s256 (oar_pkce_verifier req)); (lit "code_challenge_method", lit "S256")]
     /\ (forall code, assoc (lit "code_verifier") (token_form c code (oar_pkce_verifier req)) = Some (oar_pkce_verifier req)
          /\ assoc (lit "redirect_uri") (token_form c code (oar_pkce_verifier req)) = Some redirect)
     /\ (forall (w : World Url) cache code identity claims cache' l',
          exchange_code w c cache code (oar_pkce_verifier req) (oar_nonce req) = Some (Ok (identity, claims), cache', l') ->
          assoc (lit "nonce") claims = Some (JString (oar_nonce req))).
Proof.
  intros [Hn He]%discover_Ok (Hm & Hid & _ & _ & Hred & _ & Hsc)%oidc_new_Ok. subst m id redirect. simpl in Hn, He.
  apply Forall_cons in He as [(u0 & Hu0 & Hs0) _]. split; [done|]. unfold authorize. rewrite Hu0.
  eexists _, _, u0. split; [reflexivity|]. split; [done|]. split; [done|]. cbn [oar_url oar_state oar_nonce oar_pkce_verifier].
  split; [apply url_reparse|]. split; [rewrite query_pairs_append_pairs, Hsc; reflexivity|].
  split; [done|]. intros w cache code identity claims cache' l' Hx. unfold exchange_code in Hx.
  destruct (request_id_token _ _ _ _) as [[tok|e] lt]; [|done]. destruct (decode_header tok) as [h|e]; [|done].
  cbn [map_err] in Hx. destruct (keys_for _ _ _ _ _ _) as [[[rk ca] lk]|]; [|done]. cbn in Hx. injection Hx as Hx _ _.
  apply result_bind_Ok in Hx as (jwks & _ & Hx). apply result_bind_Ok in Hx as (cl & Hv & [= _ <-]).
  apply validate_id_token_Ok in Hv as (? & ? & ? & _ & _ & _ & _ & _ & Hacc). exact (acc_nonce _ _ _ Hacc).
Qed.

Lemma oidc_attempt_bound_witness :
  exists req, @authorize _ Demo.outside Demo.query Demo.tokens [1] [2] [3] (Demo.client (lit "https://idp")) = Some req
    /\ oar_nonce req = [2].
Proof.
  destruct (proj2 (@oidc_attempt_bound _ _ _ Demo.packages Demo.packages_laws visible_http Demo.outside Demo.query Demo.query_laws
    Demo.tokens None (lit "https://idp/") (Demo.metadata (lit "https://idp")) [Http.Demo.dns] (lit "app") (lit "secret") (lit "cb")
    None (Demo.client (lit "https://idp")) [1] [2] [3] ltac:(vm_compute; reflexivity) ltac:(vm_compute; reflexivity)))
    as (req & u & u0 & E & _).
  exists req. split; [exact E|]. vm_compute in E. injection E as <-. reflexivity.
Defined.

(** C24: the key cache is fresh and spares the issuer, under every
    interleaving of logins.  A set is served from the cache only if it is the
    last one stored, less than an hour before, and has the key asked for unless
    it is less than a minute old; the issuer is asked only when the last set
    stored is an hour old, or is a minute old and lacks the key (or none was
    stored): so no request starts within a minute after any store, whatever
    unknown keys the tokens name.  (Once the set is older, every login that
    misses may ask, until one of them stores.) *)
Theorem jwks_cache_fresh_and_sparing {Jwk DK} `{OidcPackages Jwk DK} ls st :
  run Concurrent.step Concurrent.init ls st ->
  (forall l1 t kid keys l2, ls = l1 ++ Concurrent.Served t kid keys :: l2 ->
     exists t0, Concurrent.last_stored l1 = Some (mkCachedJwks keys t0) /\ 0 <= t - t0 < JWKS_MAX_AGE
       /\ (serves_kid keys kid = true \/ t - t0 < JWKS_MIN_REFRESH))
  /\ (forall l1 t kid l2, ls = l1 ++ Concurrent.Asked t kid :: l2 ->
     (forall keys t0, Concurrent.last_stored l1 = Some (mkCachedJwks keys t0) ->
        JWKS_MAX_AGE <= t - t0 \/ (serves_kid keys kid = false /\ JWKS_MIN_REFRESH <= t - t0))
     /\ (forall t0 kid0 keys a, Concurrent.Stored t0 kid0 keys a ∈ l1 -> JWKS_MIN_REFRESH <= t - t0)).
Proof.
  intros Hrun. split.
  - intros l1 t kid keys l2 E. destruct (Concurrent.latest_before _ _ _ _ _ Hrun E) as (s1 & s2 & [Hlast _ Hcl] & Hs).
    inversion Hs as [? ? ? ? Ht Hc| | |]; subst. apply cached_keys_Some in Hc as (t0 & Hc & Hage & Hk).
    specialize (Hcl _ _ Hc). exists t0. rewrite <- Hlast. unfold elapsed in *. split; [done|].
    split; [lia|]. destruct Hk; [by left|right; lia].
  - intros l1 t kid l2 E. destruct (Concurrent.latest_before _ _ _ _ _ Hrun E) as (s1 & s2 & [Hlast Hnew Hcl] & Hs).
    inversion Hs as [|? ? ? Ht Hc| |]; subst.
    assert (Hall : forall keys t0, Concurrent.c_cache s1 = Some (mkCachedJwks keys t0) ->
      JWKS_MAX_AGE <= t - t0 \/ (serves_kid keys kid = false /\ JWKS_MIN_REFRESH <= t - t0)).
    { intros keys t0 Hk. specialize (Hcl _ _ Hk). rewrite Hk in Hc. apply cached_keys_None in Hc.
      unfold elapsed in Hc. rewrite Z.max_r in Hc by lia. done. }
    split; [by rewrite <- Hlast|]. intros t0 kid0 keys a Hin. apply Hnew in Hin as (k' & t' & Hk & Hle).
    specialize (Hall _ _ Hk). unfold JWKS_MAX_AGE, JWKS_MIN_REFRESH in *. lia.
Qed.

Lemma jwks_cache_fresh_and_sparing_witness :
  exists t0, @Concurrent.last_stored (str * Z)
      [Concurrent.Asked 0 None; Concurrent.Stored 5 None [(lit "k1", 5)] (Ok [(lit "k1", 5)])]
    = Some (mkCachedJwks [(lit "k1", 5)] t0) /\ 0 <= 7 - t0 < JWKS_MAX_AGE
    /\ (@serves_kid _ _ Demo.packages [(lit "k1", 5)] (Some (lit "zz")) = true \/ 7 - t0 < JWKS_MIN_REFRESH).
Proof.
  eapply (proj1 (@jwks_cache_fresh_and_sparing _ _ Demo.packages
    ([Concurrent.Asked 0 None; Concurrent.Stored 5 None [(lit "k1", 5)] (Ok [(lit "k1", 5)])]
     ++ [Concurrent.Served 7 (Some (lit "zz")) [(lit "k1", 5)]]) (Concurrent.mkState (Some (mkCachedJwks [(lit "k1", 5)] 5)) [] 7) _)
    _ 7 (Some (lit "zz")) [(lit "k1", 5)] [] eq_refl).
  Unshelve.
  eapply run_snoc; [eapply (run_snoc _ _ [_]); [eapply (run_snoc _ _ []); [constructor|]|]|].
  - apply Concurrent.step_asked; [simpl; lia|reflexivity].
  - eapply (Concurrent.step_stored _ 5 None _ [] []); [simpl; lia|reflexivity].
  - apply Concurrent.step_served; [simpl; lia|vm_compute; reflexivity].
Defined.

(** An issuer whose name ends in a slash locks its users out.
    [check_metadata] accepts such a name, but the slash is stripped from the
    issuer expected in ID tokens and not from the [iss] they carry: no token
    whose [iss] is the issuer's own name, as the specification requires it to
    be, is ever accepted. *)
Theorem slash_issuer_locked_out {Url Jwk DK} `{OidcPackagesLaws Jwk DK} `{Outside Url} m id secret redirect sc c base :
  oidc_new m id secret redirect sc = Ok c -> m_issuer m = base ++ [slash] ->
  (check_endpoints [(lit "authorization_endpoint", authorization_endpoint m); (lit "token_endpoint", m_token_endpoint m);
                    (lit "jwks_uri", jwks_uri m)] = Ok () ->
   check_metadata (trim_end_matches slash base) m = Ok ())
  /\ (forall now tok jwks nonce claims, validate_id_token now tok jwks (expectations c nonce) = Ok claims ->
      assoc (lit "iss") claims <> Some (JString (m_issuer m))).
Proof.
  intros (Hm & _)%oidc_new_Ok Hi. subst m. split.
  - intros Hc. unfold check_metadata. rewrite Hi, trim_end_matches_snoc, str_eqb_refl. exact Hc.
  - intros now tok jwks nonce claims Hv Hiss. apply validate_id_token_Ok in Hv as (_ & _ & _ & _ & _ & _ & _ & _ & Hacc).
    destruct (acc_iss _ _ _ Hacc) as (j & Hj & Hn). rewrite Hiss in Hj. injection Hj as <-.
    apply names_one_of_string, list_elem_of_singleton in Hn. simpl in Hn. symmetry in Hn. rewrite Hi in Hn.
    apply drop_while_end_last in Hn. done.
Qed.

Lemma slash_issuer_locked_out_witness :
  @check_metadata _ Demo.outside (lit "https://idp") (Demo.metadata (lit "https://idp/")) = Ok ()
  /\ @validate_id_token _ _ Demo.packages 900 [5; 1000; slash] [(lit "k1", 5)]
       (expectations (Demo.client (lit "https://idp/")) (lit "n1")) <> Ok (Demo.claims_of (lit "https://idp/") 1000).
Proof.
  destruct (@slash_issuer_locked_out _ _ _ Demo.packages Demo.packages_laws Demo.outside (Demo.metadata (lit "https://idp/"))
    (lit "app") (lit "secret") (lit "cb") None (Demo.client (lit "https://idp/")) (lit "https://idp")
    ltac:(vm_compute; reflexivity) ltac:(reflexivity)) as [Hc Hv]. split.
  - apply Hc. vm_compute. reflexivity.
  - intros Hok. apply (Hv _ _ _ _ _ Hok). vm_compute. reflexivity.
Defined.
