(* ===== verification/Cache.v ===== *)
(** * The Valkey connection ([crates/cache/src/lib.rs])

    The configuration and its redacted rendering, the percent-encoding of
    credentials in a connection URL, and the connection procedure.  The
    percent-encoder, the [fred] client, certificate parsing and the file system
    are the operations of classes; the encoder's documented behaviour is the
    laws of a second one. *)

From S2P Require Import Prelude RustStr.

(** ** Configuration *)

Record CacheConfig := mkCacheConfig {
  url : str;
  pool_size : Z;
  ca_cert_path : option str;
  password : option str;
}.

Definition at_sign : char := 64.
Definition colon : char := 58.
(** [\['?', '#'\]] and [\['/', '?', '#'\]]. *)
Definition query_or_fragment (c : char) : bool := (c =? 63) || (c =? 35).
Definition ends_host (c : char) : bool := (c =? 47) || query_or_fragment c.
Definition scheme_sep : str := lit "://".
Definition redacted : str := lit "<redacted>".

(** [s.find(p).unwrap_or(s.len())]. *)
Definition find_or_len (p : char -> bool) (s : str) : nat := unwrap_or (find_char p s) (length s).

Definition redact_url (url : str) : str :=
  match find_str scheme_sep url with
  | None => redacted
  | Some scheme_end =>
      let scheme := take (scheme_end + 3) url in
      let rest := drop (scheme_end + 3) url in
      let search_end := find_or_len query_or_fragment rest in
      let finish (after_userinfo : str) := scheme ++ take (find_or_len ends_host after_userinfo) after_userinfo in
      match rfind_char (Z.eqb at_sign) (take search_end rest) with
      | Some at_pos => finish (drop (S at_pos) rest)
      | None => if contains_char (Z.eqb at_sign) rest then scheme ++ redacted else finish rest
      end
  end.

(** [Debug]: the fields in order, each already rendered. *)
Record DebugConfig := mkDebugConfig {
  debug_url : str;
  debug_pool_size : Z;
  debug_ca_cert_path : option str;
  debug_password : option str;
}.
Definition debug_config (c : CacheConfig) : DebugConfig :=
  mkDebugConfig (redact_url (url c)) (pool_size c) (ca_cert_path c) ((fun _ => redacted) <$> password c).

(** [from_env], over the environment ([std::env::var] without its errors). *)
Definition from_env (var : str -> option str) : result str CacheConfig :=
  u ← ok_or (match var (lit "VALKEY_URL") with Some v => Some v | None => var (lit "REDIS_URL") end)
        (lit "VALKEY_URL (or REDIS_URL) not set");
  Ok (mkCacheConfig u
        (unwrap_or (var (lit "VALKEY_POOL_SIZE") ≫= parse_u64) 6)
        (var (lit "VALKEY_CA_CERT"))
        (match var (lit "VALKEY_PASSWORD") with
         | Some v => if bool_decide (v = []) then None else Some v
         | None => None
         end)).

(** ** Credentials in the URL *)

Class PercentEncoding := {
  (** [utf8_percent_encode(_, NON_ALPHANUMERIC)], and the decoding of a URL's
      user and password. *)
  pct_encode : str -> str;
  pct_decode : str -> option bytes;
}.
(** Everything but ASCII letters and digits is escaped. *)
Definition pct_safe (s : str) : Prop := Forall (fun c => is_ascii_alphanumeric c = true \/ c = 37) s.
Class PercentEncodingLaws `{PercentEncoding} : Prop := {
  pct_encode_safe s : is_unicode s -> pct_safe (pct_encode s);
  pct_decode_encode s : is_unicode s -> pct_decode (pct_encode s) = Some (as_bytes s);
}.

Section Encode.
Context `{PercentEncoding}.

Definition percent_encode_userinfo (url : str) : str :=
  match find_str scheme_sep url with
  | None => url
  | Some scheme_end =>
      let scheme := take (scheme_end + 3) url in
      let rest := drop (scheme_end + 3) url in
      let search_end := find_or_len query_or_fragment rest in
      match rfind_char (Z.eqb at_sign) (take search_end rest) with
      | None => url
      | Some at_pos =>
          let userinfo := take at_pos rest in
          let after_at := drop (S at_pos) rest in
          let host_end := find_or_len ends_host after_at in
          let host_part := take host_end after_at in
          let tail := drop host_end after_at in
          match split_once colon userinfo with
          | Some (user, pass) =>
              scheme ++ pct_encode user ++ [colon] ++ pct_encode pass ++ [at_sign] ++ host_part ++ tail
          | None => scheme ++ pct_encode userinfo ++ [at_sign] ++ host_part ++ tail
          end
      end
  end.
End Encode.

(** ** Connecting *)

Inductive FredErrorKind := FTimeout | FCanceled | FIO | FOther.
Record FredError := mkFredError { kind : FredErrorKind; details : str }.
#[export] Instance FredErrorKind_eq_dec : EqDecision FredErrorKind.
Proof. solve_decision. Defined.
#[export] Instance FredError_eq_dec : EqDecision FredError.
Proof. solve_decision. Defined.

Definition TRANSIENT_IO_ERRORS : list str :=
  lit <$> ["ConnectionRefused"%string; "ConnectionReset"%string; "ConnectionAborted"%string; "TimedOut"%string;
           "HostUnreachable"%string; "NetworkUnreachable"%string; "NotConnected"%string; "BrokenPipe"%string;
           "UnexpectedEof"%string; "failed to lookup address"%string].

Definition is_transient (e : FredError) : bool :=
  match kind e with
  | FTimeout | FCanceled => true
  | FIO => existsb (fun k => is_some (find_str k (details e))) TRANSIENT_IO_ERRORS
  | FOther => false
  end.

(** In milliseconds. *)
Definition RECONNECT_MIN_DELAY_MS : Z := 100.
Definition RECONNECT_MAX_DELAY_MS : Z := 30000.
Definition COMMAND_TIMEOUT : Z := 1000.
Definition INITIAL_CONNECT_WAIT : Z := 5000.

(** The fields of [fred]'s configuration the code sets, beside the rest; the
    settings of a pool. *)
Record FredConfig (B T : Type) := mkFredConfig
  { f_base : B; f_password : option str; f_tls : option T; f_fail_fast : bool }.
Arguments mkFredConfig {B T} f_base f_password f_tls f_fail_fast.
Arguments f_base {B T} f.
Arguments f_password {B T} f.
Arguments f_tls {B T} f.
Arguments f_fail_fast {B T} f.
Record PoolSettings := mkPoolSettings
  { command_timeout : Z; reconnect_attempts : Z; reconnect_min : Z; reconnect_max : Z; reconnect_base : Z; size : Z }.

(** What waiting for the first connection gave. *)
Inductive Wait := WConnected | WFailed (e : FredError) | WElapsed.
#[export] Instance Wait_eq_dec : EqDecision Wait.
Proof. solve_decision. Defined.

Class FredClient (B T Cert P : Type) := {
  config_from_url : str -> result str (FredConfig B T);
  (** [Display] of an error. *)
  fred_display : FredError -> str;
  read_file : str -> result str bytes;
  pem_certs : bytes -> result str (list Cert);
  (** [RootCertStore::add], and the client configuration over the store. *)
  root_valid : Cert -> result str ();
  client_config : list Cert -> T;
  new_pool : FredConfig B T -> PoolSettings -> result str P;
}.

Section Connect.
Context {B T Cert P : Type} `{PercentEncoding} `{FredClient B T Cert P}.

Fixpoint add_roots (roots : list Cert) (certs : list Cert) : result str (list Cert) :=
  match certs with
  | [] => Ok roots
  | c :: certs' =>
      _ ← map_err (fun e => lit "invalid CA certificate in VALKEY_CA_CERT: " ++ e) (root_valid c);
      add_roots (roots ++ [c]) certs'
  end.
Definition rustls_config_with_ca (path : str) : result str T :=
  pem ← map_err (fun e => lit "failed to read VALKEY_CA_CERT (" ++ path ++ lit "): " ++ e) (read_file path);
  certs ← map_err (fun e => lit "failed to parse VALKEY_CA_CERT PEM: " ++ e) (pem_certs pem);
  if bool_decide (length certs = 0%nat) then Err (lit "VALKEY_CA_CERT (" ++ path ++ lit ") contains no certificates")
  else roots ← add_roots [] certs; Ok (client_config roots).

Definition set_tls (cfg : FredConfig B T) (t : T) : FredConfig B T :=
  mkFredConfig (f_base cfg) (f_password cfg) (Some t) (f_fail_fast cfg).
(** The configuration [connect] builds before it opens anything. *)
Definition connect_config (config : CacheConfig) : result str (FredConfig B T) :=
  cfg ← map_err (fun e => lit "invalid VALKEY_URL: " ++ e) (config_from_url (percent_encode_userinfo (url config)));
  let cfg := match password config with
             | Some p => mkFredConfig (f_base cfg) (Some p) (f_tls cfg) (f_fail_fast cfg)
             | None => cfg
             end in
  if starts_with (lit "rediss://") (url config) then
    match ca_cert_path config with
    | Some path => t ← rustls_config_with_ca path; Ok (set_tls cfg t)
    | None => Ok cfg
    end
  else Ok cfg.

Definition settings (config : CacheConfig) : PoolSettings :=
  mkPoolSettings COMMAND_TIMEOUT 0 RECONNECT_MIN_DELAY_MS RECONNECT_MAX_DELAY_MS 2 (pool_size config).
Definition build (config : CacheConfig) (cfg : FredConfig B T) : result str P :=
  map_err (fun e => lit "failed to build Valkey pool: " ++ e) (new_pool cfg (settings config)).
Definition keep_trying (cfg : FredConfig B T) : FredConfig B T :=
  mkFredConfig (f_base cfg) (f_password cfg) (f_tls cfg) false.

Definition connect (wait : Wait) (config : CacheConfig) : result str P :=
  cfg ← connect_config config;
  probe ← build config cfg;
  match wait with
  | WConnected => Ok probe
  | WFailed e => if negb (is_transient e) then Err (lit "Valkey connect failed: " ++ fred_display e)
                 else build config (keep_trying cfg)
  | WElapsed => build config (keep_trying cfg)
  end.
End Connect.

(** ** Specifications *)

(** The parts of a URL as RFC 3986 cuts it: the authority ends at the first
    of [/ ? #], the user information at its last [@], the user at the first
    [:] of that. *)
Definition parse_authority (url : str) : option (str * option (str * option str) * str * str) :=
  i ← find_str scheme_sep url;
  let scheme := take i url in
  let rest := drop (i + 3) url in
  let n := find_or_len ends_host rest in
  let authority := take n rest in
  let tail := drop n rest in
  Some match rsplit_once at_sign authority with
       | None => (scheme, None, authority, tail)
       | Some (userinfo, host) =>
           match split_once colon userinfo with
           | Some (u, p) => (scheme, Some (u, Some p), host, tail)
           | None => (scheme, Some (userinfo, None), host, tail)
           end
       end.

Definition no_query (s : str) : Prop := Forall (fun c => query_or_fragment c = false) s.
Definition plain_host (s : str) : Prop := Forall (fun c => ends_host c = false /\ c <> at_sign) s.
(** The part of a text before its first [?] or [#]. *)
Definition before_query (s : str) : str := take (find_or_len query_or_fragment s) s.
(** A path, query and fragment whose path has no [@]. *)
Definition plain_tail (s : str) : Prop :=
  (s = [] \/ exists c s', s = c :: s' /\ ends_host c = true) /\ char_free at_sign (before_query s).

(** ** Lemmas *)

Lemma find_str_scheme scheme rest :
  char_free colon scheme -> find_str scheme_sep (scheme ++ scheme_sep ++ rest) = Some (length scheme).
Proof.
  induction 1 as [|c s Hc Hs IH]; [done|].
  cbn [app find_str length].
  assert (starts_with scheme_sep (c :: s ++ scheme_sep ++ rest) = false) as ->.
  { destruct (starts_with _ _) eqn:E; [|done]. apply starts_with_spec in E as [r E].
    change (scheme_sep ++ r) with (colon :: [47; 47] ++ r) in E. injection E as -> _. by destruct Hc. }
  by rewrite IH.
Qed.

Lemma take_scheme (scheme rest : str) : take (length scheme + 3) (scheme ++ scheme_sep ++ rest) = scheme ++ scheme_sep.
Proof. rewrite app_assoc, take_app_length' by (rewrite length_app; reflexivity). done. Qed.
Lemma drop_scheme (scheme rest : str) : drop (length scheme + 3) (scheme ++ scheme_sep ++ rest) = rest.
Proof. rewrite app_assoc, drop_app_length' by (rewrite length_app; reflexivity). done. Qed.

Lemma find_or_len_app p a b : Forall (fun c => p c = false) a -> find_or_len p (a ++ b) = (length a + find_or_len p b)%nat.
Proof.
  unfold find_or_len. induction 1 as [|c a Hc Ha IH]; [done|]. simpl. rewrite Hc.
  destruct (find_char p (a ++ b)); simpl in *; lia.
Qed.
Lemma find_or_len_head p c s : p c = true -> find_or_len p (c :: s) = 0%nat.
Proof. unfold find_or_len. simpl. by intros ->. Qed.
Lemma find_or_len_le p s : (find_or_len p s <= length s)%nat.
Proof.
  unfold find_or_len. destruct (find_char p s) as [i|] eqn:E; simpl; [|lia].
  apply find_char_Some in E as (c & Hs & _ & _). rewrite Hs, length_app. simpl. rewrite length_take.
  assert (i < length s)%nat; [|lia]. apply (f_equal length) in Hs. rewrite length_app, length_take in Hs. simpl in Hs. lia.
Qed.

Lemma before_query_app a b : no_query a -> before_query (a ++ b) = a ++ before_query b.
Proof. intros Ha. unfold before_query. rewrite find_or_len_app by done. by rewrite take_app_add. Qed.

Lemma free_eqb c s : char_free c s -> Forall (fun d => (c =? d) = false) s.
Proof. intros H. eapply Forall_impl; [exact H|]. intros d Hd. apply Z.eqb_neq. congruence. Qed.

Lemma plain_host_host s : plain_host s -> Forall (fun c => ends_host c = false) s.
Proof. intros H. eapply Forall_impl; [exact H|]. by intros c []. Qed.
Lemma plain_host_at s : plain_host s -> char_free at_sign s.
Proof. intros H. eapply Forall_impl; [exact H|]. by intros c []. Qed.
Lemma ends_host_query s : Forall (fun c => ends_host c = false) s -> no_query s.
Proof. intros H. eapply Forall_impl; [exact H|]. unfold ends_host. intros c Hc. by bool_simp. Qed.
Lemma plain_tail_end s : plain_tail s -> find_or_len ends_host s = 0%nat.
Proof. intros [[->|(c & s' & -> & Hc)] _]; [done|]. by apply find_or_len_head. Qed.

Lemma pct_safe_free c s : pct_safe s -> is_ascii_alphanumeric c = false -> c <> 37 -> char_free c s.
Proof. intros H Hc Hn. eapply Forall_impl; [exact H|]. intros d [Hd| ->]; congruence. Qed.
Lemma pct_safe_host s : pct_safe s -> Forall (fun c => ends_host c = false) s.
Proof.
  intros H. eapply Forall_impl; [exact H|]. intros c Hc. unfold ends_host, query_or_fragment.
  destruct (c =? 47) eqn:E1; [bool_simp; subst; destruct Hc; done|].
  destruct (c =? 63) eqn:E2; [bool_simp; subst; destruct Hc; done|].
  destruct (c =? 35) eqn:E3; [bool_simp; subst; destruct Hc; done|]. done.
Qed.

(** The separator [percent_encode_userinfo] and [redact_url] look for. *)
Lemma last_at userinfo host tail :
  no_query userinfo -> plain_host host -> plain_tail tail ->
  let rest := userinfo ++ at_sign :: host ++ tail in
  rfind_char (Z.eqb at_sign) (take (find_or_len query_or_fragment rest) rest) = Some (length userinfo).
Proof.
  intros Hu Hh [_ Ht] rest. fold (before_query rest). unfold rest. rewrite before_query_app by done.
  change (at_sign :: host ++ tail) with ([at_sign] ++ host ++ tail).
  rewrite before_query_app by (by repeat constructor).
  rewrite before_query_app by (by apply ends_host_query, plain_host_host).
  apply rfind_char_app; [|done]. apply free_eqb, Forall_app. split; [by apply plain_host_at|done].
Qed.

(** The separator found is the one that ends the user information or a later
    one. *)
Lemma shown_after_userinfo userinfo after p :
  no_query userinfo \/ char_free at_sign (before_query userinfo) ->
  rfind_char (Z.eqb at_sign) (before_query (userinfo ++ at_sign :: after)) = Some p ->
  exists pre, after = pre ++ drop (S p) (userinfo ++ at_sign :: after).
Proof.
  intros Hu E. assert (no_query userinfo) as Hq.
  { destruct Hu as [Hu|Hu]; [done|]. apply find_char_None.
    destruct (find_char query_or_fragment userinfo) as [i|] eqn:Ei; [|done]. exfalso.
    assert (before_query (userinfo ++ at_sign :: after) = before_query userinfo) as Hb.
    { destruct (find_char_Some _ _ _ Ei) as (c & Hs & Hc & HF). unfold before_query, find_or_len.
      assert (find_char query_or_fragment (userinfo ++ at_sign :: after) = Some i) as ->.
      { rewrite Hs, <- app_assoc. cbn [app]. rewrite find_char_app by done. f_equal.
        rewrite length_take. apply (f_equal length) in Hs. rewrite length_app, length_take in Hs. simpl in Hs. lia. }
      rewrite Ei. simpl. rewrite Hs at 1. rewrite <- app_assoc, take_app_le; [|rewrite length_take].
      - by rewrite take_take, Nat.min_id.
      - apply (f_equal length) in Hs. rewrite length_app, length_take in Hs. simpl in Hs. lia. }
    rewrite Hb, (proj2 (rfind_char_None _ _)) in E; [done|]. by apply free_eqb. }
  assert (length userinfo <= p)%nat as Hp.
  { destruct (decide (length userinfo <= p)%nat) as [|Hlt]; [done|]. exfalso.
    apply rfind_char_Some in E as (c & _ & _ & HF). rewrite before_query_app in HF by done.
    change (at_sign :: after) with ([at_sign] ++ after) in HF. rewrite before_query_app in HF by (by repeat constructor).
    rewrite drop_app_le in HF by lia. apply Forall_app in HF as [_ HF]. cbn in HF. by inversion HF. }
  exists (take (p - length userinfo) after).
  replace (S p) with (length userinfo + S (p - length userinfo))%nat by lia.
  rewrite drop_app_add. cbn [drop]. by rewrite take_drop.
Qed.

Lemma encode_credentials `{PercentEncoding} scheme user pass host tail :
  char_free colon scheme -> no_query user -> no_query pass -> char_free colon user -> plain_host host -> plain_tail tail ->
  percent_encode_userinfo (scheme ++ scheme_sep ++ user ++ colon :: pass ++ at_sign :: host ++ tail)
  = scheme ++ scheme_sep ++ pct_encode user ++ colon :: pct_encode pass ++ at_sign :: host ++ tail.
Proof.
  intros Hs Hqu Hqp Hcu Hh Ht. unfold percent_encode_userinfo.
  rewrite find_str_scheme, take_scheme, drop_scheme by done.
  assert (user ++ colon :: pass ++ at_sign :: host ++ tail = (user ++ colon :: pass) ++ at_sign :: host ++ tail) as Ea
    by (by rewrite <- app_assoc).
  assert (no_query (user ++ colon :: pass)) as Hq by (apply Forall_app; split; [done|by constructor]).
  rewrite Ea, last_at by done.
  rewrite take_app_length, drop_cut.
  rewrite find_or_len_app, (plain_tail_end tail Ht), Nat.add_0_r by (by apply plain_host_host).
  rewrite take_app_length, drop_app_length, split_once_app by done. by rewrite <- !app_assoc.
Qed.

Lemma parse_encoded scheme u p host tail :
  char_free colon scheme -> pct_safe u -> pct_safe p -> plain_host host -> plain_tail tail ->
  parse_authority (scheme ++ scheme_sep ++ u ++ colon :: p ++ at_sign :: host ++ tail)
  = Some (scheme, Some (u, Some p), host, tail).
Proof.
  intros Hs Hu Hp Hh Ht. unfold parse_authority. rewrite find_str_scheme by done. cbn [mbind option_bind].
  rewrite drop_scheme, take_app_length.
  assert (u ++ colon :: p ++ at_sign :: host ++ tail = ((u ++ colon :: p) ++ at_sign :: host) ++ tail) as ->
    by (by rewrite <- !app_assoc).
  rewrite find_or_len_app, (plain_tail_end tail Ht), Nat.add_0_r, take_app_length, drop_app_length.
  - rewrite rsplit_once_app by (by apply plain_host_at). rewrite split_once_app; [done|].
    by apply pct_safe_free.
  - apply pct_safe_host in Hu, Hp. apply plain_host_host in Hh. rewrite !Forall_app, !Forall_cons. done.
Qed.

(** ** The installed encoder, and why it keeps the laws *)

Module Demo.
Definition hex_upper_val (c : char) : option Z :=
  if is_ascii_digit c then Some (c - 48) else if in_range 65 70 c then Some (c - 55) else None.
Fixpoint percent_decode (s : str) : option bytes :=
  match s with
  | [] => Some []
  | c :: s' =>
      if c =? 37 then
        match s' with
        | a :: b :: s'' => x ← hex_upper_val a; y ← hex_upper_val b; r ← percent_decode s''; Some (x * 16 + y :: r)
        | _ => None
        end
      else r ← percent_decode s'; Some (c :: r)
  end.

Lemma hex_upper_val_digit d : 0 <= d < 16 -> hex_upper_val (hex_digit_upper d) = Some d.
Proof.
  intros Hd. unfold hex_upper_val, hex_digit_upper, is_ascii_digit, in_range.
  destruct (d <? 10) eqn:E; bool_simp; repeat case_match; bool_simp; try (f_equal; lia);
    repeat match goal with H : (_ && _) = false |- _ => apply andb_false_iff in H as [H|H] end; bool_simp; lia.
Qed.
Lemma percent_decode_byte b s r :
  0 <= b < 256 -> percent_decode s = Some r -> percent_decode (percent_byte b ++ s) = Some (b :: r).
Proof.
  intros Hb Hs. unfold percent_byte. destruct (is_ascii_alphanumeric b) eqn:E.
  - assert ((b =? 37) = false) as Hn by (apply Z.eqb_neq; by intros ->). cbn [app percent_decode]. by rewrite Hn, Hs.
  - cbn [app percent_decode]. rewrite Z.eqb_refl, !hex_upper_val_digit.
    + simpl. rewrite Hs. simpl. do 2 f_equal. pose proof (Z.div_mod b 16). lia.
    + split; [apply Z.div_pos; lia|apply Z.div_lt_upper_bound; lia].
    + apply Z.mod_pos_bound. lia.
Qed.
Lemma percent_byte_safe b : 0 <= b < 256 -> pct_safe (percent_byte b).
Proof.
  intros Hb. unfold percent_byte. destruct (is_ascii_alphanumeric b) eqn:E; [repeat constructor; auto|].
  assert (Hd : forall d, 0 <= d < 16 -> is_ascii_alphanumeric (hex_digit_upper d) = true).
  { intros d Hd. unfold hex_digit_upper. assert (d ∈ seqZ 0 16) as Hin by (apply elem_of_seqZ; lia).
    apply (proj1 (Forall_forall (fun d => is_ascii_alphanumeric (if d <? 10 then 48 + d else 55 + d) = true) (seqZ 0 16))); [|done].
    apply (bool_decide_unpack _). vm_compute. exact I. }
  unfold pct_safe. rewrite !Forall_cons. split; [by right|]. split; [|split; [|constructor]]; left; apply Hd.
  - split; [apply Z.div_pos; lia|apply Z.div_lt_upper_bound; lia].
  - apply Z.mod_pos_bound. lia.
Qed.
#[export] Instance pct : PercentEncoding := {| pct_encode := percent_encode; pct_decode := percent_decode |}.
Lemma pct_laws : PercentEncodingLaws.
Proof.
  split; simpl; unfold percent_encode; intros s Hs%as_bytes_byte_list.
  - induction Hs as [|b l Hb Hl IH]; [constructor|]. apply Forall_app. split; [by apply percent_byte_safe|done].
  - induction Hs as [|b l Hb Hl IH]; [done|]. by apply percent_decode_byte.
Qed.
End Demo.

(** ** The connection *)

Section ConnectLemmas.
Context {B T Cert P : Type} `{PercentEncoding} `{FredClient B T Cert P}.

Lemma add_roots_Ok roots certs r : add_roots roots certs = Ok r -> r = roots ++ certs.
Proof.
  revert roots. induction certs as [|c certs IH]; intros roots; cbn [add_roots].
  - intros [= <-]. by rewrite app_nil_r.
  - intros (? & _ & Hr)%result_bind_Ok. apply IH in Hr. by rewrite <- app_assoc in Hr.
Qed.

(** The trust store is the certificates of the file, all of them, and there is
    one at least. *)
Lemma rustls_config_Ok path t :
  rustls_config_with_ca path = Ok t ->
  exists pem certs, read_file path = Ok pem /\ pem_certs pem = Ok certs /\ certs <> [] /\ t = client_config certs.
Proof.
  unfold rustls_config_with_ca. intros (pem & Hp%map_err_Ok & Ht)%result_bind_Ok.
  apply result_bind_Ok in Ht as (certs & Hc%map_err_Ok & Ht). case_bool_decide as Hn; [done|].
  apply result_bind_Ok in Ht as (roots & ->%add_roots_Ok & [= <-]). exists pem, certs.
  split; [done|]. split; [done|]. split; [by intros ->|done].
Qed.

Lemma connect_config_Ok config cfg :
  connect_config config = Ok cfg ->
  (forall p, password config = Some p -> f_password cfg = Some p)
  /\ (forall path, starts_with (lit "rediss://") (url config) = true -> ca_cert_path config = Some path ->
      exists pem certs, read_file path = Ok pem /\ pem_certs pem = Ok certs /\ certs <> []
        /\ f_tls cfg = Some (client_config certs)).
Proof.
  unfold connect_config. intros (c0 & _ & Hc)%result_bind_Ok.
  set (c1 := match password config with Some p => _ | None => c0 end) in Hc.
  assert (forall p, password config = Some p -> f_password c1 = Some p) as Hp.
  { unfold c1. intros p ->. done. }
  destruct (starts_with _ _); [destruct (ca_cert_path config) as [path|]|]; [|by simplify_eq..].
  apply result_bind_Ok in Hc as (t & Ht & [= <-]). split; [done|]. intros p _ [= <-].
  apply rustls_config_Ok in Ht as (pem & certs & ? & ? & ? & ->). by exists pem, certs.
Qed.

Lemma is_ok_map_err {E F A} (f : E -> F) (r : result E A) : is_ok (map_err f r) = is_ok r.
Proof. by destruct r. Qed.
Lemma is_ok_bind {E A C} (m : result E A) (f : A -> result E C) :
  is_ok (m ≫= f) = false <-> is_ok m = false \/ exists a, m = Ok a /\ is_ok (f a) = false.
Proof.
  destruct m as [a|e]; simpl; [|by split; [left|]]. split; [by right; exists a|]. by intros [?|(? & [= <-] & ?)].
Qed.
(** Every way to fail. *)
Lemma connect_fails wait config :
  is_ok (connect wait config) = false <->
  is_ok (connect_config config) = false
  \/ exists cfg, connect_config config = Ok cfg
     /\ (is_ok (new_pool cfg (settings config)) = false
         \/ (exists e, wait = WFailed e /\ is_transient e = false)
         \/ (wait <> WConnected /\ is_ok (new_pool (keep_trying cfg) (settings config)) = false)).
Proof.
  unfold connect. rewrite is_ok_bind. apply or_iff_compat_l. apply exist_proper. intros cfg. apply and_iff_compat_l.
  rewrite is_ok_bind. unfold build at 1. rewrite is_ok_map_err. destruct (new_pool cfg _) as [probe|e0] eqn:E0; [|by split; left].
  assert (Hb : build config cfg = Ok probe) by (unfold build; by rewrite E0). rewrite Hb.
  assert (Hk : is_ok (build config (keep_trying cfg)) = is_ok (new_pool (keep_trying cfg) (settings config))) by apply is_ok_map_err.
  rewrite <- Hk. clear E0 Hk. destruct (is_ok (build _ _)) eqn:Ek, wait as [|e|]; try destruct (is_transient e) eqn:Et; cbn [negb];
    (split; [intros [?|(? & [= <-] & ?)]|intros [?|[(? & [= <-] & ?)|[? ?]]]]; simplify_eq/=); try congruence; eauto 8.
Qed.
End ConnectLemmas.

(** ** Properties *)

(** C31: credentials survive the URL.  For a user without a colon and a
    password, neither with a raw [?] or [#] but with any of [/ + = @ %] (and
    colons in the password), a host without [/ ? # @] and a path without [@],
    the encoded URL parses, as RFC 3986 cuts it, to the same scheme, host and
    tail, with a user and a password that decode to the ones given; a URL with
    no [@] before its query is left as it is. *)
Theorem credentials_survive_the_url `{PercentEncodingLaws} scheme user pass host tail :
  char_free colon scheme -> is_unicode user -> is_unicode pass -> no_query user -> no_query pass ->
  char_free colon user -> plain_host host -> plain_tail tail ->
  (exists u p, parse_authority (percent_encode_userinfo
       (scheme ++ scheme_sep ++ user ++ colon :: pass ++ at_sign :: host ++ tail))
     = Some (scheme, Some (u, Some p), host, tail)
     /\ pct_decode u = Some (as_bytes user) /\ pct_decode p = Some (as_bytes pass))
  /\ percent_encode_userinfo (scheme ++ scheme_sep ++ host ++ tail) = scheme ++ scheme_sep ++ host ++ tail.
Proof.
  intros Hs Huu Hup Hqu Hqp Hcu Hh Ht. split.
  - exists (pct_encode user), (pct_encode pass). split; [|by split; apply pct_decode_encode].
    rewrite (encode_credentials scheme user pass host tail) by done.
    apply parse_encoded; [done|by apply pct_encode_safe|by apply pct_encode_safe|done|done].
  - unfold percent_encode_userinfo. rewrite find_str_scheme, take_scheme, drop_scheme by done.
    fold (before_query (host ++ tail)). rewrite before_query_app by (by apply ends_host_query, plain_host_host).
    rewrite (proj2 (rfind_char_None _ _)); [done|]. apply free_eqb, Forall_app. split; [by apply plain_host_at|apply Ht].
Qed.

Lemma credentials_survive_the_url_witness :
  exists u p, parse_authority (@percent_encode_userinfo Demo.pct (lit "redis://:a/b+c@d@host:6379/0?node=x@y"))
    = Some (lit "redis", Some (u, Some p), lit "host:6379", lit "/0?node=x@y")
    /\ Demo.percent_decode u = Some [] /\ Demo.percent_decode p = Some (lit "a/b+c@d").
Proof.
  apply (proj1 (@credentials_survive_the_url Demo.pct Demo.pct_laws (lit "redis") [] (lit "a/b+c@d") (lit "host:6379")
    (lit "/0?node=x@y") ltac:(apply (bool_decide_unpack _); vm_compute; exact I)
    ltac:(apply (bool_decide_unpack _); vm_compute; exact I) ltac:(apply (bool_decide_unpack _); vm_compute; exact I)
    ltac:(apply (bool_decide_unpack _); vm_compute; exact I) ltac:(apply (bool_decide_unpack _); vm_compute; exact I)
    ltac:(apply (bool_decide_unpack _); vm_compute; exact I) ltac:(apply (bool_decide_unpack _); vm_compute; exact I)
    ltac:(split; [right; eexists _, _; split; [reflexivity|reflexivity]
      |apply (bool_decide_unpack _); vm_compute; exact I]))).
Defined.

(** C32: what a rendered configuration shows of its URL.  With user
    information that has no [@] before its first [?] or [#], or none of these,
    the rendering is the scheme followed by a mark or by a piece of what comes
    after the user information: no character of it is shown.  The password
    field never shows more than that it is set. *)
Theorem redaction_hides_credentials scheme userinfo after :
  char_free colon scheme -> (no_query userinfo \/ char_free at_sign (before_query userinfo)) ->
  (redact_url (scheme ++ scheme_sep ++ userinfo ++ at_sign :: after) = scheme ++ scheme_sep ++ redacted
   \/ exists pre shown post, after = pre ++ shown ++ post
      /\ redact_url (scheme ++ scheme_sep ++ userinfo ++ at_sign :: after) = scheme ++ scheme_sep ++ shown)
  /\ forall c, debug_password (debug_config c) = (fun _ => redacted) <$> password c
       /\ debug_url (debug_config c) = redact_url (url c).
Proof.
  intros Hs Hu. split; [|done]. unfold redact_url. rewrite find_str_scheme, take_scheme, drop_scheme by done.
  set (rest := userinfo ++ at_sign :: after). fold (before_query rest).
  destruct (rfind_char (Z.eqb at_sign) (before_query rest)) as [p|] eqn:E.
  - right. destruct (shown_after_userinfo userinfo after p Hu E) as (pre & Hpre).
    fold rest in Hpre. set (a := drop (S p) rest) in *.
    exists pre, (take (find_or_len ends_host a) a), (drop (find_or_len ends_host a) a).
    rewrite take_drop. split; [done|]. by rewrite <- app_assoc.
  - left. assert (contains_char (Z.eqb at_sign) rest = true) as ->.
    { unfold contains_char, rest. rewrite existsb_app. simpl. by rewrite orb_true_r. }
    by rewrite <- app_assoc.
Qed.

Lemma redaction_hides_credentials_witness :
  redact_url (lit "redis://:pa?ss#word/x+y=z@127.0.0.1:6379") = lit "redis://<redacted>"
  \/ exists pre shown post, lit "127.0.0.1:6379" = pre ++ shown ++ post
     /\ redact_url (lit "redis://:pa?ss#word/x+y=z@127.0.0.1:6379") = lit "redis://" ++ shown.
Proof.
  apply (proj1 (redaction_hides_credentials (lit "redis") (lit ":pa?ss#word/x+y=z") (lit "127.0.0.1:6379")
    ltac:(apply (bool_decide_unpack _); vm_compute; exact I)
    ltac:(right; apply (bool_decide_unpack _); vm_compute; exact I))).
Defined.

(** Redaction can print a piece of a password.  When the user information
    has an [@] followed by a [?] or [#], the text between the two is rendered
    as if it were the host, whatever the real host is, where the documentation
    says the value is then redacted as a whole rather than printed in part. *)
Theorem redaction_prints_password_piece scheme before piece q after :
  char_free colon scheme -> no_query before -> plain_host piece -> query_or_fragment q = true ->
  redact_url (scheme ++ scheme_sep ++ before ++ at_sign :: piece ++ q :: after) = scheme ++ scheme_sep ++ piece.
Proof.
  intros Hs Hb Hp Hq. assert (plain_tail (q :: after)) as Ht.
  { split; [right; eexists _, _; split; [done|]; unfold ends_host; by rewrite Hq, orb_true_r|].
    unfold before_query. rewrite find_or_len_head by done. constructor. }
  unfold redact_url. rewrite find_str_scheme, take_scheme, drop_scheme by done.
  rewrite last_at, drop_cut by done.
  rewrite find_or_len_app, (plain_tail_end _ Ht), Nat.add_0_r, take_app_length by (by apply plain_host_host).
  by rewrite <- app_assoc.
Qed.

Lemma redaction_prints_password_piece_witness :
  redact_url (lit "redis://:hunter@two?three@db.internal:6379") = lit "redis://two".
Proof.
  apply (redaction_prints_password_piece (lit "redis") (lit ":hunter") (lit "two") 63 (lit "three@db.internal:6379"));
    try reflexivity; apply (bool_decide_unpack _); vm_compute; exact I.
Defined.

(** C33: a server that cannot be reached does not fail the start-up, a bad
    configuration does.  [connect] fails exactly when the configuration does not
    read, a pool cannot be built, or the first connection is refused for a
    reason that is not transient.  Every pool it returns was built with commands
    that time out after a second and with unlimited reconnection attempts from
    100 ms up to 30 s apart, doubling; it is the one that connected, or one told
    not to give up on its first failure; it uses the password field when one is
    set, and trusts exactly the certificates of the CA file when TLS and a file
    are configured. *)
Theorem connect_fails_on_misconfiguration_only {B T Cert P} `{PercentEncoding} `{FredClient B T Cert P} wait config :
  let pool (c : FredConfig B T) := new_pool c (mkPoolSettings 1000 0 100 30000 2 (pool_size config)) in
  (is_ok (connect wait config) = false <->
   is_ok (connect_config config) = false
   \/ exists cfg, connect_config config = Ok cfg
      /\ (is_ok (pool cfg) = false
          \/ (exists e, wait = WFailed e /\ is_transient e = false)
          \/ (wait <> WConnected /\ is_ok (pool (keep_trying cfg)) = false)))
  /\ (forall p, connect wait config = Ok p -> exists cfg cfg',
      connect_config config = Ok cfg /\ pool cfg' = Ok p
      /\ f_base cfg' = f_base cfg
      /\ (f_fail_fast cfg' = if bool_decide (wait = WConnected) then f_fail_fast cfg else false)
      /\ (forall pw, password config = Some pw -> f_password cfg' = Some pw)
      /\ (forall path, starts_with (lit "rediss://") (url config) = true -> ca_cert_path config = Some path ->
          exists pem certs, read_file path = Ok pem /\ pem_certs pem = Ok certs /\ certs <> []
            /\ f_tls cfg' = Some (client_config certs))).
Proof.
  intros pool. split; [apply connect_fails|]. intros p Hok. unfold connect in Hok.
  apply result_bind_Ok in Hok as (cfg & Hc & Hok). apply result_bind_Ok in Hok as (probe & Hp0%map_err_Ok & Hok).
  destruct (connect_config_Ok _ _ Hc) as [Hp Ht]. destruct wait as [|e|].
  - injection Hok as <-. by exists cfg, cfg.
  - destruct (is_transient e); [|done]. apply map_err_Ok in Hok. by exists cfg, (keep_trying cfg).
  - apply map_err_Ok in Hok. by exists cfg, (keep_trying cfg).
Qed.
