(* ===== verification/Swr.v ===== *)
(** * Stale-while-revalidate ([crates/cache/src/swr.rs])

    A call is an interactive program: it reads and writes Valkey, the clock and
    the loader, sleeps, and starts a background refresh.  It is modelled by the
    tree of its commands, whose branches are the answers; the loops of the code
    are bounded, so the tree is well-founded.  [Run] gives one call its answers;
    [System] interleaves any number of calls on a shared server, with lost
    replies, lost commands, and calls dropped half-way. *)

From S2P Require Import Prelude RustStr.

(** Durations in nanoseconds. *)
Abbreviation duration := Z.
Definition as_millis (d : duration) : Z := d / 1000000.
Definition from_millis (ms : Z) : duration := ms * 1000000.

(** ** Command trees *)

Section Prog.
Context (T : Type).

Inductive prog : Type :=
| Ret (r : result str T)
| Done
| Get (key : str) (k : result str (option str) -> prog)
| Set_ (key value : str) (px : Z) (nx : bool) (k : result str bool -> prog)
| Del (key : str) (k : result str () -> prog)
| Now (k : Z -> prog)
| Load (k : result str T -> prog)
| Sleep (d : duration) (k : prog)
| Spawn (child k : prog).
End Prog.
Arguments Ret {T} r.
Arguments Done {T}.
Arguments Get {T} key k.
Arguments Set_ {T} key value px nx k.
Arguments Del {T} key k.
Arguments Now {T} k.
Arguments Load {T} k.
Arguments Sleep {T} d k.
Arguments Spawn {T} child k.

(** ** The code *)

Record Swr := mkSwr {
  key : str;
  fresh_ttl : duration;
  hard_ttl : duration;
  lock_ttl : duration;
  bypass : bool;
}.

(** [serde_json] on [Envelope<T>]: the time stamp and the payload. *)
Class EnvelopeJson (T : Type) := {
  to_json : Z -> T -> result str str;
  from_json : str -> option (Z * T);
}.
Class EnvelopeJsonLaws (T : Type) `{EnvelopeJson T} : Prop := {
  from_to_json ts v raw : to_json ts v = Ok raw -> from_json raw = Some (ts, v);
}.

Definition lock_key_of (key : str) : str := key ++ lit ":lock".
Definition px_of (d : duration) : Z := i64_wrap (as_millis d).
Definition poll_interval : duration := from_millis 25.
Definition max_polls (s : Swr) : nat :=
  Z.to_nat (Z.max 1 (as_millis (lock_ttl s) / Z.max 1 (as_millis poll_interval))).

Section Code.
Context {T : Type} `{EnvelopeJson T}.

(** [Duration::from_millis(now_ms().saturating_sub(ts_ms))]. *)
Definition age_of (now ts : Z) : duration := from_millis (u64_saturating_sub now ts).

Definition store (s : Swr) (value : T) (k : prog T) : prog T :=
  Now (fun ts_ms =>
    match to_json ts_ms value with
    | Err _ => k
    | Ok json => Set_ (key s) json (px_of (hard_ttl s)) false (fun _ => k)
    end).

Definition try_lock (s : Swr) (lock_key : str) (k : bool -> prog T) : prog T :=
  Set_ lock_key (lit "1") (px_of (lock_ttl s)) true (fun r => match r with Ok v => k v | Err _ => k false end).

(** [let v = loader().await?; let _ = self.store(&v).await; Ok(v)]. *)
Definition load_and_store (s : Swr) : prog T :=
  Load (fun r => match r with Err e => Ret (Err e) | Ok v => store s v (Ret (Ok v)) end).

Fixpoint poll (s : Swr) (polls : nat) : prog T :=
  match polls with
  | O => load_and_store s
  | S polls' =>
      Sleep poll_interval (Get (key s) (fun r =>
        match r with
        | Ok (Some raw) =>
            match from_json raw with
            | Some (ts_ms, payload) =>
                Now (fun now => if age_of now ts_ms <? fresh_ttl s then Ret (Ok payload) else poll s polls')
            | None => poll s polls'
            end
        | _ => poll s polls'
        end))
  end.

Definition spawn_refresh (s : Swr) (lock_key : str) : prog T :=
  try_lock s lock_key (fun got =>
    if negb got then Done
    else Load (fun r =>
      match r with
      | Ok v => store s v (Del lock_key (fun _ => Done))
      | Err _ => Del lock_key (fun _ => Done)
      end)).

Definition miss (s : Swr) (lock_key : str) : prog T :=
  try_lock s lock_key (fun got =>
    if got then Load (fun r =>
      match r with
      | Ok v => store s v (Del lock_key (fun _ => Ret (Ok v)))
      | Err e => Del lock_key (fun _ => Ret (Err e))
      end)
    else poll s (max_polls s)).

Definition get_or_load (s : Swr) : prog T :=
  if bypass s then load_and_store s
  else
    Get (key s) (fun raw =>
      match raw with
      | Err _ => Load Ret
      | Ok raw =>
          let lock_key := lock_key_of (key s) in
          match raw ≫= from_json with
          | Some (ts_ms, payload) =>
              Now (fun now =>
                if age_of now ts_ms <? fresh_ttl s then Ret (Ok payload)
                else Spawn (spawn_refresh s lock_key) (Ret (Ok payload)))
          | None => miss s lock_key
          end
      end).
End Code.

(** ** One call, given its answers *)

Module Run.
Section Run.
Context {T : Type}.

Record answer := mkAnswer {
  a_get : result str (option str);
  a_set : result str bool;
  a_del : result str ();
  a_now : Z;
  a_load : result str T;
}.
Inductive event :=
| EGet (key : str) (r : result str (option str))
| ESet (key : str) (nx : bool) (r : result str bool)
| EDel (key : str) (r : result str ())
| ENow (t : Z)
| ELoad (r : result str T)
| ESleep (d : duration)
| ESpawn.

(** The [n]th command is given the [n]th answer. *)
Fixpoint run_with (o : nat -> answer) (n : nat) (p : prog T) : list event * option (result str T) :=
  let emit e p' := let '(tr, r) := run_with o (S n) p' in (e :: tr, r) in
  match p with
  | Ret r => ([], Some r)
  | Done => ([], None)
  | Get k c => emit (EGet k (a_get (o n))) (c (a_get (o n)))
  | Set_ k v px nx c => emit (ESet k nx (a_set (o n))) (c (a_set (o n)))
  | Del k c => emit (EDel k (a_del (o n))) (c (a_del (o n)))
  | Now c => emit (ENow (a_now (o n))) (c (a_now (o n)))
  | Load c => emit (ELoad (a_load (o n))) (c (a_load (o n)))
  | Sleep d c => emit (ESleep d) c
  | Spawn _ c => emit ESpawn c
  end.

Definition loads (tr : list event) : nat := length (List.filter (fun e => match e with ELoad _ => true | _ => false end) tr).
Definition slept (tr : list event) : duration :=
  foldr (fun e acc => match e with ESleep d => d + acc | _ => acc end) 0 tr.
End Run.
Arguments answer : clear implicits.
Arguments event : clear implicits.
End Run.

(** What one call did: it loaded at most once, and answers with what it loaded
    or with an envelope it read, fresh at a time it read, or stale with a
    refresh started. *)
Module Call.
Import Run.
Section Call.
Context {T : Type} `{EnvelopeJson T} (s : Swr).

Record call_ok (tr : list (event T)) (r : result str T) : Prop := {
  co_loads : (loads tr <= 1)%nat;
  co_err : forall e, r = Err e -> ELoad (Err e) ∈ tr;
  co_ok : forall v, r = Ok v ->
    ELoad (Ok v) ∈ tr
    \/ exists raw ts now, EGet (key s) (Ok (Some raw)) ∈ tr /\ from_json raw = Some (ts, v) /\ ENow now ∈ tr
       /\ loads tr = 0%nat /\ (age_of now ts < fresh_ttl s \/ ESpawn ∈ tr);
}.

Definition neutral (e : event T) : Prop := match e with ELoad _ => False | _ => True end.
Lemma loads_neutral e tr : neutral e -> loads (e :: tr) = loads tr.
Proof. by destruct e. Qed.
Lemma call_ok_cons e tr r : neutral e -> call_ok tr r -> call_ok (e :: tr) r.
Proof.
  intros He [H1 H2 H3]. split; rewrite ?loads_neutral by done.
  - done.
  - intros x Hx. right. by apply H2.
  - intros v Hv. destruct (H3 v Hv) as [?|(raw & ts & now & ? & ? & ? & ? & Ha)]; [left; by right|right].
    exists raw, ts, now. split; [by right|]. split; [done|]. split; [by right|]. split; [done|].
    destruct Ha; [by left|right; by right].
Qed.
Lemma call_ok_load (r : result str T) tr : loads tr = 0%nat -> call_ok (ELoad r :: tr) r.
Proof.
  intros Hl. split.
  - unfold loads in *. simpl. lia.
  - intros e ->. left.
  - intros v ->. left. left.
Qed.

(** The bounds of a call: the time slept, the commands issued. *)
Definition bounded (d : duration) (n : nat) (out : list (event T) * option (result str T)) : Prop :=
  exists tr r, out = (tr, Some r) /\ call_ok tr r /\ slept tr <= d /\ (length tr <= n)%nat.

Lemma bounded_store o n v (r : result str T) k m :
  (forall i, exists tr, run_with o i k = (tr, Some r) /\ loads tr = 0%nat /\ slept tr = 0 /\ (length tr <= m)%nat) ->
  exists tr, run_with o n (store s v k) = (tr, Some r) /\ loads tr = 0%nat /\ slept tr = 0 /\ (length tr <= 2 + m)%nat.
Proof.
  intros Hk. unfold store. cbn [run_with]. destruct (to_json _ v) as [json|e].
  - cbn [run_with]. destruct (Hk (S (S n))) as (tr & -> & Hl & Hs & Hn). eexists. split; [done|]. split; [exact Hl|]. split; [exact Hs|simpl; lia].
  - destruct (Hk (S n)) as (tr & -> & Hl & Hs & Hn). eexists. split; [done|]. split; [exact Hl|]. split; [exact Hs|simpl; lia].
Qed.

Lemma bounded_load_and_store o n : bounded 0 3 (run_with o n (load_and_store s)).
Proof.
  unfold load_and_store. cbn [run_with]. destruct (a_load (o n)) as [v|e] eqn:E.
  - destruct (bounded_store o (S n) v (Ok v) (Ret (Ok v)) 0) as (tr & -> & Hl & Hs & Hn).
    { intros i. by exists []. }
    eexists _, _. split; [done|]. split; [by apply call_ok_load|]. split; [|simpl; lia].
    change (slept tr <= 0). lia.
  - eexists _, _. split; [done|]. split; [by apply call_ok_load|]. split; [done|simpl; lia].
Qed.

Lemma bounded_cons d n e out :
  neutral e -> (forall t, e <> ESleep t) -> bounded d n out -> bounded d (S n) (let '(tr, r) := out in (e :: tr, r)).
Proof.
  intros He Hs (tr & r & -> & Hc & Hsl & Hl). eexists _, _. split; [done|]. split; [by apply call_ok_cons|].
  split; [|simpl; lia]. destruct e; try done. by edestruct Hs.
Qed.
Lemma bounded_more d n d' n' out : bounded d n out -> d <= d' -> (n <= n')%nat -> bounded d' n' out.
Proof. intros (tr & r & ? & ? & ? & ?) ? ?. exists tr, r. do 2 (split; [done|]). lia. Qed.

Lemma bounded_hit d o n raw ts v now tr :
  from_json raw = Some (ts, v) -> age_of now ts < fresh_ttl s \/ ESpawn ∈ tr -> loads tr = 0%nat -> slept tr = 0 ->
  0 <= d -> (length tr <= o)%nat -> (2 + o <= n)%nat ->
  bounded d n (EGet (key s) (Ok (Some raw)) :: ENow now :: tr, Some (Ok v)).
Proof.
  intros Hj Ha Hl Hs Hd Ho Hn. eexists _, _. split; [done|]. split; [|split; [change (slept tr <= d); lia|simpl; lia]]. split.
  - rewrite !loads_neutral by done. lia.
  - done.
  - intros w [= <-]. right. exists raw, ts, now. rewrite !loads_neutral by done.
    split; [left|]. split; [done|]. split; [right; left|]. split; [done|]. destruct Ha; [by left|right; by do 2 right].
Qed.

Lemma bounded_poll o n k : bounded (Z.of_nat k * poll_interval) (3 * k + 3) (run_with o n (poll s k)).
Proof.
  assert (0 <= poll_interval) as Hp by (vm_compute; discriminate).
  revert n. induction k as [|k IH]; intros n; [apply bounded_load_and_store|]. cbn [poll run_with].
  assert (Hstep : forall e out, neutral e -> (forall t, e <> ESleep t) ->
    bounded (Z.of_nat k * poll_interval) (3 * k + 4) out ->
    bounded (Z.of_nat (S k) * poll_interval) (3 * S k + 3)
      (let '(tr, r) := (let '(tr, r) := out in (e :: tr, r)) in (ESleep poll_interval :: tr, r))).
  { intros e out He Hs (tr & r & -> & Hc & Hsl & Hl). eexists _, _. split; [done|].
    split; [apply call_ok_cons; [done|by apply call_ok_cons]|]. split; [|simpl; lia].
    assert (slept (e :: tr) = slept tr) as Hse by (destruct e; try done; by edestruct Hs).
    change (slept (ESleep poll_interval :: e :: tr)) with (poll_interval + slept (e :: tr)). rewrite Hse. lia. }
  destruct (a_get (o (S n))) as [[raw|]|e].
  - destruct (from_json raw) as [[ts v]|] eqn:Ej.
    + cbn [run_with]. destruct (_ <? _) eqn:Ea; bool_simp.
      * destruct (bounded_hit 0 0 2 raw ts v (a_now (o (S (S n)))) []) as (tr & r & [= <- <-] & Hc & Hsl & Hl); try done; [by left|].
        eexists _, _. split; [done|]. split; [by apply call_ok_cons|]. split; [|simpl; lia].
        change (poll_interval + 0 <= Z.of_nat (S k) * poll_interval). lia.
      * apply Hstep; [done|done|]. eapply bounded_more; [apply bounded_cons; [done|done|apply IH]|lia|lia].
    + apply Hstep; [done|done|]. eapply bounded_more; [apply IH|lia|lia].
  - apply Hstep; [done|done|]. eapply bounded_more; [apply IH|lia|lia].
  - apply Hstep; [done|done|]. eapply bounded_more; [apply IH|lia|lia].
Qed.

Lemma max_polls_time : Z.of_nat (max_polls s) * poll_interval <= Z.max (lock_ttl s) poll_interval.
Proof.
  unfold max_polls, as_millis, poll_interval, from_millis.
  change (25 * 1000000 / 1000000) with 25. change (Z.max 1 25) with 25.
  rewrite Z2Nat.id by lia. rewrite Z.div_div by lia. pose proof (Z.mul_div_le (lock_ttl s) (1000000 * 25)). lia.
Qed.

Lemma bounded_miss o n lock : bounded (Z.max (lock_ttl s) poll_interval) (3 * max_polls s + 5) (run_with o n (miss s lock)).
Proof.
  pose proof max_polls_time as Hm. assert (0 < poll_interval) by (vm_compute; done).
  assert (Hp : forall i, bounded (Z.max (lock_ttl s) poll_interval) (3 * max_polls s + 4) (run_with o i (poll s (max_polls s)))).
  { intros i. eapply bounded_more; [apply bounded_poll|done|lia]. }
  unfold miss, try_lock. cbn [run_with]. replace (3 * max_polls s + 5)%nat with (S (3 * max_polls s + 4)) by lia.
  apply bounded_cons; [done|done|]. destruct (a_set (o n)) as [[|]|e]; [|apply Hp|apply Hp]. cbn [run_with].
  destruct (a_load (o (S n))) as [v|e].
  - destruct (bounded_store o (S (S n)) v (Ok v) (Del lock (fun _ => Ret (Ok v))) 1) as (tr & -> & Hl & Hs & Hn).
    { intros i. eexists. split; [reflexivity|]. split; [done|]. split; [done|simpl; lia]. }
    eexists _, _. split; [done|]. split; [by apply call_ok_load|]. assert (1 <= max_polls s)%nat by (unfold max_polls; lia).
    split; [change (slept tr <= Z.max (lock_ttl s) poll_interval); lia|simpl; lia].
  - eexists _, _. split; [done|]. split; [by apply call_ok_load|]. split; [simpl; lia|simpl; lia].
Qed.

Lemma bounded_get_or_load o :
  bounded (Z.max (lock_ttl s) poll_interval) (3 * max_polls s + 6) (run_with o 0 (get_or_load s)).
Proof.
  assert (0 < poll_interval) by (vm_compute; done). unfold get_or_load. destruct (bypass s).
  { eapply bounded_more; [apply bounded_load_and_store|lia|lia]. }
  cbn [run_with]. destruct (a_get (o 0%nat)) as [raw|e].
  - destruct (raw ≫= from_json) as [[ts v]|] eqn:E.
    + destruct raw as [raw|]; [|done]. simpl in E. cbn [run_with]. destruct (_ <? _) eqn:Ea; bool_simp.
      * eapply bounded_hit with (o := 0%nat); [done|by left|done|done|lia|done|lia].
      * eapply bounded_hit with (o := 1%nat); [done|right; left|done|done|lia|done|lia].
    + replace (3 * max_polls s + 6)%nat with (S (3 * max_polls s + 5)) by lia.
      apply bounded_cons; [done|done|]. apply bounded_miss.
  - cbn [run_with]. eexists _, _. split; [done|]. split; [apply call_ok_cons; [done|by apply call_ok_load]|].
    split; [simpl; lia|simpl; lia].
Qed.
End Call.
End Call.

(** ** Many calls on one server *)

Module System.
Section System.
Context {T : Type} `{EnvelopeJson T} (s : Swr).

Definition lock : str := lock_key_of (key s).
Definition lock_px : Z := px_of (lock_ttl s).
Definition with_bypass (b : bool) : Swr := mkSwr (key s) (fresh_ttl s) (hard_ttl s) (lock_ttl s) b.

(** The server's entries with their expiry, the clock in milliseconds, the
    calls and refreshes in progress, and which of them took the lock and have
    not given it back, with the time they took it. *)
Record sys := mkSys {
  db : gmap str (str * Z);
  clock : Z;
  threads : gmap nat (prog T);
  holders : gmap nat Z;
}.
Definition init : sys := mkSys ∅ 0 ∅ ∅.

Definition live (st : sys) (k : str) : option str :=
  '(v, e) ← db st !! k; if clock st <? e then Some v else None.
(** [SET k v PX px \[NX\]] on the server: its entries after, and its reply. *)
Definition set_effect (st : sys) (k v : str) (px : Z) (nx : bool) : gmap str (str * Z) * result str bool :=
  if px <=? 0 then (db st, Err (lit "invalid expire time"))
  else if nx && is_some (live st k) then (db st, Ok false)
  else (<[k := (v, clock st + px)]> (db st), Ok true).

Definition resume (st : sys) (tid : nat) (p : prog T) : sys :=
  mkSys (db st) (clock st) (<[tid := p]> (threads st)) (holders st).
Definition with_db (st : sys) (d : gmap str (str * Z)) : sys := mkSys d (clock st) (threads st) (holders st).
Definition hold (st : sys) (tid : nat) (got : bool) : sys :=
  mkSys (db st) (clock st) (threads st) (if got then <[tid := clock st]> (holders st) else holders st).
Definition release (st : sys) (tid : nat) : sys := mkSys (db st) (clock st) (threads st) (delete tid (holders st)).
Definition remove (st : sys) (tid : nat) : sys :=
  mkSys (db st) (clock st) (delete tid (threads st)) (delete tid (holders st)).

Inductive label :=
| Loaded (tid : nat) (r : result str T)
| Returned (tid : nat) (r : result str T)
| Other.

Inductive step : sys -> label -> sys -> Prop :=
| step_tick st dt :
    0 <= dt -> step st Other (mkSys (db st) (clock st + dt) (threads st) (holders st))
| step_call st tid b :
    threads st !! tid = None -> step st Other (resume st tid (get_or_load (with_bypass b)))
| step_get st tid k c :
    threads st !! tid = Some (Get k c) -> step st Other (resume st tid (c (Ok (live st k))))
| step_get_lost st tid k c e :
    threads st !! tid = Some (Get k c) -> step st Other (resume st tid (c (Err e)))
| step_set st tid k v px nx c d r :
    threads st !! tid = Some (Set_ k v px nx c) -> set_effect st k v px nx = (d, r) ->
    step st Other (hold (resume (with_db st d) tid (c r)) tid (bool_decide (k = lock /\ r = Ok true)))
| step_set_lost st tid k v px nx c d r e (applied : bool) :
    threads st !! tid = Some (Set_ k v px nx c) -> set_effect st k v px nx = (d, r) ->
    step st Other (resume (with_db st (if applied then d else db st)) tid (c (Err e)))
| step_del st tid k c r (applied : bool) :
    threads st !! tid = Some (Del k c) -> (r = Ok () -> applied = true) ->
    step st Other (release (resume (with_db st (if applied then delete k (db st) else db st)) tid (c r)) tid)
| step_now st tid c :
    threads st !! tid = Some (Now c) -> step st Other (resume st tid (c (clock st)))
| step_load st tid c r :
    threads st !! tid = Some (Load c) -> step st (Loaded tid r) (resume st tid (c r))
| step_sleep st tid d c :
    threads st !! tid = Some (Sleep d c) -> step st Other (resume st tid c)
| step_spawn st tid tid' p c :
    threads st !! tid = Some (Spawn p c) -> threads st !! tid' = None -> tid' <> tid ->
    step st Other (resume (resume st tid c) tid' p)
| step_return st tid r :
    threads st !! tid = Some (Ret r) -> step st (Returned tid r) (remove st tid)
| step_done st tid :
    threads st !! tid = Some Done -> step st Other (remove st tid)
(** The future is dropped (after a command whose reply is lost, if one was
    under way). *)
| step_abandon st tid : step st Other (remove st tid).

(** ** The protocol of a call

    Whether it holds the lock, and that it writes only values the loader may
    return ([good]) under the key, takes the lock with [NX] only, deletes it
    only when it holds it, and never ends holding it. *)
Context (good : T -> Prop).

Fixpoint protocol (held : bool) (p : prog T) : Prop :=
  match p with
  | Ret r => held = false /\ forall v, r = Ok v -> good v
  | Done => held = false
  | Get k c =>
      k = key s /\ forall r, (forall raw ts v, r = Ok (Some raw) -> from_json raw = Some (ts, v) -> good v) -> protocol held (c r)
  | Set_ k v px nx c =>
      (k = key s /\ (exists ts w, from_json v = Some (ts, w) /\ good w) /\ forall r, protocol held (c r))
      \/ (k = lock /\ nx = true /\ px = lock_px /\ held = false
          /\ forall r, protocol (bool_decide (r = Ok true)) (c r))
  | Del k c => k = lock /\ held = true /\ forall r, protocol false (c r)
  | Now c => forall t, protocol held (c t)
  | Load c => forall r, (forall v, r = Ok v -> good v) -> protocol held (c r)
  | Sleep _ c => protocol held c
  | Spawn child c => protocol false child /\ protocol held c
  end.

(** ** The code follows it *)

Section Follows.
Context `{!EnvelopeJsonLaws T}.

Lemma lock_not_key : lock <> key s.
Proof.
  unfold lock, lock_key_of. intros E. apply (f_equal length) in E. rewrite length_app in E. simpl in E. lia.
Qed.

Lemma protocol_store b held v k :
  good v -> protocol held k -> protocol held (store (with_bypass b) v k).
Proof.
  intros Hv Hk. unfold store. intros ts. destruct (to_json ts v) as [raw|e] eqn:E; [|done].
  left. split; [done|]. split; [|done]. exists ts, v. split; [by apply from_to_json|done].
Qed.
Lemma protocol_try_lock b k :
  (forall got : bool, protocol got (k got)) -> protocol false (try_lock (with_bypass b) lock k).
Proof.
  intros Hk. right. repeat (split; [done|]). intros [[]|e]; apply Hk.
Qed.
Lemma protocol_load_and_store b : protocol false (load_and_store (with_bypass b)).
Proof.
  intros [v|e] Hr; [|done]. apply protocol_store; [by apply Hr|]. split; [done|]. intros w [= <-]. by apply Hr.
Qed.
Lemma protocol_poll b k : protocol false (poll (with_bypass b) k).
Proof.
  induction k as [|k IH]; [apply protocol_load_and_store|]. split; [done|]. intros [[raw|]|e] Hr; [|done|done].
  destruct (from_json raw) as [[ts v]|] eqn:E; [|done]. intros t. destruct (_ <? _); [|done].
  split; [done|]. intros w [= <-]. by eapply Hr.
Qed.
Lemma protocol_refresh b : protocol false (spawn_refresh (with_bypass b) lock).
Proof.
  apply protocol_try_lock. intros [|]; [|done]. intros [v|e] Hr.
  - apply protocol_store; [by apply Hr|]. done.
  - done.
Qed.
Lemma protocol_miss b : protocol false (miss (with_bypass b) lock).
Proof.
  apply protocol_try_lock. intros [|]; [|apply protocol_poll]. intros [v|e] Hr.
  - apply protocol_store; [by apply Hr|]. split; [done|]. split; [done|]. intros r. split; [done|].
    intros w [= <-]. by apply Hr.
  - done.
Qed.
Lemma protocol_get_or_load b : protocol false (get_or_load (with_bypass b)).
Proof.
  unfold get_or_load. destruct (bypass _); [apply protocol_load_and_store|]. split; [done|]. intros [raw|e] Hr.
  - cbn [bypass key with_bypass] in *. destruct (raw ≫= from_json) as [[ts v]|] eqn:E; [|apply protocol_miss].
    destruct raw as [raw|]; [|done]. simpl in E. assert (good v) by (by eapply Hr).
    intros t. destruct (_ <? _); [split; [done|by intros w [= <-]]|]. split; [apply protocol_refresh|].
    split; [done|by intros w [= <-]].
  - intros r Hr'. by split.
Qed.

(** ** The invariant of the system *)

Definition held (st : sys) (tid : nat) : bool := bool_decide (is_Some (holders st !! tid)).
Record inv (st : sys) : Prop := {
  iv_threads : forall tid p, threads st !! tid = Some p -> protocol (held st tid) p;
  iv_holders : forall tid a, holders st !! tid = Some a -> is_Some (threads st !! tid);
  iv_data : forall raw e, db st !! key s = Some (raw, e) -> exists ts v, from_json raw = Some (ts, v) /\ good v;
}.

(** One thread moves; its lock changes with it, the others' do not. *)
Lemma inv_move st st' tid p :
  inv st -> is_Some (threads st !! tid) ->
  threads st' = <[tid := p]> (threads st) -> (forall i, i <> tid -> holders st' !! i = holders st !! i) ->
  protocol (held st' tid) p ->
  (forall raw e, db st' !! key s = Some (raw, e) -> exists ts v, from_json raw = Some (ts, v) /\ good v) ->
  inv st'.
Proof.
  intros [Ht Hh Hd] Hin Et Eh Hp Hd'. split; [| |done]; rewrite Et.
  - intros i q. destruct (decide (i = tid)) as [->|Hi].
    + rewrite lookup_insert_eq. by intros [= <-].
    + rewrite lookup_insert_ne by done. intros Hq. unfold held. rewrite Eh by done. by apply Ht.
  - intros i a. destruct (decide (i = tid)) as [->|Hi]; [by rewrite lookup_insert_eq|].
    rewrite lookup_insert_ne, Eh by done. apply Hh.
Qed.
Lemma inv_new st tid p :
  inv st -> threads st !! tid = None -> protocol false p -> inv (resume st tid p).
Proof.
  intros [Ht Hh Hd] Hn Hp. assert (holders st !! tid = None) as Ho.
  { destruct (holders st !! tid) eqn:E; [|done]. apply Hh in E as [? ?]. congruence. }
  split; [| |done]; cbn [threads holders resume].
  - intros i q. destruct (decide (i = tid)) as [->|Hi].
    + rewrite lookup_insert_eq. intros [= <-]. unfold held. cbn [holders resume]. by rewrite Ho.
    + rewrite lookup_insert_ne by done. apply Ht.
  - intros i a Ha. destruct (decide (i = tid)) as [->|Hi]; [congruence|]. rewrite lookup_insert_ne by done. by eapply Hh.
Qed.
Lemma inv_remove st tid : inv st -> inv (remove st tid).
Proof.
  intros [Ht Hh Hd]. split; [| |done]; cbn [threads holders remove].
  - intros i q [Hi Hq]%lookup_delete_Some. unfold held. cbn [holders remove]. rewrite lookup_delete_ne by done. by apply Ht.
  - intros i a [Hi Ha]%lookup_delete_Some. rewrite lookup_delete_ne by done. by eapply Hh.
Qed.

Lemma set_data st k v px nx d r :
  inv st -> (k = lock \/ (k = key s /\ exists ts w, from_json v = Some (ts, w) /\ good w)) ->
  set_effect st k v px nx = (d, r) ->
  forall raw e, d !! key s = Some (raw, e) -> exists ts w, from_json raw = Some (ts, w) /\ good w.
Proof.
  intros Hi Hk Hs raw e. unfold set_effect in Hs. pose proof lock_not_key.
  repeat case_match; simplify_eq; [by apply Hi|by apply Hi|].
  destruct Hk as [->|[-> Hv]].
  - rewrite lookup_insert_ne by done. apply Hi.
  - rewrite lookup_insert_eq. by intros [= <- <-].
Qed.

Definition loads_good (l : label) : Prop := match l with Loaded _ (Ok v) => good v | _ => True end.

Lemma live_good st raw ts v : inv st -> live st (key s) = Some raw -> from_json raw = Some (ts, v) -> good v.
Proof.
  intros Hi. unfold live. destruct (db st !! key s) as [[w e]|] eqn:E; [|done]. simpl. destruct (_ <? _); [|done].
  intros [= ->] Hj. destruct (iv_data _ Hi _ _ E) as (ts' & v' & Hj' & ?). congruence.
Qed.

Lemma held_hold st tid got : held (hold st tid got) tid = got || held st tid.
Proof. unfold held, hold. cbn [holders]. destruct got; simpl; [|done]. by rewrite lookup_insert_eq. Qed.

Lemma inv_step st l st' : inv st -> loads_good l -> step st l st' -> inv st'.
Proof.
  intros Hi Hl Hs. pose proof (iv_data _ Hi) as Hd.
  destruct Hs as [st dt Hdt|st tid b Hn|st tid k c Hp|st tid k c e Hp|st tid k v px nx c d r Hp He
    |st tid k v px nx c d r e applied Hp He|st tid k c r applied Hp Hr|st tid c Hp|st tid c r Hp|st tid d c Hp
    |st tid tid' p c Hp Hn Hne|st tid r Hp|st tid Hp|st tid];
    try (pose proof (iv_threads _ Hi _ _ Hp) as Hpr; cbn [protocol] in Hpr).
  - destruct Hi. by split.
  - apply inv_new; [done|done|]. apply protocol_get_or_load.
  - destruct Hpr as [-> Hpr]. eapply (inv_move st); [done|by eauto|done|done| |done]. apply Hpr.
    intros raw ts v [= Hraw] Hj. by eapply live_good.
  - destruct Hpr as [-> Hpr]. eapply (inv_move st); [done|by eauto|done|done| |done]. by apply Hpr.
  - eapply (inv_move st); [done|by eauto|done| | |].
    + intros i Hne. unfold hold. cbn [holders]. case_bool_decide; [|done]. by rewrite lookup_insert_ne.
    + rewrite held_hold. change (held (resume _ tid _) tid) with (held st tid). destruct Hpr as [(-> & _ & Hpr)|(-> & -> & -> & Hh & Hpr)].
      * rewrite bool_decide_false; [apply Hpr|]. intros [E _]. by apply lock_not_key.
      * rewrite Hh, orb_false_r. rewrite (bool_decide_ext _ (r = Ok true)) by tauto. apply Hpr.
    + cbn [db hold resume with_db]. eapply set_data; [done| |done].
      destruct Hpr as [(-> & Hv & _)|(-> & _)]; [by right|by left].
  - eapply (inv_move st); [done|by eauto|done|done| |].
    + change (held (resume _ tid _) tid) with (held st tid).
      destruct Hpr as [(-> & _ & Hpr)|(-> & -> & -> & Hh & Hpr)]; [apply Hpr|]. rewrite Hh. apply (Hpr (Err e)).
    + cbn [db resume with_db]. destruct applied; [|done]. eapply set_data; [done| |done].
      destruct Hpr as [(-> & Hv & _)|(-> & _)]; [by right|by left].
  - destruct Hpr as (-> & Hh & Hpr). eapply (inv_move st); [done|by eauto|done| | |].
    + intros i Hne. cbn [holders release]. by rewrite lookup_delete_ne.
    + unfold held. cbn [holders release]. rewrite lookup_delete_eq, bool_decide_false by (by intros [? ?]). apply Hpr.
    + cbn [db release resume with_db]. destruct applied; [|done]. intros raw e [_ Hr']%lookup_delete_Some. by apply Hd in Hr'.
  - eapply (inv_move st); [done|by eauto|done|done| |done]. apply Hpr.
  - eapply (inv_move st); [done|by eauto|done|done| |done]. apply Hpr. by intros v ->.
  - eapply (inv_move st); [done|by eauto|done|done|exact Hpr|done].
  - destruct Hpr as [Hc Hk]. apply inv_new; [|by cbn; rewrite lookup_insert_ne|done].
    eapply (inv_move st); [done|by eauto|done|done|exact Hk|done].
  - by apply inv_remove.
  - by apply inv_remove.
  - by apply inv_remove.
Qed.

Lemma inv_init : inv init.
Proof. split; cbn; intros *; by rewrite lookup_empty. Qed.

(** ** One holder at a time, when none is overdue *)

(** Every holder is within the time to live of the lock it took. *)
Definition timely (st : sys) : Prop := forall tid a, holders st !! tid = Some a -> clock st < a + lock_px.
Definition tstep (st : sys) (l : label) (st' : sys) : Prop := timely st /\ step st l st'.

(** The lock's entry is its holder's. *)
Definition lock_inv (st : sys) : Prop :=
  (forall tid a, holders st !! tid = Some a -> exists w, db st !! lock = Some (w, a + lock_px))
  /\ (forall i j a b, holders st !! i = Some a -> holders st !! j = Some b -> i = j).

Lemma lock_inv_fewer st st' :
  lock_inv st -> db st' = db st -> (forall i a, holders st' !! i = Some a -> holders st !! i = Some a) -> lock_inv st'.
Proof. intros [H1 H2] Ed Eh. split; [rewrite Ed|]; eauto. Qed.

(** While someone holds the lock in time, taking it fails. *)
Lemma lock_taken st w px tid a :
  lock_inv st -> timely st -> holders st !! tid = Some a ->
  set_effect st lock w px true = (db st, Ok false) \/ set_effect st lock w px true = (db st, Err (lit "invalid expire time")).
Proof.
  intros [H1 _] Ht Ha. unfold set_effect. destruct (px <=? 0); [by right|left].
  destruct (H1 _ _ Ha) as [v Hv]. specialize (Ht _ _ Ha). unfold live. rewrite Hv. simpl.
  by rewrite (proj2 (Z.ltb_lt _ _)).
Qed.

Lemma lock_inv_set st k v px nx d r tid c :
  inv st -> lock_inv st -> timely st -> threads st !! tid = Some (Set_ k v px nx c) ->
  set_effect st k v px nx = (d, r) ->
  lock_inv (with_db st d) /\ (k = lock -> r = Ok true -> holders st = ∅ /\ exists w, d !! lock = Some (w, clock st + lock_px)).
Proof.
  intros Hi Hl Ht Hp He. pose proof (iv_threads _ Hi _ _ Hp) as Hpr. cbn [protocol] in Hpr. pose proof lock_not_key as Hne.
  destruct Hpr as [(-> & _ & _)|(-> & -> & -> & _ & _)].
  - split; [|by intros E; destruct Hne]. destruct Hl as [H1 H2]. split; [|done]. intros i a Ha. cbn [db with_db].
    destruct (H1 i a Ha) as [w Hw]. exists w. unfold set_effect in He. repeat case_match; simplify_eq; try done.
    by rewrite lookup_insert_ne.
  - destruct (decide (holders st = ∅)) as [E|E].
    + split; [split; cbn; rewrite E; by intros *; rewrite ?lookup_empty|]. intros _ ->. split; [done|].
      unfold set_effect in He. repeat case_match; simplify_eq. rewrite lookup_insert_eq. eauto.
    + apply map_choose in E as (i & a & Ha). destruct (lock_taken st v lock_px i a Hl Ht Ha) as [E|E];
        rewrite E in He; simplify_eq; (split; [by destruct st|done]).
Qed.

Lemma lock_inv_step st l st' : inv st -> lock_inv st -> tstep st l st' -> lock_inv st'.
Proof.
  intros Hi Hl [Ht Hs].
  destruct Hs as [st dt Hdt|st tid b Hn|st tid k c Hp|st tid k c e Hp|st tid k v px nx c d r Hp He
    |st tid k v px nx c d r e applied Hp He|st tid k c r applied Hp Hr|st tid c Hp|st tid c r Hp|st tid d c Hp
    |st tid tid' p c Hp Hn Hne|st tid r Hp|st tid Hp|st tid];
    try (by apply (lock_inv_fewer st)).
  - destruct (lock_inv_set _ _ _ _ _ _ _ _ _ Hi Hl Ht Hp He) as [Hl' Hnew]. case_bool_decide as Hk.
    + destruct Hk as [-> ->]. destruct (Hnew eq_refl eq_refl) as [E [w Hw]].
      split; unfold hold; cbn [holders db resume with_db clock]; rewrite E.
      * intros i a [[<- <-]|[_ Ha]]%lookup_insert_Some; [by exists w|by rewrite lookup_empty in Ha].
      * intros i j a b [[<- <-]|[_ Ha]]%lookup_insert_Some [[<- <-]|[_ Hb]]%lookup_insert_Some;
          [done|by rewrite lookup_empty in Hb|by rewrite lookup_empty in Ha..].
    + by apply (lock_inv_fewer (with_db st d)).
  - destruct (lock_inv_set _ _ _ _ _ _ _ _ _ Hi Hl Ht Hp He) as [Hl' _].
    destruct applied; [by apply (lock_inv_fewer (with_db st d))|by apply (lock_inv_fewer st)].
  - pose proof (iv_threads _ Hi _ _ Hp) as (-> & Hh & _). unfold held in Hh. bool_simp. destruct Hh as [a Ha].
    split; cbn [holders release]; intros i; intros *; [intros [Hi' Hx]%lookup_delete_Some|intros [Hi' Hx]%lookup_delete_Some];
      by destruct Hi'; eapply Hl.
  - apply (lock_inv_fewer st); [done|done|]. cbn [holders remove]. by intros i a [_ Ha]%lookup_delete_Some.
  - apply (lock_inv_fewer st); [done|done|]. cbn [holders remove]. by intros i a [_ Ha]%lookup_delete_Some.
  - apply (lock_inv_fewer st); [done|done|]. cbn [holders remove]. by intros i a [_ Ha]%lookup_delete_Some.
Qed.
End Follows.
End System.
Arguments sys : clear implicits.
Arguments label : clear implicits.
End System.

(** ** A concrete payload for the witnesses: an integer, its envelope the time
    stamp and it. *)
Module Demo.
#[export] Instance json : EnvelopeJson Z := {|
  to_json ts v := Ok [ts; v];
  from_json raw := match raw with [ts; v] => Some (ts, v) | _ => None end;
|}.
#[export] Instance json_laws : EnvelopeJsonLaws Z.
Proof. split. by intros ts v raw [= <-]. Qed.
Definition swr : Swr := mkSwr (lit "k") (from_millis 60000) (from_millis 120000) (from_millis 30000) false.
End Demo.

#[local] Existing Instances Demo.json Demo.json_laws.

(** ** Properties *)

(** C19: a call always returns, whatever Valkey, the clock and the loader
    answer (errors on every command included), after sleeping at most the
    lock's time to live (or one polling interval) and issuing a number of
    commands bounded by it.  It loads at most once; it fails only with the
    loader's own error; and a value it returns is the one it loaded, or the
    payload of an envelope it read from the key, fresh when it looked, or stale
    with a background refresh started. *)
Theorem get_or_load_always_answers {T} `{EnvelopeJson T} s (o : nat -> Run.answer T) :
  exists tr r, Run.run_with o 0 (get_or_load s) = (tr, Some r)
    /\ Run.slept tr <= Z.max (lock_ttl s) poll_interval /\ (length tr <= 3 * max_polls s + 6)%nat
    /\ (Run.loads tr <= 1)%nat
    /\ (forall e, r = Err e -> Run.ELoad (Err e) ∈ tr)
    /\ (forall v, r = Ok v -> Run.ELoad (Ok v) ∈ tr
        \/ exists raw ts now, Run.EGet (key s) (Ok (Some raw)) ∈ tr /\ from_json raw = Some (ts, v)
           /\ Run.ENow now ∈ tr /\ Run.loads tr = 0%nat
           /\ (age_of now ts < fresh_ttl s \/ Run.ESpawn ∈ tr)).
Proof. destruct (Call.bounded_get_or_load s o) as (tr & r & E & [H1 H2 H3] & Hs & Hl). by exists tr, r. Qed.

(** C18: under every interleaving of calls and refreshes on one key, with
    commands and replies lost and calls dropped anywhere, a value a call
    returns is one that some loader returned before: nothing else is ever
    stored under the key or read from it. *)
Theorem returned_values_were_loaded {T} `{EnvelopeJsonLaws T} s ls (st : System.sys T) :
  run (System.step s) System.init ls st ->
  forall l1 tid v l2, ls = l1 ++ System.Returned tid (Ok v) :: l2 ->
  exists tid', System.Loaded tid' (Ok v) ∈ l1.
Proof.
  intros Hrun l1 tid v l2 ->. apply run_at_label in Hrun as (s1 & s2 & Hr & Hs).
  set (good (v : T) := exists tid', System.Loaded tid' (Ok v) ∈ l1). change (good v).
  assert (System.inv s good s1) as Hi.
  { eapply (run_invariant_labels _ (System.loads_good good)); [|apply System.inv_init| |exact Hr].
    - intros ? ? ? Hi Hl Hst. by eapply System.inv_step.
    - apply Forall_forall. intros [t [w|e]|t r|] Hin; try done. by exists t. }
  inversion Hs as [| | | | | | | | | | |? ? ? Hp| |]; subst.
  by apply (System.iv_threads _ _ _ Hi _ _ Hp).
Qed.

(** C10: single flight.  As long as no holder has outlived the lock it took,
    at most one call or refresh at a time holds the lock, on any interleaving
    with lost commands and replies and dropped calls; and a call that is about
    to return holds it in no case, whether its loader succeeded or failed. *)
Theorem one_lock_holder {T} `{EnvelopeJsonLaws T} s ls (st : System.sys T) :
  run (System.tstep s) System.init ls st ->
  (forall i j a b, System.holders st !! i = Some a -> System.holders st !! j = Some b -> i = j)
  /\ (forall tid r, System.threads st !! tid = Some (Ret r) -> System.holders st !! tid = None).
Proof.
  intros Hrun. set (good (_ : T) := True).
  assert (System.inv s good st /\ System.lock_inv s st) as [Hi Hl].
  { eapply (run_invariant _ (fun st => System.inv s good st /\ System.lock_inv s st)); [| |exact Hrun].
    - intros s1 l s2 [Hi Hl] Hst. split; [|by eapply System.lock_inv_step]. destruct Hst as [_ Hst].
      assert (System.loads_good good l) by (by destruct l as [? []| |]). by eapply System.inv_step.
    - split; [apply System.inv_init|]. split; cbn; intros *; by rewrite lookup_empty. }
  split; [apply Hl|]. intros tid r Hp. apply (System.iv_threads _ _ _ Hi) in Hp as [Hh _].
  unfold System.held in Hh. bool_simp. by apply eq_None_not_Some.
Qed.

Lemma returned_values_were_loaded_witness :
  exists tid', @System.Loaded Z tid' (Ok 7) ∈ [System.Other; System.Loaded 0 (Ok 7); System.Other; System.Other].
Proof.
  assert (exists st, run (System.step Demo.swr) System.init
    ([System.Other; System.Loaded 0 (Ok 7); System.Other; System.Other] ++ [System.Returned 0 (Ok 7)]) st) as [st Hrun].
  { eexists. eapply run_cons; [apply (System.step_call Demo.swr _ 0%nat true); reflexivity|].
    eapply run_cons; [eapply (System.step_load _ _ 0%nat); reflexivity|].
    eapply run_cons; [eapply (System.step_now _ _ 0%nat); reflexivity|].
    eapply run_cons; [eapply (System.step_set _ _ 0%nat); [reflexivity|reflexivity]|].
    eapply run_cons; [eapply (System.step_return _ _ 0%nat); reflexivity|]. constructor. }
  exact (returned_values_were_loaded Demo.swr _ st Hrun _ 0%nat 7 [] eq_refl).
Defined.

Lemma one_lock_holder_witness :
  exists st, run (System.tstep Demo.swr) (@System.init Z) [System.Other; System.Other; System.Other] st
    /\ System.holders st !! 0%nat = Some 0
    /\ forall j b, System.holders st !! j = Some b -> 0%nat = j.
Proof.
  assert (exists st, run (System.tstep Demo.swr) (@System.init Z) [System.Other; System.Other; System.Other] st
    /\ System.holders st !! 0%nat = Some 0) as (st & Hrun & Hst).
  { eexists. split.
    - eapply run_cons; [split; [intros tid a E; discriminate E|apply (System.step_call Demo.swr _ 0%nat false); reflexivity]|].
      eapply run_cons; [split; [intros tid a E; discriminate E|eapply (System.step_get _ _ 0%nat); reflexivity]|].
      eapply run_cons; [split; [intros tid a E; discriminate E|eapply (System.step_set _ _ 0%nat); [reflexivity|reflexivity]]|]. constructor.
    - reflexivity. }
  exists st. split; [exact Hrun|]. split; [exact Hst|]. intros j b Hj.
  exact (proj1 (one_lock_holder Demo.swr _ st Hrun) 0%nat j 0 b Hst Hj).
Defined.

(** An overdue holder frees the next one's lock.  [DEL] does not check
    whose lock it removes: when a loader outlives [lock_ttl], its release
    deletes the lock that was taken meanwhile, and two calls hold the lock at
    the same time, both well within its time to live, where the code promises
    a cluster-wide single flight. *)
Theorem overdue_holder_frees_next_lock :
  exists ls (st : System.sys Z) i j a b,
    run (System.step Demo.swr) System.init ls st /\ i <> j
    /\ System.holders st !! i = Some a /\ System.holders st !! j = Some b
    /\ System.clock st < a + System.lock_px Demo.swr /\ System.clock st < b + System.lock_px Demo.swr.
Proof.
  eexists _, _, 1%nat, 2%nat, 30000, 30000. split.
  { eapply run_cons; [apply (System.step_call Demo.swr _ 0%nat false); reflexivity|].
    eapply run_cons; [apply (System.step_call Demo.swr _ 1%nat false); reflexivity|].
    eapply run_cons; [apply (System.step_call Demo.swr _ 2%nat false); reflexivity|].
    eapply run_cons; [eapply (System.step_get _ _ 0%nat); reflexivity|].
    eapply run_cons; [eapply (System.step_set _ _ 0%nat); [reflexivity|reflexivity]|].
    eapply run_cons; [apply (System.step_tick _ _ 30000); lia|].
    eapply run_cons; [eapply (System.step_get _ _ 1%nat); reflexivity|].
    eapply run_cons; [eapply (System.step_set _ _ 1%nat); [reflexivity|reflexivity]|].
    eapply run_cons; [eapply (System.step_load _ _ 0%nat _ (Err [])); reflexivity|].
    eapply run_cons; [eapply (System.step_del _ _ 0%nat _ _ (Ok ()) true); [reflexivity|done]|].
    eapply run_cons; [eapply (System.step_get _ _ 2%nat); reflexivity|].
    eapply run_cons; [eapply (System.step_set _ _ 2%nat); [reflexivity|reflexivity]|]. constructor. }
  repeat split; vm_compute; congruence.
Qed.
