(* ===== verification/F64.v ===== *)
(** * Rust's [f64]: IEEE 754 binary64

    The arithmetic of the Standard Library's [SpecFloat] at 53 bits and
    exponent 1024, with [max] and [min] as Rust documents them.  The lemmas say
    when it is exact: on dyadic numbers of 53 bits.  [dyadic g z] is the float
    of value z/2^g. *)

From S2P Require Import Prelude.
From Stdlib Require Import SpecFloat.

Abbreviation f64 := spec_float.
Definition f64_add : f64 -> f64 -> f64 := SFadd 53 1024.
Definition f64_sub : f64 -> f64 -> f64 := SFsub 53 1024.
Definition f64_mul : f64 -> f64 -> f64 := SFmul 53 1024.
Definition f64_div : f64 -> f64 -> f64 := SFdiv 53 1024.
Definition f64_lt (x y : f64) : bool := SFltb x y.
Definition f64_ge (x y : f64) : bool := SFleb y x.
(** [f64::from(u32)], and literals. *)
Definition f64_of_Z (n : Z) : f64 := binary_normalize 53 1024 n 0 false.
Definition is_nan (x : f64) : bool := match x with S754_nan => true | _ => false end.
(** [f64::max] and [f64::min]: a NaN gives way to the other; which zero comes
    out of two is left open by the documentation, the first one is taken. *)
Definition f64_max (x y : f64) : f64 :=
  if is_nan x then y else if is_nan y then x else if SFltb x y then y else x.
Definition f64_min (x y : f64) : f64 :=
  if is_nan x then y else if is_nan y then x else if SFltb y x then y else x.

(** ** Digits and shifts *)

Lemma digits2_pos_bounds p : 2 ^ (Zpos (digits2_pos p) - 1) <= Zpos p < 2 ^ Zpos (digits2_pos p).
Proof.
  induction p as [p IH|p IH|]; cbn [digits2_pos]; [| |done];
    rewrite Pos2Z.inj_succ; unfold Z.succ;
    replace (Zpos (digits2_pos p) + 1 - 1) with (Zpos (digits2_pos p) - 1 + 1) by lia;
    rewrite !Z.pow_add_r by lia; lia.
Qed.

Lemma digits2_pos_unique p d : 2 ^ (d - 1) <= Zpos p < 2 ^ d -> 0 < d -> Zpos (digits2_pos p) = d.
Proof.
  intros Hp Hd. pose proof (digits2_pos_bounds p) as Hb.
  destruct (Z.lt_trichotomy (Zpos (digits2_pos p)) d) as [Hl|[He|Hg]]; [|done|].
  - assert (2 ^ Zpos (digits2_pos p) <= 2 ^ (d - 1)) by (apply Z.pow_le_mono_r; lia). lia.
  - assert (2 ^ d <= 2 ^ (Zpos (digits2_pos p) - 1)) by (apply Z.pow_le_mono_r; lia). lia.
Qed.

Lemma digits2_pos_shift p q u :
  0 <= u -> Zpos q = Zpos p * 2 ^ u -> Zpos (digits2_pos q) = Zpos (digits2_pos p) + u.
Proof.
  intros Hu Hq. pose proof (digits2_pos_bounds p) as Hb. apply digits2_pos_unique; [|lia]. rewrite Hq.
  replace (Zpos (digits2_pos p) + u - 1) with (Zpos (digits2_pos p) - 1 + u) by lia.
  rewrite !Z.pow_add_r by lia. pose proof (Z.pow_pos_nonneg 2 u). nia.
Qed.

Lemma digits2_pos_le p k : 0 <= k -> Zpos p < 2 ^ k -> Zpos (digits2_pos p) <= k.
Proof.
  intros Hk Hp. pose proof (digits2_pos_bounds p) as Hb. destruct (decide (Zpos (digits2_pos p) <= k)) as [|Hn]; [done|].
  assert (2 ^ k <= 2 ^ (Zpos (digits2_pos p) - 1)) by (apply Z.pow_le_mono_r; lia). lia.
Qed.

Lemma iter_xO p d : Zpos (Pos.iter xO p d) = Zpos p * 2 ^ Zpos d.
Proof.
  revert p. induction d as [|d IH] using Pos.peano_ind; intros p; [simpl; lia|].
  rewrite Pos.iter_succ. change (Zpos (Pos.iter xO p d)~0) with (2 * Zpos (Pos.iter xO p d)).
  rewrite IH, Pos2Z.inj_succ, Z.pow_succ_r by lia. lia.
Qed.

Lemma iter_pos_iter {A} (f : A -> A) n x : iter_pos f n x = Pos.iter f x n.
Proof.
  revert x. induction n as [n IH|n IH|]; intros x; simpl; [| |done]; rewrite !IH; [|done].
  by rewrite <- !Pos.iter_swap.
Qed.

Lemma iter_shr_1 n z : 0 < z ->
  iter_pos shr_1 n (Build_shr_record (z * 2 ^ Zpos n) false false) = Build_shr_record z false false.
Proof.
  intros Hz. rewrite iter_pos_iter. induction n as [|n IH] using Pos.peano_ind.
  - cbn [Pos.iter]. replace (z * 2 ^ 1) with (2 * z) by lia. destruct z; [lia|done|lia].
  - rewrite Pos.iter_succ_r, Pos2Z.inj_succ, Z.pow_succ_r by lia.
    assert (E : shr_1 (Build_shr_record (z * (2 * 2 ^ Zpos n)) false false) = Build_shr_record (z * 2 ^ Zpos n) false false).
    { replace (z * (2 * 2 ^ Zpos n)) with (2 * (z * 2 ^ Zpos n)) by lia.
      assert (0 < z * 2 ^ Zpos n) by (apply Z.mul_pos_pos; [done|by apply Z.pow_pos_nonneg]).
      destruct (z * 2 ^ Zpos n); [lia|done|lia]. }
    by rewrite E.
Qed.

(** ** Rounding what needs none *)

(** The shift that brings [p] to 53 bits. *)
Definition slack (p : positive) : Z := 53 - Zpos (digits2_pos p).
Definition mantissa (p : positive) : positive := Z.to_pos (Zpos p * 2 ^ slack p).
(** Exponents for which nothing underflows or overflows. *)
Definition small_grid (g : Z) : Prop := 0 <= g <= 1000.
Definition fits (z : Z) : Prop := Z.abs z < 2 ^ 53.

Lemma slack_bounds p : fits (Zpos p) -> 0 <= slack p < 53.
Proof.
  unfold fits, slack. intros Hp. assert (Zpos (digits2_pos p) <= 53) by (apply digits2_pos_le; lia). lia.
Qed.

Lemma mantissa_val p : fits (Zpos p) -> Zpos (mantissa p) = Zpos p * 2 ^ slack p.
Proof.
  intros Hp%slack_bounds. unfold mantissa. rewrite Z2Pos.id; [done|]. apply Z.mul_pos_pos; [done|]. apply Z.pow_pos_nonneg; lia.
Qed.

Lemma mantissa_digits p : fits (Zpos p) -> Zpos (digits2_pos (mantissa p)) = 53.
Proof.
  intros Hp. rewrite (digits2_pos_shift p _ (slack p)); [unfold slack; lia| |by apply mantissa_val].
  apply slack_bounds in Hp. lia.
Qed.

Lemma shr_fexp_canonical (m : positive) e :
  Zpos (digits2_pos m) = 53 -> -1074 <= e -> shr_fexp 53 1024 (Zpos m) e loc_Exact = (Build_shr_record (Zpos m) false false, e).
Proof.
  intros Hm He. unfold shr_fexp. cbn [Zdigits2]. rewrite Hm. unfold fexp, emin.
  replace (Z.max _ _ - e) with 0 by lia. done.
Qed.

Lemma round_aux_shifted s (p q : positive) g u :
  small_grid g -> fits (Zpos p) -> slack p <= u -> Zpos q = Zpos p * 2 ^ u ->
  binary_round_aux 53 1024 s (Zpos q) (- g - u) loc_Exact = S754_finite s (mantissa p) (- g - slack p).
Proof.
  intros Hg Hp Hu Hq. pose proof (slack_bounds _ Hp) as Hs. unfold small_grid in Hg.
  assert (E : shr_fexp 53 1024 (Zpos q) (- g - u) loc_Exact = (Build_shr_record (Zpos (mantissa p)) false false, - g - slack p)).
  { unfold shr_fexp. cbn [Zdigits2 shr_record_of_loc]. rewrite (digits2_pos_shift p q u) by (done || lia).
    unfold fexp, emin. replace (Z.max _ _ - (- g - u)) with (u - slack p) by (unfold slack in *; lia).
    destruct (u - slack p) as [|n|n] eqn:En; cbn [shr]; [|..|lia].
    - replace u with (slack p) in * by lia. rewrite <- mantissa_val in Hq by done. by rewrite Hq.
    - f_equal; [|lia]. rewrite <- (iter_shr_1 n (Zpos (mantissa p))) by lia. do 2 f_equal.
      rewrite Hq, mantissa_val, <- Z.mul_assoc, <- Z.pow_add_r by (done || lia). do 2 f_equal. lia. }
  unfold binary_round_aux. rewrite E. cbn [shr_m loc_of_shr_record round_nearest_even].
  rewrite shr_fexp_canonical; [|by apply mantissa_digits|lia]. cbn [shr_m]. by rewrite (proj2 (Z.leb_le _ _)) by lia.
Qed.

Lemma round_shifted s (p q : positive) g u :
  small_grid g -> fits (Zpos p) -> 0 <= u -> Zpos q = Zpos p * 2 ^ u ->
  binary_round 53 1024 s q (- g - u) = S754_finite s (mantissa p) (- g - slack p).
Proof.
  intros Hg Hp Hu Hq. pose proof (slack_bounds _ Hp) as Hs. unfold small_grid in *. unfold binary_round, shl_align.
  rewrite (digits2_pos_shift p q u) by done. unfold fexp, emin.
  replace (Z.max _ _ - (- g - u)) with (u - slack p) by (unfold slack in *; lia).
  replace (Z.max _ _) with (- g - slack p) by (unfold slack in *; lia).
  destruct (u - slack p) as [|n|n] eqn:En; [apply round_aux_shifted; try done; lia..|].
  apply (round_aux_shifted s p _ g (slack p)); try done.
  rewrite iter_xO, Hq, <- Z.mul_assoc, <- Z.pow_add_r by lia. do 2 f_equal. lia.
Qed.

(** ** Dyadic numbers *)

Definition dyadic (g z : Z) : f64 :=
  match z with
  | Z0 => S754_zero false
  | Zpos p => S754_finite false (mantissa p) (- g - slack p)
  | Zneg p => S754_finite true (mantissa p) (- g - slack p)
  end.
(** A float of value z/2^g; zero has two. *)
Definition holds (x : f64) (g z : Z) : Prop := x = dyadic g z \/ (z = 0 /\ x = S754_zero true).

Lemma holds_dyadic g z : holds (dyadic g z) g z.
Proof. by left. Qed.

Lemma normalize_shifted z g u b : small_grid g -> fits z -> 0 <= u ->
  holds (binary_normalize 53 1024 (z * 2 ^ u) (- g - u) b) g z.
Proof.
  intros Hg Hz Hu. pose proof (Z.pow_pos_nonneg 2 u ltac:(lia) Hu) as Hpow. destruct z as [|p|p].
  - rewrite Z.mul_0_l. destruct b; [by right|by left].
  - destruct (Zpos p * 2 ^ u) as [|q|q] eqn:Eq; [lia| |lia]. left. cbn [binary_normalize dyadic]. by apply round_shifted.
  - destruct (Zneg p * 2 ^ u) as [|q|q] eqn:Eq; [lia|lia|]. left. cbn [binary_normalize dyadic].
    apply round_shifted; [done|unfold fits in *; lia|done|lia].
Qed.

Lemma holds_of_Z n g : small_grid g -> fits (n * 2 ^ g) -> holds (f64_of_Z n) g (n * 2 ^ g).
Proof.
  intros Hg Hn. unfold f64_of_Z, small_grid in *. pose proof (Z.pow_pos_nonneg 2 g) as Hpow.
  destruct (decide (n = 0)) as [->|H0]; [by left|].
  assert (Hn0 : fits n) by (unfold fits in *; nia).
  destruct (normalize_shifted n 0 0 false) as [E|[? _]]; [unfold small_grid; lia|done|lia| |done].
  rewrite Z.mul_1_r in E. change (- 0 - 0) with 0 in E. rewrite E. left. clear E.
  assert (Hs : forall p, fits (Zpos p * 2 ^ g) -> exists q, Zpos q = Zpos p * 2 ^ g /\ slack p = slack q + g /\ mantissa p = mantissa q).
  { intros p Hp. assert (Hq : 0 < Zpos p * 2 ^ g) by nia. exists (Z.to_pos (Zpos p * 2 ^ g)).
    assert (Ev : Zpos (Z.to_pos (Zpos p * 2 ^ g)) = Zpos p * 2 ^ g) by (by rewrite Z2Pos.id).
    assert (Es : slack p = slack (Z.to_pos (Zpos p * 2 ^ g)) + g) by (unfold slack; rewrite (digits2_pos_shift p (Z.to_pos (Zpos p * 2 ^ g)) g) by (done || lia); lia).
    split_and!; [done..|]. unfold mantissa. rewrite Ev, Es, <- Z.mul_assoc, <- Z.pow_add_r; [do 3 f_equal; lia|lia|].
    assert (fits (Zpos (Z.to_pos (Zpos p * 2 ^ g)))) as ?%slack_bounds by (by rewrite Ev). lia. }
  destruct n as [|p|p]; [done| |].
  - destruct (Hs p) as (q & Eq & Es & Em); [done|]. rewrite <- Eq. cbn [dyadic]. rewrite Em, Es. f_equal. lia.
  - destruct (Hs p) as (q & Eq & Es & Em); [unfold fits in *; lia|].
    replace (Zneg p * 2 ^ g) with (Zneg q) by lia. cbn [dyadic]. rewrite Em, Es. f_equal. lia.
Qed.

(** The aligned mantissa of an operand. *)
Lemma shl_align_dyadic p g t : fits (Zpos p) -> slack p <= t ->
  Zpos (fst (shl_align (mantissa p) (- g - slack p) (- g - t))) = Zpos p * 2 ^ t.
Proof.
  intros Hp Ht. pose proof (slack_bounds _ Hp) as Hs. unfold shl_align.
  replace (- g - t - (- g - slack p)) with (slack p - t) by lia.
  destruct (slack p - t) as [|n|n] eqn:En; cbn [fst]; [|lia|].
  - rewrite mantissa_val by done. do 2 f_equal. lia.
  - rewrite iter_xO, mantissa_val, <- Z.mul_assoc, <- Z.pow_add_r by (done || lia). do 2 f_equal. lia.
Qed.

(** Signed, as the operations use it. *)
Definition sign_of (z : Z) : bool := match z with Zneg _ => true | _ => false end.
Definition abs_pos (z : Z) : positive := match z with Zpos p | Zneg p => p | Z0 => 1 end.

Lemma dyadic_nonzero g z : z <> 0 -> dyadic g z = S754_finite (sign_of z) (mantissa (abs_pos z)) (- g - slack (abs_pos z)).
Proof. by destruct z. Qed.

Lemma cond_Zopp_align z g t : z <> 0 -> fits z -> slack (abs_pos z) <= t ->
  cond_Zopp (sign_of z) (Zpos (fst (shl_align (mantissa (abs_pos z)) (- g - slack (abs_pos z)) (- g - t)))) = z * 2 ^ t.
Proof.
  intros Hz Hf Ht. rewrite shl_align_dyadic; [|destruct z; unfold fits in *; simpl in *; lia|done].
  destruct z; cbn; lia.
Qed.

Lemma min_exponents g p q : Z.min (- g - slack p) (- g - slack q) = - g - Z.max (slack p) (slack q).
Proof. lia. Qed.

Lemma holds_add x y g a b : small_grid g -> fits a -> fits b -> fits (a + b) ->
  holds x g a -> holds y g b -> holds (f64_add x y) g (a + b).
Proof.
  intros Hg Ha Hb Hab Hx Hy. destruct (decide (a = 0)) as [->|Ha0], (decide (b = 0)) as [->|Hb0].
  - destruct Hx as [->|[_ ->]], Hy as [->|[_ ->]]; first [by left|by right].
  - destruct Hx as [->|[_ ->]], Hy as [->|[? _]]; try done; rewrite Z.add_0_l; left; by destruct b.
  - destruct Hx as [->|[? _]], Hy as [->|[_ ->]]; try done; rewrite Z.add_0_r; left; by destruct a.
  - destruct Hx as [->|[? _]], Hy as [->|[? _]]; try done. rewrite !dyadic_nonzero by done. unfold f64_add. cbn [SFadd].
    rewrite min_exponents, !cond_Zopp_align by (done || lia). rewrite <- Z.mul_add_distr_r.
    apply normalize_shifted; [done..|]. assert (fits (Zpos (abs_pos a))) as ?%slack_bounds by (by destruct a). lia.
Qed.

Lemma holds_sub x y g a b : small_grid g -> fits a -> fits b -> fits (a - b) ->
  holds x g a -> holds y g b -> holds (f64_sub x y) g (a - b).
Proof.
  intros Hg Ha Hb Hab Hx Hy. destruct (decide (a = 0)) as [->|Ha0], (decide (b = 0)) as [->|Hb0].
  - destruct Hx as [->|[_ ->]], Hy as [->|[_ ->]]; first [by left|by right].
  - destruct Hx as [->|[_ ->]], Hy as [->|[? _]]; try done; rewrite Z.sub_0_l; left; by destruct b.
  - destruct Hx as [->|[? _]], Hy as [->|[_ ->]]; try done; rewrite Z.sub_0_r; left; by destruct a.
  - destruct Hx as [->|[? _]], Hy as [->|[? _]]; try done. rewrite !dyadic_nonzero by done. unfold f64_sub. cbn [SFsub].
    rewrite min_exponents, !cond_Zopp_align by (done || lia). rewrite <- Z.mul_sub_distr_r.
    apply normalize_shifted; [done..|]. assert (fits (Zpos (abs_pos a))) as ?%slack_bounds by (by destruct a). lia.
Qed.

Lemma holds_mul x y g h a b : small_grid g -> small_grid h -> small_grid (g + h) -> fits a -> fits b -> fits (a * b) ->
  holds x g a -> holds y h b -> holds (f64_mul x y) (g + h) (a * b).
Proof.
  intros Hg Hh Hgh Ha Hb Hab Hx Hy. destruct (decide (a * b = 0)) as [E0|Hn0].
  { rewrite E0. assert (Hz : exists s, f64_mul x y = S754_zero s).
    { apply Z.mul_eq_0 in E0 as [-> | ->]; (destruct Hx as [->|[? ->]]; [|subst]); (destruct Hy as [->|[? ->]]; [|subst]);
        first [by eexists|destruct a; by eexists|destruct b; by eexists]. }
    destruct Hz as [[] ->]; [by right|by left]. }
  assert (Ha0 : a <> 0) by (intros ->; lia). assert (Hb0 : b <> 0) by (intros ->; lia).
  destruct Hx as [->|[? _]], Hy as [->|[? _]]; try done. rewrite !dyadic_nonzero by done. unfold f64_mul. cbn [SFmul].
  assert (Hpa : fits (Zpos (abs_pos a))) by (by destruct a). assert (Hpb : fits (Zpos (abs_pos b))) by (by destruct b).
  pose proof (slack_bounds _ Hpa). pose proof (slack_bounds _ Hpb).
  assert (Eab : Zpos (abs_pos (a * b)) = Zpos (abs_pos a) * Zpos (abs_pos b)) by (by destruct a, b).
  assert (Hpab : fits (Zpos (abs_pos (a * b)))) by (by destruct a, b).
  left. rewrite dyadic_nonzero by done.
  replace (sign_of (a * b)) with (xorb (sign_of a) (sign_of b)) by (by destruct a, b).
  replace (- g - slack (abs_pos a) + (- h - slack (abs_pos b))) with (- (g + h) - (slack (abs_pos a) + slack (abs_pos b))) by lia.
  apply round_aux_shifted; [done..| |].
  - unfold slack at 1. pose proof (digits2_pos_bounds (abs_pos (a * b))) as Hd.
    pose proof (digits2_pos_bounds (abs_pos a)). pose proof (digits2_pos_bounds (abs_pos b)). rewrite Eab in Hd.
    assert (Zpos (digits2_pos (abs_pos a)) + Zpos (digits2_pos (abs_pos b)) - 1 <= Zpos (digits2_pos (abs_pos (a * b)))); [|unfold slack; lia].
    apply Z.lt_succ_r. apply (Z.pow_lt_mono_r_iff 2); [lia|lia|]. unfold Z.succ. rewrite Z.pow_add_r by lia.
    replace (Zpos (digits2_pos (abs_pos a)) + Zpos (digits2_pos (abs_pos b)) - 1)
      with (Zpos (digits2_pos (abs_pos a)) - 1 + (Zpos (digits2_pos (abs_pos b)) - 1) + 1) by lia.
    rewrite !Z.pow_add_r by lia.
    assert (2 ^ (Zpos (digits2_pos (abs_pos a)) - 1) * 2 ^ (Zpos (digits2_pos (abs_pos b)) - 1)
      <= Zpos (abs_pos a) * Zpos (abs_pos b)) by (apply Z.mul_le_mono_nonneg; lia). lia.
  - rewrite Pos2Z.inj_mul, !mantissa_val, Eab, Z.pow_add_r by (done || lia). lia.
Qed.

(** ** Comparison *)

Lemma mantissa_bounds p : fits (Zpos p) -> 2 ^ 52 <= Zpos (mantissa p) < 2 ^ 53.
Proof. intros Hp. pose proof (digits2_pos_bounds (mantissa p)) as Hb. by rewrite mantissa_digits in Hb. Qed.

Lemma scaled_lt p q Q P : 0 < p -> 0 < Q -> 0 < P -> p * (Q * 2 * P) < 2 * (q * Q) -> p < q.
Proof.
  intros Hp HQ HP Hl. apply (Z.mul_lt_mono_pos_r Q); [done|]. assert (p * Q * 1 <= p * Q * P); [|lia].
  apply Z.mul_le_mono_nonneg_l; lia.
Qed.

Lemma mantissa_compare p q : fits (Zpos p) -> fits (Zpos q) ->
  match - slack p ?= - slack q with Lt => Lt | Gt => Gt | Eq => Pos.compare_cont Eq (mantissa p) (mantissa q) end = (p ?= q)%positive.
Proof.
  intros Hp Hq. pose proof (mantissa_bounds _ Hp) as Bp. pose proof (mantissa_bounds _ Hq) as Bq.
  pose proof (slack_bounds _ Hp). pose proof (slack_bounds _ Hq).
  pose proof (mantissa_val _ Hp) as Vp. pose proof (mantissa_val _ Hq) as Vq.
  change ((p ?= q)%positive) with (Zpos p ?= Zpos q). destruct (Z.compare_spec (- slack p) (- slack q)) as [E|Hl|Hl]; symmetry.
  - change (Pos.compare_cont Eq (mantissa p) (mantissa q)) with (Zpos (mantissa p) ?= Zpos (mantissa q)).
    rewrite Vp, Vq. replace (slack q) with (slack p) by lia. apply Zmult_compare_compat_r.
    apply Z.lt_gt, Z.pow_pos_nonneg; lia.
  - apply Z.compare_lt_iff. replace (slack p) with (slack q + 1 + (slack p - slack q - 1)) in Vp by lia.
    rewrite !Z.pow_add_r in Vp by lia. apply (scaled_lt _ _ (2 ^ slack q) (2 ^ (slack p - slack q - 1))); [lia|apply Z.pow_pos_nonneg; lia..|].
    change (2 ^ 1) with 2 in Vp. rewrite <- Vp, <- Vq. lia.
  - apply Z.compare_gt_iff. replace (slack q) with (slack p + 1 + (slack q - slack p - 1)) in Vq by lia.
    rewrite !Z.pow_add_r in Vq by lia. apply (scaled_lt _ _ (2 ^ slack p) (2 ^ (slack q - slack p - 1))); [lia|apply Z.pow_pos_nonneg; lia..|].
    change (2 ^ 1) with 2 in Vq. rewrite <- Vp, <- Vq. lia.
Qed.

Lemma compare_shift g a b : (- g - a ?= - g - b) = (- a ?= - b).
Proof. destruct (Z.compare_spec (- a) (- b)); [apply Z.compare_eq_iff|apply Z.compare_lt_iff|apply Z.compare_gt_iff]; lia. Qed.

Lemma holds_compare x y g a b : fits a -> fits b -> holds x g a -> holds y g b -> SFcompare x y = Some (a ?= b).
Proof.
  intros Ha Hb Hx Hy.
  assert (Hd : SFcompare (dyadic g a) (dyadic g b) = Some (a ?= b)).
  { destruct a as [|p|p], b as [|q|q]; try done; cbn [dyadic SFcompare]; rewrite compare_shift; f_equal.
    - by rewrite mantissa_compare.
    - change (Zneg p ?= Zneg q) with (CompOpp (p ?= q)%positive). rewrite <- (mantissa_compare p q) by done.
      by destruct (_ ?= _). }
  destruct Hx as [->|[-> ->]], Hy as [->|[-> ->]]; done.
Qed.

Lemma holds_not_nan x g z : holds x g z -> is_nan x = false.
Proof. intros [->|[_ ->]]; [by destruct z|done]. Qed.

Lemma holds_max x y g a b : fits a -> fits b -> holds x g a -> holds y g b -> holds (f64_max x y) g (Z.max a b).
Proof.
  intros Ha Hb Hx Hy. unfold f64_max. rewrite (holds_not_nan _ _ _ Hx), (holds_not_nan _ _ _ Hy).
  unfold SFltb. rewrite (holds_compare x y g a b) by done.
  destruct (Z.compare_spec a b); [rewrite Z.max_l by lia|rewrite Z.max_r by lia|rewrite Z.max_l by lia]; done.
Qed.

Lemma holds_min x y g a b : fits a -> fits b -> holds x g a -> holds y g b -> holds (f64_min x y) g (Z.min a b).
Proof.
  intros Ha Hb Hx Hy. unfold f64_min. rewrite (holds_not_nan _ _ _ Hx), (holds_not_nan _ _ _ Hy).
  unfold SFltb. rewrite (holds_compare y x g b a) by done.
  destruct (Z.compare_spec b a); [rewrite Z.min_l by lia|rewrite Z.min_r by lia|rewrite Z.min_l by lia]; done.
Qed.

Lemma holds_lt x y g a b : fits a -> fits b -> holds x g a -> holds y g b -> f64_lt x y = (a <? b).
Proof. intros. unfold f64_lt, SFltb, Z.ltb. by rewrite (holds_compare x y g a b). Qed.
Lemma holds_ge x y g a b : fits a -> fits b -> holds x g a -> holds y g b -> f64_ge x y = (b <=? a).
Proof. intros. unfold f64_ge, SFleb, Z.leb. rewrite (holds_compare y x g b a) by done. by destruct (b ?= a). Qed.
