(* ===== verification/Bucket.v ===== *)
(** * The token-bucket rate limiter ([crates/ratelimit/src/lib.rs])

    Buckets hold [f64] tokens and the [f64] reading of the clock they were
    last refilled at; the reading a call takes is an argument.  [Exact] is the
    bucket over the integers that the floats implement where they are exact, and
    what a token bucket promises is proved of it; [BucketF64] treats any readings. *)

From S2P Require Import Prelude RustStr F64.

Record Quota := mkQuota { capacity : Z; refill_per_sec : f64 }.
Definition quota_new (c : Z) (r : f64) : Quota := mkQuota c r.
Record Bucket := mkBucket { tokens : f64; last_refill : f64 }.

(** [MonotonicClock]: the [Duration] since its origin, as [as_secs_f64] turns
    its seconds and nanoseconds into a number. *)
Definition monotonic_now_secs (secs nanos : Z) : f64 := f64_add (f64_of_Z secs) (f64_div (f64_of_Z nanos) (f64_of_Z 1000000000)).

(** [new] and [with_clock]: no bucket yet. *)
Definition limiter_new : gmap str Bucket := ∅.

(** [try_consume], with the reading [now]; the entry stays locked throughout. *)
Definition elapsed_since (now : f64) (b : Bucket) : f64 := f64_max (f64_sub now (last_refill b)) (f64_of_Z 0).
Definition try_consume (q : Quota) (now : f64) (key : str) (cost : f64) (buckets : gmap str Bucket)
  : bool * gmap str Bucket :=
  let entry := unwrap_or (buckets !! key) (mkBucket (f64_of_Z (capacity q)) now) in
  let refilled := f64_mul (elapsed_since now entry) (refill_per_sec q) in
  let tokens := f64_min (f64_add (tokens entry) refilled) (f64_of_Z (capacity q)) in
  if f64_ge tokens cost then (true, <[key := mkBucket (f64_sub tokens cost) now]> buckets)
  else (false, <[key := mkBucket tokens now]> buckets).

Definition keep_bucket (q : Quota) (now : f64) (b : Bucket) : bool :=
  f64_lt (f64_add (tokens b) (f64_mul (elapsed_since now b) (refill_per_sec q))) (f64_of_Z (capacity q)).
Definition prune (q : Quota) (now : f64) (buckets : gmap str Bucket) : gmap str Bucket :=
  filter (fun kb => keep_bucket q now kb.2 = true) buckets.

(** The trait: what a caller may do, with its reading of the clock. *)
Class RateLimiter (S T : Type) := { check : T -> str -> S -> bool * S }.
#[export] Instance in_memory (q : Quota) : RateLimiter (gmap str Bucket) f64 := {|
  check now key s := try_consume q now key (f64_of_Z 1) s |}.

(** What a limiter is asked, with the readings: its answers, [false] for a
    prune. *)
Inductive op := Check (key : str) | Prune.
Fixpoint serve {S T} (chk : T -> str -> S -> bool * S) (prn : T -> S -> S) (ops : list (op * T)) (s : S) : list bool * S :=
  match ops with
  | [] => ([], s)
  | (o, now) :: ops =>
      let '(a, s) := match o with Check key => chk now key s | Prune => (false, prn now s) end in
      let '(l, s) := serve chk prn ops s in
      (a :: l, s)
  end.
Definition limiter (q : Quota) : list (op * f64) -> gmap str Bucket -> list bool * gmap str Bucket :=
  serve (@check _ _ (in_memory q)) (prune q).

Lemma serve_app {S T} (chk : T -> str -> S -> bool * S) prn l1 l2 s :
  serve chk prn (l1 ++ l2) s
  = let '(a1, s1) := serve chk prn l1 s in let '(a2, s2) := serve chk prn l2 s1 in (a1 ++ a2, s2).
Proof.
  revert s. induction l1 as [|[o t] l1 IH]; intros s; cbn [serve app]; [by destruct (serve chk prn l2 s)|].
  destruct (match o with Check _ => _ | Prune => _ end) as [a s1]. rewrite IH.
  destruct (serve chk prn l1 s1) as [a1 s2]. by destruct (serve chk prn l2 s2).
Qed.

Lemma limiter_check q key now ops s :
  limiter q ((Check key, now) :: ops) s
  = let '(a, s1) := try_consume q now key (f64_of_Z 1) s in let '(l, s2) := limiter q ops s1 in (a :: l, s2).
Proof. done. Qed.

Lemma limiter_app q l1 l2 s :
  limiter q (l1 ++ l2) s = let '(a1, s1) := limiter q l1 s in let '(a2, s2) := limiter q l2 s1 in (a1 ++ a2, s2).
Proof. apply serve_app. Qed.

Lemma serve_length {S T} (chk : T -> str -> S -> bool * S) prn l s : length (serve chk prn l s).1 = length l.
Proof.
  revert s. induction l as [|[o t] l IH]; intros s; cbn [serve]; [done|].
  destruct (match o with Check _ => _ | Prune => _ end) as [a s1]. specialize (IH s1).
  destruct (serve chk prn l s1). simpl in *. by rewrite IH.
Qed.

(** ** The bucket over the integers

    Times in units of 2^-k seconds, the rate [r] in units of 2^-j tokens a
    second, tokens in units of 2^-(k+j). *)

Module Exact.
Section Exact.
Context (g c r : Z).

Definition full : Z := c * 2 ^ g.
Definition one : Z := 2 ^ g.
(** A key that is not there has a full bucket. *)
Definition available (now : Z) (e : option (Z * Z)) : Z :=
  match e with
  | Some (tok, last) => Z.min full (tok + Z.max 0 (now - last) * r)
  | None => full
  end.
Definition check (now : Z) (key : str) (s : gmap str (Z * Z)) : bool * gmap str (Z * Z) :=
  let tok := available now (s !! key) in
  if one <=? tok then (true, <[key := (tok - one, now)]> s) else (false, <[key := (tok, now)]> s).
(** Nothing is ever forgotten. *)
Definition limiter : list (op * Z) -> gmap str (Z * Z) -> list bool * gmap str (Z * Z) :=
  serve check (fun _ s => s).

(** How many of the checks of [key] were admitted. *)
Fixpoint admitted {T} (key : str) (ops : list (op * T)) (answers : list bool) : Z :=
  match ops, answers with
  | (Check k, _) :: ops, a :: answers => (if (k =s key) && a then 1 else 0) + admitted key ops answers
  | (Prune, _) :: ops, _ :: answers => admitted key ops answers
  | _, _ => 0
  end.

(** Readings that do not go back, from [t0] on. *)
Fixpoint forward {T} (t0 : Z) (ops : list (T * Z)) : Prop :=
  match ops with [] => True | (_, t) :: ops => t0 <= t /\ forward t ops end.

Lemma forward_app {T} t0 (l1 l2 : list (T * Z)) : forward t0 (l1 ++ l2) -> exists t1, t0 <= t1 /\ forward t0 l1 /\ forward t1 l2
  /\ Forall (fun o => o.2 <= t1) l1.
Proof.
  revert t0. induction l1 as [|[o t] l1 IH]; intros t0; cbn [app forward].
  - intros Hf. exists t0. split_and!; [lia|done..].
  - intros [Ht (t1 & Ht1 & H1 & H2 & H3)%IH]. exists t1. split_and!; [lia|done..|]. constructor; [simpl; lia|done].
Qed.

Hypothesis Hr : 0 <= r.

(** A bucket's last reading is not in the future. *)
Definition past (now : Z) (s : gmap str (Z * Z)) : Prop :=
  forall key tok last, s !! key = Some (tok, last) -> 0 <= tok <= full /\ last <= now.

Lemma available_later t t' e : (forall tok last, e = Some (tok, last) -> tok <= full /\ last <= t) -> t <= t' ->
  available t' e <= available t e + r * (t' - t).
Proof.
  intros He Ht. destruct e as [[tok last]|]; simpl; [|nia]. destruct (He tok last eq_refl).
  rewrite !Z.max_r by lia. assert ((t' - last) * r = (t - last) * r + r * (t' - t)) by lia. nia.
Qed.

Lemma available_bounds t e : 0 <= c -> 0 <= g -> (forall tok last, e = Some (tok, last) -> 0 <= tok <= full) ->
  0 <= available t e <= full.
Proof.
  intros Hc Hg He. assert (0 <= full) by (unfold full; pose proof (Z.pow_pos_nonneg 2 g); nia).
  destruct e as [[tok last]|]; simpl; [|lia]. destruct (He tok last eq_refl). assert (0 <= Z.max 0 (t - last) * r) by nia. lia.
Qed.

Lemma check_past t t' key s : 0 <= c -> 0 <= g -> past t s -> t <= t' -> past t' (check t' key s).2.
Proof.
  intros Hc Hg Hp Ht. unfold check. assert (0 <= one) by (unfold one; by apply Z.pow_nonneg).
  assert (Hb : 0 <= available t' (s !! key) <= full).
  { apply available_bounds; [done..|]. intros tok last Hl. by destruct (Hp _ _ _ Hl). }
  destruct (one <=? _) eqn:E; bool_simp; intros key' tok last; cbn [snd]; rewrite lookup_insert_Some.
  all: intros [[_ [= <- <-]]|[_ Hl]]; [lia|]; destruct (Hp _ _ _ Hl); lia.
Qed.

Lemma check_available t key key' s : 0 <= c -> 0 <= g -> past t s ->
  (if (key =s key') && (check t key s).1 then one else 0) + available t ((check t key s).2 !! key') <= available t (s !! key').
Proof.
  intros Hc Hg Hp. unfold check. assert (0 <= one) by (unfold one; by apply Z.pow_nonneg).
  assert (Hb : 0 <= available t (s !! key) <= full).
  { apply available_bounds; [done..|]. intros tok last Hl. by destruct (Hp _ _ _ Hl). }
  destruct (key =s key') eqn:Ek.
  - apply str_eqb_eq in Ek. subst key'. destruct (one <=? _) eqn:E; bool_simp; cbn [fst snd andb]; rewrite lookup_insert_eq;
      cbn [available]; rewrite Z.sub_diag; simpl; lia.
  - apply str_eqb_neq in Ek. destruct (one <=? _); cbn [fst snd andb]; rewrite lookup_insert_ne by done; lia.
Qed.

(** The bound on any stretch of a history. *)
Lemma admitted_bounded key ops t0 t1 s : 0 <= c -> 0 <= g ->
  past t0 s -> forward t0 ops -> Forall (fun o => o.2 <= t1) ops -> t0 <= t1 ->
  let '(l, s') := limiter ops s in
  one * admitted key ops l + available t1 (s' !! key) <= available t0 (s !! key) + r * (t1 - t0).
Proof.
  intros Hc Hg. revert t0 s. induction ops as [|[o t] ops IH]; intros t0 s Hp Hf Hall Ht.
  { cbn. assert (H := available_later t0 t1 (s !! key)). rewrite Z.mul_0_r. apply H; [|done].
    intros tok last Hl. destruct (Hp _ _ _ Hl). lia. }
  cbn [forward] in Hf. destruct Hf as [H0 Hf]. inversion_clear Hall as [|? ? Hle Hall']. simpl in Hle.
  assert (Hp' : past t s) by (intros k' tok last Hl; destruct (Hp _ _ _ Hl); lia).
  assert (Hlater : available t (s !! key) <= available t0 (s !! key) + r * (t - t0)).
  { apply available_later; [|lia]. intros tok last Hl. destruct (Hp _ _ _ Hl). lia. }
  unfold limiter in *. cbn [serve]. destruct o as [k'|].
  - pose proof (check_available t k' key s Hc Hg Hp') as Hca. pose proof (check_past t t k' s Hc Hg Hp' ltac:(lia)) as Hpast.
    destruct (check t k' s) as [a s1]. cbn [fst snd] in *. specialize (IH t s1 Hpast Hf Hall' Hle).
    destruct (serve check _ ops s1) as [l s2]. cbn [admitted]. rewrite Z.mul_add_distr_l.
    destruct ((k' =s key) && a); lia.
  - specialize (IH t s Hp' Hf Hall' Hle). destruct (serve check _ ops s) as [l s2]. cbn [admitted]. lia.
Qed.

Lemma limiter_past ops t0 t1 s : 0 <= c -> 0 <= g -> past t0 s -> forward t0 ops -> Forall (fun o => o.2 <= t1) ops -> t0 <= t1 ->
  past t1 (limiter ops s).2.
Proof.
  intros Hc Hg. revert t0 s. induction ops as [|[o t] ops IH]; intros t0 s Hp Hf Hall Ht.
  { intros key tok last Hl. destruct (Hp _ _ _ Hl). lia. }
  cbn [forward] in Hf. destruct Hf as [H0 Hf]. inversion_clear Hall as [|? ? Hle Hall']. simpl in Hle.
  unfold limiter in *. cbn [serve]. destruct o as [key|].
  - pose proof (check_past t0 t key s Hc Hg Hp H0) as Hp'. destruct (check t key s) as [a s1]. cbn [snd] in Hp'.
    specialize (IH t s1 Hp' Hf Hall' Hle). by destruct (serve _ _ ops s1).
  - assert (Hp' : past t s) by (intros key tok last Hl; destruct (Hp _ _ _ Hl); lia).
    specialize (IH t s Hp' Hf Hall' Hle). by destruct (serve _ _ ops s).
Qed.

Lemma admitted_full key ops t0 t1 s : 0 <= c -> 0 <= g ->
  past t0 s -> forward t0 ops -> Forall (fun o => o.2 <= t1) ops -> t0 <= t1 ->
  one * admitted key ops (limiter ops s).1 <= full + r * (t1 - t0).
Proof.
  intros Hc Hg Hp Hf Hall Ht. pose proof (admitted_bounded key ops t0 t1 s Hc Hg Hp Hf Hall Ht) as Hb.
  pose proof (limiter_past ops t0 t1 s Hc Hg Hp Hf Hall Ht) as Hp'. destruct (limiter ops s) as [l s']. cbn [fst snd] in *.
  assert (0 <= available t1 (s' !! key)) by (apply available_bounds; [done..|]; intros tok last Hl; by destruct (Hp' _ _ _ Hl)).
  assert (available t0 (s !! key) <= full) by (apply available_bounds; [done..|]; intros tok last Hl; by destruct (Hp _ _ _ Hl)).
  lia.
Qed.
End Exact.
End Exact.

(** ** The floats implement it *)

Section Refinement.
Context (k j c r horizon : Z) (rate : f64).

(** Quotas and readings on which binary64 is exact: the clock ticks in units
    of 2^-k seconds and the rate is a multiple of 2^-j, and tokens and refills
    up to the horizon have 53 bits. *)
Record exact_quota : Prop := {
  eq_k : 0 <= k;
  eq_j : 0 <= j;
  eq_grid : k + j <= 52;
  eq_c : 0 <= c;
  eq_r : 0 <= r;
  eq_horizon : 0 <= horizon < 2 ^ 53;
  eq_fits : c * 2 ^ (k + j) + horizon * r < 2 ^ 53;
  eq_rate : holds rate j r;
  eq_rfits : r < 2 ^ 53;
}.
Context (HQ : exact_quota).
Let q : Quota := quota_new c rate.
Let C : Z := Exact.full (k + j) c.

Definition stands (b : Bucket) (tok last : Z) : Prop :=
  holds (tokens b) (k + j) tok /\ holds (last_refill b) k last.

Lemma elapsed_stands b tok last now : 0 <= last <= horizon -> 0 <= now <= horizon -> stands b tok last ->
  holds (elapsed_since (dyadic k now) b) k (Z.max 0 (now - last)).
Proof.
  intros Hl Hn [_ Hb]. destruct HQ. unfold elapsed_since. rewrite Z.max_comm. apply holds_max; [unfold fits; lia..| |].
  - apply holds_sub; [unfold small_grid, fits; lia..|apply holds_dyadic|done].
  - by left.
Qed.

(** What is compared with the capacity, before it is capped. *)
Lemma refilled_stands b tok last now : 0 <= tok <= C -> 0 <= last <= horizon -> 0 <= now <= horizon -> stands b tok last ->
  holds (f64_add (tokens b) (f64_mul (elapsed_since (dyadic k now) b) rate)) (k + j) (tok + Z.max 0 (now - last) * r)
  /\ fits (tok + Z.max 0 (now - last) * r).
Proof.
  intros Ht Hl Hn Hb. pose proof (elapsed_stands _ _ _ _ Hl Hn Hb) as He. destruct Hb as [Hb _]. destruct HQ. unfold C, Exact.full in *.
  assert (0 <= Z.max 0 (now - last) * r <= horizon * r) by (split; [apply Z.mul_nonneg_nonneg|apply Z.mul_le_mono_nonneg_r]; lia).
  assert (0 <= horizon * r) by (apply Z.mul_nonneg_nonneg; lia).
  split; [|unfold fits; lia]. apply holds_add; [unfold small_grid, fits; lia..|done|].
  apply holds_mul; [unfold small_grid, fits; lia..|done|done].
Qed.

Lemma full_fits : 0 <= C /\ fits C /\ holds (f64_of_Z c) (k + j) C.
Proof.
  destruct HQ. unfold C, Exact.full. pose proof (Z.pow_pos_nonneg 2 (k + j)).
  assert (0 <= c * 2 ^ (k + j)) by (apply Z.mul_nonneg_nonneg; lia).
  assert (0 <= horizon * r) by (apply Z.mul_nonneg_nonneg; lia).
  assert (fits (c * 2 ^ (k + j))) by (unfold fits; lia). split_and!; [done..|]. apply holds_of_Z; [unfold small_grid; lia|done].
Qed.

Lemma one_fits : 0 < Exact.one (k + j) /\ fits (Exact.one (k + j)) /\ holds (f64_of_Z 1) (k + j) (Exact.one (k + j)).
Proof.
  destruct HQ. unfold Exact.one. assert (0 < 2 ^ (k + j)) by (apply Z.pow_pos_nonneg; lia).
  assert (2 ^ (k + j) <= 2 ^ 52) by (apply Z.pow_le_mono_r; lia).
  assert (fits (2 ^ (k + j))) by (unfold fits; lia). split_and!; [done..|].
  rewrite <- (Z.mul_1_l (2 ^ (k + j))). apply holds_of_Z; [unfold small_grid; lia|by rewrite Z.mul_1_l].
Qed.

(** A check of a key whose bucket, or the fresh one it gets, stands for the
    exact bucket does what the exact one does. *)
Lemma try_consume_exact now key buckets tok last :
  let b := unwrap_or (buckets !! key) (mkBucket (f64_of_Z c) (dyadic k now)) in
  stands b tok last -> 0 <= tok <= C -> 0 <= last <= horizon -> 0 <= now <= horizon ->
  let t := Z.min C (tok + Z.max 0 (now - last) * r) in
  exists b', try_consume q (dyadic k now) key (f64_of_Z 1) buckets = (Exact.one (k + j) <=? t, <[key := b']> buckets)
    /\ stands b' (if Exact.one (k + j) <=? t then t - Exact.one (k + j) else t) now.
Proof.
  intros b Hb Htok Hlast Hnow t. destruct (refilled_stands b tok last now) as [Href Hfit]; [done..|].
  destruct full_fits as (HC & HfC & HhC). destruct one_fits as (H1 & Hf1 & Hh1).
  assert (Ht : 0 <= t <= C).
  { assert (0 <= Z.max 0 (now - last) * r) by (destruct HQ; apply Z.mul_nonneg_nonneg; lia). unfold t. lia. }
  unfold try_consume. cbn [capacity refill_per_sec q quota_new]. fold b.
  set (x := f64_min _ _). assert (Hx : holds x (k + j) t).
  { unfold x, t. rewrite Z.min_comm. by apply holds_min. }
  assert (Hft : fits t) by (unfold fits in *; lia).
  rewrite (holds_ge x _ (k + j) t (Exact.one (k + j))) by done.
  destruct (Exact.one (k + j) <=? t) eqn:E; bool_simp; eexists; (split; [reflexivity|]); split; try apply holds_dyadic; [|done].
  apply holds_sub; try done; destruct HQ; [unfold small_grid; lia|unfold fits in *; lia].
Qed.

(** The simulation: at reading [now], a key has a bucket that stands for its
    exact one, or none where the exact one is full again. *)
Definition sim (now : Z) (s : gmap str Bucket) (e : gmap str (Z * Z)) : Prop :=
  forall key, match s !! key, e !! key with
  | Some b, Some (tok, last) => stands b tok last /\ 0 <= tok <= C /\ 0 <= last <= now
  | None, Some (tok, last) => 0 <= tok <= C /\ 0 <= last <= now /\ C <= tok + (now - last) * r
  | None, None => True
  | Some _, None => False
  end.

Lemma sim_later now now' s e : sim now s e -> now <= now' -> sim now' s e.
Proof.
  intros Hs Hn key. specialize (Hs key). destruct HQ. destruct (s !! key), (e !! key) as [[tok last]|]; try done.
  - destruct Hs as (? & ? & ?). split_and!; try done; lia.
  - destruct Hs as (? & ? & ?). assert ((now - last) * r <= (now' - last) * r) by (apply Z.mul_le_mono_nonneg_r; lia). lia.
Qed.

Lemma fresh_stands now : stands (mkBucket (f64_of_Z c) (dyadic k now)) C now.
Proof. split; [apply full_fits|apply holds_dyadic]. Qed.

Lemma sim_check now key s e : 0 <= now <= horizon -> sim now s e ->
  exists s', try_consume q (dyadic k now) key (f64_of_Z 1) s = ((Exact.check (k + j) c r now key e).1, s')
    /\ sim now s' (Exact.check (k + j) c r now key e).2.
Proof.
  intros Hnow Hs. destruct one_fits as (H1 & _). pose proof full_fits as (HC & _).
  assert (Hb : exists tok last, stands (unwrap_or (s !! key) (mkBucket (f64_of_Z c) (dyadic k now))) tok last
    /\ 0 <= tok <= C /\ 0 <= last <= now /\ Z.min C (tok + Z.max 0 (now - last) * r) = Exact.available (k + j) c r now (e !! key)).
  { specialize (Hs key). destruct (s !! key) as [b|], (e !! key) as [[tok last]|] eqn:Ee; try done; cbn [unwrap_or].
    - destruct Hs as (? & ? & ?). exists tok, last. done.
    - destruct Hs as (? & ? & ?). exists C, now. split_and!; try (apply fresh_stands || lia).
      rewrite Z.sub_diag. cbn [Exact.available]. fold C. rewrite (Z.max_r 0 (now - last)) by lia. simpl. lia.
    - exists C, now. split_and!; try (apply fresh_stands || lia). rewrite Z.sub_diag. cbn [Exact.available]. fold C. simpl. lia. }
  destruct Hb as (tok & last & Hst & Htok & Hlast & Hav).
  destruct (try_consume_exact now key s tok last) as (b' & Htc & Hst'); [done|done|lia|done|]. rewrite Hav in Htc, Hst'.
  assert (Hrange : 0 <= Exact.available (k + j) c r now (e !! key) <= C).
  { rewrite <- Hav. assert (0 <= Z.max 0 (now - last) * r) by (destruct HQ; apply Z.mul_nonneg_nonneg; lia). lia. }
  exists (<[key := b']> s). unfold Exact.check. rewrite Htc. split; [by destruct (_ <=? _)|].
  intros key'. destruct (Exact.one (k + j) <=? _) eqn:E; bool_simp; cbn [snd]; (destruct (decide (key = key')) as [<-|Hne];
    [rewrite !lookup_insert_eq; split_and!; try done; lia|rewrite !lookup_insert_ne by done; apply Hs]).
Qed.

Lemma sim_prune now s e : 0 <= now <= horizon -> sim now s e -> sim now (prune q (dyadic k now) s) e.
Proof.
  intros Hnow Hs key. specialize (Hs key). unfold prune.
  rewrite map_lookup_filter. destruct (s !! key) as [b|]; [|by destruct (e !! key) as [[]|]].
  destruct (e !! key) as [[tok last]|]; [|done]. destruct Hs as (Hst & Htok & Hlast).
  destruct (refilled_stands b tok last now) as [Href Hfit]; [done|lia|done|done|]. destruct full_fits as (HC & HfC & HhC).
  assert (Hk : keep_bucket q (dyadic k now) b = (tok + Z.max 0 (now - last) * r <? C)).
  { unfold keep_bucket. by apply (holds_lt _ _ (k + j)). }
  cbn [mbind option_bind]. destruct (keep_bucket q (dyadic k now) b) eqn:E.
  - rewrite option_guard_True by done. done.
  - rewrite option_guard_False by (cbn; congruence). rewrite Z.max_r in Hk by lia. symmetry in Hk. bool_simp. cbn [mbind option_bind]. lia.
Qed.

Lemma sim_serve ops t0 s e : 0 <= t0 -> Exact.forward t0 ops -> Forall (fun o => o.2 <= horizon) ops -> sim t0 s e ->
  (limiter q (prod_map id (dyadic k) <$> ops) s).1 = (Exact.limiter (k + j) c r ops e).1.
Proof.
  revert t0 s e. induction ops as [|[o t] ops IH]; intros t0 s e H0 Hf Hall Hs; [done|].
  cbn [Exact.forward] in Hf. destruct Hf as [Ht Hf]. inversion_clear Hall as [|? ? Hle Hall']. simpl in Hle.
  apply (sim_later _ t) in Hs; [|done]. unfold limiter, Exact.limiter in *. cbn [fmap list_fmap prod_map fst snd serve id].
  destruct o as [key|].
  - destruct (sim_check t key s e) as (s' & Htc & Hs'); [lia|done|]. cbn [check in_memory]. rewrite Htc.
    destruct (Exact.check (k + j) c r t key e) as [a e']. cbn [fst snd] in *.
    specialize (IH t s' e' ltac:(lia) Hf Hall' Hs').
    destruct (serve _ _ (prod_map _ _ <$> ops) s'), (serve _ _ ops e'). simpl in *. by rewrite IH.
  - specialize (IH t _ e ltac:(lia) Hf Hall' (sim_prune t s e ltac:(lia) Hs)).
    destruct (serve _ _ (prod_map _ _ <$> ops) _), (serve _ _ ops e). simpl in *. by rewrite IH.
Qed.

(** Checks at one reading use up what is available at it, one token each. *)
Lemma drain key t n m s tok last : 0 <= t <= horizon ->
  stands (unwrap_or (s !! key) (mkBucket (f64_of_Z c) (dyadic k t))) tok last -> 0 <= tok <= C -> 0 <= last <= horizon ->
  Z.min C (tok + Z.max 0 (t - last) * r) = Z.of_nat (S n + m) * Exact.one (k + j) ->
  exists b s', limiter q (replicate (S n) (Check key, dyadic k t)) s = (replicate (S n) true, s')
    /\ s' !! key = Some b /\ stands b (Z.of_nat m * Exact.one (k + j)) t.
Proof.
  intros Ht. pose proof one_fits as (H1 & _). revert s tok last. induction n as [|n IH]; intros s tok last Hst Htok Hlast Hav.
  all: destruct (try_consume_exact t key s tok last) as (b & Htc & Hb); [done..|]; rewrite Hav in Htc, Hb;
    rewrite (proj2 (Z.leb_le _ _)) in Htc, Hb by nia; rewrite replicate_S, limiter_check, Htc.
  - exists b, (<[key := b]> s). split_and!; [done|by rewrite lookup_insert_eq|].
    replace (Z.of_nat m * _) with (Z.of_nat (1 + m) * Exact.one (k + j) - Exact.one (k + j)) by lia. done.
  - assert (E : Z.of_nat (S (S n) + m) * Exact.one (k + j) - Exact.one (k + j) = Z.of_nat (S n + m) * Exact.one (k + j)) by lia.
    rewrite E in Hb. assert (0 <= Z.of_nat (S n + m) * Exact.one (k + j) <= C) by lia.
    destruct (IH (<[key := b]> s) (Z.of_nat (S n + m) * Exact.one (k + j)) t) as (b' & s' & Hser & Hl & Hst').
    + by rewrite lookup_insert_eq.
    + done.
    + done.
    + rewrite Z.sub_diag. simpl Z.max. lia.
    + exists b', s'. by rewrite Hser.
Qed.
End Refinement.

(** The empty limiter simulates the empty one. *)
Lemma sim_empty k j c r t0 : sim k j c r t0 ∅ ∅.
Proof. intros key. by rewrite !lookup_empty. Qed.

Module Demo.
(** Five requests in a burst, two a second: milliseconds rounded to 1/1024. *)
Definition quota : Quota := quota_new 5 (f64_of_Z 2).
Definition ops : list (op * Z) :=
  ((fun t => (Check (lit "k"), t)) <$> [0; 0; 0; 1; 2; 3; 600]) ++ [(Prune, 700); (Check (lit "k"), 90000)].
Lemma quota_exact : exact_quota 10 0 5 2 (2 ^ 30) (f64_of_Z 2).
Proof. by split; try lia; left. Qed.
End Demo.

(** ** Properties *)

(** C11: the limiter is the token bucket of the textbook.  As long as the
    clock's readings do not go back, and as long as readings and rate are
    dyadic numbers that leave 53 bits room, every sequence of checks and prunes
    is answered by the floating-point limiter exactly as by the bucket over
    the integers, in which nothing is rounded and nothing is ever pruned. *)
Theorem limiter_refines_exact_bucket k j c r horizon rate ops :
  exact_quota k j c r horizon rate -> Exact.forward 0 ops -> Forall (fun o => o.2 <= horizon) ops ->
  (limiter (quota_new c rate) (prod_map id (dyadic k) <$> ops) limiter_new).1 = (Exact.limiter (k + j) c r ops ∅).1.
Proof. intros HQ Hf Hall. eapply (sim_serve k j c r horizon rate HQ ops 0); [lia|done..|apply sim_empty]. Qed.

Lemma limiter_refines_exact_bucket_witness :
  (limiter Demo.quota (prod_map id (dyadic 10) <$> Demo.ops) limiter_new).1 = [true; true; true; true; true; false; true; false; true].
Proof.
  change Demo.quota with (quota_new 5 (f64_of_Z 2)).
  rewrite (limiter_refines_exact_bucket 10 0 5 2 (2 ^ 30) (f64_of_Z 2) Demo.ops Demo.quota_exact).
  - vm_compute. reflexivity.
  - vm_compute. intuition discriminate.
  - apply (bool_decide_unpack _). vm_compute. exact I.
Defined.

(** No key exceeds its rate.  In any stretch of any such history, between
    readings [t0] and [t1], a key is admitted at most [capacity] times plus the
    refill of that time, however checks of other keys and prunes are mixed in,
    and whatever happened before. *)
Theorem admissions_rate_bounded k j c r horizon rate l1 l2 l3 key t0 t1 :
  exact_quota k j c r horizon rate -> Exact.forward 0 (l1 ++ l2 ++ l3) ->
  Forall (fun o => o.2 <= horizon) (l1 ++ l2 ++ l3) ->
  0 <= t0 -> Exact.forward t0 l2 -> Forall (fun o => o.2 <= t0) l1 -> Forall (fun o => o.2 <= t1) l2 -> t0 <= t1 ->
  let answers := (limiter (quota_new c rate) (prod_map id (dyadic k) <$> (l1 ++ l2 ++ l3)) limiter_new).1 in
  2 ^ (k + j) * Exact.admitted key l2 (take (length l2) (drop (length l1) answers))
  <= c * 2 ^ (k + j) + r * (t1 - t0).
Proof.
  intros HQ Hf Hall H0 Hf2 Hl1 Hl2 Ht answers. unfold answers, limiter_new.
  rewrite (sim_serve k j c r horizon rate HQ _ 0 ∅ ∅); [|lia|done|done|apply sim_empty]. destruct HQ.
  assert (Hpast : Exact.past (k + j) c t0 (Exact.limiter (k + j) c r l1 ∅).2).
  { apply Exact.forward_app in Hf as (t & _ & Hfl1 & _ & _).
    eapply Exact.limiter_past; [done|done|lia| |exact Hfl1|done|done]. intros key' tok last. by rewrite lookup_empty. }
  pose proof (Exact.admitted_full (k + j) c r ltac:(done) key l2 t0 t1 _ ltac:(done) ltac:(lia) Hpast Hf2 Hl2 Ht) as Hb.
  unfold Exact.limiter in *. rewrite serve_app.
  pose proof (serve_length (Exact.check (k + j) c r) (fun _ s => s) l1 ∅) as Hlen1.
  destruct (serve _ _ l1 ∅) as [a1 s1]. cbn [fst snd] in Hlen1, Hb. rewrite serve_app.
  pose proof (serve_length (Exact.check (k + j) c r) (fun _ s => s) l2 s1) as Hlen2.
  destruct (serve _ _ l2 s1) as [a2 s2]. cbn [fst snd] in Hlen2, Hb. destruct (serve _ _ l3 s2) as [a3 s3]. cbn [fst].
  by rewrite <- Hlen1, drop_app_length, <- Hlen2, take_app_length.
Qed.

Lemma admissions_rate_bounded_witness :
  2 ^ (10 + 0) * Exact.admitted (lit "k") Demo.ops
    (take (length Demo.ops) (drop 0 (limiter (quota_new 5 (f64_of_Z 2)) (prod_map id (dyadic 10) <$> ([] ++ Demo.ops ++ [])) limiter_new).1))
  <= 5 * 2 ^ (10 + 0) + 2 * (90000 - 0).
Proof.
  apply (admissions_rate_bounded 10 0 5 2 (2 ^ 30) (f64_of_Z 2) [] Demo.ops [] (lit "k") 0 90000 Demo.quota_exact).
  - vm_compute. intuition discriminate.
  - apply (bool_decide_unpack _). vm_compute. exact I.
  - done.
  - vm_compute. intuition discriminate.
  - constructor.
  - apply (bool_decide_unpack _). vm_compute. exact I.
  - done.
Defined.

(** A reading that comes late refills the bucket again.  The clock is read
    before the bucket is locked and [last_refill] is set to the reading even
    when it is older, so a call that read [t0] and got the bucket after calls
    that read [t] moves it back: [capacity] checks at [t], the late one, which
    is refused, and [capacity] checks at [t] again are all admitted, twice the
    capacity at one reading of the clock. *)
Theorem stale_reading_refills_again k j c r horizon rate key t0 t :
  exact_quota k j c r horizon rate -> 0 < c -> 0 <= t0 <= t -> t <= horizon -> c * 2 ^ (k + j) <= (t - t0) * r ->
  let burst := replicate (Z.to_nat c) (Check key, dyadic k t) in
  let admitted := replicate (Z.to_nat c) true in
  (limiter (quota_new c rate) (burst ++ [(Check key, dyadic k t0)] ++ burst) limiter_new).1 = admitted ++ [false] ++ admitted.
Proof.
  intros HQ Hc Ht0 Ht Hr burst admitted. unfold burst, admitted, limiter_new. clear burst admitted.
  destruct (Z.to_nat c) as [|n] eqn:En; [lia|]. pose proof (one_fits k j c r horizon rate HQ) as (H1 & _).
  pose proof (full_fits k j c r horizon rate HQ) as (HC & _).
  assert (Hfull : Exact.full (k + j) c = Z.of_nat (S n) * Exact.one (k + j)) by (unfold Exact.full, Exact.one; rewrite <- En; lia).
  rewrite limiter_app.
  destruct (drain k j c r horizon rate HQ key t n 0 ∅ (Exact.full (k + j) c) t) as (b1 & s1 & Hs1 & Hl1 & Hb1);
    [lia|by apply (fresh_stands k j c r horizon rate HQ)|lia|lia|rewrite Z.sub_diag; simpl Z.max; rewrite Nat.add_0_r; lia|].
  rewrite Hs1. clear Hs1. cbn [app]. rewrite limiter_check.
  destruct (try_consume_exact k j c r horizon rate HQ t0 key s1 0 t) as (b2 & Htc & Hb2);
    [by rewrite Hl1|lia..|]. rewrite Z.max_l in Htc, Hb2 by lia. rewrite Z.mul_0_l, Z.add_0_l, Z.min_r in Htc, Hb2 by lia.
  rewrite (proj2 (Z.leb_gt _ _)) in Htc, Hb2 by lia. rewrite Htc. clear Htc.
  destruct (drain k j c r horizon rate HQ key t n 0 (<[key := b2]> s1) 0 t0) as (b3 & s3 & Hs3 & _);
    [lia|by rewrite lookup_insert_eq|lia|lia| |].
  { rewrite Z.max_r, Nat.add_0_r, <- Hfull by lia. unfold Exact.full. lia. }
  by rewrite Hs3.
Qed.

Lemma stale_reading_refills_again_witness :
  (limiter (quota_new 5 (f64_of_Z 2)) (replicate 5 (Check (lit "k"), dyadic 10 9000) ++ [(Check (lit "k"), dyadic 10 0)]
    ++ replicate 5 (Check (lit "k"), dyadic 10 9000)) limiter_new).1 = replicate 5 true ++ [false] ++ replicate 5 true.
Proof. apply (stale_reading_refills_again 10 0 5 2 (2 ^ 30) (f64_of_Z 2) (lit "k") 0 9000 Demo.quota_exact); done. Defined.
