(* ===== verification/F64Round.v ===== *)
(** * Rounding of binary64

    The arithmetic of [F64] on any non-negative numbers, not only on those it
    computes exactly.  Every finite float is a whole number of 2^-1074, so its
    value is an integer in that unit, and infinity counts as 2^1024.  [rounded]
    is the round-to-nearest-even of a value given in units of 2^-(1074+h); the
    operations return the rounding of the exact result, and rounding is
    monotone. *)

From S2P Require Import Prelude F64.
From Stdlib Require Import SpecFloat.

(** ** Rounding to an integer *)

(** m / 2^n to the nearest integer, ties to even. *)
Definition rne (m n : Z) : Z :=
  let q := m / 2 ^ n in
  match 2 * (m mod 2 ^ n) ?= 2 ^ n with
  | Lt => q
  | Eq => if Z.even q then q else q + 1
  | Gt => q + 1
  end.

Lemma pow2_pos n : 0 <= n -> 0 < 2 ^ n.
Proof. intros Hn. by apply Z.pow_pos_nonneg. Qed.

Lemma rne_bounds m n : m / 2 ^ n <= rne m n <= m / 2 ^ n + 1.
Proof. unfold rne. destruct (_ ?= _); [destruct (Z.even _)|..]; lia. Qed.

Lemma rne_mono m m' n : 0 <= n -> m <= m' -> rne m n <= rne m' n.
Proof.
  intros Hn Hm. pose proof (pow2_pos n Hn) as Hp. pose proof (Z.div_le_mono m m' (2 ^ n) Hp Hm) as Hd.
  destruct (decide (m / 2 ^ n = m' / 2 ^ n)) as [E|Hne].
  - unfold rne. rewrite E. pose proof (Z.div_mod m (2 ^ n) ltac:(lia)). pose proof (Z.div_mod m' (2 ^ n) ltac:(lia)).
    rewrite E in *. assert (m mod 2 ^ n <= m' mod 2 ^ n) by lia.
    destruct (Z.compare_spec (2 * (m mod 2 ^ n)) (2 ^ n)), (Z.compare_spec (2 * (m' mod 2 ^ n)) (2 ^ n)); try lia;
      destruct (Z.even _); lia.
  - pose proof (rne_bounds m n). pose proof (rne_bounds m' n). lia.
Qed.

Lemma rne_exact q n : 0 <= n -> rne (q * 2 ^ n) n = q.
Proof.
  intros Hn. pose proof (pow2_pos n Hn) as Hp. unfold rne. rewrite Z.mod_mul, Z.div_mul by lia.
  by rewrite (proj2 (Z.compare_lt_iff _ _)) by lia.
Qed.

Lemma rne_scale m n c : 0 <= n -> 0 <= c -> rne (m * 2 ^ c) (n + c) = rne m n.
Proof.
  intros Hn Hc. pose proof (pow2_pos n Hn). pose proof (pow2_pos c Hc). unfold rne. rewrite Z.pow_add_r by done.
  rewrite Z.div_mul_cancel_r, Z.mul_mod_distr_r by lia. rewrite Z.mul_assoc.
  by rewrite <- (Zmult_compare_compat_r (2 * (m mod 2 ^ n)) (2 ^ n) (2 ^ c)) by lia.
Qed.

Lemma rne_nonneg m n : 0 <= n -> 0 <= m -> 0 <= rne m n.
Proof. intros Hn Hm. pose proof (rne_bounds m n). pose proof (Z.div_pos m (2 ^ n) Hm (pow2_pos n Hn)). lia. Qed.

(** Numbers below a power of two round to it at most, those from one on to it
    at least. *)
Lemma rne_below m n d : 0 <= n -> 0 <= d -> m <= 2 ^ (n + d) -> rne m n <= 2 ^ d.
Proof.
  intros Hn Hd Hm. rewrite <- (rne_exact (2 ^ d) n) by done. apply rne_mono; [done|].
  rewrite Z.pow_add_r in Hm by done. lia.
Qed.
Lemma rne_above m n d : 0 <= n -> 0 <= d -> 2 ^ (n + d) <= m -> 2 ^ d <= rne m n.
Proof.
  intros Hn Hd Hm. rewrite <- (rne_exact (2 ^ d) n) by done. apply rne_mono; [done|].
  rewrite Z.pow_add_r in Hm by done. lia.
Qed.

(** ** The shifts of [SpecFloat] compute it *)

(** The record after [n] shifts of [m]: quotient, half bit, sticky bit. *)
Record shifted (m n : Z) (r : shr_record) : Prop := {
  sh_m : shr_m r = m / 2 ^ n;
  sh_r : shr_r r = (2 ^ n <=? 2 * (m mod 2 ^ n));
  sh_s : shr_s r = negb ((2 * (m mod 2 ^ n)) mod 2 ^ n =? 0);
}.

Lemma shr_1_div2 m r s : 0 <= m -> shr_1 (Build_shr_record m r s) = Build_shr_record (m / 2) (Z.odd m) (r || s).
Proof.
  intros Hm. destruct m as [|p|p]; [done| |lia]. rewrite <- Z.div2_div. destruct p; done.
Qed.

Lemma shifted_step m n r : 0 <= m -> 0 <= n -> shifted m n r -> shifted m (n + 1) (shr_1 r).
Proof.
  intros Hm Hn [H1 H2 H3]. pose proof (pow2_pos n Hn) as Hp. destruct r as [q b s]. cbn in H1, H2, H3. subst q.
  rewrite shr_1_div2 by (apply Z.div_pos; lia).
  pose proof (Z.mod_pos_bound m (2 ^ n) Hp) as Hr. assert (E2 : 2 ^ (n + 1) = 2 ^ n * 2) by (rewrite Z.pow_add_r by lia; done).
  assert (Hmod : m mod 2 ^ (n + 1) = m mod 2 ^ n + 2 ^ n * (m / 2 ^ n mod 2)) by (rewrite E2; apply Z.rem_mul_r; lia).
  assert (Hodd : m / 2 ^ n mod 2 = if Z.odd (m / 2 ^ n) then 1 else 0) by apply Zmod_odd.
  split; cbn [shr_m shr_r shr_s].
  - by rewrite E2, Z.div_div by lia.
  - rewrite Hmod, Hodd, E2. destruct (Z.odd _); [rewrite (proj2 (Z.leb_le _ _)) by lia|rewrite (proj2 (Z.leb_gt _ _)) by lia]; done.
  - assert (Hs : (2 * (m mod 2 ^ (n + 1))) mod 2 ^ (n + 1) = 2 * (m mod 2 ^ n)).
    { rewrite Hmod, E2, Z.mul_add_distr_l. replace (2 * (2 ^ n * _)) with (m / 2 ^ n mod 2 * (2 ^ n * 2)) by lia.
      rewrite Z.mod_add by lia. apply Z.mod_small. lia. }
    rewrite Hs, H2, H3. destruct (decide (m mod 2 ^ n = 0)) as [->|Hn0].
    + rewrite Z.mod_0_l, (proj2 (Z.leb_gt _ _)) by lia. done.
    + rewrite (proj2 (Z.eqb_neq (2 * (m mod 2 ^ n)) 0)) by lia.
      destruct (Z.leb_spec (2 ^ n) (2 * (m mod 2 ^ n))); [done|]. rewrite Z.mod_small by lia.
      by rewrite (proj2 (Z.eqb_neq _ _)) by lia.
Qed.

Lemma shifted_iter m n : 0 <= m -> shifted m (Zpos n) (iter_pos shr_1 n (Build_shr_record m false false)).
Proof.
  intros Hm. rewrite iter_pos_iter. induction n as [|n IH] using Pos.peano_ind.
  - apply (shifted_step m 0); [done|done|]. split; cbn; rewrite ?Z.div_1_r, ?Z.mod_1_r; done.
  - rewrite Pos.iter_succ, Pos2Z.inj_succ. by apply shifted_step.
Qed.

Lemma shifted_round m n r : 0 <= n -> shifted m n r -> round_nearest_even (shr_m r) (loc_of_shr_record r) = rne m n.
Proof.
  intros Hn [H1 H2 H3]. destruct r as [q b s]. cbn in H1, H2, H3. subst q b s. unfold rne.
  pose proof (pow2_pos n Hn) as Hp. pose proof (Z.mod_pos_bound m (2 ^ n) Hp) as Hr.
  destruct (Z.compare_spec (2 * (m mod 2 ^ n)) (2 ^ n)) as [E|Hl|Hg]; cbn [shr_m].
  - rewrite (proj2 (Z.leb_le _ _)) by lia. rewrite E, Z.mod_same by lia. done.
  - rewrite (proj2 (Z.leb_gt _ _)) by lia. by destruct (_ =? 0).
  - rewrite (proj2 (Z.leb_le _ _)) by lia. replace (2 * (m mod 2 ^ n)) with (2 * (m mod 2 ^ n) - 2 ^ n + 1 * 2 ^ n) by lia.
    rewrite Z.mod_add, Z.mod_small by lia. by rewrite (proj2 (Z.eqb_neq _ _)) by lia.
Qed.

(** ** Values *)

(** In units of 2^-1074; infinity is 2^1024. *)
Definition INF : Z := 2 ^ 2098.
Definition canonical (m : positive) (e : Z) : Prop := Zpos m < 2 ^ 53 /\ -1074 <= e /\ (e = -1074 \/ 2 ^ 52 <= Zpos m).
(** A non-negative float and its value. *)
Inductive value : f64 -> Z -> Prop :=
  | value_zero s : value (S754_zero s) 0
  | value_infinity : value (S754_infinity false) INF
  | value_finite m e : canonical m e -> e <= 971 -> value (S754_finite false m e) (Zpos m * 2 ^ (e + 1074)).

(** How many bits of [N], in units of 2^-(1074+h), rounding cuts off: all but
    53, and those below the unit. *)
Definition cut (h N : Z) : Z := Z.max (Z.log2 N - 52) h.
Definition rounded (h N : Z) : Z := Z.min INF (rne N (cut h N) * 2 ^ (cut h N - h)).

Lemma log2_digits p : Zpos (digits2_pos p) = Z.log2 (Zpos p) + 1.
Proof.
  apply digits2_pos_unique; [|pose proof (Z.log2_nonneg (Zpos p)); lia].
  replace (Z.log2 (Zpos p) + 1 - 1) with (Z.log2 (Zpos p)) by lia. apply Z.log2_spec. lia.
Qed.

Lemma pow2_mono a b : a <= b -> 2 ^ a <= 2 ^ b.
Proof. intros H. apply Z.pow_le_mono_r; lia. Qed.

Lemma value_range x N : value x N -> 0 <= N <= INF.
Proof.
  destruct 1 as [s| |m e (Hm & He & _) He']; [unfold INF; lia..|].
  assert (2 ^ (e + 1074) <= 2 ^ 2045) by (apply pow2_mono; lia). pose proof (pow2_pos (e + 1074) ltac:(lia)).
  split; [apply Z.mul_nonneg_nonneg; lia|]. unfold INF. change 2098 with (53 + 2045). rewrite (Z.pow_add_r 2 53 2045) by lia.
  apply Z.mul_le_mono_nonneg; lia.
Qed.

Lemma value_finite_lt m e N : value (S754_finite false m e) N -> N < INF.
Proof.
  inversion_clear 1 as [| |? ? (Hm & He & _) He'].
  assert (2 ^ (e + 1074) <= 2 ^ 2045) by (apply pow2_mono; lia). pose proof (pow2_pos (e + 1074) ltac:(lia)).
  unfold INF. change 2098 with (53 + 2045). rewrite (Z.pow_add_r 2 53 2045) by lia. nia.
Qed.

(** The end of a rounding: the mantissa [q] at exponent [k]. *)
Lemma finish_value q k : 0 <= q <= 2 ^ 53 -> -1074 <= k -> k = -1074 \/ 2 ^ 52 <= q ->
  value (let '(r, e) := shr_fexp 53 1024 q k loc_Exact in
         match shr_m r with
         | Z0 => S754_zero false
         | Zpos m => if e <=? 1024 - 53 then S754_finite false m e else S754_infinity false
         | Zneg _ => S754_nan
         end) (Z.min INF (q * 2 ^ (k + 1074))).
Proof.
  intros Hq Hk Hkq. pose proof (pow2_pos (k + 1074) ltac:(lia)) as Hp.
  assert (Hover : forall m e, -1074 < e -> 2 ^ 52 <= Zpos m < 2 ^ 53 -> Zpos m * 2 ^ (e + 1074) = q * 2 ^ (k + 1074) ->
    value (if e <=? 971 then S754_finite false m e else S754_infinity false) (Z.min INF (q * 2 ^ (k + 1074)))).
  { intros m e He Hm E. rewrite <- E. destruct (Z.leb_spec e 971).
    - assert (Hv : value (S754_finite false m e) (Zpos m * 2 ^ (e + 1074))) by (constructor; [split_and!; lia|done]).
      pose proof (value_finite_lt _ _ _ Hv). by rewrite Z.min_r by lia.
    - rewrite Z.min_l; [constructor|]. unfold INF. change 2098 with (52 + 2046). rewrite (Z.pow_add_r 2 52 2046) by lia.
      assert (2 ^ 2046 <= 2 ^ (e + 1074)) by (apply pow2_mono; lia). apply Z.mul_le_mono_nonneg; lia. }
  unfold shr_fexp, fexp, emin. change (3 - 1024 - 53) with (-1074). change (1024 - 53) with 971.
  destruct q as [|p|p]; [|..|lia].
  - cbn [Zdigits2 shr_record_of_loc]. destruct (Z.max _ _ - k) as [|n|n] eqn:E; [|lia|]; cbn; constructor.
  - cbn [Zdigits2 shr_record_of_loc]. rewrite log2_digits. destruct (decide (Zpos p = 2 ^ 53)) as [E|Hne].
    + rewrite E. change (Z.log2 (2 ^ 53)) with 53. replace (Z.max _ _ - k) with 1 by lia. cbn [shr iter_pos].
      change (shr_m (shr_1 (Build_shr_record (2 ^ 53) false false))) with (Zpos (Z.to_pos (2 ^ 52))).
      rewrite E in Hover. apply Hover; [lia|done|]. replace (k + 1 + 1074) with (k + 1074 + 1) by lia. rewrite Z.pow_add_r by lia. lia.
    + assert (Z.log2 (Zpos p) < 53) by (apply Z.log2_lt_pow2; lia).
      assert (Es : shr (Build_shr_record (Zpos p) false false) k (Z.max (Z.log2 (Zpos p) + 1 + k - 53) (-1074) - k)
        = (Build_shr_record (Zpos p) false false, k)).
      { destruct (Z.max _ _ - k) as [|n|n] eqn:E; [done|lia|done]. }
      rewrite Es. cbn [shr_m]. destruct (decide (k = -1074)) as [->|Hk'].
      * change (-1074 <=? 971) with true. rewrite Z.min_r; [constructor; [split_and!; lia|lia]|].
        unfold INF. change (2 ^ (-1074 + 1074)) with 1. assert (2 ^ 53 <= 2 ^ 2098) by (apply pow2_mono; lia). lia.
      * apply Hover; [lia| |done]. destruct Hkq; [done|]. lia.
Qed.

Lemma log2_shift p c : 0 <= c -> Z.log2 (Zpos p * 2 ^ c) = Z.log2 (Zpos p) + c.
Proof. intros Hc. rewrite Z.log2_mul_pow2 by lia. lia. Qed.

(** What is given with at most the bits that are kept at its exponent [e] is
    rounded as [rounded] says. *)
Lemma round_aux_value p e h : 0 <= h -> 0 <= e + 1074 + h -> e <= Z.max (Z.log2 (Zpos p) - 52 + e) (-1074) ->
  value (binary_round_aux 53 1024 false (Zpos p) e loc_Exact) (rounded h (Zpos p * 2 ^ (e + 1074 + h))).
Proof.
  intros Hh He Hk. set (k := Z.max (Z.log2 (Zpos p) - 52 + e) (-1074)) in *.
  assert (Hcut : cut h (Zpos p * 2 ^ (e + 1074 + h)) = k + 1074 + h) by (unfold cut; rewrite log2_shift by lia; lia).
  unfold rounded. rewrite Hcut. replace (k + 1074 + h - h) with (k + 1074) by lia.
  replace (k + 1074 + h) with (k - e + (e + 1074 + h)) at 1 by lia. rewrite rne_scale by lia.
  assert (Hlog : 2 ^ Z.log2 (Zpos p) <= Zpos p < 2 ^ Z.succ (Z.log2 (Zpos p))) by (apply Z.log2_spec; lia).
  pose proof (Z.log2_nonneg (Zpos p)) as Hl0.
  assert (Hq : 0 <= rne (Zpos p) (k - e) <= 2 ^ 53).
  { split; [apply rne_nonneg; lia|]. apply rne_below; [lia..|].
    assert (2 ^ Z.succ (Z.log2 (Zpos p)) <= 2 ^ (k - e + 53)) by (apply pow2_mono; lia). lia. }
  assert (Hkq : k = -1074 \/ 2 ^ 52 <= rne (Zpos p) (k - e)).
  { destruct (decide (k = -1074)); [by left|right]. apply rne_above; [lia..|].
    assert (2 ^ (k - e + 52) <= 2 ^ Z.log2 (Zpos p)) by (apply pow2_mono; lia). lia. }
  pose proof (finish_value _ k Hq ltac:(lia) Hkq) as Hf. unfold binary_round_aux.
  assert (Es : exists r, shr_fexp 53 1024 (Zpos p) e loc_Exact = (r, k)
    /\ round_nearest_even (shr_m r) (loc_of_shr_record r) = rne (Zpos p) (k - e)).
  { unfold shr_fexp, fexp, emin. cbn [Zdigits2 shr_record_of_loc]. rewrite log2_digits.
    replace (Z.max _ _) with k by lia. destruct (k - e) as [|n|n] eqn:En; [|..|lia]; cbn [shr].
    - eexists. split; [f_equal; lia|]. cbn. by rewrite <- (rne_exact (Zpos p) 0), Z.mul_1_r at 1.
    - eexists. split; [f_equal; lia|]. apply shifted_round; [lia|]. by apply shifted_iter. }
  destruct Es as (r & -> & ->). exact Hf.
Qed.

(** ** Rounding is monotone, and the identity on floats *)

Lemma rounded_0 h : 0 <= h -> rounded h 0 = 0.
Proof.
  intros Hh. unfold rounded, rne. rewrite Z.mod_0_l, Z.div_0_l by (pose proof (pow2_pos (cut h 0)); unfold cut in *; lia).
  rewrite (proj2 (Z.compare_lt_iff _ _)) by (pose proof (pow2_pos (cut h 0)); unfold cut in *; lia).
  rewrite Z.mul_0_l. apply Z.min_r. unfold INF. lia.
Qed.

Lemma rounded_nonneg h N : 0 <= h -> 0 <= N -> 0 <= rounded h N.
Proof.
  intros Hh HN. unfold rounded. apply Z.min_glb; [unfold INF; lia|]. apply Z.mul_nonneg_nonneg.
  - apply rne_nonneg; unfold cut; lia.
  - apply Z.pow_nonneg. lia.
Qed.

Lemma rounded_mono h N N' : 0 <= h -> 0 <= N <= N' -> rounded h N <= rounded h N'.
Proof.
  intros Hh HN. destruct (decide (N = 0)) as [->|H0]; [rewrite rounded_0 by done; apply rounded_nonneg; lia|].
  unfold rounded. apply Z.min_le_compat_l. pose proof (Z.log2_le_mono N N' ltac:(lia)) as Hlog.
  assert (Hcut : cut h N <= cut h N') by (unfold cut; lia). pose proof (Z.log2_nonneg N) as HlN.
  destruct (decide (cut h N = cut h N')) as [<-|Hne].
  { apply Z.mul_le_mono_nonneg_r; [apply Z.pow_nonneg; lia|]. apply rne_mono; [unfold cut; lia|lia]. }
  assert (E' : cut h N' = Z.log2 N' - 52) by (unfold cut in *; lia).
  assert (Hlt : Z.log2 N < Z.log2 N') by (unfold cut in *; lia).
  set (d := Z.log2 N + 1). assert (Hd : N < 2 ^ d) by (apply Z.log2_spec; lia).
  assert (Hd' : 2 ^ Z.log2 N' <= N') by (apply Z.log2_spec; lia).
  (* both sides of 2^(d-h), or the smaller rounds to at most one unit *)
  assert (Hlow : rne N (cut h N) * 2 ^ (cut h N - h) <= 2 ^ (Z.max d (cut h N) - h)).
  { replace (Z.max d (cut h N) - h) with (Z.max d (cut h N) - cut h N + (cut h N - h)) by lia.
    rewrite Z.pow_add_r by (unfold cut in *; lia). apply Z.mul_le_mono_nonneg_r; [apply Z.pow_nonneg; lia|].
    apply rne_below; [unfold cut; lia..|]. assert (2 ^ d <= 2 ^ (cut h N + (Z.max d (cut h N) - cut h N))) by (apply pow2_mono; lia). lia. }
  assert (Hhigh : 2 ^ (Z.log2 N' - h) <= rne N' (cut h N') * 2 ^ (cut h N' - h)).
  { replace (Z.log2 N' - h) with (52 + (cut h N' - h)) by lia. rewrite Z.pow_add_r by (unfold cut in *; lia).
    apply Z.mul_le_mono_nonneg_r; [apply Z.pow_nonneg; lia|]. apply rne_above; [unfold cut; lia..|].
    assert (2 ^ (cut h N' + 52) <= 2 ^ Z.log2 N') by (apply pow2_mono; lia). lia. }
  assert (2 ^ (Z.max d (cut h N) - h) <= 2 ^ (Z.log2 N' - h)) by (apply pow2_mono; unfold cut in *; lia). lia.
Qed.

Lemma rounded_exact m j : 0 <= m < 2 ^ 53 -> 0 <= j -> rounded 0 (m * 2 ^ j) = Z.min INF (m * 2 ^ j).
Proof.
  intros Hm Hj. destruct (decide (m = 0)) as [->|H0]; [rewrite Z.mul_0_l, rounded_0 by done; symmetry; apply Z.min_r; unfold INF; lia|].
  assert (Hcut : 0 <= cut 0 (m * 2 ^ j) <= j).
  { assert (Z.log2 m < 53) by (apply Z.log2_lt_pow2; lia). unfold cut. rewrite Z.log2_mul_pow2 by lia. lia. }
  unfold rounded. f_equal. generalize dependent (cut 0 (m * 2 ^ j)). intros c Hc.
  replace (m * 2 ^ j) with (m * 2 ^ (j - c) * 2 ^ c).
  - by rewrite rne_exact, Z.sub_0_r by lia.
  - rewrite <- Z.mul_assoc, <- Z.pow_add_r by lia. do 2 f_equal. lia.
Qed.

Lemma rounded_value x N : value x N -> rounded 0 N = N.
Proof.
  intros Hx. pose proof (value_range x N Hx). destruct Hx as [s| |m e (Hm & He & _) He'].
  - by apply rounded_0.
  - unfold INF at 1. change 2098 with (52 + 2046). rewrite Z.pow_add_r, rounded_exact by lia.
    rewrite <- Z.pow_add_r by lia. apply Z.min_id.
  - rewrite rounded_exact by lia. apply Z.min_r. lia.
Qed.

Lemma rounded_le_INF h N : rounded h N <= INF.
Proof. apply Z.le_min_l. Qed.

Lemma rounded_INF N : INF <= N -> rounded 0 N = INF.
Proof.
  intros HN. apply Z.le_antisymm; [apply rounded_le_INF|]. rewrite <- (rounded_value _ _ value_infinity) at 1.
  apply rounded_mono; [lia|]. unfold INF in *. split; [lia|done].
Qed.

(** ** The operations *)

Lemma shl_align_val m e e' : e' <= e -> Zpos (fst (shl_align m e e')) = Zpos m * 2 ^ (e - e').
Proof.
  intros He. unfold shl_align. destruct (e' - e) as [|n|n] eqn:E; [|lia|]; cbn [fst].
  - replace (e - e') with 0 by lia. lia.
  - rewrite iter_xO. do 2 f_equal. lia.
Qed.

Lemma normalize_value z e b : 0 <= z -> -1074 <= e -> value (binary_normalize 53 1024 z e b) (rounded 0 (z * 2 ^ (e + 1074))).
Proof.
  intros Hz He. destruct z as [|p|p]; [|..|lia]; cbn [binary_normalize].
  { rewrite Z.mul_0_l, rounded_0 by done. destruct b; constructor. }
  unfold binary_round, fexp, emin. rewrite log2_digits. change (3 - 1024 - 53) with (-1074).
  set (k := Z.max (Z.log2 (Zpos p) + 1 + e - 53) (-1074)). pose proof (Z.log2_nonneg (Zpos p)).
  destruct (Z.le_gt_cases e k) as [Hk|Hk].
  - assert (Es : shl_align p e k = (p, e)) by (unfold shl_align; destruct (k - e) eqn:E; [done|done|lia]). rewrite Es.
    replace (e + 1074) with (e + 1074 + 0) by lia. apply round_aux_value; lia.
  - pose proof (shl_align_val p e k ltac:(lia)) as Hv. assert (Es : snd (shl_align p e k) = k) by (unfold shl_align; destruct (k - e) eqn:E; [lia|lia|done]).
    destruct (shl_align p e k) as [p' e']. cbn [fst snd] in *. subst e'.
    replace (Zpos p * 2 ^ (e + 1074)) with (Zpos p' * 2 ^ (k + 1074 + 0)).
    + apply round_aux_value; [lia..|]. rewrite Hv, log2_shift by lia. lia.
    + rewrite Hv, <- Z.mul_assoc, <- Z.pow_add_r by lia. do 2 f_equal. lia.
Qed.

Lemma align_unit m e e' : -1074 <= e' <= e -> Zpos (fst (shl_align m e e')) * 2 ^ (e' + 1074) = Zpos m * 2 ^ (e + 1074).
Proof. intros He. rewrite shl_align_val, <- Z.mul_assoc, <- Z.pow_add_r by lia. do 2 f_equal. lia. Qed.

Lemma add_value x y a b : value x a -> value y b -> value (f64_add x y) (rounded 0 (a + b)).
Proof.
  intros Hx Hy. pose proof (rounded_value _ _ Hx) as Ea. pose proof (rounded_value _ _ Hy) as Eb.
  pose proof (value_range _ _ Hx). pose proof (value_range _ _ Hy). unfold f64_add.
  destruct Hx as [s| |m e Hc He]; destruct Hy as [s'| |m' e' Hc' He']; cbn [SFadd];
    rewrite ?Z.add_0_l, ?Z.add_0_r, ?rounded_INF, ?Ea, ?Eb by lia; try by constructor.
  - destruct s, s'; constructor.
  - destruct Hc as (_ & ? & _), Hc' as (_ & ? & _). cbn [cond_Zopp].
    rewrite <- (align_unit m e (Z.min e e')), <- (align_unit m' e' (Z.min e e')), <- Z.mul_add_distr_r by lia.
    apply normalize_value; lia.
Qed.

(** Rounding does not look at the sign. *)
Lemma round_aux_opp p e l : binary_round_aux 53 1024 true p e l = SFopp (binary_round_aux 53 1024 false p e l).
Proof.
  unfold binary_round_aux. destruct (shr_fexp 53 1024 p e l) as [r k]. destruct (shr_fexp _ _ _ k _) as [r' k'].
  destruct (shr_m r'); [done| |done]. by destruct (_ <=? _).
Qed.

Lemma normalize_opp z e b : z < 0 -> binary_normalize 53 1024 z e b = SFopp (binary_normalize 53 1024 (- z) e b).
Proof.
  destruct z as [|p|p]; [lia|lia|]. intros _. change (- Zneg p) with (Zpos p). cbn [binary_normalize]. unfold binary_round.
  destruct (shl_align p e _). apply round_aux_opp.
Qed.

(** [(x - y).max(0.0)]. *)
Lemma max_0_value x N : value x N -> value (f64_max x (S754_zero false)) N.
Proof. destruct 1 as [s| |m e Hc He]; [destruct s|..]; by constructor. Qed.
Lemma max_0_opp x N : value x N -> value (f64_max (SFopp x) (S754_zero false)) 0.
Proof. destruct 1 as [s| |m e Hc He]; [destruct s|..]; by constructor. Qed.

(** A difference is the rounding of the exact one, or that of its opposite
    with the sign changed. *)
Lemma sub_value x y a b : value x a -> value y b -> a < INF -> b < INF ->
  (b <= a -> value (f64_sub x y) (rounded 0 (a - b)))
  /\ (a < b -> exists z, value z (rounded 0 (b - a)) /\ f64_sub x y = SFopp z).
Proof.
  intros Hx Hy Ha Hb. pose proof (rounded_value _ _ Hx) as Ea. pose proof (rounded_value _ _ Hy) as Eb. unfold f64_sub.
  assert (Hpos : forall m e, canonical m e -> 0 < Zpos m * 2 ^ (e + 1074)).
  { intros m e (_ & ? & _). apply Z.mul_pos_pos; [lia|]. apply pow2_pos. lia. }
  destruct Hx as [s| |m e Hc He]; [|lia|]; (destruct Hy as [s'| |m' e' Hc' He']; [|lia|]); cbn [SFsub].
  - split; [intros _; rewrite Z.sub_diag, Ea|lia]. destruct s, s'; constructor.
  - specialize (Hpos _ _ Hc'). split; [lia|]. intros _. rewrite Z.sub_0_r, Eb. exists (S754_finite false m' e'). split; [by constructor|done].
  - specialize (Hpos _ _ Hc). split; [|lia]. intros _. rewrite Z.sub_0_r, Ea. by constructor.
  - destruct Hc as (_ & ? & _), Hc' as (_ & ? & _). cbn [cond_Zopp].
    rewrite <- (align_unit m e (Z.min e e')), <- (align_unit m' e' (Z.min e e')), <- !Z.mul_sub_distr_r by lia.
    pose proof (pow2_pos (Z.min e e' + 1074) ltac:(lia)) as Hp. split; intros Hle.
    + apply normalize_value; [nia|lia].
    + rewrite normalize_opp by nia. eexists. split; [|done].
      rewrite Z.opp_sub_distr, Z.add_comm. apply normalize_value; [nia|lia].
Qed.

Lemma sub_max_value x y a b : value x a -> value y b -> a < INF -> b < INF ->
  value (f64_max (f64_sub x y) (S754_zero false)) (rounded 0 (Z.max 0 (a - b))).
Proof.
  intros Hx Hy Ha Hb. destruct (sub_value x y a b Hx Hy Ha Hb) as [Hge Hlt]. destruct (Z.le_gt_cases b a) as [Hle|Hgt].
  - rewrite Z.max_r by lia. by apply max_0_value, Hge.
  - rewrite Z.max_l, rounded_0 by lia. destruct (Hlt Hgt) as (z & Hz & ->). by eapply max_0_opp.
Qed.

Lemma mul_value x y a b : value x a -> value y b -> a < INF -> b < INF -> value (f64_mul x y) (rounded 1074 (a * b)).
Proof.
  intros Hx Hy Ha Hb. unfold f64_mul.
  destruct Hx as [s| |m e Hc He]; [|lia|]; (destruct Hy as [s'| |m' e' Hc' He']; [|lia|]); cbn [SFmul];
    rewrite ?Z.mul_0_l, ?Z.mul_0_r, ?rounded_0 by lia; try constructor.
  destruct Hc as (_ & ? & Hm), Hc' as (_ & ? & Hm'). cbn [xorb].
  replace (Zpos m * 2 ^ (e + 1074) * (Zpos m' * 2 ^ (e' + 1074))) with (Zpos (m * m') * 2 ^ (e + e' + 1074 + 1074)).
  - apply round_aux_value; [lia..|]. destruct (decide (e = -1074 /\ e' = -1074)) as [[-> ->]|Hn]; [lia|].
    assert (2 ^ 52 <= Zpos (m * m')) by (rewrite Pos2Z.inj_mul; nia).
    assert (52 <= Z.log2 (Zpos (m * m'))) by (apply Z.log2_le_pow2; lia). lia.
  - replace (e + e' + 1074 + 1074) with (e + 1074 + (e' + 1074)) by lia. rewrite Pos2Z.inj_mul, Z.pow_add_r by lia. lia.
Qed.

(** ** Comparison *)

Lemma finite_lt m m' e e' : canonical m e -> canonical m' e' -> e < e' -> Zpos m * 2 ^ (e + 1074) < Zpos m' * 2 ^ (e' + 1074).
Proof.
  intros (Hm & He & _) (_ & He' & Hc') Hlt. destruct Hc'; [lia|].
  replace (e' + 1074) with (e + 1074 + 1 + (e' - e - 1)) by lia. rewrite !(Z.pow_add_r 2 _ (e' - e - 1)), (Z.pow_add_r 2 (e + 1074) 1) by lia.
  pose proof (pow2_pos (e + 1074) ltac:(lia)). pose proof (pow2_pos (e' - e - 1) ltac:(lia)).
  assert (Zpos m' * (2 ^ (e + 1074) * 2) <= Zpos m' * (2 ^ (e + 1074) * 2 ^ 1 * 2 ^ (e' - e - 1))) by nia. nia.
Qed.

Lemma compare_value x y a b : value x a -> value y b -> SFcompare x y = Some (a ?= b).
Proof.
  intros Hx Hy. destruct Hx as [s| |m e Hc He].
  - pose proof (value_range _ _ Hy) as Hr. destruct Hy as [s'| |m' e' Hc' He']; cbn [SFcompare]; [done|done|].
    rewrite (proj2 (Z.compare_lt_iff _ _)); [done|]. apply Z.mul_pos_pos; [lia|]. apply pow2_pos. destruct Hc' as (_ & ? & _). lia.
  - destruct Hy as [s'| |m' e' Hc' He']; cbn [SFcompare]; [done|by rewrite Z.compare_refl|].
    rewrite (proj2 (Z.compare_gt_iff _ _)); [done|]. apply (value_finite_lt m' e'). by constructor.
  - destruct Hy as [s'| |m' e' Hc' He']; cbn [SFcompare].
    + rewrite (proj2 (Z.compare_gt_iff _ _)); [done|]. apply Z.mul_pos_pos; [lia|]. apply pow2_pos. destruct Hc as (_ & ? & _). lia.
    + rewrite (proj2 (Z.compare_lt_iff _ _)); [done|]. apply (value_finite_lt m e). by constructor.
    + destruct (Z.compare_spec e e') as [<-|Hlt|Hgt].
      * change (Pos.compare_cont Eq m m') with (Zpos m ?= Zpos m'). rewrite <- Zmult_compare_compat_r; [done|].
        apply Z.lt_gt, pow2_pos. destruct Hc as (_ & ? & _). lia.
      * by rewrite (proj2 (Z.compare_lt_iff _ _)) by (by apply finite_lt).
      * by rewrite (proj2 (Z.compare_gt_iff _ _)) by (by apply finite_lt).
Qed.

Lemma value_not_nan x N : value x N -> is_nan x = false.
Proof. by destruct 1. Qed.

Lemma ge_value x y a b : value x a -> value y b -> f64_ge x y = (b <=? a).
Proof. intros Hx Hy. unfold f64_ge, SFleb, Z.leb. rewrite (compare_value y x b a) by done. by destruct (b ?= a). Qed.
Lemma lt_value x y a b : value x a -> value y b -> f64_lt x y = (a <? b).
Proof. intros Hx Hy. unfold f64_lt, SFltb, Z.ltb. by rewrite (compare_value x y a b). Qed.

Lemma min_value x y a b : value x a -> value y b -> value (f64_min x y) (Z.min a b).
Proof.
  intros Hx Hy. unfold f64_min. rewrite (value_not_nan _ _ Hx), (value_not_nan _ _ Hy).
  change (SFltb y x) with (f64_lt y x). rewrite (lt_value y x b a) by done.
  destruct (Z.ltb_spec b a); [by rewrite Z.min_r by lia|by rewrite Z.min_l by lia].
Qed.

(** Whole numbers of up to 53 bits. *)
Definition ONE : Z := 2 ^ 1074.
Lemma of_Z_value c : 0 <= c < 2 ^ 53 -> value (f64_of_Z c) (c * ONE).
Proof.
  intros Hc. unfold f64_of_Z. replace (c * ONE) with (rounded 0 (c * 2 ^ (0 + 1074))); [apply normalize_value; lia|].
  rewrite rounded_exact by lia. apply Z.min_r. unfold INF. change 2098 with (1024 + (0 + 1074)).
  rewrite (Z.pow_add_r 2 1024) by lia. apply Z.mul_le_mono_nonneg_r; [apply Z.pow_nonneg; lia|].
  assert (2 ^ 53 <= 2 ^ 1024) by (apply pow2_mono; lia). lia.
Qed.

(** Taking one off a number of at most 2^52 rounds nothing. *)
Lemma one_less_exact x N c : value x N -> ONE <= N <= c * ONE -> c <= 2 ^ 52 -> rounded 0 (N - ONE) = N - ONE.
Proof.
  intros Hx HN Hc. pose proof (value_range _ _ Hx) as Hr. assert (H1 : 0 < ONE) by (unfold ONE; by apply pow2_pos).
  destruct Hx as [s| |m e (Hm & He & Hcan) He']; [lia| |].
  - assert (2 ^ 52 * ONE < INF); [|nia]. unfold ONE, INF. change 2098 with (1024 + 1074). rewrite (Z.pow_add_r 2 1024) by lia.
    apply Z.mul_lt_mono_pos_r; [by apply pow2_pos|]. by apply Z.pow_lt_mono_r.
  - assert (Hn : e <= 0).
    { destruct (Z.le_gt_cases e 0); [done|]. destruct Hcan; [lia|]. unfold ONE in *.
      assert (2 * 2 ^ 1074 <= 2 ^ (e + 1074)) by (change (2 * 2 ^ 1074) with (2 ^ 1075); apply pow2_mono; lia). nia. }
    assert (E1 : ONE = 2 ^ (- e) * 2 ^ (e + 1074)) by (unfold ONE; rewrite <- Z.pow_add_r by lia; f_equal; lia).
    rewrite E1, <- Z.mul_sub_distr_r in *. pose proof (pow2_pos (e + 1074) ltac:(lia)). pose proof (pow2_pos (- e) ltac:(lia)).
    rewrite rounded_exact by nia. apply Z.min_r. nia.
Qed.

(** ** The error of a rounding *)

Lemma rne_error m n : 0 <= n -> 2 * (rne m n * 2 ^ n) <= 2 * m + 2 ^ n.
Proof.
  intros Hn. pose proof (pow2_pos n Hn) as Hp. pose proof (Z.div_mod m (2 ^ n) ltac:(lia)). pose proof (Z.mod_pos_bound m (2 ^ n) Hp).
  unfold rne. destruct (Z.compare_spec (2 * (m mod 2 ^ n)) (2 ^ n)); [destruct (Z.even _)|..]; nia.
Qed.

(** At most one part in 2^53, and one unit where the exponent ends. *)
Lemma rounded_upper h N : 0 <= h -> 0 <= N -> 2 ^ 53 * (rounded h N * 2 ^ h) <= (2 ^ 53 + 1) * N + 2 ^ 53 * 2 ^ h.
Proof.
  intros Hh HN. destruct (decide (N = 0)) as [->|H0]; [rewrite rounded_0 by done; pose proof (pow2_pos h Hh); lia|].
  pose proof (pow2_pos h Hh) as Hph. assert (Hc : h <= cut h N) by (unfold cut; lia).
  pose proof (rne_error N (cut h N) ltac:(lia)) as He. pose proof (pow2_pos (cut h N) ltac:(lia)) as Hp.
  assert (Hr : rounded h N * 2 ^ h <= rne N (cut h N) * 2 ^ cut h N).
  { replace (2 ^ cut h N) with (2 ^ (cut h N - h) * 2 ^ h) by (rewrite <- Z.pow_add_r by lia; f_equal; lia).
    rewrite Z.mul_assoc. apply Z.mul_le_mono_nonneg_r; [lia|]. apply Z.le_min_r. }
  destruct (Z.max_spec (Z.log2 N - 52) h) as [[_ E]|[Hge E]]; unfold cut in *; rewrite E in *; [lia|].
  assert (HlN : 2 ^ Z.log2 N <= N) by (apply Z.log2_spec; lia).
  assert (E2 : 2 ^ Z.log2 N = 2 ^ 52 * 2 ^ (Z.log2 N - 52)) by (rewrite <- Z.pow_add_r by lia; f_equal; lia). lia.
Qed.

Lemma rounded_upper_0 N : 0 <= N -> 2 ^ 53 * rounded 0 N <= (2 ^ 53 + 1) * N.
Proof.
  intros HN. destruct (Z.le_gt_cases (2 ^ 53) N) as [Hb|Hs].
  - assert (E : cut 0 N = Z.log2 N - 52) by (unfold cut; assert (53 <= Z.log2 N) by (by apply Z.log2_le_pow2; lia); lia).
    assert (53 <= Z.log2 N) by (by apply Z.log2_le_pow2; lia).
    pose proof (rne_error N (cut 0 N) ltac:(lia)) as He. rewrite E in He.
    assert (Hr : rounded 0 N <= rne N (Z.log2 N - 52) * 2 ^ (Z.log2 N - 52)) by (unfold rounded; rewrite E, Z.sub_0_r; apply Z.le_min_r).
    assert (HlN : 2 ^ Z.log2 N <= N) by (apply Z.log2_spec; lia).
    assert (E2 : 2 ^ Z.log2 N = 2 ^ 52 * 2 ^ (Z.log2 N - 52)) by (rewrite <- Z.pow_add_r by lia; f_equal; lia). lia.
  - pose proof (rounded_exact N 0 ltac:(lia) ltac:(lia)) as E. rewrite Z.mul_1_r in E. rewrite E. lia.
Qed.

(** The values of floats: every rounding is one. *)
Definition is_float (N : Z) : Prop := exists x, value x N.

Lemma rounded_is_float N : 0 <= N -> is_float (rounded 0 N).
Proof.
  intros HN. exists (binary_normalize 53 1024 N (-1074) false). rewrite <- (Z.mul_1_r N) at 2. by apply (normalize_value N (-1074)).
Qed.

Lemma one_less_is_float N c : is_float N -> ONE <= N <= c * ONE -> c <= 2 ^ 52 -> is_float (N - ONE).
Proof. intros [x Hx] HN Hc. rewrite <- (one_less_exact x N c) by done. apply rounded_is_float. lia. Qed.
