(* ===== verification/BucketF64.v ===== *)
(** * The token bucket on any clock readings

    [Bucket] shows the limiter exact where binary64 is.  Here the readings and
    the rate are any finite non-negative floats, as a monotonic clock gives
    them: every operation rounds, and what the limiter still promises is proved
    from the monotonicity of rounding ([F64Round]).  [Rounded] is the limiter
    over the values of the floats, in units of 2^-1074, with the roundings
    written out and nothing ever pruned. *)

From S2P Require Import Prelude RustStr F64 F64Round Bucket.

(** A finite non-negative float. *)
Definition finite_nonneg (t : f64) (T : Z) : Prop := value t T /\ T < INF.

Module Rounded.
Section Rounded.
Context (c R : Z).

Definition full : Z := c * ONE.
(** [tokens + (now - last).max(0) * rate], each operation rounded. *)
Definition refilled (now : Z) (b : Z * Z) : Z :=
  rounded 0 (b.1 + rounded 1074 (rounded 0 (Z.max 0 (now - b.2)) * R)).
Definition available (now : Z) (e : option (Z * Z)) : Z :=
  match e with Some b => Z.min (refilled now b) full | None => full end.
Definition check (now : Z) (key : str) (s : gmap str (Z * Z)) : bool * gmap str (Z * Z) :=
  let tok := available now (s !! key) in
  if ONE <=? tok then (true, <[key := (tok - ONE, now)]> s) else (false, <[key := (tok, now)]> s).
Definition limiter : list (op * Z) -> gmap str (Z * Z) -> list bool * gmap str (Z * Z) := serve check (fun _ s => s).

(** Values a bucket may hold: those of floats, within the capacity. *)
Record holdable (b : Z * Z) : Prop := {
  hold_float : is_float b.1;
  hold_range : 0 <= b.1 <= full;
  hold_last : 0 <= b.2 < INF;
}.

Hypothesis (HR : 0 <= R).

Lemma refilled_mono now now' b : now <= now' -> 0 <= b.1 -> refilled now b <= refilled now' b.
Proof.
  intros Hn Hb. unfold refilled.
  assert (0 <= rounded 0 (Z.max 0 (now - b.2))) by (apply rounded_nonneg; lia).
  assert (rounded 0 (Z.max 0 (now - b.2)) <= rounded 0 (Z.max 0 (now' - b.2))) by (apply rounded_mono; lia).
  assert (0 <= rounded 1074 (rounded 0 (Z.max 0 (now - b.2)) * R)) by (apply rounded_nonneg; nia).
  assert (rounded 1074 (rounded 0 (Z.max 0 (now - b.2)) * R) <= rounded 1074 (rounded 0 (Z.max 0 (now' - b.2)) * R)) by (apply rounded_mono; nia).
  apply rounded_mono; lia.
Qed.

(** With no time passed nothing is added. *)
Lemma refilled_now now b : holdable b -> now <= b.2 -> refilled now b = b.1.
Proof.
  intros [[x Hx] _ _] Hn. unfold refilled. rewrite Z.max_l, (rounded_0 0), Z.mul_0_l, (rounded_0 1074), Z.add_0_r by lia.
  by eapply rounded_value.
Qed.

Lemma refilled_ge now b : holdable b -> b.1 <= refilled now b.
Proof.
  intros Hb. destruct (Z.le_gt_cases now b.2); [by rewrite refilled_now|].
  rewrite <- (refilled_now b.2 b Hb) at 1 by lia. apply refilled_mono; [lia|]. apply Hb.
Qed.
End Rounded.
End Rounded.

(** ** The floats compute the rounded bucket *)

Section Refinement.
Context (c : Z) (rate : f64) (R : Z).
Hypothesis (Hc : 0 <= c <= u32_max).
Hypothesis (HR : finite_nonneg rate R).
Let q : Quota := quota_new c rate.
Let C : Z := Rounded.full c.

Lemma rate_nonneg : 0 <= R < INF.
Proof. destruct HR as [Hv ?]. apply value_range in Hv. lia. Qed.

Lemma capacity_value : value (f64_of_Z c) C.
Proof. apply of_Z_value. unfold u32_max in Hc. lia. Qed.

Lemma one_value : value (f64_of_Z 1) ONE.
Proof. rewrite <- (Z.mul_1_l ONE). by apply of_Z_value. Qed.

Lemma full_range : 0 <= C < INF.
Proof.
  assert (0 < ONE) by (unfold ONE; by apply pow2_pos). unfold C, Rounded.full, u32_max in *. split; [nia|].
  apply Z.lt_le_trans with (2 ^ 33 * ONE); [nia|]. unfold ONE, INF. rewrite <- Z.pow_add_r by lia. by apply pow2_mono.
Qed.

Definition stands (b : Bucket) (z : Z * Z) : Prop :=
  value (tokens b) z.1 /\ finite_nonneg (last_refill b) z.2 /\ 0 <= z.1 <= C.

Lemma stands_holdable b z : stands b z -> Rounded.holdable c z.
Proof.
  intros (Hv & [Hl Hl'] & Hr). split; [by eexists|done|]. apply value_range in Hl. lia.
Qed.

Lemma refilled_value b z now T : stands b z -> finite_nonneg now T ->
  value (f64_add (tokens b) (f64_mul (elapsed_since now b) rate)) (Rounded.refilled R T z).
Proof.
  intros (Hv & [Hl Hl'] & _) [Hn Hn']. destruct HR as [Hrv Hr']. pose proof (value_range _ _ Hl). pose proof (value_range _ _ Hn).
  unfold Rounded.refilled. apply add_value; [done|]. unfold elapsed_since.
  change (f64_of_Z 0) with (SpecFloat.S754_zero false). apply mul_value; [|done| |done].
  - by apply sub_max_value.
  - assert (rounded 0 (Z.max 0 (T - z.2)) <= rounded 0 T) by (apply rounded_mono; lia).
    rewrite (rounded_value _ _ Hn) in *. lia.
Qed.

Lemma available_value b z now T : stands b z -> finite_nonneg now T ->
  value (f64_min (f64_add (tokens b) (f64_mul (elapsed_since now b) rate)) (f64_of_Z c)) (Rounded.available c R T (Some z))
  /\ 0 <= Rounded.available c R T (Some z) <= C.
Proof.
  intros Hb Hn. pose proof (refilled_value b z now T Hb Hn) as Hv. split; [apply min_value; [done|apply capacity_value]|].
  apply value_range in Hv. pose proof full_range. cbn [Rounded.available]. fold C. lia.
Qed.

(** The bucket a check starts from. *)
Lemma ffresh_stands now T : finite_nonneg now T -> stands (mkBucket (f64_of_Z c) now) (C, T).
Proof. intros Hn. split_and!; [apply capacity_value|done|pose proof full_range; cbn; lia..]. Qed.

(** One check from a bucket that stands for [z]. *)
Lemma try_consume_value now T key buckets z :
  let b := unwrap_or (buckets !! key) (mkBucket (f64_of_Z c) now) in
  stands b z -> finite_nonneg now T ->
  let tok := Rounded.available c R T (Some z) in
  exists b', try_consume q now key (f64_of_Z 1) buckets = (ONE <=? tok, <[key := b']> buckets)
    /\ stands b' (if ONE <=? tok then tok - ONE else tok, T).
Proof.
  intros b Hb Hn tok. destruct (available_value b z now T Hb Hn) as [Hv Hr]. fold tok in Hv, Hr.
  unfold try_consume. cbn [capacity refill_per_sec q quota_new]. fold b.
  rewrite (ge_value _ _ tok ONE Hv one_value). pose proof full_range as HCr. destruct (ONE <=? tok) eqn:E; bool_simp.
  - eexists. split; [reflexivity|]. split_and!; cbn [tokens last_refill fst snd]; [|done|lia|unfold ONE in *; lia].
    rewrite <- (one_less_exact _ tok c Hv); [|unfold C, Rounded.full in *; lia|unfold u32_max in Hc; lia].
    apply (sub_value _ _ _ _ Hv one_value); unfold ONE, INF in *; lia.
  - eexists. split; [reflexivity|]. split_and!; cbn [tokens last_refill fst snd]; [done|done|lia|lia].
Qed.

(** A full bucket, or none, is full. *)
Lemma available_full T z : Rounded.full c <= Rounded.refilled R T z -> Rounded.available c R T (Some z) = C.
Proof. intros H. cbn [Rounded.available]. unfold C. lia. Qed.

(** The simulation at reading [T]: a key whose bucket is gone has a full one
    in [e]. *)
Definition sim (T : Z) (s : gmap str Bucket) (e : gmap str (Z * Z)) : Prop :=
  forall key, match s !! key, e !! key with
  | Some b, Some z => stands b z /\ z.2 <= T
  | None, Some z => Rounded.holdable c z /\ C <= Rounded.refilled R T z /\ z.2 <= T
  | None, None => True
  | Some _, None => False
  end.

Lemma fsim_empty T : sim T ∅ ∅.
Proof. intros key. by rewrite !lookup_empty. Qed.

Lemma fsim_later T T' s e : sim T s e -> T <= T' -> sim T' s e.
Proof.
  intros Hs Ht key. specialize (Hs key). pose proof rate_nonneg. destruct (s !! key), (e !! key) as [z|]; try done.
  - destruct Hs. split; [done|lia].
  - destruct Hs as (Hh & Hf & ?). split_and!; [done| |lia]. etrans; [exact Hf|]. apply Rounded.refilled_mono; [lia..|]. apply Hh.
Qed.

Lemma fsim_check now T key s e : finite_nonneg now T -> sim T s e ->
  exists s', try_consume q now key (f64_of_Z 1) s = ((Rounded.check c R T key e).1, s') /\ sim T s' (Rounded.check c R T key e).2.
Proof.
  intros Hn Hs. pose proof rate_nonneg as HRr.
  assert (Hb : exists z, stands (unwrap_or (s !! key) (mkBucket (f64_of_Z c) now)) z
    /\ Rounded.available c R T (Some z) = Rounded.available c R T (e !! key)).
  { specialize (Hs key). assert (Hfull : Rounded.available c R T (Some (C, T)) = C).
    { apply available_full. pose proof (ffresh_stands now T Hn) as Hst%stands_holdable. rewrite (Rounded.refilled_now c); [done|done|cbn; lia]. }
    destruct (s !! key) as [b|], (e !! key) as [z|]; try done; cbn [unwrap_or].
    - exists z. by destruct Hs.
    - exists (C, T). split; [by apply ffresh_stands|]. destruct Hs as (_ & Hf & _). by rewrite Hfull, available_full.
    - exists (C, T). split; [by apply ffresh_stands|done]. }
  destruct Hb as (z & Hst & Hav). destruct (try_consume_value now T key s z Hst Hn) as (b' & Htc & Hst'). rewrite Hav in Htc, Hst'.
  exists (<[key := b']> s). unfold Rounded.check. rewrite Htc. split; [by destruct (_ <=? _)|].
  intros key'. destruct (ONE <=? _); cbn [snd]; (destruct (decide (key = key')) as [<-|Hne];
    [rewrite !lookup_insert_eq; split; [done|cbn; lia]|rewrite !lookup_insert_ne by done; apply Hs]).
Qed.

Lemma fsim_prune now T s e : finite_nonneg now T -> sim T s e -> sim T (prune q now s) e.
Proof.
  intros Hn Hs key. specialize (Hs key). unfold prune. rewrite map_lookup_filter.
  destruct (s !! key) as [b|]; [|by destruct (e !! key)]. destruct (e !! key) as [z|]; [|done]. destruct Hs as [Hst Hz].
  assert (Hk : keep_bucket q now b = (Rounded.refilled R T z <? C)).
  { unfold keep_bucket. apply lt_value; [by apply refilled_value|apply capacity_value]. }
  cbn [mbind option_bind]. destruct (keep_bucket q now b) eqn:E.
  - rewrite option_guard_True by done. done.
  - rewrite option_guard_False by (cbn; congruence). symmetry in Hk. bool_simp. cbn.
    split_and!; [by eapply stands_holdable|done|done].
Qed.

(** Readings that do not go back. *)
Fixpoint forward (T0 : Z) (ops : list (op * f64)) (Ts : list Z) : Prop :=
  match ops, Ts with
  | [], [] => True
  | (_, t) :: ops, T :: Ts => finite_nonneg t T /\ T0 <= T /\ forward T ops Ts
  | _, _ => False
  end.

(** Whatever the pruning does that keeps the simulation. *)
Lemma fsim_serve (prn : f64 -> gmap str Bucket -> gmap str Bucket) ops Ts T0 s e :
  (forall now T s e, finite_nonneg now T -> sim T s e -> sim T (prn now s) e) ->
  forward T0 ops Ts -> sim T0 s e ->
  (serve (@check _ _ (in_memory q)) prn ops s).1 = (Rounded.limiter c R (zip ops.*1 Ts) e).1.
Proof.
  intros Hprn. revert Ts T0 s e. induction ops as [|[o t] ops IH]; intros Ts T0 s e Hf Hs; [by destruct Ts|].
  destruct Ts as [|T Ts]; [done|]. destruct Hf as (Ht & Hle & Hf). apply (fsim_later _ T) in Hs; [|done].
  unfold Rounded.limiter in *. cbn [fmap list_fmap fst zip zip_with serve]. destruct o as [key|].
  - destruct (fsim_check t T key s e Ht Hs) as (s' & Htc & Hs'). cbn [check in_memory]. rewrite Htc.
    destruct (Rounded.check c R T key e) as [a e']. cbn [fst snd] in *. specialize (IH Ts T s' e' Hf Hs').
    destruct (serve _ _ ops s'), (serve _ _ (zip _ _) e'). cbn in *. by rewrite IH.
  - specialize (IH Ts T _ e Hf (Hprn t T s e Ht Hs)).
    destruct (serve _ _ ops _), (serve _ _ (zip _ _) e). cbn in *. by rewrite IH.
Qed.
End Refinement.

(** ** How much the roundings give away *)

(** In units of 2^-(106 + 2*1074): tokens, time at the rate, and what one check
    may gain by rounding. *)
Definition token_scale : Z := 2 ^ 106 * ONE.
Definition time_scale : Z := (2 ^ 53 + 1) * (2 ^ 53 + 1).
Definition slack_per_check (c : Z) : Z := 2 ^ 53 * ONE * (c * ONE) + token_scale.

Section Rate.
Context (c R t0 t1 : Z).
Hypothesis (Hc : 0 <= c <= u32_max).
Hypothesis (HR : 0 <= R).
Let C : Z := Rounded.full c.

Lemma ONE_pos : 0 < ONE.
Proof. unfold ONE. by apply pow2_pos. Qed.

Lemma refill_upper now b : Rounded.holdable c b -> b.2 <= now ->
  token_scale * (Rounded.available c R now (Some b) - b.1) <= time_scale * (R * (now - b.2)) + slack_per_check c.
Proof.
  intros Hb Hn. pose proof ONE_pos as H1. destruct (Rounded.hold_range _ _ Hb) as [H0 Hcap]. fold C in Hcap.
  pose proof (rounded_upper_0 (now - b.2) ltac:(lia)) as HE.
  assert (HE0 : 0 <= rounded 0 (now - b.2)) by (apply rounded_nonneg; lia).
  pose proof (rounded_upper 1074 (rounded 0 (now - b.2) * R) ltac:(lia) ltac:(nia)) as Hrho.
  assert (Hrho0 : 0 <= rounded 1074 (rounded 0 (now - b.2) * R)) by (apply rounded_nonneg; nia).
  cbn [Rounded.available]. unfold Rounded.refilled. rewrite Z.max_r by lia. fold C. change (2 ^ 1074) with ONE in Hrho.
  set (E := rounded 0 (now - b.2)) in *. set (rho := rounded 1074 (E * R)) in *.
  (* the addition: capped, or off by one part in 2^53 of at most the capacity *)
  assert (Hadd : 2 ^ 53 * (Z.min (rounded 0 (b.1 + rho)) C - b.1) <= 2 ^ 53 * rho + C).
  { pose proof (rounded_upper_0 (b.1 + rho) ltac:(lia)). destruct (Z.le_gt_cases (b.1 + rho) C); lia. }
  assert (HC0 : 0 <= C) by lia.
  assert (Hmul : 2 ^ 53 * (2 ^ 53 * (rho * ONE)) <= time_scale * (R * (now - b.2)) + 2 ^ 53 * (2 ^ 53 * ONE)).
  { unfold time_scale. assert (2 ^ 53 * (E * R) <= (2 ^ 53 + 1) * (now - b.2) * R) by nia. nia. }
  unfold slack_per_check, token_scale. fold (Rounded.full c). fold C. nia.
Qed.

(** What a key can still spend by [t1]: all of it before its first check in the
    stretch. *)
Definition potential (e : option (Z * Z)) : Z :=
  match e with
  | Some (tok, last) => if t0 <=? last then token_scale * tok + time_scale * (R * (t1 - last)) else token_scale * C + time_scale * (R * (t1 - t0))
  | None => token_scale * C + time_scale * (R * (t1 - t0))
  end.

(** The buckets of the rounded limiter. *)
Definition good (now : Z) (s : gmap str (Z * Z)) : Prop :=
  forall key b, s !! key = Some b -> Rounded.holdable c b /\ b.2 <= now.

Lemma available_holdable now e : (forall b, e = Some b -> Rounded.holdable c b) ->
  is_float (Rounded.available c R now e) /\ 0 <= Rounded.available c R now e <= C.
Proof.
  intros He. pose proof ONE_pos. assert (HC : is_float C) by (eexists; by apply capacity_value).
  assert (HC0 : 0 <= C) by (unfold C, Rounded.full; nia). destruct e as [b|]; cbn [Rounded.available]; fold C; [|done].
  specialize (He b eq_refl). pose proof (Rounded.refilled_ge c R HR now b He) as Hge. pose proof (Rounded.hold_range _ _ He).
  split; [|lia]. destruct (Z.min_spec (Rounded.refilled R now b) C) as [[_ ->]|[_ ->]]; [|done].
  unfold Rounded.refilled. apply rounded_is_float.
  assert (0 <= rounded 1074 (rounded 0 (Z.max 0 (now - b.2)) * R)); [|lia].
  apply rounded_nonneg; [lia|]. apply Z.mul_nonneg_nonneg; [apply rounded_nonneg; lia|done].
Qed.

Lemma check_good now key s : 0 <= now < INF -> good now s -> good now (Rounded.check c R now key s).2.
Proof.
  intros Hn Hs. destruct (available_holdable now (s !! key)) as [Hf Hr]; [intros b Hb; by apply (Hs key)|].
  pose proof ONE_pos. unfold Rounded.check. destruct (ONE <=? _) eqn:E; bool_simp; cbn [snd];
    intros key' b; rewrite lookup_insert_Some; (intros [[_ <-]|[_ Hl]]; [|by apply (Hs key')]); (split; [split; cbn [fst snd]|cbn; lia]).
  - apply (one_less_is_float _ c); [done|unfold C, Rounded.full in Hr; lia|unfold u32_max in Hc; lia].
  - fold C. lia.
  - done.
  - done.
  - done.
  - done.
Qed.

Lemma scales_pos : 0 < token_scale /\ 0 < time_scale /\ 0 <= C /\ 0 <= slack_per_check c.
Proof.
  pose proof ONE_pos. assert (0 <= C) by (unfold C, Rounded.full; nia). assert (0 < token_scale) by (unfold token_scale; lia).
  split_and!; [done|by unfold time_scale|done|]. unfold slack_per_check. fold (Rounded.full c). fold C. nia.
Qed.

Lemma potential_bounds e : (forall b, e = Some b -> Rounded.holdable c b /\ b.2 <= t1) -> t0 <= t1 ->
  0 <= potential e <= token_scale * C + time_scale * (R * (t1 - t0)).
Proof.
  intros He Ht. destruct scales_pos as (Hts & Htm & HC0 & _).
  assert (Hfull : 0 <= token_scale * C + time_scale * (R * (t1 - t0))).
  { apply Z.add_nonneg_nonneg; repeat apply Z.mul_nonneg_nonneg; lia. }
  destruct e as [[tok last]|]; cbn [potential]; [|lia]. destruct (t0 <=? last) eqn:E; bool_simp; [|lia].
  destruct (He _ eq_refl) as [Hb Hl]. destruct (Rounded.hold_range _ _ Hb) as [H0 Hcap]. cbn [fst snd] in *. fold C in Hcap.
  split; [apply Z.add_nonneg_nonneg; repeat apply Z.mul_nonneg_nonneg; lia|].
  apply Z.add_le_mono; [apply Z.mul_le_mono_nonneg_l; lia|]. repeat (apply Z.mul_le_mono_nonneg_l; [lia|]). lia.
Qed.

(** What a check finds is paid for by the potential. *)
Lemma available_potential now key s : t0 <= now <= t1 -> good now s ->
  token_scale * Rounded.available c R now (s !! key) + time_scale * (R * (t1 - now)) <= potential (s !! key) + slack_per_check c.
Proof.
  intros Hn Hs. destruct scales_pos as (Hts & Htm & HC0 & Hsl).
  destruct (available_holdable now (s !! key)) as [_ Hr]; [intros b Hb; by apply (Hs key)|].
  assert (Hstart : token_scale * Rounded.available c R now (s !! key) + time_scale * (R * (t1 - now)) <= token_scale * C + time_scale * (R * (t1 - t0))).
  { apply Z.add_le_mono; [apply Z.mul_le_mono_nonneg_l; lia|]. repeat (apply Z.mul_le_mono_nonneg_l; [lia|]). lia. }
  destruct (s !! key) as [[tok last]|] eqn:El; cbn [potential]; [|lia]. destruct (t0 <=? last) eqn:E; bool_simp; [|lia].
  destruct (Hs _ _ El) as [Hb Hl]. cbn [fst snd] in Hl. pose proof (refill_upper now (tok, last) Hb Hl) as Hu. cbn [fst snd] in Hu.
  replace (t1 - last) with (t1 - now + (now - last)) by lia. rewrite !Z.mul_add_distr_l. lia.
Qed.

(** A check pays for what it admits. *)
Lemma check_potential now key key' s : t0 <= now <= t1 -> good now s ->
  (if (key =s key') && (Rounded.check c R now key s).1 then token_scale * ONE else 0)
  + potential ((Rounded.check c R now key s).2 !! key')
  <= potential (s !! key') + (if key =s key' then slack_per_check c else 0).
Proof.
  intros Hn Hs. destruct (key =s key') eqn:Ek; cycle 1.
  { apply str_eqb_neq in Ek. unfold Rounded.check. destruct (ONE <=? _); cbn [fst snd andb]; rewrite lookup_insert_ne by done; lia. }
  apply str_eqb_eq in Ek. subst key'. pose proof (available_potential now key s Hn Hs) as Hav.
  unfold Rounded.check. destruct (ONE <=? _); cbn [fst snd andb]; rewrite lookup_insert_eq; cbn [potential];
    rewrite (proj2 (Z.leb_le _ _)) by lia; lia.
Qed.

Fixpoint checks_of {T} (key : str) (ops : list (op * T)) : Z :=
  match ops with
  | (Check k, _) :: ops => (if k =s key then 1 else 0) + checks_of key ops
  | (Prune, _) :: ops => checks_of key ops
  | [] => 0
  end.

Lemma admitted_potential key ops T0 s : good T0 s -> t0 <= T0 -> Exact.forward T0 ops -> Forall (fun o => o.2 <= t1 /\ o.2 < INF) ops ->
  T0 <= t1 -> 0 <= T0 ->
  let '(l, s') := Rounded.limiter c R ops s in
  token_scale * ONE * Exact.admitted key ops l + potential (s' !! key)
  <= potential (s !! key) + slack_per_check c * checks_of key ops /\ good t1 s'.
Proof.
  revert T0 s. induction ops as [|[o t] ops IH]; intros T0 s Hs H0 Hf Hall Ht Hnn.
  { cbn. split; [lia|]. intros k b Hb. destruct (Hs k b Hb). split; [done|lia]. }
  cbn [Exact.forward] in Hf. destruct Hf as [Hle Hf]. inversion_clear Hall as [|? ? [Ht1 Hinf] Hall']. cbn [snd] in Ht1, Hinf.
  assert (Hst : good t s) by (intros k b Hb; destruct (Hs k b Hb); split; [done|lia]).
  unfold Rounded.limiter in *. cbn [serve]. destruct o as [k'|].
  - pose proof (check_potential t k' key s ltac:(lia) Hst) as Hp. pose proof (check_good t k' s ltac:(lia) Hst) as Hg.
    destruct (Rounded.check c R t k' s) as [a s1]. cbn [fst snd] in *. specialize (IH t s1 Hg ltac:(lia) Hf Hall' Ht1 ltac:(lia)).
    destruct (serve _ _ ops s1) as [l s2]. destruct IH as [IH ?]. split; [|done]. cbn [Exact.admitted checks_of].
    rewrite !Z.mul_add_distr_l. destruct (k' =s key); cbn [andb] in *; destruct a; lia.
  - specialize (IH t s Hst ltac:(lia) Hf Hall' Ht1 ltac:(lia)). destruct (serve _ _ ops s) as [l s2].
    destruct IH as [IH ?]. split; [|done]. cbn [Exact.admitted checks_of]. lia.
Qed.
End Rate.

(** ** A burst at one reading *)

Section Burst.
Context (c R now : Z).
Hypothesis (Hc : 0 <= c <= u32_max).
Hypothesis (HR : 0 <= R).
Hypothesis (Hnow : 0 <= now < INF).

Lemma check_available_now key key' s : good c now s ->
  (if (key =s key') && (Rounded.check c R now key s).1 then ONE else 0)
  + Rounded.available c R now ((Rounded.check c R now key s).2 !! key') <= Rounded.available c R now (s !! key').
Proof.
  intros Hs. pose proof (check_good c R Hc HR now key s Hnow Hs) as Hg.
  destruct (key =s key') eqn:Ek; [apply str_eqb_eq in Ek; subst key'|apply str_eqb_neq in Ek]; unfold Rounded.check in *;
    destruct (ONE <=? _) eqn:E; cbn [fst snd andb] in *; rewrite ?lookup_insert_eq, ?lookup_insert_ne by done; try lia.
  all: destruct (Hg key _ (lookup_insert_eq _ _ _)) as [Hb _]; cbn [Rounded.available];
    rewrite (Rounded.refilled_now c R now _ Hb) by (cbn; lia); cbn [fst]; lia.
Qed.

Lemma burst_admitted key ops s : good c now s -> Forall (fun o => o.2 = now) ops ->
  ONE * Exact.admitted key ops (Rounded.limiter c R ops s).1 <= Rounded.available c R now (s !! key).
Proof.
  intros Hs Hall. revert s Hs. induction Hall as [|[o t] ops Ht _ IH]; intros s Hs.
  - cbn. destruct (available_holdable c R Hc HR now (s !! key)) as [_ ?]; [|lia]. intros b Hb. by apply (Hs key).
  - cbn [snd] in Ht. subst t. unfold Rounded.limiter in *. cbn [serve]. destruct o as [k'|].
    + pose proof (check_available_now k' key s Hs) as Ha. pose proof (check_good c R Hc HR now k' s Hnow Hs) as Hg.
      destruct (Rounded.check c R now k' s) as [a s1]. cbn [fst snd] in *. specialize (IH s1 Hg).
      destruct (serve _ _ ops s1) as [l s2]. cbn [fst Exact.admitted] in *. rewrite Z.mul_add_distr_l.
      destruct ((k' =s key) && a); lia.
    + specialize (IH s Hs). destruct (serve _ _ ops s) as [l s2]. cbn [fst Exact.admitted] in *. lia.
Qed.
End Burst.

(** ** From the readings to their values *)

Lemma forward_zip T0 ops Ts : forward T0 ops Ts -> 0 <= T0 ->
  length ops = length Ts /\ Exact.forward T0 (zip ops.*1 Ts) /\ Forall (fun T => T0 <= T < INF) Ts.
Proof.
  revert T0 Ts. induction ops as [|[o t] ops IH]; intros T0 [|T Ts] Hf H0; try done. destruct Hf as ((_ & Ht) & Hle & Hf).
  destruct (IH T Ts Hf ltac:(lia)) as (Hlen & Hz & Hall). cbn. split_and!; [by rewrite Hlen|done|done|].
  constructor; [lia|]. eapply Forall_impl; [exact Hall|]. cbn. intros x Hx. lia.
Qed.

Lemma zip_fst_app {A B} (l1 l2 : list (A * f64)) (k1 k2 : list B) : length l1 = length k1 ->
  zip (l1 ++ l2).*1 (k1 ++ k2) = zip l1.*1 k1 ++ zip l2.*1 k2.
Proof. intros Hlen. rewrite fmap_app. apply zip_with_app. by rewrite length_fmap. Qed.

Lemma Forall_zip_snd {A} (P : Z -> Prop) (l : list A) k : Forall P k -> Forall (fun o => P o.2) (zip l k).
Proof. intros Hk. revert l. induction Hk as [|x k Hx _ IH]; intros [|y l]; cbn; constructor; auto. Qed.

Lemma forward_from T0 T1 ops : Exact.forward (T := op) T0 ops -> Forall (fun o => T1 <= o.2) ops -> Exact.forward T1 ops.
Proof. destruct ops as [|[o t] ops]; [done|]. intros [_ Hf] Hall. apply Forall_cons in Hall as [H _]. by split. Qed.

Lemma admitted_fst {T U} key (ops : list (op * T)) (l : list U) answers : length ops = length l ->
  Exact.admitted key (zip ops.*1 l) answers = Exact.admitted key ops answers.
Proof.
  revert l answers. induction ops as [|[[k|] t] ops IH]; intros [|u l] [|a answers] Hlen; try done; cbn in *; by rewrite IH by lia.
Qed.

Lemma checks_of_fst {T U} key (ops : list (op * T)) (l : list U) : length ops = length l -> checks_of key (zip ops.*1 l) = checks_of key ops.
Proof. revert l. induction ops as [|[[k|] t] ops IH]; intros [|u l] Hlen; try done; cbn in *; by rewrite IH by lia. Qed.

(** A history and the stretch of it that follows, as the rounded limiter
    answers them. *)
Lemma limiter_stretch c rate R l1 l2 Ts1 Ts2 t0 : 0 <= c <= u32_max -> finite_nonneg rate R ->
  length l1 = length Ts1 -> forward 0 (l1 ++ l2) (Ts1 ++ Ts2) ->
  Forall (fun T => T <= t0) Ts1 -> 0 <= t0 -> Forall (fun T => t0 <= T) Ts2 ->
  exists s, good c t0 s /\ Exact.forward t0 (zip l2.*1 Ts2) /\ Forall (fun T => T < INF) Ts2 /\ length l2 = length Ts2
    /\ drop (length l1) (limiter (quota_new c rate) (l1 ++ l2) limiter_new).1 = (Rounded.limiter c R (zip l2.*1 Ts2) s).1.
Proof.
  intros Hc HR Hlen Hf H1 H0 H2. pose proof (value_range _ _ (proj1 HR)) as HRn.
  destruct (forward_zip 0 _ _ Hf ltac:(lia)) as (Hlen' & Hfz & Hall). rewrite !length_app in Hlen'.
  unfold limiter, limiter_new. rewrite (fsim_serve c rate R Hc HR (prune _) _ (Ts1 ++ Ts2) 0 ∅ ∅); [|by intros; apply fsim_prune|done|apply fsim_empty].
  rewrite zip_fst_app in * by done. apply Forall_app in Hall as [Ha1 Ha2].
  apply Exact.forward_app in Hfz as (t & Ht & Hz1 & Hz2 & _).
  assert (Hg : good c t0 (Rounded.limiter c R (zip l1.*1 Ts1) ∅).2).
  { pose proof (admitted_potential c R 0 t0 Hc ltac:(lia) [] (zip l1.*1 Ts1) 0 ∅) as Hp.
    destruct (Rounded.limiter c R (zip l1.*1 Ts1) ∅) as [l s]. apply Hp; try done; try lia.
    apply (Forall_zip_snd (fun T => T <= t0 /\ T < INF)). apply Forall_and. split; [done|].
    eapply Forall_impl; [exact Ha1|]. cbn. lia. }
  exists (Rounded.limiter c R (zip l1.*1 Ts1) ∅).2. split_and!.
  - done.
  - eapply forward_from; [exact Hz2|]. by apply Forall_zip_snd.
  - eapply Forall_impl; [exact Ha2|]. cbn. lia.
  - lia.
  - unfold Rounded.limiter. rewrite serve_app.
    pose proof (serve_length (Rounded.check c R) (fun _ s => s) (zip l1.*1 Ts1) ∅) as Hl.
    destruct (serve _ _ (zip l1.*1 Ts1) ∅) as [a1 s1]. cbn [fst snd] in *. destruct (serve _ _ (zip l2.*1 Ts2) s1) as [a2 s2]. cbn [fst].
    rewrite length_zip_with_l_eq, length_fmap in Hl by (by rewrite length_fmap). by rewrite <- Hl, drop_app_length.
Qed.

(** Every bucket stands for values within the capacity, whatever the order of
    the readings. *)
Definition within (c : Z) (s : gmap str Bucket) : Prop := forall key b, s !! key = Some b -> exists z, stands c b z.

Lemma check_within c rate R now T key s : 0 <= c <= u32_max -> finite_nonneg rate R -> finite_nonneg now T ->
  within c s -> within c (try_consume (quota_new c rate) now key (f64_of_Z 1) s).2.
Proof.
  intros Hc HR Hn Hs. assert (Hb : exists z, stands c (unwrap_or (s !! key) (mkBucket (f64_of_Z c) now)) z).
  { destruct (s !! key) as [b|] eqn:E; [by eapply Hs|]. eexists. by apply ffresh_stands. }
  destruct Hb as [z Hz]. destruct (try_consume_value c rate R Hc HR now T key s z Hz Hn) as (b' & -> & Hb'). cbn [snd].
  intros key' b. rewrite lookup_insert_Some. intros [[_ <-]|[_ Hl]]; [by eexists|by eapply Hs].
Qed.

Lemma limiter_within c rate R ops s : 0 <= c <= u32_max -> finite_nonneg rate R ->
  Forall (fun o => exists T, finite_nonneg o.2 T) ops -> within c s -> within c (limiter (quota_new c rate) ops s).2.
Proof.
  intros Hc HR Hall. revert s. induction Hall as [|[o t] ops [T Ht] _ IH]; intros s Hs; [done|].
  unfold limiter in *. cbn [serve snd] in *. destruct o as [key|].
  - pose proof (check_within c rate R t T key s Hc HR Ht Hs) as Hw. cbn [check in_memory].
    destruct (try_consume _ t key _ s) as [a s1]. cbn [snd] in Hw. specialize (IH s1 Hw). by destruct (serve _ _ ops s1).
  - assert (Hw : within c (prune (quota_new c rate) t s)).
    { intros key b. unfold prune. intros [Hl _]%map_lookup_filter_Some. by eapply Hs. }
    specialize (IH _ Hw). by destruct (serve _ _ ops _).
Qed.

Module Demo.
(** Three requests in a burst, a tenth of a token a second; readings that
    binary64 cannot hold exactly: n tenths of a second. *)
Definition rate : f64 := f64_div (f64_of_Z 1) (f64_of_Z 10).
Definition tenths (n : Z) : f64 := f64_div (f64_of_Z n) (f64_of_Z 10).
Definition at_tenths (n : Z) : op * f64 := (Check (lit "k"), tenths n).
Definition warm_up : list (op * f64) := at_tenths <$> [1; 1].
Definition stretch : list (op * f64) := (at_tenths <$> [3; 3; 7]) ++ [(Prune, tenths 7)] ++ (at_tenths <$> [7; 101]).
Definition value_of (x : f64) : Z := match x with SpecFloat.S754_finite _ m e => Zpos m * 2 ^ (e + 1074) | _ => 0 end.
Definition R : Z := value_of rate.
Definition values (ops : list (op * f64)) : list Z := (fun o => value_of o.2) <$> ops.
End Demo.

(** A finite float written out is one. *)
Definition is_canonical (x : f64) : bool :=
  match x with
  | SpecFloat.S754_finite false m e => (Zpos m <? 2 ^ 53) && (-1074 <=? e) && ((e =? -1074) || (2 ^ 52 <=? Zpos m)) && (e <=? 971)
  | SpecFloat.S754_zero _ => true
  | _ => false
  end.
Lemma is_canonical_finite x : is_canonical x = true -> finite_nonneg x (Demo.value_of x).
Proof.
  destruct x as [s|s| |[] m e]; try done; cbn [is_canonical Demo.value_of]; intros H; bool_simp.
  - split; [constructor|]. unfold INF. lia.
  - assert (Hv : value (SpecFloat.S754_finite false m e) (Zpos m * 2 ^ (e + 1074))).
    { constructor; [|done]. unfold canonical. destruct (e =? -1074) eqn:E; bool_simp; split_and!; try done; [by left|right].
      match goal with H : _ || _ = true |- _ => by apply orb_true_iff in H as [?|?%Z.leb_le] end. }
    split; [done|]. by eapply value_finite_lt.
Qed.

(** ** Properties *)

(** Tokens never leave their range.  For any quota with a finite
    non-negative rate and any finite non-negative readings of the clock, in any
    order, no bucket ever holds a NaN, less than zero or more than the
    capacity. *)
Theorem tokens_within_capacity c rate R ops key b :
  0 <= c <= u32_max -> finite_nonneg rate R -> Forall (fun o => exists T, finite_nonneg o.2 T) ops ->
  (limiter (quota_new c rate) ops limiter_new).2 !! key = Some b ->
  is_nan (tokens b) = false /\ f64_ge (tokens b) (f64_of_Z 0) = true /\ f64_ge (f64_of_Z c) (tokens b) = true.
Proof.
  intros Hc HR Hall Hl. assert (H0 : within c limiter_new) by (intros k' b'; unfold limiter_new; by rewrite lookup_empty).
  destruct (limiter_within c rate R ops _ Hc HR Hall H0 key b Hl) as (z & Hv & _ & Hr). split_and!.
  - by eapply value_not_nan.
  - rewrite (ge_value _ (f64_of_Z 0) z.1 0 Hv (value_zero false)). apply Z.leb_le. lia.
  - rewrite (ge_value _ _ (Rounded.full c) z.1); [apply Z.leb_le; lia| |done]. by apply capacity_value.
Qed.

(** Pruning is invisible.  For any finite rate and any readings that do not
    go back, rounded as the clock gives them, the limiter answers every check
    as one that never prunes. *)
Theorem prune_invisible c rate R ops Ts :
  0 <= c <= u32_max -> finite_nonneg rate R -> forward 0 ops Ts ->
  (limiter (quota_new c rate) ops limiter_new).1
  = (serve (@check _ _ (in_memory (quota_new c rate))) (fun _ s => s) ops limiter_new).1.
Proof.
  intros Hc HR Hf. unfold limiter, limiter_new.
  rewrite (fsim_serve c rate R Hc HR (prune _) ops Ts 0 ∅ ∅); [|by intros; apply fsim_prune|done|apply fsim_empty].
  by rewrite (fsim_serve c rate R Hc HR (fun _ s => s) ops Ts 0 ∅ ∅); [|by intros|done|apply fsim_empty].
Qed.

(** C20: the rate holds on real readings.  After any history, between readings
    [t0] and [t1] a key is admitted at most [capacity] times, plus
    [rate * (t1 - t0)] up to two roundings (a factor of (1 + 2^-53)^2), plus
    what rounding the sum can add at each of its checks, [capacity]/2^53 and
    2^-1074.  At one reading there is no allowance at all: at most [capacity]. *)
Theorem admissions_bounded_f64 c rate R l1 l2 Ts1 Ts2 key t0 t1 :
  0 <= c <= u32_max -> finite_nonneg rate R ->
  length l1 = length Ts1 -> forward 0 (l1 ++ l2) (Ts1 ++ Ts2) ->
  Forall (fun T => T <= t0) Ts1 -> 0 <= t0 <= t1 -> Forall (fun T => t0 <= T <= t1) Ts2 ->
  let answers := drop (length l1) (limiter (quota_new c rate) (l1 ++ l2) limiter_new).1 in
  token_scale * ONE * Exact.admitted key l2 answers
  <= token_scale * (c * ONE) + time_scale * (R * (t1 - t0)) + slack_per_check c * checks_of key l2
  /\ (t0 = t1 -> Exact.admitted key l2 answers <= c).
Proof.
  intros Hc HR Hlen Hf H1 H0 H2 answers. pose proof (value_range _ _ (proj1 HR)) as HRn.
  destruct (limiter_stretch c rate R l1 l2 Ts1 Ts2 t0 Hc HR Hlen Hf H1 ltac:(lia)) as (s & Hg & Hz & Hinf & Hlen2 & Ha).
  { eapply Forall_impl; [exact H2|]. cbn. lia. }
  unfold answers. rewrite Ha. rewrite <- (admitted_fst key l2 Ts2 _ Hlen2), <- (checks_of_fst key l2 Ts2 Hlen2). split.
  - pose proof (admitted_potential c R t0 t1 Hc ltac:(lia) key (zip l2.*1 Ts2) t0 s Hg ltac:(lia) Hz) as Hp.
    assert (Hb : 0 <= potential c R t0 t1 (s !! key) <= token_scale * Rounded.full c + time_scale * (R * (t1 - t0))).
    { apply potential_bounds; [done|lia| |lia]. intros b Hb. destruct (Hg key b Hb). split; [done|lia]. }
    destruct (Rounded.limiter c R (zip l2.*1 Ts2) s) as [l s']. destruct Hp as [Hp Hg'].
    { apply (Forall_zip_snd (fun T => T <= t1 /\ T < INF)). apply Forall_and. split; [|done].
      eapply Forall_impl; [exact H2|]. cbn. lia. }
    { lia. }
    { lia. }
    assert (0 <= potential c R t0 t1 (s' !! key)).
    { apply potential_bounds; [done|lia| |lia]. intros b Hb2. by apply (Hg' key). }
    unfold Rounded.full in Hb. cbn [fst]. lia.
  - intros <-. destruct Ts2 as [|T Ts2]; [destruct l2; [cbn; lia|done]|].
    assert (Hnow : 0 <= t0 < INF) by (apply Forall_cons in H2 as [? _]; apply Forall_cons in Hinf as [? _]; lia).
    pose proof (burst_admitted c R t0 Hc ltac:(lia) Hnow key (zip l2.*1 (T :: Ts2)) s Hg) as Hb.
    destruct (available_holdable c R Hc ltac:(lia) t0 (s !! key)) as [_ Hav]; [intros b Hb'; by apply (Hg key)|].
    pose proof ONE_pos. unfold Rounded.full in Hav. apply (Z.mul_le_mono_pos_l _ _ ONE); [done|].
    etrans; [apply Hb|lia]. apply (Forall_zip_snd (fun T => T = t0)). eapply Forall_impl; [exact H2|]. cbn. lia.
Qed.

(** The witnesses' readings and rate. *)
Lemma demo_rate : finite_nonneg Demo.rate Demo.R.
Proof. apply is_canonical_finite. vm_compute. reflexivity. Qed.

Fixpoint forward_b (T0 : Z) (ops : list (op * f64)) : bool :=
  match ops with
  | [] => true
  | (_, t) :: ops => is_canonical t && (T0 <=? Demo.value_of t) && forward_b (Demo.value_of t) ops
  end.
Lemma forward_b_forward T0 ops : forward_b T0 ops = true -> forward T0 ops (Demo.values ops).
Proof.
  revert T0. induction ops as [|[o t] ops IH]; intros T0; [done|]. cbn [forward_b Demo.values fmap list_fmap forward snd].
  intros H. apply andb_true_iff in H as [[H1 H2%Z.leb_le]%andb_true_iff H3]. split_and!; [by apply is_canonical_finite|done|by apply IH].
Qed.

Lemma tokens_within_capacity_witness :
  f64_ge (f64_of_Z 3) (tokens (unwrap_or ((limiter (quota_new 3 Demo.rate) (Demo.warm_up ++ Demo.stretch) limiter_new).2 !! lit "k")
    (mkBucket (f64_of_Z 9) (f64_of_Z 0)))) = true.
Proof.
  apply (tokens_within_capacity 3 Demo.rate Demo.R (Demo.warm_up ++ Demo.stretch) (lit "k")).
  - vm_compute. intuition discriminate.
  - exact demo_rate.
  - repeat (apply Forall_cons; split; [eexists; apply is_canonical_finite; vm_compute; reflexivity|]). apply Forall_nil. exact I.
  - vm_compute. reflexivity.
Defined.

Lemma prune_invisible_witness :
  (limiter (quota_new 3 Demo.rate) (Demo.warm_up ++ Demo.stretch) limiter_new).1
  = (serve (@check _ _ (in_memory (quota_new 3 Demo.rate))) (fun _ s => s) (Demo.warm_up ++ Demo.stretch) limiter_new).1.
Proof.
  apply (prune_invisible 3 Demo.rate Demo.R _ (Demo.values (Demo.warm_up ++ Demo.stretch))).
  - vm_compute. intuition discriminate.
  - exact demo_rate.
  - apply forward_b_forward. vm_compute. reflexivity.
Defined.

Lemma admissions_bounded_f64_witness :
  Exact.admitted (lit "k") Demo.stretch
    (drop (length Demo.warm_up) (limiter (quota_new 3 Demo.rate) (Demo.warm_up ++ Demo.stretch) limiter_new).1) = 2
  /\ token_scale * ONE * 2
     <= token_scale * (3 * ONE) + time_scale * (Demo.R * (Demo.value_of (Demo.tenths 101) - Demo.value_of (Demo.tenths 3)))
        + slack_per_check 3 * checks_of (lit "k") Demo.stretch.
Proof.
  destruct (admissions_bounded_f64 3 Demo.rate Demo.R Demo.warm_up Demo.stretch (Demo.values Demo.warm_up) (Demo.values Demo.stretch)
    (lit "k") (Demo.value_of (Demo.tenths 3)) (Demo.value_of (Demo.tenths 101))) as [H _].
  - vm_compute. intuition discriminate.
  - exact demo_rate.
  - reflexivity.
  - apply (forward_b_forward 0 (Demo.warm_up ++ Demo.stretch)). vm_compute. reflexivity.
  - apply (bool_decide_unpack _). vm_compute. exact I.
  - vm_compute. intuition discriminate.
  - apply (bool_decide_unpack _). vm_compute. exact I.
  - assert (Ha : Exact.admitted (lit "k") Demo.stretch
      (drop (length Demo.warm_up) (limiter (quota_new 3 Demo.rate) (Demo.warm_up ++ Demo.stretch) limiter_new).1) = 2) by (vm_compute; reflexivity).
    split; [exact Ha|]. rewrite Ha in H. exact H.
Defined.

(** A rate that is not a number fails open: [min] takes the capacity for it, so
    every check is admitted. *)
Theorem nan_rate_admits_all c now key s : 1 <= c <= u32_max ->
  (try_consume (quota_new c SpecFloat.S754_nan) now key (f64_of_Z 1) s).1 = true.
Proof.
  intros Hc. unfold try_consume. cbn [refill_per_sec capacity quota_new].
  set (b := unwrap_or _ _). assert (E : f64_add (tokens b) (f64_mul (elapsed_since now b) SpecFloat.S754_nan) = SpecFloat.S754_nan).
  { unfold f64_add, f64_mul. destruct (elapsed_since now b); destruct (tokens b); done. }
  rewrite E. cbn [f64_min is_nan].
  rewrite (ge_value _ _ (c * ONE) ONE); [|apply of_Z_value; unfold u32_max in Hc; lia|rewrite <- (Z.mul_1_l ONE); by apply of_Z_value].
  pose proof ONE_pos. rewrite (proj2 (Z.leb_le _ _)) by nia. done.
Qed.
