(* ===== verification/F64Clock.v ===== *)
(** * The limiter's clock

    [MonotonicClock] reads [Duration::as_secs_f64]: whole seconds plus
    nanoseconds divided by a billion, rounded twice.  Division rounds the exact
    quotient, and the readings of a monotonic clock do not go back: what
    [BucketF64] assumes of readings holds of this clock. *)

From S2P Require Import Prelude RustStr F64 F64Round Bucket BucketF64.
From Stdlib Require Import SpecFloat.

(** ** Quotients *)

(** num / den to the nearest integer, ties to even. *)
Definition rneq (num den : Z) : Z :=
  match 2 * (num mod den) ?= den with
  | Lt => num / den
  | Eq => if Z.even (num / den) then num / den else num / den + 1
  | Gt => num / den + 1
  end.
(** Twice the integer part, made odd where there is a rest: it rounds as the
    quotient does. *)
Definition odd_floor (num den : Z) : Z := 2 * (num / den) + (if num mod den =? 0 then 0 else 1).

Lemma rneq_scale num den c : 0 < den -> 0 < c -> rneq (num * c) (den * c) = rneq num den.
Proof.
  intros Hd Hc. unfold rneq. rewrite Z.div_mul_cancel_r, Z.mul_mod_distr_r by lia. rewrite Z.mul_assoc.
  by rewrite <- (Zmult_compare_compat_r (2 * (num mod den)) den c) by lia.
Qed.

(** Equal quotients round to the same. *)
Lemma rneq_cross num den num' den' : 0 < den -> 0 < den' -> num * den' = num' * den -> rneq num den = rneq num' den'.
Proof.
  intros Hd Hd' E. rewrite <- (rneq_scale num den den'), <- (rneq_scale num' den' den) by done. by rewrite E, (Z.mul_comm den den').
Qed.

Lemma odd_floor_mono num num' den : 0 < den -> num <= num' -> odd_floor num den <= odd_floor num' den.
Proof.
  intros Hd Hn. unfold odd_floor. pose proof (Z.div_le_mono num num' den Hd Hn). pose proof (Z.div_mod num den ltac:(lia)).
  pose proof (Z.div_mod num' den ltac:(lia)). pose proof (Z.mod_pos_bound num den Hd). pose proof (Z.mod_pos_bound num' den Hd).
  destruct (Z.eqb_spec (num mod den) 0), (Z.eqb_spec (num' mod den) 0); nia.
Qed.

Lemma odd_floor_rne num den s : 0 < den -> 2 <= s -> rne (odd_floor num den) s = rneq num (den * 2 ^ (s - 1)).
Proof.
  intros Hd Hs. set (H := 2 ^ (s - 2)). assert (HH : 0 < H) by (apply pow2_pos; lia).
  assert (E1 : 2 ^ (s - 1) = 2 * H) by (unfold H; rewrite <- Z.pow_succ_r by lia; f_equal; lia).
  assert (E2 : 2 ^ s = 2 * (2 * H)) by (rewrite <- E1, <- Z.pow_succ_r by lia; f_equal; lia).
  unfold rne, rneq, odd_floor. rewrite E1, E2. set (st := if num mod den =? 0 then 0 else 1).
  assert (Hst : 0 <= st <= 1) by (unfold st; destruct (_ =? 0); lia).
  assert (A1 : (2 * (num / den) + st) mod 2 = st) by (rewrite Z.add_comm, Z.mul_comm, Z.mod_add, Z.mod_small by lia; done).
  assert (A2 : (2 * (num / den) + st) / 2 = num / den) by (rewrite Z.mul_comm, Z.div_add_l, (Z.div_small st) by lia; lia).
  assert (Ediv : (2 * (num / den) + st) / (2 * (2 * H)) = num / (den * (2 * H))).
  { rewrite <- (Z.div_div num den), <- (Z.div_div _ 2) by lia. by rewrite A2. }
  assert (Emod : (2 * (num / den) + st) mod (2 * (2 * H)) = 2 * ((num / den) mod (2 * H)) + st).
  { rewrite Z.rem_mul_r, A1, A2 by lia. lia. }
  assert (Emod2 : num mod (den * (2 * H)) = num mod den + den * ((num / den) mod (2 * H))) by (apply Z.rem_mul_r; lia).
  rewrite Ediv, Emod, Emod2. set (f := (num / den) mod (2 * H)). pose proof (Z.mod_pos_bound num den Hd) as Hr.
  assert (Hcmp : (2 * (2 * f + st) ?= 2 * (2 * H)) = (2 * (num mod den + den * f) ?= den * (2 * H))).
  { unfold st. destruct (Z.lt_trichotomy f H) as [Hl|[->|Hg]].
    - rewrite !(proj2 (Z.compare_lt_iff _ _)); [done|nia|]. destruct (_ =? 0); lia.
    - destruct (Z.eqb_spec (num mod den) 0) as [->|Hne].
      + by rewrite !(proj2 (Z.compare_eq_iff _ _)) by lia.
      + by rewrite !(proj2 (Z.compare_gt_iff _ _)) by lia.
    - rewrite !(proj2 (Z.compare_gt_iff _ _)); [done|nia|]. destruct (_ =? 0); lia. }
  by rewrite Hcmp.
Qed.

Lemma odd_floor_log2 num den : 0 < den -> den <= num -> Z.log2 (odd_floor num den) = Z.log2 (num / den) + 1.
Proof.
  intros Hd Hn. assert (1 <= num / den) by (apply Z.div_le_lower_bound; lia). unfold odd_floor.
  destruct (_ =? 0); [rewrite Z.add_0_r, Z.log2_double by lia; lia|]. rewrite Z.log2_succ_double by lia. lia.
Qed.

Lemma log2_div_shift num den k : 0 < den -> den <= num -> 0 <= k -> Z.log2 (num * 2 ^ k / den) = Z.log2 (num / den) + k.
Proof.
  intros Hd Hn Hk. assert (Hq : 1 <= num / den) by (apply Z.div_le_lower_bound; lia). pose proof (pow2_pos k Hk) as Hp.
  pose proof (Z.log2_spec (num / den) ltac:(lia)) as [Hlo Hhi]. pose proof (Z.log2_nonneg (num / den)).
  apply Z.log2_unique; [lia|]. rewrite Z.pow_succ_r, !Z.pow_add_r by lia. rewrite Z.pow_succ_r in Hhi by lia.
  pose proof (Z.div_mod num den ltac:(lia)). pose proof (Z.mod_pos_bound num den Hd). split.
  - apply Z.div_le_lower_bound; [done|]. rewrite Z.mul_assoc. apply Z.mul_le_mono_nonneg_r; [lia|].
    transitivity (den * (num / den)); [apply Z.mul_le_mono_nonneg_l; lia|lia].
  - apply Z.div_lt_upper_bound; [done|]. replace (den * _) with (den * (2 * 2 ^ Z.log2 (num / den)) * 2 ^ k) by lia.
    apply Z.mul_lt_mono_pos_r; [done|]. apply Z.lt_le_trans with (den * (num / den + 1)); [lia|apply Z.mul_le_mono_nonneg_l; lia].
Qed.

(** Two fractions of one quotient, in units that differ by 2^k, round to the
    same value when enough bits are known. *)
Lemma rounded_quotient num den num' den' k : 0 < den -> 0 < den' -> 0 <= k -> num' * den = num * den' * 2 ^ k ->
  2 ^ 53 <= num / den -> rounded 0 (odd_floor num den * 2 ^ k) = rounded 0 (odd_floor num' den').
Proof.
  intros Hd Hd' Hk E Hb. pose proof (pow2_pos k Hk) as Hp. assert (Hn : den <= num) by (pose proof (Z.div_mod num den ltac:(lia)); pose proof (Z.mod_pos_bound num den Hd); nia).
  assert (Hn' : den' <= num').
  { apply (Z.mul_le_mono_pos_r _ _ den); [done|]. rewrite E, <- Z.mul_assoc.
    transitivity (den * (den' * 1)); [lia|]. apply Z.mul_le_mono_nonneg; [lia|lia|lia|]. apply Z.mul_le_mono_nonneg_l; lia. }
  assert (Hl' : Z.log2 (num' / den') = Z.log2 (num / den) + k).
  { rewrite <- log2_div_shift by done. f_equal. rewrite <- (Z.div_mul_cancel_r num' den' den), E by lia.
    replace (num * den' * 2 ^ k) with (num * 2 ^ k * den') by lia. rewrite (Z.mul_comm den' den). apply Z.div_mul_cancel_r; lia. }
  assert (Hl53 : 53 <= Z.log2 (num / den)) by (apply Z.log2_le_pow2; lia).
  assert (Hpos : 0 < odd_floor num den) by (unfold odd_floor; destruct (_ =? 0); lia).
  assert (Ec : cut 0 (odd_floor num den * 2 ^ k) = Z.log2 (num / den) - 51 + k) by (unfold cut; rewrite Z.log2_mul_pow2, odd_floor_log2 by lia; lia).
  assert (Ec' : cut 0 (odd_floor num' den') = Z.log2 (num / den) - 51 + k) by (unfold cut; rewrite odd_floor_log2, Hl' by lia; lia).
  unfold rounded. rewrite Ec, Ec', rne_scale, !odd_floor_rne by lia. do 2 f_equal.
  apply rneq_cross; [apply Z.mul_pos_pos; [lia|apply pow2_pos; lia]..|].
  replace (Z.log2 (num / den) - 51 + k - 1) with (Z.log2 (num / den) - 51 - 1 + k) by lia. rewrite Z.pow_add_r by lia.
  replace (num' * (den * 2 ^ (Z.log2 (num / den) - 51 - 1))) with (num' * den * 2 ^ (Z.log2 (num / den) - 51 - 1)) by lia.
  rewrite E. lia.
Qed.

(** ** Division *)

Definition loc_num (l : location) : Z :=
  match l with loc_Exact => 0 | loc_Inexact Lt => 1 | loc_Inexact Eq => 2 | loc_Inexact Gt => 3 end.

Lemma loc_record q l : 0 <= q -> shr_record_of_loc q l = shr_1 (shr_1 (Build_shr_record (4 * q + loc_num l) false false)).
Proof.
  intros Hq. assert (H0 : 0 <= loc_num l <= 3) by (destruct l as [|[]]; cbn; lia).
  rewrite shr_1_div2 by lia. rewrite shr_1_div2 by (apply Z.div_pos; lia).
  assert (E : forall i, 0 <= i <= 3 -> (4 * q + i) / 2 = 2 * q + i / 2).
  { intros i Hi. replace (4 * q + i) with (2 * q * 2 + i) by lia. by rewrite Z.div_add_l by lia. }
  assert (E4 : forall i, 0 <= i <= 1 -> (2 * q + i) / 2 = q).
  { intros i Hi. rewrite Z.mul_comm, Z.div_add_l, (Z.div_small i) by lia. lia. }
  rewrite E by done. destruct l as [|[]]; cbn [loc_num]; rewrite E4 by (vm_compute; split; discriminate);
    rewrite !Z.odd_add, !Z.odd_mul; cbn; done.
Qed.

(** The rest of a division, as the two bits below the quotient. *)
Lemma location_odd_floor q r den : 0 <= r < den -> 4 * q + loc_num (new_location den r) = odd_floor (2 * (q * den + r)) den.
Proof.
  intros Hr. unfold odd_floor.
  assert (Hq : forall c x, 0 <= x < den -> 2 * (q * den + r) = (2 * q + c) * den + x -> 2 * (q * den + r) / den = 2 * q + c /\ (2 * (q * den + r)) mod den = x).
  { intros c x Hx ->. split; [rewrite Z.div_add_l, (Z.div_small x) by lia; lia|]. rewrite Z.add_comm, Z.mod_add, Z.mod_small by lia. done. }
  assert (Hloc : loc_num (new_location den r) = if r =? 0 then 0 else if 2 * r <? den then 1 else if 2 * r =? den then 2 else 3).
  { unfold new_location, new_location_even, new_location_odd. destruct (Z.even den) eqn:Ev; destruct (Z.eqb_spec r 0); try done.
    - destruct (Z.compare_spec (2 * r) den), (Z.ltb_spec (2 * r) den), (Z.eqb_spec (2 * r) den); try done; lia.
    - assert (2 * r <> den) by (intros <-; by rewrite Z.even_mul in Ev).
      destruct (Z.compare_spec (2 * r + 1) den), (Z.ltb_spec (2 * r) den), (Z.eqb_spec (2 * r) den); try done; lia. }
  rewrite Hloc. destruct (Z.eqb_spec r 0), (Z.ltb_spec (2 * r) den), (Z.eqb_spec (2 * r) den); try lia.
  1,2: destruct (Hq 0 (2 * r)) as [-> ->]; [lia|lia|]; destruct (Z.eqb_spec (2 * r) 0); lia.
  - destruct (Hq 1 0) as [-> ->]; [lia|lia|]. cbn. lia.
  - destruct (Hq 1 (2 * r - den)) as [-> ->]; [lia|lia|]. destruct (Z.eqb_spec (2 * r - den) 0); lia.
Qed.

Lemma shr_two q l e n : 0 <= q -> 0 <= n ->
  shr (shr_record_of_loc q l) e n = shr (Build_shr_record (4 * q + loc_num l) false false) (e - 2) (n + 2).
Proof.
  intros Hq Hn. rewrite (loc_record q l Hq). destruct n as [|p|p]; [|..|lia].
  - change (0 + 2) with 2. cbn [shr iter_pos]. f_equal. lia.
  - change (Zpos p + 2) with (Zpos (p + 2)). cbn [shr]. rewrite !iter_pos_iter. apply (f_equal2 pair); [|lia].
    by rewrite Pos.iter_add.
Qed.

(** Rounding with the location of the rest is rounding the two extra bits. *)
Lemma round_aux_loc (q p : positive) e l : Zpos p = 4 * Zpos q + loc_num l -> e <= Z.max (Z.log2 (Zpos q) - 52 + e) (-1074) ->
  binary_round_aux 53 1024 false (Zpos q) e l = binary_round_aux 53 1024 false (Zpos p) (e - 2) loc_Exact.
Proof.
  intros Hp He. assert (Hl : 0 <= loc_num l <= 3) by (destruct l as [|[]]; cbn; lia).
  assert (Hlog : Z.log2 (Zpos p) = Z.log2 (Zpos q) + 2).
  { pose proof (Z.log2_nonneg (Zpos q)). pose proof (Z.log2_spec (Zpos q) ltac:(lia)) as [H1 H2]. rewrite Hp.
    apply Z.log2_unique; [lia|]. rewrite Z.pow_succ_r, Z.pow_add_r by lia. rewrite Z.pow_succ_r in H2 by lia. lia. }
  unfold binary_round_aux. assert (E : shr_fexp 53 1024 (Zpos q) e l = shr_fexp 53 1024 (Zpos p) (e - 2) loc_Exact); [|by rewrite E].
  unfold shr_fexp, fexp, emin. cbn [Zdigits2]. rewrite !log2_digits, Hlog. change (shr_record_of_loc (Zpos p) loc_Exact) with (Build_shr_record (Zpos p) false false).
  rewrite Hp. rewrite shr_two by lia. f_equal. lia.
Qed.

(** The magnitude of m1*2^e1 / (m2*2^e2), off by at most one. *)
Definition magnitude (m1 : positive) (e1 : Z) (m2 : positive) (e2 : Z) : Z := Z.log2 (Zpos m1) + e1 - (Z.log2 (Zpos m2) + e2).

Lemma magnitude_bound m1 e1 m2 e2 : -1074 <= e1 -> -1074 <= e2 ->
  Zpos m2 * 2 ^ (e2 + 1074) <= Zpos m1 * 2 ^ (e1 + 1074) * 2 ^ 900 -> -902 <= magnitude m1 e1 m2 e2.
Proof.
  intros Hl1 Hl2 Hab. unfold magnitude. pose proof (Z.log2_nonneg (Zpos m1)). pose proof (Z.log2_nonneg (Zpos m2)).
  pose proof (Z.log2_spec (Zpos m1) ltac:(lia)) as [_ U1]. pose proof (Z.log2_spec (Zpos m2) ltac:(lia)) as [L2 _].
  rewrite Z.pow_succ_r in U1 by lia.
  destruct (Z.le_gt_cases (-902) (Z.log2 (Zpos m1) + e1 - (Z.log2 (Zpos m2) + e2))) as [|Hd]; [done|exfalso].
  assert (Hlt : Zpos m1 * 2 ^ (e1 + 1074) * 2 ^ 900 < Zpos m2 * 2 ^ (e2 + 1074)); [|lia].
  apply Z.lt_le_trans with (2 ^ (Z.log2 (Zpos m1) + 1 + (e1 + 1074) + 900)).
  - rewrite (Z.pow_add_r 2 _ 900), (Z.pow_add_r 2 _ (e1 + 1074)), (Z.pow_add_r 2 _ 1) by lia. change (2 ^ 1) with 2.
    apply Z.mul_lt_mono_pos_r; [apply pow2_pos; lia|]. apply Z.mul_lt_mono_pos_r; [apply pow2_pos; lia|lia].
  - transitivity (2 ^ (Z.log2 (Zpos m2) + (e2 + 1074))); [apply pow2_mono; lia|]. rewrite Z.pow_add_r by lia.
    apply Z.mul_le_mono_nonneg_r; [apply Z.pow_nonneg; lia|lia].
Qed.

(** At an exponent 53 below the magnitude the integer quotient has 53 bits. *)
Lemma quotient_bits m1 e1 m2 e2 e : e <= magnitude m1 e1 m2 e2 - 53 -> e <= e1 - e2 ->
  2 ^ 52 <= Zpos m1 * 2 ^ (e1 - e2 - e) / Zpos m2.
Proof.
  unfold magnitude. intros He He'. pose proof (Z.log2_nonneg (Zpos m1)). pose proof (Z.log2_nonneg (Zpos m2)).
  pose proof (Z.log2_spec (Zpos m1) ltac:(lia)) as [L1 _]. pose proof (Z.log2_spec (Zpos m2) ltac:(lia)) as [_ U2].
  apply Z.div_le_lower_bound; [lia|]. transitivity (2 ^ Z.succ (Z.log2 (Zpos m2)) * 2 ^ 52).
  - apply Z.mul_le_mono_nonneg_r; lia.
  - rewrite <- Z.pow_add_r by lia. transitivity (2 ^ (Z.log2 (Zpos m1) + (e1 - e2 - e))); [apply pow2_mono; lia|].
    rewrite Z.pow_add_r by lia. apply Z.mul_le_mono_nonneg_r; [apply Z.pow_nonneg; lia|lia].
Qed.

(** The division of the mantissas, with its two extra bits. *)
Lemma div_core m1 e1 m2 e2 : Zpos m1 < 2 ^ 53 -> -902 <= magnitude m1 e1 m2 e2 ->
  exists (q p : positive) (l : location) e, SFdiv_core_binary 53 1024 (Zpos m1) e1 (Zpos m2) e2 = (Zpos q, e, l)
    /\ -955 <= e <= e1 - e2 /\ 2 ^ 52 <= Zpos q
    /\ Zpos p = 4 * Zpos q + loc_num l /\ Zpos p = odd_floor (2 * (Zpos m1 * 2 ^ (e1 - e2 - e))) (Zpos m2).
Proof.
  intros Hm1 Hmag. assert (Z.log2 (Zpos m1) < 53) by (apply Z.log2_lt_pow2; lia). pose proof (Z.log2_nonneg (Zpos m2)).
  unfold SFdiv_core_binary. cbn [Zdigits2]. rewrite !log2_digits. unfold fexp, emin. change (3 - 1024 - 53) with (-1074).
  replace (Z.max _ (-1074)) with (magnitude m1 e1 m2 e2 - 53) by (unfold magnitude in *; lia).
  set (e := Z.min (magnitude m1 e1 m2 e2 - 53) (e1 - e2)).
  assert (Hm' : match e1 - e2 - e with Z0 => Zpos m1 | Zpos _ => Z.shiftl (Zpos m1) (e1 - e2 - e) | Zneg _ => 0 end
    = Zpos m1 * 2 ^ (e1 - e2 - e)).
  { destruct (e1 - e2 - e) eqn:E; [by rewrite Z.mul_1_r|by rewrite Z.shiftl_mul_pow2 by lia|unfold e in E; lia]. }
  rewrite Hm'. set (m' := Zpos m1 * 2 ^ (e1 - e2 - e)).
  pose proof (quotient_bits m1 e1 m2 e2 e ltac:(lia) ltac:(lia)) as Hq. fold m' in Hq.
  pose proof (Z.div_mod m' (Zpos m2) ltac:(lia)) as Hdm. pose proof (Z.mod_pos_bound m' (Zpos m2) ltac:(lia)) as Hrb.
  unfold Z.div, Z.modulo in Hdm, Hrb, Hq. destruct (Z.div_eucl m' (Zpos m2)) as [q r]. destruct q as [|q|q]; [lia| |lia].
  assert (Hl : 0 <= loc_num (new_location (Zpos m2) r)) by (destruct (new_location (Zpos m2) r) as [|[]]; cbn; lia).
  exists q, (Z.to_pos (4 * Zpos q + loc_num (new_location (Zpos m2) r))), (new_location (Zpos m2) r), e.
  rewrite Z2Pos.id by lia. split_and!; [done|unfold e, magnitude in *; lia|lia|done|done|].
  rewrite (location_odd_floor (Zpos q) r (Zpos m2) Hrb). f_equal. lia.
Qed.

(** A quotient of positive floats that is neither tiny nor huge. *)
Lemma div_value x y a b : value x a -> value y b -> 0 < a < INF -> 0 < b < INF -> b <= a * 2 ^ 900 ->
  value (f64_div x y) (rounded 0 (odd_floor (a * 2 ^ 1073) b)).
Proof.
  intros Hx Hy Ha Hb Hab. unfold f64_div.
  destruct Hx as [s| |m1 e1 (Hm1 & Hl1 & _) He1]; [lia|lia|]. destruct Hy as [s| |m2 e2 (Hm2 & Hl2 & _) He2]; [lia|lia|].
  cbn [SFdiv xorb]. pose proof (magnitude_bound m1 e1 m2 e2 Hl1 Hl2 Hab) as Hmag.
  destruct (div_core m1 e1 m2 e2 Hm1 Hmag) as (q & p & l & e & -> & He & Hq & Hp & Hodd).
  assert (0 <= loc_num l) by (destruct l as [|[]]; cbn; lia).
  assert (Hlq : 52 <= Z.log2 (Zpos q)) by (apply Z.log2_le_pow2; lia).
  assert (HlP : 54 <= Z.log2 (Zpos p)) by (apply Z.log2_le_pow2; lia).
  rewrite (round_aux_loc q p) by (done || lia).
  replace (rounded 0 (odd_floor _ _)) with (rounded 0 (Zpos p * 2 ^ (e - 2 + 1074 + 0))); [apply round_aux_value; lia|].
  rewrite Hodd. apply rounded_quotient; [lia|lia|lia| |].
  - replace (2 * (Zpos m1 * 2 ^ (e1 - e2 - e)) * (Zpos m2 * 2 ^ (e2 + 1074)) * 2 ^ (e - 2 + 1074 + 0))
      with (Zpos m1 * Zpos m2 * (2 ^ 1 * 2 ^ (e1 - e2 - e) * 2 ^ (e2 + 1074) * 2 ^ (e - 2 + 1074 + 0))) by lia.
    rewrite <- !Z.pow_add_r by lia.
    replace (Zpos m1 * 2 ^ (e1 + 1074) * 2 ^ 1073 * Zpos m2) with (Zpos m1 * Zpos m2 * (2 ^ (e1 + 1074) * 2 ^ 1073)) by lia.
    rewrite <- Z.pow_add_r by lia. do 2 f_equal. lia.
  - unfold odd_floor in Hodd. destruct (_ =? 0); lia.
Qed.

(** ** The readings of [MonotonicClock] *)

Definition nanos_per_sec : Z := 1000000000.
Definition nanos_value (nanos : Z) : Z := rounded 0 (odd_floor (nanos * ONE * 2 ^ 1073) (nanos_per_sec * ONE)).
Definition reading_value (d : Z * Z) : Z := rounded 0 (d.1 * ONE + nanos_value d.2).

(** A [Duration]: seconds, for as long as 53 bits count them, and nanoseconds. *)
Definition is_duration (d : Z * Z) : Prop := 0 <= d.1 < 2 ^ 53 - 1 /\ 0 <= d.2 < nanos_per_sec.
Definition duration_le (d d' : Z * Z) : Prop := d.1 < d'.1 \/ d.1 = d'.1 /\ d.2 <= d'.2.

Lemma whole_seconds s : 0 <= s < 2 ^ 53 -> rounded 0 (s * ONE) = s * ONE.
Proof. intros Hs. eapply rounded_value. by apply of_Z_value. Qed.

Lemma whole_seconds_finite s : 0 <= s < 2 ^ 53 -> s * ONE < INF.
Proof.
  intros Hs. pose proof ONE_pos. apply Z.lt_le_trans with (2 ^ 53 * ONE); [nia|]. unfold ONE, INF.
  rewrite <- Z.pow_add_r by lia. by apply pow2_mono.
Qed.

Lemma odd_floor_nonneg num den : 0 <= num -> 0 < den -> 0 <= odd_floor num den.
Proof. intros Hn Hd. unfold odd_floor. pose proof (Z.div_pos num den Hn Hd). destruct (_ =? 0); lia. Qed.

Lemma nanos_value_range n : 0 <= n < nanos_per_sec -> 0 <= nanos_value n <= ONE.
Proof.
  intros Hn. pose proof ONE_pos as H1. assert (Hp : 0 < 2 ^ 1073) by (by apply pow2_pos). unfold nanos_value.
  assert (H0 : 0 <= odd_floor (n * ONE * 2 ^ 1073) (nanos_per_sec * ONE)) by (apply odd_floor_nonneg; unfold nanos_per_sec; nia).
  split; [by apply rounded_nonneg|]. rewrite <- (Z.mul_1_l ONE) at 3. rewrite <- (whole_seconds 1) by lia. apply rounded_mono; [lia|].
  split; [done|]. rewrite Z.mul_1_l. unfold odd_floor.
  assert (Hq : n * ONE * 2 ^ 1073 / (nanos_per_sec * ONE) < 2 ^ 1073) by (apply Z.div_lt_upper_bound; unfold nanos_per_sec in *; nia).
  assert (E : ONE = 2 * 2 ^ 1073) by (unfold ONE; rewrite <- Z.pow_succ_r by lia; done). destruct (_ =? 0); lia.
Qed.

Lemma nanos_value_mono n n' : 0 <= n <= n' -> nanos_value n <= nanos_value n'.
Proof.
  intros Hn. pose proof ONE_pos as H1. assert (Hp : 0 < 2 ^ 1073) by (by apply pow2_pos). unfold nanos_value.
  apply rounded_mono; [lia|]. split; [apply odd_floor_nonneg; unfold nanos_per_sec; nia|].
  apply odd_floor_mono; [unfold nanos_per_sec; lia|]. nia.
Qed.

Lemma nanos_quotient n : 0 <= n < nanos_per_sec -> value (f64_div (f64_of_Z n) (f64_of_Z nanos_per_sec)) (nanos_value n).
Proof.
  intros Hn. destruct (decide (n = 0)) as [->|Hn0].
  - unfold nanos_value. rewrite !Z.mul_0_l. unfold odd_floor. rewrite Z.div_0_l, Z.mod_0_l by (pose proof ONE_pos; unfold nanos_per_sec; lia).
    cbn [Z.eqb]. rewrite rounded_0 by done. vm_compute. constructor.
  - pose proof ONE_pos. unfold nanos_value. apply div_value; [apply of_Z_value; unfold nanos_per_sec in *; lia|by apply of_Z_value| | |].
    + split; [nia|]. apply whole_seconds_finite. unfold nanos_per_sec in *. lia.
    + split; [unfold nanos_per_sec; lia|]. by apply whole_seconds_finite.
    + rewrite <- Z.mul_assoc, (Z.mul_comm ONE), Z.mul_assoc. apply Z.mul_le_mono_nonneg_r; [lia|].
      assert (2 ^ 30 <= 2 ^ 900) by (apply pow2_mono; lia). unfold nanos_per_sec in *. nia.
Qed.

Lemma reading_value_bounds d : is_duration d -> d.1 * ONE <= reading_value d <= (d.1 + 1) * ONE.
Proof.
  intros [Hs Hn]. pose proof (nanos_value_range _ Hn). pose proof ONE_pos. unfold reading_value.
  pose proof (whole_seconds d.1 ltac:(lia)) as E0. pose proof (whole_seconds (d.1 + 1) ltac:(lia)) as E1.
  assert (rounded 0 (d.1 * ONE) <= rounded 0 (d.1 * ONE + nanos_value d.2)) by (apply rounded_mono; nia).
  assert (rounded 0 (d.1 * ONE + nanos_value d.2) <= rounded 0 ((d.1 + 1) * ONE)) by (apply rounded_mono; nia). lia.
Qed.

Lemma clock_reading d : is_duration d -> finite_nonneg (monotonic_now_secs d.1 d.2) (reading_value d).
Proof.
  intros Hd. pose proof (reading_value_bounds d Hd) as Hb. destruct Hd as [Hs Hn]. split.
  - unfold monotonic_now_secs. apply add_value; [apply of_Z_value; lia|by apply nanos_quotient].
  - pose proof (whole_seconds_finite (d.1 + 1) ltac:(lia)). lia.
Qed.

Lemma clock_monotone d d' : is_duration d -> is_duration d' -> duration_le d d' -> reading_value d <= reading_value d'.
Proof.
  intros Hd Hd' [Hlt|[E Hle]]; pose proof ONE_pos.
  - pose proof (reading_value_bounds d Hd). pose proof (reading_value_bounds d' Hd'). nia.
  - unfold reading_value. rewrite E. destruct Hd as [Hs Hn], Hd' as [Hs' Hn']. pose proof (nanos_value_range _ Hn).
    pose proof (nanos_value_mono d.2 d'.2 ltac:(lia)). apply rounded_mono; nia.
Qed.

(** A history of the limiter with what the clock showed. *)
Definition on_clock (h : list (op * (Z * Z))) : list (op * f64) := (fun o => (o.1, monotonic_now_secs o.2.1 o.2.2)) <$> h.
Fixpoint ticks (d0 : Z * Z) (h : list (op * (Z * Z))) : Prop :=
  match h with [] => True | (_, d) :: h => is_duration d /\ duration_le d0 d /\ ticks d h end.

Lemma ticks_forward d0 h : is_duration d0 -> ticks d0 h -> forward (reading_value d0) (on_clock h) ((fun o => reading_value o.2) <$> h).
Proof.
  revert d0. induction h as [|[o d] h IH]; intros d0 Hd0 Hh; [done|]. destruct Hh as (Hd & Hle & Hh).
  cbn [on_clock fmap list_fmap forward fst snd]. split_and!; [by apply clock_reading|by apply clock_monotone|by apply IH].
Qed.

(** ** Properties *)

(** C38: on its own clock the limiter keeps its promise.  For any finite rate
    and any history under [MonotonicClock], whose durations do not go back, the
    readings rounded as [as_secs_f64] rounds them: every bucket and reading is
    a finite number, the readings do not go back either, and so the limiter
    answers as the bucket with its roundings written out in which nothing is
    ever pruned. *)
Theorem limiter_on_monotonic_clock c rate R h :
  0 <= c <= u32_max -> finite_nonneg rate R -> ticks (0, 0) h ->
  forward 0 (on_clock h) ((fun o => reading_value o.2) <$> h)
  /\ (limiter (quota_new c rate) (on_clock h) limiter_new).1
     = (Rounded.limiter c R (zip h.*1 ((fun o => reading_value o.2) <$> h)) ∅).1.
Proof.
  intros Hc HR Hh.
  assert (Hf : forward 0 (on_clock h) ((fun o => reading_value o.2) <$> h)).
  { assert (Hd0 : is_duration (0, 0)) by (split; cbn; unfold nanos_per_sec; lia). pose proof (ticks_forward (0, 0) h Hd0 Hh) as Hf.
    replace (reading_value (0, 0)) with 0 in Hf; [done|]. symmetry. unfold reading_value, nanos_value. cbn [fst snd].
    rewrite !Z.mul_0_l. unfold odd_floor. rewrite Z.div_0_l, Z.mod_0_l by (pose proof ONE_pos; unfold nanos_per_sec; lia).
    cbn [Z.eqb]. by rewrite !rounded_0. }
  split; [done|]. unfold limiter, limiter_new.
  rewrite (fsim_serve c rate R Hc HR (prune _) _ _ 0 ∅ ∅ (fun now T s e Hn Hs => fsim_prune c rate R Hc HR now T s e Hn Hs) Hf (fsim_empty c R 0)).
  replace (on_clock h).*1 with h.*1; [done|]. unfold on_clock. rewrite <- list_fmap_compose. done.
Qed.

Lemma limiter_on_monotonic_clock_witness :
  (limiter (quota_new 2 BucketF64.Demo.rate) (on_clock [(Check (lit "k"), (0, 1)); (Check (lit "k"), (0, 999999999)); (Check (lit "k"), (1, 0));
     (Prune, (1, 1)); (Check (lit "k"), (12, 345678901))]) limiter_new).1 = [true; true; false; false; true].
Proof.
  destruct (limiter_on_monotonic_clock 2 BucketF64.Demo.rate BucketF64.Demo.R [(Check (lit "k"), (0, 1)); (Check (lit "k"), (0, 999999999));
    (Check (lit "k"), (1, 0)); (Prune, (1, 1)); (Check (lit "k"), (12, 345678901))]) as [_ H].
  - vm_compute. intuition discriminate.
  - exact demo_rate.
  - vm_compute. intuition (auto; discriminate).
  - rewrite H. vm_compute. reflexivity.
Defined.
