(* ===== verification/ClientLimit.v ===== *)
(** * Limiting clients by address

    [client_ip], [ip_key] and the limiter of [crates/ratelimit/src] put
    together: a request is counted against the bucket of the address the
    trusted proxies vouch for. *)

From S2P Require Import Prelude RustStr Net IpText ClientIp F64 Bucket.

(** ** Keys do not share state *)

(** What a key sees of a history: its own checks, and every prune. *)
Definition concerns (key : str) (o : op) : bool := match o with Check k => k =s key | Prune => true end.
Definition view (key : str) (ops : list (op * f64)) : list (op * f64) := List.filter (fun o => concerns key o.1) ops.
Fixpoint answers_to {T} (key : str) (ops : list (op * T)) (answers : list bool) : list bool :=
  match ops, answers with
  | (Check k, _) :: ops, a :: answers => if k =s key then a :: answers_to key ops answers else answers_to key ops answers
  | (Prune, _) :: ops, _ :: answers => answers_to key ops answers
  | _, _ => []
  end.

(** The verdict on a key and its bucket afterwards, from its bucket alone. *)
Lemma try_consume_local q now key cost s s' : s !! key = s' !! key ->
  (try_consume q now key cost s).1 = (try_consume q now key cost s').1
  /\ (try_consume q now key cost s).2 !! key = (try_consume q now key cost s').2 !! key.
Proof. intros E. unfold try_consume. rewrite E. destruct (f64_ge _ _); cbn [fst snd]; by rewrite !lookup_insert_eq. Qed.

Lemma try_consume_other q now key key' cost s : key <> key' -> (try_consume q now key cost s).2 !! key' = s !! key'.
Proof. intros Hne. unfold try_consume. destruct (f64_ge _ _); cbn [snd]; by rewrite lookup_insert_ne. Qed.

Lemma prune_local q now key s s' : s !! key = s' !! key -> prune q now s !! key = prune q now s' !! key.
Proof. intros E. unfold prune. by rewrite !map_lookup_filter, E. Qed.

Lemma limiter_view q key ops s s' : s !! key = s' !! key ->
  answers_to key ops (limiter q ops s).1 = answers_to key (view key ops) (limiter q (view key ops) s').1.
Proof.
  revert s s'. induction ops as [|[o t] ops IH]; intros s s' E; [done|]. unfold view, limiter in *.
  cbn [List.filter fst]. destruct o as [k|]; cbn [concerns].
  - cbn [serve check in_memory]. destruct (k =s key) eqn:Ek.
    + apply str_eqb_eq in Ek. subst k. destruct (try_consume_local q t key (f64_of_Z 1) s s' E) as [H1 H2].
      cbn [serve check in_memory]. destruct (try_consume q t key (f64_of_Z 1) s) as [a s1], (try_consume q t key (f64_of_Z 1) s') as [a' s1'].
      cbn [fst snd] in *. subst a'. specialize (IH s1 s1' H2).
      destruct (serve _ _ ops s1), (serve _ _ (List.filter _ ops) s1'). cbn [fst answers_to] in *. rewrite str_eqb_refl. by rewrite IH.
    + apply str_eqb_neq in Ek. pose proof (try_consume_other q t k key (f64_of_Z 1) s Ek) as H1.
      destruct (try_consume q t k (f64_of_Z 1) s) as [a s1]. cbn [snd] in H1.
      specialize (IH s1 s' ltac:(congruence)). destruct (serve _ _ ops s1). cbn [fst answers_to] in *.
      by rewrite (proj2 (str_eqb_neq _ _) Ek).
  - cbn [serve]. specialize (IH _ _ (prune_local q t key s s' E)).
    by destruct (serve _ _ ops _), (serve _ _ (List.filter _ ops) _).
Qed.

(** ** Requests behind trusted proxies *)

(** A request from [client] that carries the header [forged] and passes a
    proxy that appends the address it saw and further trusted hops that append
    theirs; or a prune. *)
Inductive event :=
  | Request (client peer : IpAddr) (forged : str) (hops : list IpAddr)
  | Maintain.

(** How a proxy appends an address: after a comma and a space. *)
Definition hop_entry (ip : IpAddr) : str := 32 :: show_ip ip.
Definition header (client : IpAddr) (forged : str) (hops : list IpAddr) : str :=
  append_entries forged (hop_entry <$> client :: hops).
Definition served (trusted : TrustedProxies) (e : event * f64) : op * f64 :=
  (match e.1 with
   | Request client peer forged hops => Check (ip_key (client_ip peer (Some (header client forged hops)) trusted))
   | Maintain => Prune
   end, e.2).
(** Behind [S n] trusted hops, with addresses that exist. *)
Definition arrives (n : nat) (e : event * f64) : Prop :=
  match e.1 with
  | Request client _ _ hops => wf_ip client /\ Forall wf_ip hops /\ length hops = n
  | Maintain => True
  end.

(** What [client] did, whatever it claimed. *)
Definition own (client : IpAddr) (e : event * f64) : option (op * f64) :=
  match e.1 with
  | Request c _ _ _ => if bool_decide (c = client) then Some (Check (ip_key client), e.2) else None
  | Maintain => Some (Prune, e.2)
  end.

Lemma hop_entry_honest ip : wf_ip ip -> honest_entry (hop_entry ip) ip.
Proof.
  intros Hw. pose proof (show_ip_text ip Hw) as Ht. split.
  - constructor; [done|]. eapply Forall_impl; [exact Ht|]. intros c Hc ->. vm_compute in Hc. intuition discriminate.
  - change (trim (hop_entry ip)) with (trim (show_ip ip)). rewrite trim_no_ws; [by apply parse_show_ip|].
    eapply Forall_impl; [exact Ht|]. intros c Hc. unfold is_whitespace. unfold address_char in Hc. rewrite !in_range_spec in Hc.
    destruct (_ || _) eqn:E; [|done]. exfalso. bool_simp. unfold in_range in *. bool_simp. lia.
Qed.

Lemma hop_entries_honest ips : Forall wf_ip ips -> Forall2 honest_entry (hop_entry <$> ips) ips.
Proof. intros H. induction H as [|ip ips Hip _ IH]; [constructor|]. cbn. constructor; [by apply hop_entry_honest|done]. Qed.

(** The chain of a header ends with the addresses the proxies appended. *)
Lemma client_ip_header n client peer forged hops : wf_ip client -> Forall wf_ip hops -> length hops = n ->
  client_ip peer (Some (header client forged hops)) (count (S n)) = client.
Proof.
  intros Hc Hh <-. unfold client_ip, count, header. cbn [trusted_hops Nat.eqb].
  rewrite (xff_chain_entries forged _ (client :: hops)) by (apply hop_entries_honest; by constructor).
  apply chain_from_right.
Qed.

Lemma served_request n client peer forged hops t : arrives n (Request client peer forged hops, t) ->
  served (count (S n)) (Request client peer forged hops, t) = (Check (ip_key client), t).
Proof. intros (Hc & Hh & Hn). unfold served. cbn [fst snd]. by rewrite client_ip_header. Qed.

Lemma view_served n client events : wf_ip client -> Forall (arrives n) events ->
  view (ip_key client) (served (count (S n)) <$> events) = omap (own client) events.
Proof.
  intros Hc He. induction He as [|[e t] events Ha _ IH]; [done|]. destruct e as [c peer forged hops|].
  - cbn [fmap list_fmap]. rewrite served_request by done. unfold view in *. cbn [List.filter concerns fst omap list_omap own].
    destruct (ip_key c =s ip_key client) eqn:Ek.
    + apply str_eqb_eq in Ek. rewrite (ip_key_inj c client (proj1 Ha) Hc Ek), bool_decide_eq_true_2 by done. cbn [snd].
      by rewrite IH.
    + apply str_eqb_neq in Ek. rewrite bool_decide_eq_false_2; [done|]. by intros ->.
  - cbn [fmap list_fmap omap list_omap own fst snd]. unfold view in *. cbn [List.filter concerns fst served]. by rewrite IH.
Qed.

Module Demo.
Definition quota : Quota := quota_new 1 (f64_of_Z 0).
Definition alice : IpAddr := V4 (mkV4 203 0 114 9).
Definition mallory : IpAddr := V6 (mkV6 0x2001 0xdb8 0 0 0 0 0 0x66).
Definition peer : IpAddr := V4 (mkV4 10 0 0 1).
Lemma alice_wf : wf_ip alice.
Proof. unfold alice, wf_ip, wf4, u8_max. cbn. lia. Qed.
Lemma mallory_wf : wf_ip mallory.
Proof. unfold mallory, wf_ip, wf6, u16_max. cbn. lia. Qed.
(** Mallory claims to be Alice, and to be somebody new each time. *)
Definition events : list (event * f64) :=
  [(Request mallory peer (lit "203.0.114.9") [], f64_of_Z 0);
   (Request alice peer (lit "garbage") [], f64_of_Z 1);
   (Request mallory peer (lit "8.8.8.8, 203.0.114.9,,") [], f64_of_Z 2);
   (Maintain, f64_of_Z 3);
   (Request alice peer [] [], f64_of_Z 4)].
Definition ops : list (op * f64) := served (count 1) <$> events.
End Demo.

(** ** Properties *)

(** C30: clients behind trusted proxies are limited each on their own.  For any
    history of requests and prunes at any clock readings, where every request
    carries whatever [X-Forwarded-For] text its sender liked, the answers to a
    client are those of a limiter that only ever saw the requests of that
    client: no header moves a request to another bucket, nobody can use up
    another client's tokens, and nobody can shed his own history. *)
Theorem clients_limited_independently q n events client :
  wf_ip client -> Forall (arrives n) events ->
  let ops := served (count (S n)) <$> events in
  let mine := omap (own client) events in
  answers_to (ip_key client) ops (limiter q ops limiter_new).1
  = answers_to (ip_key client) mine (limiter q mine limiter_new).1.
Proof.
  intros Hc He ops mine. unfold ops, mine. rewrite <- (view_served n client events Hc He). by apply limiter_view.
Qed.

Lemma clients_limited_independently_witness :
  answers_to (ip_key Demo.alice) Demo.ops (limiter Demo.quota Demo.ops limiter_new).1 = [true; false].
Proof.
  unfold Demo.ops. rewrite (clients_limited_independently Demo.quota 0 Demo.events Demo.alice).
  - vm_compute. reflexivity.
  - exact Demo.alice_wf.
  - repeat (apply Forall_cons; split;
      [first [exact I|split; [first [exact Demo.alice_wf|exact Demo.mallory_wf]|split; [apply Forall_nil; exact I|reflexivity]]]|]).
    apply Forall_nil. exact I.
Defined.
