(* ===== verification/Vault.v ===== *)
(** * The Vault client ([crates/vault/src/lib.rs])

    The validation of secret paths, the URLs built from them and the three
    operations.  URLs and requests belong to [reqwest] and [url]: they are the
    operations of a class, with the documented behaviour of path segments as
    the laws of a second one. *)

From S2P Require Import Prelude RustStr Json.

Definition SECRET_FIELD : str := lit "value".
Definition slash : char := 47.

Record VaultClient := mkVaultClient { addr : str; vtoken : str; mount : str }.
Definition vault_new (a t m : str) : VaultClient :=
  mkVaultClient (trim_end_matches slash a) t (trim_matches slash m).

(** ** Secret paths *)

Inductive InvalidSecretPath := EmptySegment | DotSegment.
Definition display_invalid (e : InvalidSecretPath) : str :=
  match e with
  | EmptySegment => lit "secret path contains an empty segment"
  | DotSegment => lit "secret path contains a `.` or `..` segment"
  end.

Definition is_dot_segment (segment : str) : bool :=
  forallb (fun c => c =? 46) (replace (lit "%2e") (lit ".") (to_ascii_lowercase segment)).

Fixpoint check_segments (segments : list str) : result InvalidSecretPath () :=
  match segments with
  | [] => Ok ()
  | segment :: rest =>
      if bool_decide (segment = []) then Err EmptySegment
      else if is_dot_segment segment then Err DotSegment
      else check_segments rest
  end.
Definition validated_segments (path : str) : result InvalidSecretPath (list str) :=
  let segments := split slash (trim_matches slash path) in
  _ ← check_segments segments; Ok segments.

(** ** URLs *)

Class VaultUrl (Url : Type) := {
  v_parse : str -> result str Url;
  cannot_be_a_base : Url -> bool;
  (** [path_segments_mut().pop_if_empty()], then [push] and [extend]. *)
  extend_path : Url -> list str -> Url;
  v_scheme : Url -> str;
  v_origin : Url -> str;
  (** The path's segments, decoded, less a last empty one. *)
  v_path : Url -> list str;
}.
Definition not_dot (segment : str) : bool := negb (segment =s lit ".") && negb (segment =s lit "..").
(** The URL standard's parser drops tabs and line breaks. *)
Definition tab_or_newline (c : char) : bool := (c =? 9) || (c =? 10) || (c =? 13).
Definition kept (s : str) : Prop := Forall (fun c => tab_or_newline c = false) s.
Definition is_web `{VaultUrl Url} (u : Url) : Prop := v_scheme u = lit "http" \/ v_scheme u = lit "https".
(** On an http or https URL, appended segments without the characters the
    parser drops are escaped, so that each is one segment; [.] and [..] are
    skipped.  Nothing is assumed of other segments. *)
Class VaultUrlLaws (Url : Type) `{VaultUrl Url} : Prop := {
  extend_origin u l : v_origin (extend_path u l) = v_origin u;
  extend_segments u l : is_web u -> Forall kept l -> last l <> Some [] ->
    v_path (extend_path u l) = v_path u ++ List.filter not_dot l;
}.

(** [anyhow] errors as their text. *)
Section Client.
Context {Url : Type} `{VaultUrl Url}.

Definition kv_url (c : VaultClient) (kind path : str) : result str Url :=
  secret_segments ← map_err display_invalid (validated_segments path);
  url ← map_err (fun _ => lit "invalid vault address") (v_parse (addr c));
  if cannot_be_a_base url then Err (lit "vault address cannot be used as a base url")
  else Ok (extend_path url ([lit "v1"] ++ split slash (mount c) ++ [kind] ++ secret_segments)).
Definition data_url (c : VaultClient) (path : str) : result str Url := kv_url c (lit "data") path.
Definition metadata_url (c : VaultClient) (path : str) : result str Url := kv_url c (lit "metadata") path.

(** ** The operations, over the exchange of one request *)

Inductive vmethod := VGet | VPost (b : json) | VDelete.
Record VRequest := mkVRequest { vr_method : vmethod; vr_url : Url; vr_token : str }.
(** The status, and the body as JSON. *)
Record VResponse := mkVResponse { vs_status : Z; vs_json : result str json }.
Context (vsend : VRequest -> result str VResponse).

Definition is_success (st : Z) : bool := in_range 200 299 st.
Definition write_secret (c : VaultClient) (path value : str) : result str () :=
  url ← data_url c path;
  resp ← map_err (fun _ => lit "vault write request failed")
    (vsend (mkVRequest (VPost (JObject [(lit "data", JObject [(SECRET_FIELD, JString value)])])) url (vtoken c)));
  if negb (is_success (vs_status resp)) then Err (lit "vault write returned " ++ show_u (vs_status resp)) else Ok ().

Definition parse_secret_value (body : json) : option str :=
  a ← get (lit "data") body; b ← get (lit "data") a; v ← get SECRET_FIELD b; json_as_str v.
Definition read_secret (c : VaultClient) (path : str) : result str (option str) :=
  url ← data_url c path;
  resp ← map_err (fun _ => lit "vault read request failed") (vsend (mkVRequest VGet url (vtoken c)));
  if vs_status resp =? 404 then Ok None
  else if negb (is_success (vs_status resp)) then Err (lit "vault read returned " ++ show_u (vs_status resp))
  else
    body ← map_err (fun _ => lit "parsing vault response") (vs_json resp);
    Ok (parse_secret_value body).
Definition delete_secret (c : VaultClient) (path : str) : result str () :=
  url ← metadata_url c path;
  resp ← map_err (fun _ => lit "vault delete request failed") (vsend (mkVRequest VDelete url (vtoken c)));
  if negb (is_success (vs_status resp)) && negb (vs_status resp =? 404)
  then Err (lit "vault delete returned " ++ show_u (vs_status resp)) else Ok ().
End Client.
Arguments VRequest : clear implicits.

(** ** Lemmas *)

Lemma check_segments_Ok l : check_segments l = Ok () <-> Forall (fun g => g <> [] /\ is_dot_segment g = false) l.
Proof.
  induction l as [|g l IH]; [done|]. cbn [check_segments]. rewrite Forall_cons, <- IH. case_bool_decide; [naive_solver|].
  destruct (is_dot_segment g); naive_solver.
Qed.
Lemma validated_segments_Ok path segs :
  validated_segments path = Ok segs <->
  segs = split slash (trim_matches slash path) /\ Forall (fun g => g <> [] /\ is_dot_segment g = false) segs.
Proof.
  unfold validated_segments. split.
  - intros ([] & Hc%check_segments_Ok & [= <-])%result_bind_Ok. done.
  - intros [-> Hc%check_segments_Ok]. by rewrite Hc.
Qed.
Lemma not_dot_segment g : is_dot_segment g = false -> not_dot g = true.
Proof.
  intros Hg. unfold not_dot. apply andb_true_iff. rewrite !negb_true_iff, !str_eqb_neq.
  split; intros ->; vm_compute in Hg; discriminate.
Qed.
Lemma filter_not_dot l : Forall (fun g => g <> [] /\ is_dot_segment g = false) l -> List.filter not_dot l = l.
Proof. induction 1 as [|g l [_ Hg] Hl IH]; [done|]. simpl. by rewrite not_dot_segment, IH. Qed.

Lemma kept_split s : kept s -> Forall kept (split slash s).
Proof.
  induction 1 as [|c s Hc Hs IH]; [by repeat constructor|]. cbn [split]. destruct (c =? slash); [by constructor; [constructor|]|].
  destruct (split slash s) as [|g l]; [by repeat constructor|]. inversion_clear IH. by repeat constructor.
Qed.
Lemma kept_trim s : kept s -> kept (trim_matches slash s).
Proof.
  intros Hs. unfold trim_matches, trim_end_matches. destruct (drop_while_suffix (Z.eqb slash) s) as (pre & E & _).
  rewrite E in Hs. apply Forall_app in Hs as [_ Hs].
  destruct (drop_while_end_prefix (Z.eqb slash) (drop_while (Z.eqb slash) s)) as (post & E' & _).
  rewrite E' in Hs. by apply Forall_app in Hs as [Hs _].
Qed.

Section UrlLemmas.
Context {Url : Type} `{VaultUrlLaws Url}.

(** The segments of a secret's URL: the address's, then the mount's, the kind
    and the secret's own. *)
Definition secret_path (c : VaultClient) (u0 : Url) (kind : str) (segs : list str) : list str :=
  v_path u0 ++ lit "v1" :: List.filter not_dot (split slash (mount c)) ++ kind :: segs.

Lemma kv_url_Ok c kind path u :
  (forall u0, v_parse (addr c) = Ok u0 -> is_web u0) -> kept (mount c) -> kept path -> kept kind ->
  not_dot kind = true -> kv_url c kind path = Ok u ->
  exists u0 segs, v_parse (addr c) = Ok u0 /\ v_origin u = v_origin u0
    /\ segs = split slash (trim_matches slash path)
    /\ Forall (fun g => g <> [] /\ is_dot_segment g = false) segs
    /\ v_path u = secret_path c u0 kind segs.
Proof.
  intros Hweb Hm Hpath Hkind Hk Hu. apply result_bind_Ok in Hu as (segs & [Hs Hf]%map_err_Ok%validated_segments_Ok & Hu).
  apply result_bind_Ok in Hu as (u0 & Hp%map_err_Ok & Hu). destruct (cannot_be_a_base u0); [done|].
  assert (u = extend_path u0 ([lit "v1"] ++ split slash (mount c) ++ [kind] ++ segs)) as -> by congruence.
  exists u0, segs. split; [done|]. split; [apply extend_origin|]. split; [done|]. split; [done|].
  assert (Hkept : Forall kept ([lit "v1"] ++ split slash (mount c) ++ [kind] ++ segs)).
  { repeat (apply Forall_app; split); [by repeat constructor|by apply kept_split|by repeat constructor|].
    rewrite Hs. by apply kept_split, kept_trim. }
  rewrite extend_segments; [|by apply Hweb|done|].
  - unfold secret_path. rewrite !List.filter_app, (filter_not_dot segs) by done.
    change (List.filter not_dot [lit "v1"]) with [lit "v1"]. cbn [List.filter]. by rewrite Hk.
  - destruct segs as [|g segs] using rev_ind; [by destruct (split_not_nil slash (trim_matches slash path))|].
    rewrite !app_assoc, last_snoc. apply Forall_app in Hf as [_ Hf]. inversion_clear Hf as [|? ? [Hne _] _]. congruence.
Qed.
End UrlLemmas.

(** ** A concrete URL for the witness: the host and the segments. *)
Module Demo.
#[export] Instance url : VaultUrl (str * list str) := {|
  v_parse s := Ok (s, []);
  cannot_be_a_base _ := false;
  extend_path u l := (u.1, u.2 ++ List.filter not_dot l);
  v_scheme _ := lit "https";
  v_origin u := u.1;
  v_path u := u.2;
|}.
#[export] Instance url_laws : VaultUrlLaws (str * list str).
Proof. by split. Qed.
Lemma url_web (u : str * list str) : is_web u.
Proof. by right. Qed.
Definition client : VaultClient := vault_new (lit "https://vault/") (lit "s.token") (lit "/secret/").
End Demo.

(** ** Properties *)

(** C22: a secret path stays under its mount.  For an http or https address,
    and a mount and path without tabs and line breaks (which the URL parser
    drops), the URL of an accepted path has the origin of the configured address
    and, as its segments, the address's own, [v1], the mount's, the kind and then
    exactly the segments of the path between its outer slashes, none of them
    empty or a dot segment (plain or percent-encoded, in either case): the path
    can neither climb out of the mount nor turn a read into a metadata request.
    Different such paths have different URLs, and the data URL of one is never
    the metadata URL of another. *)
Theorem vault_paths_confined {Url} `{VaultUrlLaws Url} c path u :
  (forall u0, v_parse (addr c) = Ok u0 -> is_web u0) -> kept (mount c) -> kept path ->
  data_url c path = Ok u ->
  (exists u0 segs, v_parse (addr c) = Ok u0 /\ v_origin u = v_origin u0
     /\ v_path u = secret_path c u0 (lit "data") segs
     /\ join [slash] segs = trim_matches slash path
     /\ Forall (fun g => g <> [] /\ is_dot_segment g = false /\ char_free slash g) segs)
  /\ (forall path', kept path' -> data_url c path' = Ok u -> trim_matches slash path' = trim_matches slash path)
  /\ (forall path', kept path' -> metadata_url c path' <> Ok u).
Proof.
  intros Hweb Hm Hk Hu. assert (Hd : kept (lit "data")) by (by repeat constructor).
  assert (Hmeta : kept (lit "metadata")) by (by repeat constructor).
  destruct (kv_url_Ok c (lit "data") path u Hweb Hm Hk Hd eq_refl Hu) as (u0 & segs & Hp & Ho & Hs & Hf & Hv).
  split; [|split].
  - exists u0, segs. split; [done|]. split; [done|]. split; [done|]. split; [by rewrite Hs, join_split|].
    pose proof (split_parts_free slash (trim_matches slash path)) as Hfree. rewrite <- Hs in Hfree.
    apply Forall_forall. intros g Hg. destruct (proj1 (Forall_forall _ _) Hf g Hg) as [? ?].
    split; [done|]. split; [done|]. exact (proj1 (Forall_forall _ _) Hfree g Hg).
  - intros path' Hk' Hu'. destruct (kv_url_Ok c (lit "data") path' u Hweb Hm Hk' Hd eq_refl Hu') as (u1 & segs' & Hp' & _ & Hs' & _ & Hv').
    rewrite Hp in Hp'. injection Hp' as <-. rewrite Hv in Hv'. apply app_inv_head in Hv'. injection Hv' as Hv'.
    apply app_inv_head in Hv'. injection Hv' as Hv'. apply (split_inj slash). congruence.
  - intros path' Hk' Hu'. destruct (kv_url_Ok c (lit "metadata") path' u Hweb Hm Hk' Hmeta eq_refl Hu') as (u1 & segs' & Hp' & _ & _ & _ & Hv').
    rewrite Hp in Hp'. injection Hp' as <-. rewrite Hv in Hv'. apply app_inv_head in Hv'. injection Hv' as Hv'.
    apply app_inv_head in Hv'. discriminate Hv'.
Qed.

Lemma vault_paths_confined_witness :
  exists u, @data_url _ Demo.url Demo.client (lit "/ferrfleet/token/") = Ok u
    /\ (forall path', kept path' -> @metadata_url _ Demo.url Demo.client path' <> Ok u)
    /\ @data_url _ Demo.url Demo.client (lit "a/%2E%2e/b") = Err (display_invalid DotSegment).
Proof.
  eexists. split; [vm_compute; reflexivity|]. split; [|vm_compute; reflexivity].
  apply (proj2 (proj2 (@vault_paths_confined _ Demo.url Demo.url_laws Demo.client (lit "/ferrfleet/token/")
    (lit "https://vault", [lit "v1"; lit "secret"; lit "data"; lit "ferrfleet"; lit "token"])
    (fun u _ => Demo.url_web u) ltac:(by repeat constructor) ltac:(by repeat constructor) ltac:(vm_compute; reflexivity)))).
Defined.

(** Finding: the check for dot segments looks at the path as given.  A tab or a
    line break between two dots passes it, in every place of a path, although
    the URL standard removes such characters before it recognises dot
    segments. *)
Theorem broken_dots_pass_the_check c before after :
  tab_or_newline c = true -> check_segments before = Ok () -> check_segments after = Ok () ->
  check_segments (before ++ [[46; c; 46]] ++ after) = Ok ()
  /\ List.filter (fun x => negb (tab_or_newline x)) [46; c; 46] = lit "..".
Proof.
  intros Hc Hb Ha. assert (c = 9 \/ c = 10 \/ c = 13) as [->|[->| ->]].
  { unfold tab_or_newline in Hc. destruct (c =? 9) eqn:E1, (c =? 10) eqn:E2, (c =? 13) eqn:E3; bool_simp; auto; done. }
  all: split; [|reflexivity]; apply check_segments_Ok, Forall_app; split; [by apply check_segments_Ok|];
    apply Forall_app; split; [|by apply check_segments_Ok]; by repeat constructor.
Qed.

Lemma broken_dots_pass_the_check_witness : check_segments [lit "a"; [46; 9; 46]; lit "b"] = Ok ().
Proof. apply (proj1 (broken_dots_pass_the_check 9 [lit "a"] [lit "b"] eq_refl eq_refl eq_refl)). Defined.
