(* ===== verification/Github.v ===== *)
(** * GitHub App authentication ([crates/github/src])

    [app.rs]: the App JWT and the cache of installation tokens, whose look-up,
    request to GitHub and insertion other calls may interleave ([Concurrent]).
    [ownership.rs]: whether a user has an installation.  Signing, requests and
    JSON reading are parameters. *)

From S2P Require Import Prelude RustStr Json Net Headers Http Errors Oauth.

(** ** app.rs *)

Definition JWT_LIFETIME_SECS : Z := 540.
Definition CLOCK_SKEW_SECS : Z := 60.
Definition REFRESH_MARGIN_SECS : Z := 60.
Definition FALLBACK_TTL_SECS : Z := 3000.

Inductive GithubError :=
| PrivateKey (e : str)
| JwtSigning (e : str)
| Clock
| GithubHttp (context source : str)
| ExchangeError (e : OAuthError).

Record AppClaims := mkAppClaims { iat : Z; exp : Z; iss : str }.
Definition app_claims (app_id now : Z) : AppClaims :=
  mkAppClaims (u64_saturating_sub now CLOCK_SKEW_SECS) (now + JWT_LIFETIME_SECS) (show_u app_id).
Definition is_fresh (expiry now : Z) : bool := now + REFRESH_MARGIN_SECS <? expiry.

Abbreviation cache_key := (Z * str)%type.
Abbreviation token_cache := (gmap (Z * str) (str * Z)).
Definition scope_key (installation_id : Z) (repos : list str) : cache_key := (installation_id, join [44] repos).

Record GithubAppAuth (K : Type) := mkAppAuth { app_id : Z; app_key : K; user_agent : str }.
Arguments mkAppAuth {K} app_id app_key user_agent.
Arguments app_id {K} g.
Arguments app_key {K} g.
Arguments user_agent {K} g.

(** A request for a token: the installation, the body, the bearer token and
    the agent (the other headers are constant). *)
Record TokenRequest := mkTokenRequest { tq_installation : Z; tq_body : json; tq_bearer : str; tq_agent : str }.
Record TokenReply := mkTokenReply { tp_token : str; tp_expires_at : str }.
(** [send], [error_for_status] and [json], each with its own failure. *)
Inductive Reply := SendFailed (e : str) | BadStatus (e : str) | BadBody (e : str) | Replied (t : TokenReply).

Class GithubOutside (K : Type) := {
  from_rsa_pem : bytes -> result str K;
  sign_rs256 : AppClaims -> K -> result str str;
  (** [DateTime::parse_from_rfc3339]: the timestamp. *)
  parse_rfc3339 : str -> option Z;
}.

Section App.
Context {K : Type} `{GithubOutside K}.

Definition app_new (id : Z) (pem : str) (agent : str) : result GithubError (GithubAppAuth K) :=
  k ← map_err PrivateKey (from_rsa_pem (as_bytes pem)); Ok (mkAppAuth id k agent).
(** [now] is [None] when the clock is before the epoch. *)
Definition now_secs (now : option Z) : result GithubError Z := ok_or now Clock.
Definition app_jwt (g : GithubAppAuth K) (now : Z) : result GithubError str :=
  map_err JwtSigning (sign_rs256 (app_claims (app_id g) now) (app_key g)).

Definition lookup_fresh (cache : token_cache) (key : cache_key) (now : Z) : option str :=
  entry ← cache !! key; if is_fresh entry.2 now then Some entry.1 else None.
Definition token_body (repos : list str) : json :=
  JObject (if bool_decide (repos = []) then [] else [(lit "repositories", JArray (JString <$> repos))]).
Definition token_request (g : GithubAppAuth K) (installation_id : Z) (repos : list str) (now : Z)
  : result GithubError TokenRequest :=
  jwt ← app_jwt g now;
  Ok (mkTokenRequest installation_id (token_body repos) jwt (user_agent g)).
Definition read_reply (r : Reply) : result GithubError TokenReply :=
  match r with
  | SendFailed e => Err (GithubHttp (lit "requesting an installation token") e)
  | BadStatus e => Err (GithubHttp (lit "the installation token request returned an error status") e)
  | BadBody e => Err (GithubHttp (lit "decoding the installation token") e)
  | Replied t => Ok t
  end.
(** [unsigned_abs] of the timestamp, or the fallback. *)
Definition expiry_of (t : TokenReply) (now : Z) : Z :=
  match parse_rfc3339 (tp_expires_at t) with Some at_ => Z.abs at_ | None => now + FALLBACK_TTL_SECS end.

(** One call with nothing in between: [cache] before and after. *)
Definition installation_token (send : TokenRequest -> Reply) (now : option Z) (g : GithubAppAuth K)
    (installation_id : Z) (repos : list str) (cache : token_cache) : result GithubError str * token_cache :=
  match now_secs now with
  | Err e => (Err e, cache)
  | Ok now =>
      let key := scope_key installation_id repos in
      match lookup_fresh cache key now with
      | Some token => (Ok token, cache)
      | None =>
          match rq ← token_request g installation_id repos now; read_reply (send rq) with
          | Err e => (Err e, cache)
          | Ok t => (Ok (tp_token t), <[key := (tp_token t, expiry_of t now)]> cache)
          end
      end
  end.
End App.

(** ** ownership.rs *)

Definition owns_installation (payload : json) (installation_id : Z) : bool :=
  match get (lit "installations") payload ≫= as_array with
  | Some installations =>
      existsb (fun id => id =? installation_id) (omap (fun entry => get (lit "id") entry ≫= as_i64) installations)
  | None => false
  end.

Record GithubOauth := mkGithubOauth { go_oauth : OAuthClient; go_user_agent : str }.
Definition github_oauth_new (client_id client_secret redirect_uri agent : str) : GithubOauth :=
  mkGithubOauth (oauth_new GitHub client_id client_secret redirect_uri None) agent.

(** The listing of the user's installations, with a bearer token. *)
Inductive ListReply := LSendFailed (e : str) | LBadStatus (e : str) | LBadBody (e : str) | Listed (payload : json).
Definition user_owns_installation {Url : Type} `{Outside Url, OAuthOutside} (list_installations : str -> str -> ListReply)
    (g : GithubOauth) (code : str) (installation_id : Z) : result GithubError bool :=
  token ← map_err ExchangeError (oauth_exchange_code (go_oauth g) code None);
  match list_installations token (go_user_agent g) with
  | LSendFailed e => Err (GithubHttp (lit "listing the user's installations") e)
  | LBadStatus e => Err (GithubHttp (lit "listing the user's installations returned an error status") e)
  | LBadBody e => Err (GithubHttp (lit "decoding the user's installations") e)
  | Listed payload => Ok (owns_installation payload installation_id)
  end.

(** ** Interleaved calls *)

Module Concurrent.
Section Concurrent.
Context {K : Type} `{GithubOutside K}.

(** The shared cache and the requests under way, with when they were made. *)
Record state := mkState { c_cache : token_cache; c_pending : list (Z * list str * Z) }.
Definition init : state := mkState ∅ [].

Inductive label :=
| Hit (now : Z) (installation : Z) (repos : list str) (token : str)
| Asked (now : Z) (installation : Z) (repos : list str)
| Minted (installation : Z) (repos : list str) (t : TokenReply)
| Failed (installation : Z) (repos : list str).

Inductive step : state -> label -> state -> Prop :=
| step_hit st now i repos token :
    lookup_fresh (c_cache st) (scope_key i repos) now = Some token ->
    step st (Hit now i repos token) st
| step_asked st now i repos :
    lookup_fresh (c_cache st) (scope_key i repos) now = None ->
    step st (Asked now i repos) (mkState (c_cache st) (c_pending st ++ [(i, repos, now)]))
| step_minted st i repos now t p1 p2 :
    c_pending st = p1 ++ (i, repos, now) :: p2 ->
    step st (Minted i repos t)
      (mkState (<[scope_key i repos := (tp_token t, expiry_of t now)]> (c_cache st)) (p1 ++ p2))
| step_failed st i repos now p1 p2 :
    c_pending st = p1 ++ (i, repos, now) :: p2 -> step st (Failed i repos) (mkState (c_cache st) (p1 ++ p2)).

(** Every cached token was minted for a scope with its key, after a call for
    that scope asked for it; so was every request under way. *)
Definition minted_for (ls : list label) (i : Z) (k token : str) (e : Z) : Prop :=
  exists repos t asked, Asked asked i repos ∈ ls /\ Minted i repos t ∈ ls
  /\ join [44] repos = k /\ tp_token t = token /\ expiry_of t asked = e.
Definition from_github (ls : list label) (st : state) : Prop :=
  (forall i k token e, c_cache st !! (i, k) = Some (token, e) -> minted_for ls i k token e)
  /\ (forall i repos now, (i, repos, now) ∈ c_pending st -> Asked now i repos ∈ ls).

Lemma minted_for_app ls l i k token e : minted_for ls i k token e -> minted_for (ls ++ l) i k token e.
Proof. intros (repos & t & asked & ? & ? & ?). exists repos, t, asked. set_solver. Qed.

Lemma from_github_run ls st : run step init ls st -> from_github ls st.
Proof.
  intros Hrun. remember init as s0 eqn:E0. induction Hrun as [|s ls s' l s'' Hrun IH Hstep].
  { subst. split; [intros i k token e He; discriminate He|]. intros i repos now Hp. by apply elem_of_nil in Hp. }
  destruct (IH E0) as [Hc Hp]. clear IH.
  destruct Hstep as [st now i repos token|st now i repos|st i repos now t p1 p2 Hpend|st i repos now p1 p2 Hpend];
    split; cbn [c_cache c_pending].
  all: try (intros i' k' token' e' He; by eapply minted_for_app, Hc).
  - intros i' r' n' Hin. specialize (Hp i' r' n' Hin). set_solver.
  - intros i' r' n' [Hin|Hin%list_elem_of_singleton]%elem_of_app; [specialize (Hp i' r' n' Hin); set_solver|].
    injection Hin as -> -> ->. set_solver.
  - intros i' k token e. rewrite lookup_insert_Some.
    intros [[Hk Hv]|[_ He]]; [|by eapply minted_for_app, Hc].
    injection Hk as <- <-. injection Hv as <- <-. exists repos, t, now.
    assert (Asked now i repos ∈ ls) by (apply Hp; rewrite Hpend; set_solver). set_solver.
  - intros i' r' n' Hin. assert (Asked n' i' r' ∈ ls) by (apply Hp; rewrite Hpend; set_solver). set_solver.
  - intros i' r' n' Hin. assert (Asked n' i' r' ∈ ls) by (apply Hp; rewrite Hpend; set_solver). set_solver.
Qed.
End Concurrent.
End Concurrent.

(** Names as GitHub allows them: not empty, no comma. *)
Definition repo_names (repos : list str) : Prop := Forall (fun r => r <> [] /\ char_free 44 r) repos.

Lemma repo_names_inj r1 r2 : repo_names r1 -> repo_names r2 -> join [44] r1 = join [44] r2 -> r1 = r2.
Proof.
  intros H1 H2 E.
  assert (Hnil : forall r, repo_names r -> join [44] r = [] -> r = []).
  { intros [|s [|s' l]] Hr Ej; [done| |]; inversion_clear Hr as [|? ? [Hs _] _]; simpl in Ej; [done|].
    by apply app_eq_nil in Ej as [? _]. }
  destruct r1 as [|s1 l1]; [symmetry; by apply Hnil|]. destruct r2 as [|s2 l2]; [by apply Hnil|].
  rewrite <- (split_join 44 (s1 :: l1)), <- (split_join 44 (s2 :: l2)), E; try done;
    (eapply Forall_impl; [eassumption|]); by intros ? [].
Qed.

Module Demo.
Definition outside : GithubOutside () := {|
  from_rsa_pem _ := Ok (); sign_rs256 _ _ := Ok []; parse_rfc3339 _ := Some 5000 |}.
Definition app : GithubAppAuth () := mkAppAuth 42 () (lit "kit").
Definition reply : TokenReply := mkTokenReply (lit "ghs_a") (lit "1970-01-01T01:23:20Z").
Definition mint (rq : TokenRequest) : Reply := Replied reply.
End Demo.

(** ** Properties *)

(** C21: what a cached token was minted for.  Under every interleaving of
    calls, a token served from the cache was minted by GitHub, on an earlier
    call's request, for the same installation and for a list of repositories
    whose names joined with commas are those asked for, and it has more than a
    minute left; when the names of both lists are ones GitHub allows, not empty
    and without a comma, it is the very same list (none, for the full scope). *)
Theorem installation_tokens_keep_scope {K} `{GithubOutside K} ls st :
  run Concurrent.step Concurrent.init ls st ->
  forall l1 now i repos token l2, ls = l1 ++ Concurrent.Hit now i repos token :: l2 ->
  exists minted t asked, Concurrent.Asked asked i minted ∈ l1 /\ Concurrent.Minted i minted t ∈ l1 /\ tp_token t = token
    /\ now + REFRESH_MARGIN_SECS < expiry_of t asked
    /\ join [44] minted = join [44] repos /\ (repo_names minted -> repo_names repos -> minted = repos).
Proof.
  intros Hrun l1 now i repos token l2 ->. apply run_at_label in Hrun as (s1 & s2 & Hr1 & Hs).
  apply Concurrent.from_github_run in Hr1. inversion Hs as [? ? ? ? ? Hl| | |]; subst.
  unfold lookup_fresh in Hl. destruct (Concurrent.c_cache _ !! _) as [[tok e]|] eqn:E; [|done]. simpl in Hl.
  destruct (is_fresh e now) eqn:Ef; [|done]. injection Hl as ->.
  destruct (proj1 Hr1 _ _ _ _ E) as (minted & t & asked & Ha & Hin & Hj & Ht & He). unfold is_fresh in Ef. bool_simp.
  exists minted, t, asked. split_and!; try done; [by rewrite He|]. intros H1 H2. by apply repo_names_inj.
Qed.

Lemma installation_tokens_keep_scope_witness :
  let l1 := [Concurrent.Asked 100 7 [lit "kit"]; Concurrent.Minted 7 [lit "kit"] Demo.reply] in
  exists minted t asked, Concurrent.Asked asked 7 minted ∈ l1 /\ Concurrent.Minted 7 minted t ∈ l1
    /\ tp_token t = lit "ghs_a" /\ 4000 + REFRESH_MARGIN_SECS < @expiry_of _ Demo.outside t asked
    /\ join [44] minted = join [44] [lit "kit"] /\ (repo_names minted -> repo_names [lit "kit"] -> minted = [lit "kit"]).
Proof.
  assert (exists st, run (@Concurrent.step _ Demo.outside) Concurrent.init
    ([Concurrent.Asked 100 7 [lit "kit"]; Concurrent.Minted 7 [lit "kit"] Demo.reply]
     ++ [Concurrent.Hit 4000 7 [lit "kit"] (lit "ghs_a")]) st) as [st Hrun].
  { eexists. eapply run_cons; [apply Concurrent.step_asked; reflexivity|].
    eapply run_cons; [eapply (Concurrent.step_minted _ _ _ _ _ [] []); reflexivity|].
    eapply run_cons; [apply Concurrent.step_hit; vm_compute; reflexivity|]. constructor. }
  apply (@installation_tokens_keep_scope _ Demo.outside _ st Hrun _ 4000 7 [lit "kit"] (lit "ghs_a") [] eq_refl).
Defined.

(** The cache key confuses scopes.  The names are joined with commas, so
    the list that holds one empty name has the key of the empty list: once a
    token with the full scope of an installation is cached, a call that asks
    for that list is given it, with no request to GitHub to refuse the name. *)
Theorem blank_repository_gets_full_scope {K} `{GithubOutside K} send send' g i now t cache cache' now' :
  installation_token send (Some now) g i [] cache = (Ok t, cache') ->
  lookup_fresh cache (scope_key i []) now = None ->
  (forall e, cache' !! scope_key i [] = Some (t, e) -> is_fresh e now' = true) ->
  installation_token send' (Some now') g i [[]] cache' = (Ok t, cache').
Proof.
  intros Ht Hn Hf. unfold installation_token in *. cbn [now_secs ok_or] in *. rewrite Hn in Ht.
  destruct (rq ← token_request g i [] now; _) as [tk|e]; [|done]. injection Ht as <- <-.
  change (scope_key i [[]]) with (scope_key i []). unfold lookup_fresh. rewrite lookup_insert_eq in *. simpl.
  by rewrite (Hf _ eq_refl).
Qed.

Lemma blank_repository_gets_full_scope_witness :
  exists cache, @installation_token _ Demo.outside (fun _ => SendFailed []) (Some 200) Demo.app 7 [[]] cache
    = (Ok (lit "ghs_a"), cache).
Proof.
  eexists. eapply (@blank_repository_gets_full_scope _ Demo.outside Demo.mint (fun _ => SendFailed []) Demo.app 7 100 (lit "ghs_a") ∅).
  - vm_compute. reflexivity.
  - reflexivity.
  - intros e He. vm_compute in He. injection He as <-. reflexivity.
Defined.

(** Ownership is GitHub's word.  A user is said to own an installation
    exactly when the code was exchanged and GitHub's list of their
    installations, an array, has an entry with that identifier; anything
    missing or misshapen is a denial, any failure an error, never a grant.
    And the App JWT lives at most ten minutes. *)
Theorem ownership_exact {Url : Type} `{Outside Url, OAuthOutside} list_installations g code id :
  (user_owns_installation list_installations g code id = Ok true <->
   exists token payload entries entry,
     oauth_exchange_code (go_oauth g) code None = Ok token
     /\ list_installations token (go_user_agent g) = Listed payload
     /\ get (lit "installations") payload = Some (JArray entries) /\ entry ∈ entries
     /\ (exists n, get (lit "id") entry = Some (JInt n) /\ i64_try_from n = Some id))
  /\ (forall app now, exp (app_claims app now) - iat (app_claims app now) <= 600).
Proof.
  split.
  2: { intros app now. unfold app_claims, u64_saturating_sub, JWT_LIFETIME_SECS, CLOCK_SKEW_SECS. simpl. lia. }
  unfold user_owns_installation. split.
  - intros (token & Ht%map_err_Ok & Hl)%result_bind_Ok. destruct (list_installations _ _) as [| | |payload] eqn:El; try done.
    injection Hl as Ho. unfold owns_installation in Ho. destruct (get _ payload) as [[]|] eqn:Eg; try done. cbn [mbind option_bind as_array] in Ho.
    apply existsb_exists in Ho as (x & Hin & Hx). bool_simp. subst x. apply list_elem_of_In, list_elem_of_omap in Hin as (entry & Hin & He).
    exists token, payload, l, entry. do 4 (split; [done|]). revert He. cbv beta.
    destruct (get (lit "id") entry) as [[]|]; try done. simpl. intros He. eauto.
  - intros (token & payload & entries & entry & Ht & Hl & Hg & Hin & n & Hid & Hn). rewrite Ht. cbn [map_err mbind result_bind].
    rewrite Hl. unfold owns_installation. rewrite Hg. cbn [mbind option_bind as_array]. f_equal. apply existsb_exists. exists id. split; [|apply Z.eqb_refl].
    apply list_elem_of_In, list_elem_of_omap. exists entry. split; [done|]. by rewrite Hid.
Qed.
