(* ===== verification/Telemetry.v ===== *)
(** * Product telemetry ([crates/telemetry/src/events.rs], [metrics.rs])

    [events.rs]: the registry of analytics events, the envelope that carries
    one, the keyed hasher of identifiers and the published manifest.
    [metrics.rs]: the request series and the guarded [/metrics] endpoint.
    BLAKE3, the [prometheus] text encoder and the clock are parameters. *)

From S2P Require Import Prelude RustStr Json Headers Types.

(** ** events.rs *)

Module Events.
Definition SCHEMA_VERSION : Z := 1.

Inductive Surface := Ferrlabs | Ferrflow | Ferrvault | Ferrtrack | Ferrgrowth | Ferrfleet.
#[export] Instance Surface_eq_dec : EqDecision Surface.
Proof. solve_decision. Defined.

Definition surface_slug (s : Surface) : str :=
  lit match s with
      | Ferrlabs => "ferrlabs"
      | Ferrflow => "ferrflow"
      | Ferrvault => "ferrvault"
      | Ferrtrack => "ferrtrack"
      | Ferrgrowth => "ferrgrowth"
      | Ferrfleet => "ferrfleet"
      end.
Definition all_surfaces : list Surface := [Ferrlabs; Ferrflow; Ferrvault; Ferrtrack; Ferrgrowth; Ferrfleet].
Definition surface_of_product (p : Product) : Surface :=
  match p with
  | FerrFlow => Ferrflow
  | FerrVault => Ferrvault
  | FerrTrack => Ferrtrack
  | FerrGrowth => Ferrgrowth
  | FerrFleet => Ferrfleet
  end.

Inductive Event :=
| OrgCreated
| OrgMemberAdded
| ProductActivated
| ProductTierChanged
| ProductCanceled
| AuthLogin
| AuthSignup
| CliRun
| CliError
| VaultSecretInjected
| TrackIssueCreated
| GrowthSitePublished
| FleetAgentRun.
#[export] Instance Event_eq_dec : EqDecision Event.
Proof. solve_decision. Defined.

Inductive FieldType := FHash | FEnum | FInt | FString | FBool.
#[export] Instance FieldType_eq_dec : EqDecision FieldType.
Proof. solve_decision. Defined.
Record Field := mkField { field_name : str; field_kind : FieldType; doc : str }.
Record EventMeta := mkEventMeta { em_event : Event; em_when : str; em_fields : list Field }.

Definition FIELDS_ORG_CREATED : list Field :=
  [mkField (lit "org_hash") FHash (lit "BLAKE3-keyed(org_id).");
   mkField (lit "user_hash") FHash (lit "BLAKE3-keyed(user_id) of the creator.")].
Definition FIELDS_ORG_MEMBER_ADDED : list Field :=
  [mkField (lit "org_hash") FHash (lit "BLAKE3-keyed(org_id).");
   mkField (lit "actor_hash") FHash (lit "BLAKE3-keyed(user_id) of the actor that added the member.");
   mkField (lit "role") FEnum (lit "owner | admin | member | billing | auditor")].
Definition FIELDS_PRODUCT_ACTIVATED : list Field :=
  [mkField (lit "org_hash") FHash (lit "BLAKE3-keyed(org_id).");
   mkField (lit "product") FEnum (lit "ferrflow | ferrvault | ferrtrack | ferrgrowth | ferrfleet");
   mkField (lit "tier") FEnum (lit "free | pro | team | enterprise")].
Definition FIELDS_PRODUCT_TIER_CHANGED : list Field :=
  [mkField (lit "org_hash") FHash (lit "BLAKE3-keyed(org_id).");
   mkField (lit "product") FEnum (lit "Product slug.");
   mkField (lit "tier_from") FEnum (lit "Previous tier.");
   mkField (lit "tier_to") FEnum (lit "New tier.")].
Definition FIELDS_PRODUCT_CANCELED : list Field :=
  [mkField (lit "org_hash") FHash (lit "BLAKE3-keyed(org_id).");
   mkField (lit "product") FEnum (lit "Product slug.")].
Definition FIELDS_AUTH_LOGIN : list Field :=
  [mkField (lit "user_hash") FHash (lit "BLAKE3-keyed(user_id).");
   mkField (lit "method") FEnum (lit "password | oauth-google | oauth-github | sso")].
Definition FIELDS_AUTH_SIGNUP : list Field :=
  [mkField (lit "user_hash") FHash (lit "BLAKE3-keyed(user_id).");
   mkField (lit "method") FEnum (lit "Auth method used.")].
Definition FIELDS_CLI_RUN : list Field :=
  [mkField (lit "command") FEnum (lit "bump | release | changelog | " ++ [8230]);
   mkField (lit "exit_code") FInt (lit "Process exit code.");
   mkField (lit "duration_ms") FInt (lit "Wall-clock duration.");
   mkField (lit "cli_version") FString (lit "semver.");
   mkField (lit "os") FEnum (lit "linux | macos | windows");
   mkField (lit "arch") FEnum (lit "x86_64 | aarch64")].
Definition FIELDS_CLI_ERROR : list Field :=
  [mkField (lit "command") FEnum (lit "Command that errored.");
   mkField (lit "error_code") FString (lit "FFXXXX code. The error body is NOT sent.");
   mkField (lit "cli_version") FString (lit "semver.")].
Definition FIELDS_VAULT_SECRET_INJECTED : list Field :=
  [mkField (lit "org_hash") FHash (lit "BLAKE3-keyed(org_id).");
   mkField (lit "kind") FEnum (lit "Backend kind: native | external_helm | external_other.")].
Definition FIELDS_TRACK_ISSUE_CREATED : list Field :=
  [mkField (lit "org_hash") FHash (lit "BLAKE3-keyed(org_id).");
   mkField (lit "source") FEnum (lit "ui | api | git_link | automation")].
Definition FIELDS_GROWTH_SITE_PUBLISHED : list Field :=
  [mkField (lit "org_hash") FHash (lit "BLAKE3-keyed(org_id).");
   mkField (lit "custom_domain") FBool (lit "True if a custom domain is bound.")].
Definition FIELDS_FLEET_AGENT_RUN : list Field :=
  [mkField (lit "org_hash") FHash (lit "BLAKE3-keyed(org_id).");
   mkField (lit "agent_kind") FEnum (lit "first_party | custom");
   mkField (lit "first_party_slug") FString (lit "Set when agent_kind=first_party.");
   mkField (lit "exit_code") FInt (lit "0 on success.");
   mkField (lit "duration_ms") FInt (lit "Wall-clock duration.")].

Definition ALL_EVENTS : list Event :=
  [OrgCreated; OrgMemberAdded; ProductActivated; ProductTierChanged; ProductCanceled; AuthLogin; AuthSignup; CliRun; CliError; VaultSecretInjected; TrackIssueCreated; GrowthSitePublished; FleetAgentRun].

Definition name (e : Event) : str :=
  lit match e with
      | OrgCreated => "org.created"
      | OrgMemberAdded => "org.member.added"
      | ProductActivated => "product.activated"
      | ProductTierChanged => "product.tier_changed"
      | ProductCanceled => "product.canceled"
      | AuthLogin => "auth.login"
      | AuthSignup => "auth.signup"
      | CliRun => "cli.run"
      | CliError => "cli.error"
      | VaultSecretInjected => "vault.secret.injected"
      | TrackIssueCreated => "track.issue.created"
      | GrowthSitePublished => "growth.site.published"
      | FleetAgentRun => "fleet.agent.run"
      end.
Definition surface (e : Event) : Surface :=
  match e with
  | OrgCreated | OrgMemberAdded | ProductActivated | ProductTierChanged | ProductCanceled | AuthLogin | AuthSignup => Ferrlabs
  | CliRun | CliError => Ferrflow
  | VaultSecretInjected => Ferrvault
  | TrackIssueCreated => Ferrtrack
  | GrowthSitePublished => Ferrgrowth
  | FleetAgentRun => Ferrfleet
  end.
Definition fields (e : Event) : list Field :=
  match e with
  | OrgCreated => FIELDS_ORG_CREATED
  | OrgMemberAdded => FIELDS_ORG_MEMBER_ADDED
  | ProductActivated => FIELDS_PRODUCT_ACTIVATED
  | ProductTierChanged => FIELDS_PRODUCT_TIER_CHANGED
  | ProductCanceled => FIELDS_PRODUCT_CANCELED
  | AuthLogin => FIELDS_AUTH_LOGIN
  | AuthSignup => FIELDS_AUTH_SIGNUP
  | CliRun => FIELDS_CLI_RUN
  | CliError => FIELDS_CLI_ERROR
  | VaultSecretInjected => FIELDS_VAULT_SECRET_INJECTED
  | TrackIssueCreated => FIELDS_TRACK_ISSUE_CREATED
  | GrowthSitePublished => FIELDS_GROWTH_SITE_PUBLISHED
  | FleetAgentRun => FIELDS_FLEET_AGENT_RUN
  end.
Definition when_it_fires (e : Event) : str :=
  lit match e with
      | OrgCreated => "A new organization is created."
      | OrgMemberAdded => "A user is added to an organization."
      | ProductActivated => "An org activates a product subscription."
      | ProductTierChanged => "An active subscription is upgraded or downgraded."
      | ProductCanceled => "A subscription is canceled."
      | AuthLogin => "Successful login."
      | AuthSignup => "A new account is created."
      | CliRun => "Once per CLI invocation, after the command finishes."
      | CliError => "On unhandled error, instead of cli.run."
      | VaultSecretInjected => "FerrVault operator injects a secret into a workload."
      | TrackIssueCreated => "A new issue is created in FerrTrack."
      | GrowthSitePublished => "A FerrGrowth site is (re)published."
      | FleetAgentRun => "A FerrFleet agent run finishes (success or error)."
      end.
Definition meta (e : Event) : EventMeta := mkEventMeta e (when_it_fires e) (fields e).

(** The [serde] names: [rename_all = "snake_case"]. *)
Definition event_wire (e : Event) : str :=
  lit match e with
      | OrgCreated => "org_created"
      | OrgMemberAdded => "org_member_added"
      | ProductActivated => "product_activated"
      | ProductTierChanged => "product_tier_changed"
      | ProductCanceled => "product_canceled"
      | AuthLogin => "auth_login"
      | AuthSignup => "auth_signup"
      | CliRun => "cli_run"
      | CliError => "cli_error"
      | VaultSecretInjected => "vault_secret_injected"
      | TrackIssueCreated => "track_issue_created"
      | GrowthSitePublished => "growth_site_published"
      | FleetAgentRun => "fleet_agent_run"
      end.
Definition kind_wire (k : FieldType) : str :=
  lit match k with FHash => "hash" | FEnum => "enum" | FInt => "int" | FString => "string" | FBool => "bool" end.

Record Envelope := mkEnvelope {
  env_surface : Surface;
  event : Event;
  org_hash : option str;
  user_hash : option str;
  properties : gmap str json;
  schema_version : Z;
  occurred_at : Z;
}.
Definition envelope_new (now : Z) (e : Event) : Envelope := mkEnvelope (surface e) e None None ∅ SCHEMA_VERSION now.
Definition with_org (hash : str) (v : Envelope) : Envelope :=
  mkEnvelope (env_surface v) (event v) (Some hash) (user_hash v) (properties v) (schema_version v) (occurred_at v).
Definition with_user (hash : str) (v : Envelope) : Envelope :=
  mkEnvelope (env_surface v) (event v) (org_hash v) (Some hash) (properties v) (schema_version v) (occurred_at v).
Definition with_property (key : str) (value : json) (v : Envelope) : Envelope :=
  mkEnvelope (env_surface v) (event v) (org_hash v) (user_hash v) (<[key := value]> (properties v))
    (schema_version v) (occurred_at v).

(** The hasher, over [blake3::keyed_hash]. *)
Record Hasher := mkHasher { hasher_key : bytes }.
Definition hasher_from_hex (hex_key : str) : result str Hasher :=
  b ← ok_or (hex_decode hex_key) (lit "invalid hex");
  if bool_decide (length b = 32%nat) then Ok (mkHasher b)
  else Err (lit "expected 32-byte key, got " ++ show_u (Z.of_nat (length b)) ++ lit " bytes").
Definition hash_bytes (keyed_hash : bytes -> bytes -> bytes) (h : Hasher) (b : bytes) : str :=
  hex_encode (take 16 (keyed_hash (hasher_key h) b)).
(** A UUID is its sixteen bytes. *)
Definition hash_uuid (keyed_hash : bytes -> bytes -> bytes) (h : Hasher) (id : bytes) : str :=
  hex_encode (take 16 (keyed_hash (hasher_key h) id)).

Definition manifest : list EventMeta := meta <$> ALL_EVENTS.
Definition manifest_json : json :=
  JObject [(lit "schema_version", JInt SCHEMA_VERSION);
           (lit "events", JArray ((fun m =>
              JObject [(lit "event", JString (name (em_event m)));
                       (lit "surface", JString (surface_slug (surface (em_event m))));
                       (lit "when_it_fires", JString (em_when m));
                       (lit "fields", JArray ((fun f =>
                          JObject [(lit "name", JString (field_name f)); (lit "kind", JString (kind_wire (field_kind f)));
                                   (lit "doc", JString (doc f))]) <$> em_fields m))]) <$> manifest))].

(** Calls on an envelope under construction. *)
Inductive builder := WithOrg (h : str) | WithUser (h : str) | WithProperty (k : str) (v : json).
Definition build1 (v : Envelope) (b : builder) : Envelope :=
  match b with WithOrg h => with_org h v | WithUser h => with_user h v | WithProperty k j => with_property k j v end.
Definition identity_field (f : Field) : bool := ends_with (lit "_hash") (field_name f).
End Events.

(** ** metrics.rs *)

Module Metrics.
(** The two HTTP series: requests per method, route and status, and the
    durations observed per method and route; the pool gauges. *)
Record Registry (D : Type) := mkRegistry {
  http_requests_total : gmap (str * str * str) Z;
  http_request_duration : gmap (str * str) (list D);
  db_pool_in_use : Z;
  db_pool_idle : Z;
}.
Arguments mkRegistry {D} _ _ _ _.
Arguments http_requests_total {D} _.
Arguments http_request_duration {D} _.
Arguments db_pool_in_use {D} _.
Arguments db_pool_idle {D} _.

Section Metrics.
Context {D : Type}.
Definition empty : Registry D := mkRegistry ∅ ∅ 0 0.

Definition record_request (r : Registry D) (method route : str) (status : Z) (duration : D) : Registry D :=
  let status := show_u status in
  mkRegistry (<[(method, route, status) := default 0 (http_requests_total r !! (method, route, status)) + 1]> (http_requests_total r))
    (<[(method, route) := default [] (http_request_duration r !! (method, route)) ++ [duration]]> (http_request_duration r))
    (db_pool_in_use r) (db_pool_idle r).
Definition set_db_pool (r : Registry D) (in_use idle : Z) : Registry D :=
  mkRegistry (http_requests_total r) (http_request_duration r) in_use idle.

(** A request as [track] sees it, and the status and duration of its answer. *)
Record Tracked := mkTracked { tr_method : str; matched_path : option str; uri_path : str; tr_status : Z; tr_elapsed : D }.
Definition route_of (q : Tracked) : str := unwrap_or (matched_path q) (uri_path q).
Definition track (r : Registry D) (q : Tracked) : Registry D :=
  record_request r (tr_method q) (route_of q) (tr_status q) (tr_elapsed q).
End Metrics.
Arguments Tracked : clear implicits.

(** [diff |= x ^ y] over the pairs. *)
Definition ct_eq (a b : bytes) : bool :=
  if negb (length a =? length b)%nat then false
  else foldl (fun diff '(x, y) => Z.lor diff (Z.lxor x y)) 0 (zip a b) =? 0.

Definition PROMETHEUS_CONTENT_TYPE : str := lit "text/plain; version=0.0.4; charset=utf-8".

(** The token a router is built with, and its answer to [GET /metrics]: the
    status, the content type and the body. *)
Definition router_token (token : option str) : option str :=
  t ← token; let t := trim t in if bool_decide (t = []) then None else Some t.
Definition metrics_response `{HttpPackage} (token : option str) (gather : str) (headers : HeaderMap)
  : Z * option str * str :=
  let ok := (200, Some PROMETHEUS_CONTENT_TYPE, gather) in
  match router_token token with
  | None => ok
  | Some expected =>
      let authorized :=
        match v ← header_get (lit "authorization") headers; s ← header_to_str v; strip_prefix (lit "Bearer ") s with
        | Some got => ct_eq (as_bytes got) (as_bytes expected)
        | None => false
        end in
      if authorized then ok else (401, None, lit "unauthorized")
  end.
End Metrics.

(** ** Lemmas *)

Lemma ct_eq_acc (l : list (Z * Z)) d :
  foldl (fun diff '(x, y) => Z.lor diff (Z.lxor x y)) d l = 0 <-> d = 0 /\ Forall (fun p => p.1 = p.2) l.
Proof.
  revert d. induction l as [|[x y] l IH]; intros d; cbn [foldl].
  - split; [intros ->; by split|by intros [-> _]].
  - rewrite IH, Z.lor_eq_0_iff, Z.lxor_eq_0_iff, Forall_cons. simpl. tauto.
Qed.

Lemma ct_eq_equality a b : Metrics.ct_eq a b = true <-> a = b.
Proof.
  unfold Metrics.ct_eq. destruct (length a =? length b)%nat eqn:El; simpl.
  - apply Nat.eqb_eq in El. rewrite Z.eqb_eq, ct_eq_acc. split.
    + intros [_ HF]. revert b El HF. induction a as [|x a IH]; intros [|y b] El HF; try done.
      inversion_clear HF. simpl in *. f_equal; [done|]. apply IH; [lia|done].
    + intros <-. split; [done|]. clear. induction a; constructor; done.
  - apply Nat.eqb_neq in El. split; [done|]. by intros ->.
Qed.

Lemma show_u_inj a b : 0 <= a -> 0 <= b -> show_u a = show_u b -> a = b.
Proof. intros Ha Hb E. pose proof (parse_nat_show_u a Ha). rewrite E, parse_nat_show_u in H; congruence. Qed.

(** Counting requests. *)
Section Counting.
Context {D : Type}.
Import Metrics.

Definition same_series (method route : str) (q : Tracked D) : bool := (tr_method q =s method) && (route_of q =s route).
Definition count_of (p : Tracked D -> bool) (qs : list (Tracked D)) : Z := Z.of_nat (length (List.filter p qs)).

Lemma count_of_snoc p qs q : count_of p (qs ++ [q]) = count_of p qs + (if p q then 1 else 0).
Proof. unfold count_of. rewrite List.filter_app, length_app. simpl. destruct (p q); simpl; lia. Qed.

Lemma same_series_spec m r q : same_series m r q = true <-> tr_method q = m /\ route_of q = r.
Proof. unfold same_series. by rewrite andb_true_iff, !str_eqb_eq. Qed.

Lemma track_counter (reg : Registry D) q m r st :
  0 <= st -> 0 <= tr_status q ->
  default 0 (http_requests_total (track reg q) !! (m, r, show_u st))
  = default 0 (http_requests_total reg !! (m, r, show_u st))
    + (if same_series m r q && (tr_status q =? st) then 1 else 0).
Proof.
  intros Hst Hq. unfold track, record_request. cbn [http_requests_total].
  destruct (decide ((tr_method q, route_of q, show_u (tr_status q)) = (m, r, show_u st))) as [E|E].
  - rewrite E, lookup_insert_eq. injection E as Em Er Es. apply show_u_inj in Es; [|done|done].
    rewrite (proj2 (same_series_spec m r q)), (proj2 (Z.eqb_eq _ _)) by done. done.
  - rewrite lookup_insert_ne by done. destruct (same_series m r q) eqn:Ess; simpl; [|lia].
    apply same_series_spec in Ess as [<- <-]. destruct (tr_status q =? st) eqn:Est; [|lia].
    bool_simp. subst. by destruct E.
Qed.
Lemma track_observed (reg : Registry D) q m r :
  length (default [] (http_request_duration (track reg q) !! (m, r)))
  = (length (default [] (http_request_duration reg !! (m, r))) + (if same_series m r q then 1 else 0))%nat.
Proof.
  unfold track, record_request. cbn [http_request_duration].
  destruct (decide ((tr_method q, route_of q) = (m, r))) as [E|E].
  - rewrite E, lookup_insert_eq. injection E as Em Er. rewrite (proj2 (same_series_spec m r q)) by done.
    simpl. by rewrite length_app.
  - rewrite lookup_insert_ne by done. destruct (same_series m r q) eqn:Ess; [|lia].
    apply same_series_spec in Ess as [<- <-]. by destruct E.
Qed.
End Counting.

#[local] Existing Instance Events.Event_eq_dec.

(** ** Properties *)

(** The registry of events is well formed.  [all] lists every event once,
    and the manifest one entry for each, in that order, under names that are
    all different; an event's field names are different, and the identifying
    ones (named [.._hash]) are exactly those declared as hashes, so the
    registry has no place for a raw identifier; and an envelope, however it was
    built, carries its event's surface and the current schema version. *)
Theorem event_registry_well_formed :
  (forall e, e ∈ Events.ALL_EVENTS) /\ NoDup Events.ALL_EVENTS
  /\ Events.em_event <$> Events.manifest = Events.ALL_EVENTS
  /\ (forall e e', Events.name e = Events.name e' -> e = e')
  /\ (forall e, NoDup (Events.field_name <$> Events.fields e))
  /\ (forall e f, f ∈ Events.fields e -> Events.field_kind f = Events.FHash <-> Events.identity_field f = true)
  /\ (forall now e bs, let v := foldl Events.build1 (Events.envelope_new now e) bs in
      Events.event v = e /\ Events.env_surface v = Events.surface e
      /\ Events.schema_version v = Events.SCHEMA_VERSION /\ Events.occurred_at v = now).
Proof.
  split; [by intros []; apply (bool_decide_unpack _); vm_compute|].
  split; [by apply (bool_decide_unpack _); vm_compute|]. split; [done|].
  split; [by intros [] []|]. split; [by intros []; apply (bool_decide_unpack _); vm_compute|]. split.
  - intros e f Hf. assert (Forall (fun f => Events.field_kind f = Events.FHash <-> Events.identity_field f = true) (Events.fields e)) as Hall.
    { destruct e; vm_compute; repeat (constructor; [by split; intros|]); constructor. }
    by apply (proj1 (Forall_forall _ _) Hall).
  - intros now e bs. induction bs as [|b bs IH] using rev_ind; [done|]. rewrite foldl_app. cbn in *. by destruct b.
Qed.

(** The published names are not the ones on the wire.  The manifest names
    an event as [org.created] where an envelope of it is serialised with
    [org_created]: for no event do the two agree, so a consumer that validates
    envelopes against the manifest knows none of them. *)
Theorem manifest_names_never_on_the_wire e e' : Events.event_wire e <> Events.name e'.
Proof. by destruct e, e'. Qed.

(** The constant-time comparison is equality of byte strings, and the
    metrics endpoint is guarded by it: with a token that is not blank, a
    request is answered with the metrics exactly when its authorization header
    is [Bearer] followed by the token without its outer white space, and gets
    401 with no metrics in all other cases. *)
Theorem metrics_endpoint_guarded `{HttpPackage} token gather headers :
  (forall a b, Metrics.ct_eq a b = true <-> a = b)
  /\ (trim token <> [] ->
      let response := Metrics.metrics_response (Some token) gather headers in
      (response = (200, Some Metrics.PROMETHEUS_CONTENT_TYPE, gather) <->
       exists v got, header_get (lit "authorization") headers = Some v
         /\ header_to_str v = Some (lit "Bearer " ++ got) /\ as_bytes got = as_bytes (trim token))
      /\ (response = (200, Some Metrics.PROMETHEUS_CONTENT_TYPE, gather) \/ response = (401, None, lit "unauthorized"))).
Proof.
  split; [apply ct_eq_equality|]. intros Ht response. subst response. unfold Metrics.metrics_response, Metrics.router_token.
  cbn [mbind option_bind]. rewrite bool_decide_false by done.
  destruct (header_get (lit "authorization") headers) as [v|] eqn:Ev; cbn [mbind option_bind]; [|split; [split; [done|naive_solver]|auto]].
  destruct (header_to_str v) as [h|] eqn:Eh; cbn [mbind option_bind]; [|split; [split; [done|naive_solver]|auto]].
  destruct (strip_prefix (lit "Bearer ") h) as [got|] eqn:Es.
  - apply strip_prefix_Some in Es as ->. destruct (Metrics.ct_eq _ _) eqn:Ec.
    + apply ct_eq_equality in Ec. split; [|auto]. split; [|done]. intros _. by exists v, got.
    + split; [|auto]. split; [done|]. intros (v' & got' & [= <-] & Hb & Heq). rewrite Eh in Hb.
      injection Hb as <-. apply ct_eq_equality in Heq. congruence.
  - split; [|auto]. split; [done|]. intros (v' & got & [= <-] & Hb & _). assert (h = lit "Bearer " ++ got) as Hg by congruence.
    apply strip_prefix_Some in Hg. by rewrite Hg in Es.
Qed.

Lemma metrics_endpoint_guarded_witness :
  @Metrics.metrics_response visible_http (Some (lit " s3cr3t ")) (lit "up 1")
    [(lit "authorization", lit "Bearer s3cr3t")] = (200, Some Metrics.PROMETHEUS_CONTENT_TYPE, lit "up 1").
Proof.
  apply (proj1 (proj2 (@metrics_endpoint_guarded visible_http (lit " s3cr3t ") (lit "up 1")
    [(lit "authorization", lit "Bearer s3cr3t")]) ltac:(vm_compute; discriminate))).
  exists (lit "Bearer s3cr3t"), (lit "s3cr3t"). repeat split; vm_compute; reflexivity.
Defined.

(** A blank token opens the endpoint.  A token of white space only is
    dropped, and every request is then answered with the metrics, though the
    documentation says a non-empty token has to be sent. *)
Theorem blank_token_opens_endpoint `{HttpPackage} token gather headers :
  trim token = [] ->
  Metrics.metrics_response (Some token) gather headers = (200, Some Metrics.PROMETHEUS_CONTENT_TYPE, gather).
Proof. intros Ht. unfold Metrics.metrics_response, Metrics.router_token. simpl. by rewrite Ht. Qed.

Lemma blank_token_opens_endpoint_witness :
  lit "  " <> [] /\ @Metrics.metrics_response visible_http (Some (lit "  ")) (lit "up 1") []
    = (200, Some Metrics.PROMETHEUS_CONTENT_TYPE, lit "up 1").
Proof. split; [vm_compute; discriminate|]. apply (@blank_token_opens_endpoint visible_http). vm_compute. reflexivity. Defined.

(** The series count the requests.  After any sequence of requests, the
    counter of a method, route and status is the number of requests with them,
    the histogram of a method and route has as many observations as requests
    with them, and a request's route is its template when it matched one. *)
Theorem series_count_requests {D} (qs : list (Metrics.Tracked D)) m r :
  Forall (fun q => 0 <= Metrics.tr_status q) qs ->
  let reg := foldl Metrics.track Metrics.empty qs in
  (forall st, 0 <= st ->
     default 0 (Metrics.http_requests_total reg !! (m, r, show_u st))
     = count_of (fun q => same_series m r q && (Metrics.tr_status q =? st)) qs)
  /\ Z.of_nat (length (default [] (Metrics.http_request_duration reg !! (m, r)))) = count_of (same_series m r) qs
  /\ (forall (q : Metrics.Tracked D) t, Metrics.matched_path q = Some t -> same_series m r q = true -> r = t).
Proof.
  intros Hq reg. subst reg. split; [|split].
  - intros st Hst. induction qs as [|q qs IH] using rev_ind; [reflexivity|].
    apply Forall_app in Hq as [Hqs Hq]. inversion_clear Hq as [|? ? Hq1 _]. rewrite foldl_app. cbn [foldl].
    rewrite (track_counter _ _ _ _ _ Hst Hq1), count_of_snoc, (IH Hqs). done.
  - clear Hq. induction qs as [|q qs IH] using rev_ind; [reflexivity|].
    rewrite foldl_app. cbn [foldl]. rewrite track_observed, count_of_snoc, <- IH. destruct (same_series m r q); lia.
  - intros q t Ht [_ <-]%same_series_spec. unfold Metrics.route_of. by rewrite Ht.
Qed.

Lemma series_count_requests_witness :
  let q s := Metrics.mkTracked (lit "GET") (Some (lit "/a/{id}")) (lit "/a/1") s 0 in
  default 0 (Metrics.http_requests_total (foldl Metrics.track Metrics.empty [q 200; q 404; q 200])
    !! (lit "GET", lit "/a/{id}", show_u 200)) = 2.
Proof.
  intros q. rewrite (proj1 (series_count_requests [q 200; q 404; q 200] (lit "GET") (lit "/a/{id}")
    ltac:(repeat constructor; discriminate)) 200 ltac:(discriminate)). vm_compute. reflexivity.
Defined.
