(* ===== verification/Middleware.v ===== *)
(** * The middleware layers ([crates/middleware/src])

    [cors.rs]: a configuration turned into a layer of the [tower-http]
    package, whose origin list panics on a wildcard.  [security_headers.rs]:
    the headers every response leaves with. *)

From S2P Require Import Prelude RustStr Json Headers.

Lemma Forall2_elem_of_l {A B} (P : A -> B -> Prop) l k x : Forall2 P l k -> x ∈ l -> exists y, y ∈ k /\ P x y.
Proof. intros HF [i Hi]%list_elem_of_lookup_1. destruct (Forall2_lookup_l _ _ _ _ _ HF Hi) as (y & ?%list_elem_of_lookup_2 & ?). eauto. Qed.
Lemma Forall2_elem_of_r {A B} (P : A -> B -> Prop) l k y : Forall2 P l k -> y ∈ k -> exists x, x ∈ l /\ P x y.
Proof. intros HF [i Hi]%list_elem_of_lookup_1. destruct (Forall2_lookup_r _ _ _ _ _ HF Hi) as (x & ?%list_elem_of_lookup_2 & ?). eauto. Qed.

(** ** cors.rs *)

Module Cors.
Definition PREFLIGHT_MAX_AGE : Z := 3600.

Record CorsConfig := mkCorsConfig { allowed_origins : list str; allow_credentials : bool }.
Inductive CorsError := InvalidOrigin (origin : str) | WildcardWithCredentials.

(** The origins of the package: [AllowOrigin::list] is [None] where it
    panics. *)
Class TowerHttp (AllowOrigin : Type) := {
  origin_list : list bytes -> option AllowOrigin;
  allows : AllowOrigin -> bytes -> bool;
}.
(** Documented: the list panics when it holds a wildcard, and otherwise allows
    exactly its members. *)
Class TowerHttpLaws (AllowOrigin : Type) `{TowerHttp AllowOrigin} : Prop := {
  origin_list_panics l : origin_list l = None <-> lit "*" ∈ l;
  origin_list_members l a : origin_list l = Some a -> forall o, allows a o = true <-> o ∈ l;
}.

Record CorsLayer (AllowOrigin : Type) := mkCorsLayer {
  layer_origin : AllowOrigin;
  layer_methods : list str;
  layer_headers : list str;
  layer_credentials : bool;
  layer_max_age : Z;
}.
Arguments mkCorsLayer {AllowOrigin}.
Arguments layer_origin {AllowOrigin}.
Arguments layer_methods {AllowOrigin}.
Arguments layer_headers {AllowOrigin}.
Arguments layer_credentials {AllowOrigin}.
Arguments layer_max_age {AllowOrigin}.

Inductive outcome (A : Type) := Panics | Returns (a : A).
Arguments Panics {A}.
Arguments Returns {A} a.

Section Cors.
Context {AllowOrigin : Type} `{HttpPackage, TowerHttp AllowOrigin}.

(** [collect] into a [Result]: the values in order, or the first failure. *)
Fixpoint parse_origins (l : list str) : result CorsError (list bytes) :=
  match l with
  | [] => Ok []
  | origin :: l =>
      v ← ok_or (header_value_from_str origin) (InvalidOrigin origin);
      vs ← parse_origins l;
      Ok (v :: vs)
  end.

Definition METHODS : list str := [lit "GET"; lit "POST"; lit "PUT"; lit "PATCH"; lit "DELETE"; lit "OPTIONS"].
Definition HEADERS : list str :=
  [lit "content-type"; lit "authorization"; lit "accept"; lit "x-signature"; lit "x-timestamp"].

Definition cors_layer (config : CorsConfig) : outcome (result CorsError (CorsLayer AllowOrigin)) :=
  if allow_credentials config && existsb (fun o => o =s lit "*") (allowed_origins config)
  then Returns (Err WildcardWithCredentials)
  else
    match parse_origins (allowed_origins config) with
    | Err e => Returns (Err e)
    | Ok origins =>
        match origin_list origins with
        | None => Panics
        | Some a => Returns (Ok (mkCorsLayer a METHODS HEADERS (allow_credentials config) PREFLIGHT_MAX_AGE))
        end
    end.

Lemma parse_origins_Ok l vs : parse_origins l = Ok vs <-> Forall2 (fun o v => header_value_from_str o = Some v) l vs.
Proof.
  revert vs. induction l as [|o l IH]; intros vs; simpl.
  - split; [intros [= <-]; constructor|]. inversion 1. done.
  - destruct (header_value_from_str o) as [v|] eqn:E; simpl.
    + destruct (parse_origins l) as [ws|e] eqn:El; simpl.
      * split; [intros [= <-]; constructor; [done|by apply IH]|]. inversion 1; simplify_eq.
        assert (Ok ws = Ok l') as [= ->] by (by apply IH). done.
      * split; [done|]. inversion 1; subst. assert (Err e = Ok l') by (by apply IH). done.
    + split; [done|]. inversion 1. by simplify_eq.
Qed.

Lemma parse_origins_Err l e :
  parse_origins l = Err e <->
  exists l1 o l2, l = l1 ++ o :: l2 /\ Forall (fun o' => is_Some (header_value_from_str o')) l1
    /\ header_value_from_str o = None /\ e = InvalidOrigin o.
Proof.
  split.
  - revert e. induction l as [|o l IH]; intros e; simpl; [done|].
    destruct (header_value_from_str o) as [v|] eqn:E; simpl.
    + destruct (parse_origins l) as [ws|e'] eqn:El; simpl; [done|]. intros [= <-].
      destruct (IH _ eq_refl) as (l1 & o' & l2 & -> & Hl & Ho). exists (o :: l1), o', l2.
      split; [done|]. split; [constructor; [by exists v|done]|done].
    + intros [= <-]. by exists [], o, l.
  - intros (l1 & o & l2 & -> & Hl & Ho & ->). induction Hl as [|o' l1 [v Hv] Hl IH]; simpl.
    + by rewrite Ho.
    + rewrite Hv. simpl in *. by rewrite IH.
Qed.
End Cors.

Module Demo.
Definition tower : TowerHttp (list bytes) := {|
  origin_list l := if bool_decide (lit "*" ∈ l) then None else Some l;
  allows a o := bool_decide (o ∈ a) |}.
Lemma tower_laws : @TowerHttpLaws _ tower.
Proof.
  split; simpl.
  - intros l. by case_bool_decide.
  - intros l a. case_bool_decide; intros [= <-] o. by rewrite bool_decide_eq_true.
Qed.
Definition config : CorsConfig := mkCorsConfig [lit "https://app.ferrlabs.com"; lit "*"] false.
End Demo.
End Cors.

(** ** security_headers.rs *)

Module SecurityHeaders.
Record SecurityHeadersConfig := mkSecurityHeadersConfig { tls_enabled : bool }.

Record Response (B : Type) := mkResponse { status : Z; headers : HeaderMap; body : B }.
Arguments mkResponse {B}.
Arguments status {B}.
Arguments headers {B}.
Arguments body {B}.

(** [HeaderMap::insert] with a literal name, which the package lower-cases. *)
Definition insert_static (name value : str) (h : HeaderMap) : HeaderMap :=
  header_insert (to_ascii_lowercase name) value h.

Definition security_headers {Req B : Type} (config : SecurityHeadersConfig) (request : Req) (next : Req -> Response B)
  : Response B :=
  let resp := next request in
  let h := headers resp in
  let h := if tls_enabled config
           then insert_static (lit "Strict-Transport-Security") (lit "max-age=31536000; includeSubDomains; preload") h
           else h in
  let h := insert_static (lit "X-Content-Type-Options") (lit "nosniff") h in
  let h := insert_static (lit "Referrer-Policy") (lit "strict-origin-when-cross-origin") h in
  let h := insert_static (lit "X-Frame-Options") (lit "DENY") h in
  let h := insert_static (lit "Permissions-Policy") (lit "geolocation=(), microphone=(), camera=(), payment=()") h in
  let h := insert_static (lit "Cross-Origin-Opener-Policy") (lit "same-origin") h in
  let h := insert_static (lit "Cross-Origin-Resource-Policy") (lit "same-origin") h in
  mkResponse (status resp) h (body resp).

(** Every value a response carries under a name, in order. *)
Definition values_of (name : str) (h : HeaderMap) : list bytes :=
  snd <$> List.filter (fun e => e.1 =s name) h.

(** The headers the layer owns. *)
Definition owned (tls : bool) : list (str * bytes) :=
  (if tls then [(lit "strict-transport-security", lit "max-age=31536000; includeSubDomains; preload")] else [])
  ++ [(lit "x-content-type-options", lit "nosniff");
      (lit "referrer-policy", lit "strict-origin-when-cross-origin");
      (lit "x-frame-options", lit "DENY");
      (lit "permissions-policy", lit "geolocation=(), microphone=(), camera=(), payment=()");
      (lit "cross-origin-opener-policy", lit "same-origin");
      (lit "cross-origin-resource-policy", lit "same-origin")].

Lemma values_of_insert n name v h :
  values_of n (header_insert name v h) = if n =s name then [v] else values_of n h.
Proof.
  unfold values_of, header_insert, header_remove. rewrite List.filter_app, fmap_app. cbn [List.filter fst].
  destruct (n =s name) eqn:E.
  - apply str_eqb_eq in E. subst. rewrite str_eqb_refl.
    replace (List.filter _ (List.filter _ h)) with (@nil (str * bytes)); [done|].
    induction h as [|[k w] h IH]; [done|]. cbn [List.filter fst]. destruct (k =s name) eqn:Ek; simpl; [done|]. by rewrite Ek.
  - apply str_eqb_neq in E. rewrite (proj2 (str_eqb_neq name n)) by congruence. rewrite app_nil_r. f_equal.
    induction h as [|[k w] h IH]; [done|]. cbn [List.filter fst]. destruct (k =s name) eqn:Ek; simpl.
    + apply str_eqb_eq in Ek. subst. rewrite (proj2 (str_eqb_neq name n)) by congruence. done.
    + destruct (k =s n); [f_equal|]; done.
Qed.

Lemma values_of_inserts n l h :
  values_of n (foldl (fun h e => header_insert e.1 e.2 h) h l)
  = match assoc n (reverse l) with Some v => [v] | None => values_of n h end.
Proof.
  induction l as [|[k v] l IH] using rev_ind; [done|]. rewrite foldl_app, reverse_app. simpl.
  rewrite values_of_insert, IH. by destruct (n =s k).
Qed.

Lemma assoc_reverse {A B} n (l : list (str * A)) (f : A -> B) (d : B) :
  NoDup (fst <$> l) ->
  match assoc n (reverse l) with Some v => f v | None => d end = match assoc n l with Some v => f v | None => d end.
Proof.
  induction l as [|[k v] l IH]; [done|]. cbn [fmap list_fmap fst]. intros [Hk Hnd]%NoDup_cons.
  rewrite reverse_cons, assoc_app. cbn [assoc]. specialize (IH Hnd). destruct (n =s k) eqn:E.
  - apply str_eqb_eq in E. subst. destruct (assoc k (reverse l)) as [w|] eqn:Ek; [|done].
    apply assoc_Some_In in Ek. rewrite elem_of_reverse in Ek. exfalso. apply Hk. apply list_elem_of_fmap. by exists (k, w).
  - by destruct (assoc n (reverse l)).
Qed.
End SecurityHeaders.

(** ** Properties *)

(** The CORS layer is what was configured, or an error that says why.
    Credentials with a wildcard are refused; otherwise the first origin that
    is no header value is named in the error; otherwise, when no origin is a
    wildcard, the layer allows exactly the values of the configured origins,
    the six methods and the five headers, credentials as configured, and lets
    a preflight be kept for an hour. *)
Theorem cors_layer_exact {A} `{HttpPackage} `{Cors.TowerHttp A} `{!Cors.TowerHttpLaws A} (c : Cors.CorsConfig) :
  (Cors.cors_layer (AllowOrigin:=A) c = Cors.Returns (Err Cors.WildcardWithCredentials) <->
   Cors.allow_credentials c = true /\ lit "*" ∈ Cors.allowed_origins c)
  /\ (forall o, Cors.cors_layer (AllowOrigin:=A) c = Cors.Returns (Err (Cors.InvalidOrigin o)) <->
      ~ (Cors.allow_credentials c = true /\ lit "*" ∈ Cors.allowed_origins c)
      /\ exists l1 l2, Cors.allowed_origins c = l1 ++ o :: l2
           /\ Forall (fun o' => is_Some (header_value_from_str o')) l1 /\ header_value_from_str o = None)
  /\ (forall l, Cors.cors_layer (AllowOrigin:=A) c = Cors.Returns (Ok l) ->
      (forall v, Cors.allows (Cors.layer_origin l) v = true <->
         exists o, o ∈ Cors.allowed_origins c /\ header_value_from_str o = Some v)
      /\ Cors.allows (Cors.layer_origin l) (lit "*") = false
      /\ Cors.layer_methods l = Cors.METHODS /\ Cors.layer_headers l = Cors.HEADERS
      /\ Cors.layer_credentials l = Cors.allow_credentials c /\ Cors.layer_max_age l = 3600).
Proof.
  assert (Hw : existsb (fun o => o =s lit "*") (Cors.allowed_origins c) = true <-> lit "*" ∈ Cors.allowed_origins c).
  { rewrite existsb_exists. split; [intros (o & Ho%list_elem_of_In & ->%str_eqb_eq); done|].
    intros Ho%list_elem_of_In. exists (lit "*"). by rewrite str_eqb_refl. }
  unfold Cors.cors_layer.
  destruct (Cors.allow_credentials c && existsb _ (Cors.allowed_origins c)) eqn:Eg.
  { apply andb_true_iff in Eg as [Hc Hs%Hw]. split_and!; [naive_solver..|done]. }
  apply andb_false_iff in Eg. rewrite <- not_true_iff_false, <- (not_true_iff_false (existsb _ _)), Hw in Eg.
  destruct (Cors.parse_origins (Cors.allowed_origins c)) as [vs|e] eqn:Ep.
  - assert (He : forall o, ~ exists l1 l2, Cors.allowed_origins c = l1 ++ o :: l2
      /\ Forall (fun o' => is_Some (header_value_from_str o')) l1 /\ header_value_from_str o = None).
    { intros o (l1 & l2 & Hl & Hf & Ho). assert (Ok vs = Err (Cors.InvalidOrigin o)); [|done].
      rewrite <- Ep. apply Cors.parse_origins_Err. eauto 10. }
    apply Cors.parse_origins_Ok in Ep. destruct (Cors.origin_list vs) as [a|] eqn:Ea.
    2: { split_and!; [naive_solver..|done]. }
    split_and!; [naive_solver..|]. intros l [= <-]. cbn.
    assert (Hm := Cors.origin_list_members vs a Ea). split_and!; try done.
    + intros v. rewrite Hm. split.
      * intros (o & Ho & Hv)%(Forall2_elem_of_r _ _ _ _ Ep). eauto.
      * intros (o & Ho & Hv). destruct (Forall2_elem_of_l _ _ _ _ Ep Ho) as (w & Hw' & E). by simplify_eq.
    + apply not_true_iff_false. rewrite Hm. intros Hin%Cors.origin_list_panics. congruence.
  - pose proof Ep as (l1 & o & l2 & Hl & Hf & Ho & ->)%Cors.parse_origins_Err. split_and!; [naive_solver| |done].
    intros o'. split.
    + intros [= <-]. split; [naive_solver|]. eauto.
    + intros [_ (k1 & k2 & Hk & Hfk & Hok)]. do 2 f_equal.
      assert (Hp : Cors.parse_origins (Cors.allowed_origins c) = Err (Cors.InvalidOrigin o'))
        by (apply Cors.parse_origins_Err; eauto 10). congruence.
Qed.

Lemma cors_layer_exact_witness :
  exists l, @Cors.cors_layer _ visible_http Cors.Demo.tower (Cors.mkCorsConfig [lit "https://ferrvault.com"] true) = Cors.Returns (Ok l)
  /\ @Cors.allows _ Cors.Demo.tower (Cors.layer_origin l) (lit "*") = false.
Proof.
  pose proof (@cors_layer_exact _ visible_http Cors.Demo.tower Cors.Demo.tower_laws
    (Cors.mkCorsConfig [lit "https://ferrvault.com"] true)) as (_ & _ & Hok).
  eexists. split; [vm_compute; reflexivity|]. by apply Hok.
Defined.

(** A wildcard without credentials panics.  The wildcard is only refused
    together with credentials, as the errors of the function are documented;
    alone, with other valid origins or none, it reaches the package's list of
    origins, which panics on it, and the start-up of the API with it. *)
Theorem wildcard_without_credentials_panics {A} `{HttpPackage} `{!HttpPackageLaws} `{Cors.TowerHttp A} `{!Cors.TowerHttpLaws A} (c : Cors.CorsConfig) :
  Cors.allow_credentials c = false -> lit "*" ∈ Cors.allowed_origins c ->
  Forall (fun o => is_Some (header_value_from_str o)) (Cors.allowed_origins c) ->
  Cors.cors_layer (AllowOrigin:=A) c = Cors.Panics.
Proof.
  intros Hc Hs Hf. unfold Cors.cors_layer. rewrite Hc. cbn [andb].
  destruct (Cors.parse_origins _) as [vs|e] eqn:Ep.
  - apply Cors.parse_origins_Ok in Ep. destruct (Forall2_elem_of_l _ _ _ _ Ep Hs) as (v & Hv & E).
    rewrite header_value_from_str_visible in E by (apply (bool_decide_unpack _); vm_compute; exact I).
    injection E as <-. by rewrite (proj2 (Cors.origin_list_panics vs) Hv).
  - apply Cors.parse_origins_Err in Ep as (l1 & o & l2 & Hl & _ & Ho & _). exfalso.
    rewrite Hl in Hf. apply Forall_app in Hf as [_ Hf]. apply Forall_cons in Hf as [[v Hv] _]. congruence.
Qed.

Lemma wildcard_without_credentials_panics_witness :
  @Cors.cors_layer _ visible_http Cors.Demo.tower Cors.Demo.config = Cors.Panics.
Proof.
  apply (@wildcard_without_credentials_panics _ visible_http visible_http_laws Cors.Demo.tower Cors.Demo.tower_laws).
  - reflexivity.
  - apply (bool_decide_unpack _). vm_compute. exact I.
  - repeat constructor; vm_compute; eauto.
Defined.

(** Every response leaves with exactly the layer's headers.  Whatever the
    handler answered, each header the layer owns is there once, with the
    layer's value; [Strict-Transport-Security] is one of them exactly when TLS
    is enabled; every other header keeps its values in their order, and the
    status and the body are the handler's. *)
Theorem security_headers_exact {Req B : Type} config (request : Req) (next : Req -> SecurityHeaders.Response B) :
  let resp := SecurityHeaders.security_headers config request next in
  SecurityHeaders.status resp = SecurityHeaders.status (next request)
  /\ SecurityHeaders.body resp = SecurityHeaders.body (next request)
  /\ forall name, SecurityHeaders.values_of name (SecurityHeaders.headers resp)
     = match assoc name (SecurityHeaders.owned (SecurityHeaders.tls_enabled config)) with
       | Some v => [v]
       | None => SecurityHeaders.values_of name (SecurityHeaders.headers (next request))
       end.
Proof.
  split_and!; [done..|]. intros name. destruct config as [tls].
  assert (E : SecurityHeaders.headers (SecurityHeaders.security_headers (SecurityHeaders.mkSecurityHeadersConfig tls) request next)
    = foldl (fun h e => header_insert e.1 e.2 h) (SecurityHeaders.headers (next request)) (SecurityHeaders.owned tls))
    by (by destruct tls).
  rewrite E, SecurityHeaders.values_of_inserts. apply SecurityHeaders.assoc_reverse.
  destruct tls; apply (bool_decide_unpack _); vm_compute; exact I.
Qed.
