(* ===== verification/AuditTrail.v ===== *)
(** * Typed identifiers and the audit trail ([crates/id/src/lib.rs],
      [crates/audit/src/lib.rs])

    Identifiers of different entities have different types over the same UUID.
    An audit entry says who did what to which resource and when; sinks only
    append.  The text of UUIDs and of timestamps belongs to the [uuid] and
    [chrono] packages. *)

From S2P Require Import Prelude RustStr Json.

(** ** crates/id *)

Module Id.
(** The macro's instances. *)
Inductive entity := Org | Project | Vault | Secret | User | Agent.
Record typed_id (e : entity) := from_uuid { as_uuid : Z }.
Arguments from_uuid {e} as_uuid.
Arguments as_uuid {e} t.
Abbreviation UserId := (typed_id User).

#[export] Instance typed_id_eq_dec e : EqDecision (typed_id e).
Proof. solve_decision. Defined.

Class UuidPackage := {
  uuid_error : Type;
  uuid_from_str : str -> result uuid_error Z;
  uuid_to_string : Z -> str;
  uuid_error_text : uuid_error -> str;
}.
(** Documented: a UUID's hyphenated text parses to it. *)
Class UuidPackageLaws `{UuidPackage} : Prop := {
  uuid_round_trip u : 0 <= u < 2 ^ 128 -> uuid_from_str (uuid_to_string u) = Ok u;
}.

Definition nil {e} : typed_id e := from_uuid 0.
(** The UUID drawn by [Uuid::now_v7] is an argument. *)
Definition new_v7 {e} (now_v7 : Z) : typed_id e := from_uuid now_v7.
Definition new_ulid {e} (now_v7 : Z) : typed_id e := new_v7 now_v7.

Section Text.
Context `{UuidPackage}.
Inductive ParseIdError := mkParseIdError (e : uuid_error).
Definition display_parse_error (e : ParseIdError) : str :=
  match e with mkParseIdError e => lit "invalid id: " ++ uuid_error_text e end.
Definition to_string {e} (id : typed_id e) : str := uuid_to_string (as_uuid id).
Definition from_str {e} (s : str) : result ParseIdError (typed_id e) :=
  map_err mkParseIdError (from_uuid <$> uuid_from_str s).
(** [#[serde(transparent)]]. *)
Definition serialize {e} (id : typed_id e) : json := JString (to_string id).
Definition deserialize {e} (v : json) : option (typed_id e) :=
  match v with JString s => res_ok (from_str s) | _ => None end.

Lemma typed_id_text `{!UuidPackageLaws} {e} (id : typed_id e) :
  0 <= as_uuid id < 2 ^ 128 -> from_str (to_string id) = Ok id.
Proof. intros Hid. unfold from_str, to_string. rewrite uuid_round_trip by done. by destruct id. Qed.
Lemma typed_id_wire `{!UuidPackageLaws} {e} (id : typed_id e) :
  0 <= as_uuid id < 2 ^ 128 -> deserialize (serialize id) = Some id.
Proof. intros Hid. unfold deserialize, serialize. by rewrite typed_id_text. Qed.
End Text.
End Id.

(** ** crates/audit *)

Module Trail.
Inductive Action :=
| Created | Read | Updated | Deleted | Rotated | TokenMinted | TokenRevoked | LoginSucceeded | LoginFailed
| PermissionDenied.
Definition all_actions : list Action :=
  [Created; Read; Updated; Deleted; Rotated; TokenMinted; TokenRevoked; LoginSucceeded; LoginFailed; PermissionDenied].
(** [rename_all = "snake_case"]. *)
Definition action_wire (a : Action) : string :=
  match a with
  | Created => "created"
  | Read => "read"
  | Updated => "updated"
  | Deleted => "deleted"
  | Rotated => "rotated"
  | TokenMinted => "token_minted"
  | TokenRevoked => "token_revoked"
  | LoginSucceeded => "login_succeeded"
  | LoginFailed => "login_failed"
  | PermissionDenied => "permission_denied"
  end%string.

Inductive Actor := ActorUser (id : Id.UserId) | Cluster (name : str) | System.
Definition actor_user (id : Id.UserId) : Actor := ActorUser id.

(** A [DateTime<Utc>] is its number of nanoseconds. *)
Record AuditEntry := mkAuditEntry { at_ : Z; actor : Actor; action : Action; resource : str; detail : option str }.
(** [now] reads the clock, [at] is given the time. *)
Definition entry_now (utc_now : Z) (who : Actor) (what : Action) (on : str) : AuditEntry :=
  mkAuditEntry utc_now who what on None.
Definition entry_at (t : Z) (who : Actor) (what : Action) (on : str) : AuditEntry := mkAuditEntry t who what on None.
Definition with_detail (e : AuditEntry) (d : str) : AuditEntry :=
  mkAuditEntry (at_ e) (actor e) (action e) (resource e) (Some d).

Inductive AuditError := Backend (e : str).
Definition display_audit_error (e : AuditError) : str :=
  match e with Backend e => lit "audit backend error: " ++ e end.

(** *** The sinks *)

(** The trait: a sink appends. *)
Class AuditSink (S : Type) := { append : AuditEntry -> S -> result AuditError () * S }.

(** [InMemoryAuditSink], with what its mutex guards. *)
Abbreviation InMemoryAuditSink := (list AuditEntry).
Definition sink_new : InMemoryAuditSink := [].
Definition sink_entries (s : InMemoryAuditSink) : list AuditEntry := s.
Definition sink_len (s : InMemoryAuditSink) : Z := Z.of_nat (length s).
Definition sink_is_empty (s : InMemoryAuditSink) : bool := sink_len s =? 0.
#[export] Instance in_memory_sink : AuditSink InMemoryAuditSink := {| append entry s := (Ok (), s ++ [entry]) |}.

(** The contract of the trait, over what can be read back of a sink: an append
    that succeeds adds its entry at the end, one that fails adds nothing. *)
Class AppendOnly {S : Type} `{AuditSink S} (log : S -> list AuditEntry) : Prop := {
  append_log e s : match append e s with (Ok _, s') => log s' = log s ++ [e] | (Err _, s') => log s' = log s end;
}.
#[export] Instance in_memory_append_only : AppendOnly sink_entries.
Proof. split. done. Qed.

(** A sequence of appends, from any number of threads: what was answered. *)
Fixpoint append_all {S} `{AuditSink S} (es : list AuditEntry) (s : S) : list (AuditEntry * bool) * S :=
  match es with
  | [] => ([], s)
  | e :: es =>
      let '(r, s) := append e s in
      let '(rs, s) := append_all es s in
      ((e, is_ok r) :: rs, s)
  end.
Definition accepted (rs : list (AuditEntry * bool)) : list AuditEntry :=
  fst <$> List.filter snd rs.

(** *** The wire format *)

Section Wire.
Context `{Id.UuidPackage} (to_rfc3339 : Z -> str) (parse_rfc3339 : str -> option Z).

Definition actor_json (a : Actor) : json :=
  match a with
  | ActorUser id => JObject [(lit "kind", JString (lit "user")); (lit "id", Id.serialize id)]
  | Cluster name => JObject [(lit "kind", JString (lit "cluster")); (lit "name", JString name)]
  | System => JObject [(lit "kind", JString (lit "system"))]
  end.
Definition entry_json (e : AuditEntry) : json :=
  JObject ([(lit "at", JString (to_rfc3339 (at_ e))); (lit "actor", actor_json (actor e));
            (lit "action", JString (lit (action_wire (action e)))); (lit "resource", JString (resource e))]
           ++ match detail e with Some d => [(lit "detail", JString d)] | None => [] end).

(** Reading the object form: a field given twice is refused, unknown ones are
    passed over. *)
Definition field (k : str) (fields : list (str * json)) : option (option json) :=
  match List.filter (fun f => f.1 =s k) fields with
  | [] => Some None
  | [(_, v)] => Some (Some v)
  | _ => None
  end.
Definition required (k : str) (fields : list (str * json)) : option json :=
  match field k fields with Some (Some v) => Some v | _ => None end.
Definition action_read (v : json) : option Action :=
  s ← json_as_str v; str_case s ((fun a => (action_wire a, a)) <$> all_actions).
Definition actor_read (v : json) : option Actor :=
  match v with
  | JObject fields =>
      kind ← required (lit "kind") fields; kind ← json_as_str kind;
      if kind =s lit "user" then id ← required (lit "id") fields; ActorUser <$> Id.deserialize id
      else if kind =s lit "cluster" then name ← required (lit "name") fields; Cluster <$> json_as_str name
      else if kind =s lit "system" then Some System
      else None
  | _ => None
  end.
Definition detail_read (v : option json) : option (option str) :=
  match v with
  | None | Some JNull => Some None
  | Some (JString s) => Some (Some s)
  | Some _ => None
  end.
Definition entry_read (v : json) : option AuditEntry :=
  match v with
  | JObject fields =>
      t ← required (lit "at") fields; t ← json_as_str t; t ← parse_rfc3339 t;
      who ← required (lit "actor") fields; who ← actor_read who;
      what ← required (lit "action") fields; what ← action_read what;
      on ← required (lit "resource") fields; on ← json_as_str on;
      d ← field (lit "detail") fields; d ← detail_read d;
      Some (mkAuditEntry t who what on d)
  | _ => None
  end.

Lemma action_round_trip a : action_read (JString (lit (action_wire a))) = Some a.
Proof. by destruct a. Qed.

Definition actor_ok (a : Actor) : Prop :=
  match a with ActorUser id => 0 <= Id.as_uuid id < 2 ^ 128 | _ => True end.

Lemma actor_round_trip `{!Id.UuidPackageLaws} a : actor_ok a -> actor_read (actor_json a) = Some a.
Proof.
  destruct a as [id|name|]; intros Ha; [|done|done]. unfold actor_read, actor_json.
  change (required (lit "kind") _) with (Some (JString (lit "user"))).
  change (required (lit "id") _) with (Some (Id.serialize id)). cbn [mbind option_bind json_as_str].
  rewrite str_eqb_refl, (Id.typed_id_wire id Ha). done.
Qed.
End Wire.

Lemma append_all_log {S} `{AuditSink S} log `{!AppendOnly log} es s rs s' :
  append_all es s = (rs, s') -> log s' = log s ++ accepted rs /\ fst <$> rs = es.
Proof.
  revert s rs s'. induction es as [|e es IH]; intros s rs s'; cbn [append_all].
  { intros [= <- <-]. by rewrite app_nil_r. }
  pose proof (append_log e s) as Ha. destruct (append e s) as [r s1]. destruct (append_all es s1) as [rs1 s2] eqn:E.
  intros [= <- <-]. destruct (IH _ _ _ E) as [-> <-]. split; [|done].
  unfold accepted. destruct r; simpl; rewrite Ha; [by rewrite <- app_assoc|done].
Qed.
End Trail.

Module Demo.
Definition uuids : Id.UuidPackage := {|
  Id.uuid_error := (); Id.uuid_from_str s := ok_or (parse_nat s) (); Id.uuid_to_string := show_u; Id.uuid_error_text _ := [] |}.
Lemma uuids_laws : @Id.UuidPackageLaws uuids.
Proof. split. intros u Hu. simpl. by rewrite parse_nat_show_u by lia. Qed.
Definition entry : Trail.AuditEntry :=
  Trail.with_detail (Trail.entry_at 1700000000 (Trail.actor_user (Id.from_uuid 77)) Trail.Rotated (lit "secret/x")) (lit "scheduled").
End Demo.

(** ** Properties *)

(** The audit trail only grows and is readable.  For any sink that keeps
    the contract of the trait (the in-memory one does), any sequence of
    appends leaves what was there as a prefix and adds exactly the entries
    whose append succeeded, in order; and an entry's JSON reads back as the
    same entry, the actor's kind, the action's name and an absent detail
    included. *)
Theorem audit_trail_faithful `{Id.UuidPackage} `{!Id.UuidPackageLaws} to_rfc3339 parse_rfc3339
    {S} `{Trail.AuditSink S} log `{!Trail.AppendOnly log} es s rs s' :
  (forall t, parse_rfc3339 (to_rfc3339 t) = Some t) ->
  Forall (fun e => Trail.actor_ok (Trail.actor e)) es ->
  Trail.append_all es s = (rs, s') ->
  log s' = log s ++ Trail.accepted rs /\ fst <$> rs = es
  /\ Forall (fun e => Trail.entry_read parse_rfc3339 (Trail.entry_json to_rfc3339 e) = Some e) (Trail.accepted rs).
Proof.
  intros Ht Hes Hall. destruct (Trail.append_all_log _ _ _ _ _ Hall) as [Hlog Hf]. split_and!; [done..|].
  assert (Hall' : Forall (fun e => Trail.actor_ok (Trail.actor e)) (Trail.accepted rs)).
  { rewrite Forall_forall. intros e (p & -> & Hp)%list_elem_of_fmap. rewrite Forall_forall in Hes. apply Hes. rewrite <- Hf.
    apply list_elem_of_fmap. exists p. split; [done|]. apply list_elem_of_In, List.filter_In in Hp as [Hp _]. by apply list_elem_of_In. }
  eapply Forall_impl; [exact Hall'|]. intros [t who what on d] Hok. cbn in Hok.
  unfold Trail.entry_read, Trail.entry_json. cbn [Trail.at_ Trail.actor Trail.action Trail.resource Trail.detail].
  set (fields := _ ++ _).
  assert (Ha : Trail.required (lit "at") fields = Some (JString (to_rfc3339 t))) by (by destruct d).
  assert (Hb : Trail.required (lit "actor") fields = Some (Trail.actor_json who)) by (by destruct d).
  assert (Hc : Trail.required (lit "action") fields = Some (JString (lit (Trail.action_wire what)))) by (by destruct d).
  assert (Hd : Trail.required (lit "resource") fields = Some (JString on)) by (by destruct d).
  assert (He : Trail.field (lit "detail") fields = Some (JString <$> d)) by (by destruct d).
  rewrite Ha, Hb, Hc, Hd, He. cbn [mbind option_bind json_as_str].
  rewrite Ht, Trail.actor_round_trip, Trail.action_round_trip by done. by destruct d.
Qed.

Lemma audit_trail_faithful_witness :
  exists rs s', @Trail.append_all _ Trail.in_memory_sink [Demo.entry] Trail.sink_new = (rs, s')
  /\ Trail.accepted rs = [Demo.entry] /\ Trail.sink_entries s' = Trail.sink_entries Trail.sink_new ++ Trail.accepted rs
  /\ Forall (fun e => @Trail.entry_read Demo.uuids head (@Trail.entry_json Demo.uuids (fun t => [t]) e) = Some e)
       (Trail.accepted rs).
Proof.
  destruct (@audit_trail_faithful Demo.uuids Demo.uuids_laws (fun t => [t]) head
    _ Trail.in_memory_sink Trail.sink_entries Trail.in_memory_append_only [Demo.entry] Trail.sink_new
    [(Demo.entry, true)] [Demo.entry]) as (Hlog & _ & Hread).
  - done.
  - repeat constructor; done.
  - reflexivity.
  - exists [(Demo.entry, true)], [Demo.entry]. done.
Defined.
