(* ===== verification/Wire.v ===== *)
(** * The JSON of the shared types ([crates/types/src])

    The services exchange [User], [Organization], [Membership],
    [Subscription] and [ContactRequest] as JSON through the [Serialize] and
    [Deserialize] that serde derives, with the attributes the sources give:
    how variants are renamed, which fields are left out when empty.  Reading
    takes the forms the derived code writes (a variant as its name, a struct as
    an object); the text of UUIDs and time stamps belongs to the [uuid] and
    [chrono] packages. *)

From S2P Require Import Prelude RustStr Json AuditTrail Types.
Import AuditTrail.Trail (field).

(** ** serde's rules *)

(** [RenameRule::SnakeCase] on a variant: an underscore before each capital
    but the first, everything in lower case.  [LowerCase] only lowers. *)
Definition to_lower (c : char) : char := if is_ascii_upper c then c + 32 else c.
Definition snake_step (c : char) : str := if is_ascii_upper c then [95; to_lower c] else [c].
Definition snake_case (variant : str) : str :=
  match variant with [] => [] | c :: rest => to_lower c :: flat_map snake_step rest end.
Definition lowercase (variant : str) : str := to_ascii_lowercase variant.

(** A type on the wire: what it is written as, what is read as it, and what
    it is taken to be when its field is missing ([Option]s are [None]). *)
Class Wire (A : Type) := {
  to_value : A -> json;
  from_value : json -> option A;
  missing_field : option A;
}.
#[global] Hint Mode Wire ! : typeclass_instances.

Definition read_field {A} `{Wire A} (k : string) (fields : list (str * json)) : option A :=
  v ← field (lit k) fields;
  match v with None => missing_field | Some v => from_value v end.
Definition write_field {A} `{Wire A} (k : string) (a : A) : list (str * json) := [(lit k, to_value a)].
(** [skip_serializing_if = "Option::is_none"]. *)
Definition write_some {A} `{Wire A} (k : string) (o : option A) : list (str * json) :=
  match o with Some a => write_field k a | None => [] end.
Definition object {A} (read : list (str * json) -> option A) (v : json) : option A :=
  match v with JObject fields => read fields | _ => None end.

#[export] Instance wire_string : Wire str := {| to_value := JString; from_value := json_as_str; missing_field := None |}.
#[export] Instance wire_option {A} `{Wire A} : Wire (option A) := {|
  to_value o := match o with Some a => to_value a | None => JNull end;
  from_value v := match v with JNull => Some None | _ => Some <$> from_value v end;
  missing_field := Some None;
|}.

(** A [serde_json::Value] built from a text keeps the last entry of a name. *)
Definition keep_last (fs : list (str * json)) : list (str * json) :=
  foldr (fun f acc => if existsb (fun g => g.1 =s f.1) acc then acc else f :: acc) [] fs.
Fixpoint as_value (v : json) : json :=
  match v with
  | JArray l => JArray (as_value <$> l)
  | JObject fs => JObject (keep_last ((fun '(k, v) => (k, as_value v)) <$> fs))
  | v => v
  end.

(** [#[serde(default)]]: a missing field is the default; a present one,
    [null] included, must read. *)
Definition read_default {A} (d : A) (read : json -> option A) (k : string) (fields : list (str * json)) : option A :=
  v ← field (lit k) fields;
  match v with None => Some d | Some v => read v end.
Definition read_required {A} (read : json -> option A) (k : string) (fields : list (str * json)) : option A :=
  v ← field (lit k) fields;
  match v with None => None | Some v => read v end.

(** An enum of unit variants, by the name of each. *)
Definition enum {A} (name : A -> str) (all : list A) : Wire A := {|
  to_value a := JString (name a);
  from_value v := s ← json_as_str v; List.find (fun a => name a =s s) all;
  missing_field := None;
|}.

(** ** The types *)

Definition role_variant (r : Role) : string :=
  match r with Owner => "Owner" | Admin => "Admin" | Member => "Member" | Viewer => "Viewer" end%string.
#[export] Instance wire_role : Wire Role := enum (fun r => lowercase (lit (role_variant r))) [Owner; Admin; Member; Viewer].

Definition plan_variant (p : Plan) : string :=
  match p with Free => "Free" | Pro => "Pro" | Team => "Team" | Enterprise => "Enterprise" end%string.
#[export] Instance wire_plan : Wire Plan := enum (fun p => snake_case (lit (plan_variant p))) [Free; Pro; Team; Enterprise].

Definition product_variant (p : Product) : string :=
  match p with
  | FerrFlow => "FerrFlow" | FerrVault => "FerrVault" | FerrTrack => "FerrTrack" | FerrGrowth => "FerrGrowth"
  | FerrFleet => "FerrFleet"
  end%string.
#[export] Instance wire_product : Wire Product := enum (fun p => snake_case (lit (product_variant p))) all_products.

Definition status_variant (s : SubscriptionStatus) : string :=
  match s with
  | Trialing => "Trialing" | Active => "Active" | PastDue => "PastDue" | Canceled => "Canceled" | Incomplete => "Incomplete"
  end%string.
#[export] Instance wire_status : Wire SubscriptionStatus :=
  enum (fun s => snake_case (lit (status_variant s))) [Trialing; Active; PastDue; Canceled; Incomplete].

Definition contact_product_variant (p : ContactProduct) : string :=
  match p with
  | CFerrlabs => "Ferrlabs" | CFerrflow => "Ferrflow" | CFerrvault => "Ferrvault" | CFerrtrack => "Ferrtrack"
  | CFerrgrowth => "Ferrgrowth" | CFerrfleet => "Ferrfleet" | CFerrlens => "Ferrlens" | CFerrgames => "Ferrgames"
  | CAwesomeAlternatives => "AwesomeAlternatives"
  end%string.
#[export] Instance wire_contact_product : Wire ContactProduct :=
  enum (fun p => snake_case (lit (contact_product_variant p)))
    [CFerrlabs; CFerrflow; CFerrvault; CFerrtrack; CFerrgrowth; CFerrfleet; CFerrlens; CFerrgames; CAwesomeAlternatives].

Definition kind_variant (k : RequestKind) : string :=
  match k with
  | Question => "Question" | Bug => "Bug" | Billing => "Billing" | Security => "Security" | Privacy => "Privacy"
  | OtherKind => "Other"
  end%string.
#[export] Instance wire_kind : Wire RequestKind :=
  enum (fun k => snake_case (lit (kind_variant k))) [Question; Bug; Billing; Security; Privacy; OtherKind].

(** [chrono]'s text of a [DateTime<Utc>], and what is documented of it. *)
Class TimeText := { show_time : datetime -> str; parse_time : str -> option datetime }.
Class TimeTextLaws `{TimeText} (in_range : datetime -> Prop) : Prop := {
  time_round_trip t : in_range t -> parse_time (show_time t) = Some t;
}.

Section Structs.
Context `{Id.UuidPackage} `{TimeText}.

Definition wire_uuid : Wire uuid := {|
  to_value u := JString (Id.uuid_to_string u);
  from_value v := s ← json_as_str v; res_ok (Id.uuid_from_str s);
  missing_field := None;
|}.
Definition wire_time : Wire datetime := {|
  to_value t := JString (show_time t);
  from_value v := s ← json_as_str v; parse_time s;
  missing_field := None;
|}.
Abbreviation opt_uuid := (@wire_option _ wire_uuid).
Abbreviation opt_time := (@wire_option _ wire_time).

Definition user_fields (u : User) : list (str * json) :=
  @write_field _ wire_uuid "id" (user_id u) ++ write_field "email" (user_email u) ++ write_field "name" (user_name u)
  ++ @write_field _ wire_time "created_at" (user_created_at u)
  ++ @write_field _ opt_time "email_verified_at" (email_verified_at u).
Definition user_read (fields : list (str * json)) : option User :=
  id ← @read_field _ wire_uuid "id" fields; email ← read_field "email" fields; name ← read_field "name" fields;
  created_at ← @read_field _ wire_time "created_at" fields;
  email_verified_at ← @read_field _ opt_time "email_verified_at" fields;
  Some (mkUser id email name created_at email_verified_at).

Definition organization_fields (o : Organization) : list (str * json) :=
  @write_field _ wire_uuid "id" (organization_id o) ++ write_field "slug" (organization_slug o)
  ++ write_field "name" (organization_name o) ++ @write_field _ wire_time "created_at" (organization_created_at o).
Definition organization_read (fields : list (str * json)) : option Organization :=
  id ← @read_field _ wire_uuid "id" fields; slug ← read_field "slug" fields; name ← read_field "name" fields;
  created_at ← @read_field _ wire_time "created_at" fields;
  Some (mkOrganization id slug name created_at).

Definition membership_fields (m : Membership) : list (str * json) :=
  @write_field _ wire_uuid "user_id" (member_user_id m)
  ++ @write_field _ wire_uuid "organization_id" (member_organization_id m) ++ write_field "role" (role m)
  ++ write_field "ferrflow_role" (ferrflow_role m) ++ write_field "ferrvault_role" (ferrvault_role m)
  ++ write_field "ferrtrack_role" (ferrtrack_role m) ++ write_field "ferrgrowth_role" (ferrgrowth_role m)
  ++ write_field "ferrfleet_role" (ferrfleet_role m) ++ @write_field _ wire_time "joined_at" (joined_at m).
Definition membership_read (fields : list (str * json)) : option Membership :=
  user_id ← @read_field _ wire_uuid "user_id" fields;
  organization_id ← @read_field _ wire_uuid "organization_id" fields; role ← read_field "role" fields;
  ferrflow_role ← read_field "ferrflow_role" fields; ferrvault_role ← read_field "ferrvault_role" fields;
  ferrtrack_role ← read_field "ferrtrack_role" fields; ferrgrowth_role ← read_field "ferrgrowth_role" fields;
  ferrfleet_role ← read_field "ferrfleet_role" fields; joined_at ← @read_field _ wire_time "joined_at" fields;
  Some (mkMembership user_id organization_id role ferrflow_role ferrvault_role ferrtrack_role ferrgrowth_role
          ferrfleet_role joined_at).

Definition subscription_fields (s : Subscription) : list (str * json) :=
  @write_field _ wire_uuid "id" (subscription_id s) ++ @write_field _ wire_uuid "org_id" (subscription_org_id s)
  ++ write_field "product" (subscription_product s) ++ write_field "tier" (tier s) ++ write_field "status" (status s)
  ++ @write_field _ opt_time "trial_ends_at" (trial_ends_at s)
  ++ @write_field _ opt_time "current_period_end" (current_period_end s)
  ++ write_field "stripe_subscription_id" (stripe_subscription_id s)
  ++ @write_field _ wire_time "created_at" (subscription_created_at s)
  ++ @write_field _ wire_time "updated_at" (subscription_updated_at s).
Definition subscription_read (fields : list (str * json)) : option Subscription :=
  id ← @read_field _ wire_uuid "id" fields; org_id ← @read_field _ wire_uuid "org_id" fields;
  product ← read_field "product" fields; tier ← read_field "tier" fields; status ← read_field "status" fields;
  trial_ends_at ← @read_field _ opt_time "trial_ends_at" fields;
  current_period_end ← @read_field _ opt_time "current_period_end" fields;
  stripe_subscription_id ← read_field "stripe_subscription_id" fields;
  created_at ← @read_field _ wire_time "created_at" fields; updated_at ← @read_field _ wire_time "updated_at" fields;
  Some (mkSubscription id org_id product tier status trial_ends_at current_period_end stripe_subscription_id
          created_at updated_at).

Definition contact_fields (r : ContactRequest) : list (str * json) :=
  @write_field _ wire_uuid "request_id" (request_id r) ++ write_field "product" (product r)
  ++ write_field "kind" (kind r) ++ write_field "subject" (subject r) ++ write_field "message" (message r)
  ++ write_field "email" (email r) ++ write_some "name" (name r) ++ @write_some _ wire_uuid "org_id" (org_id r)
  ++ write_some "from_url" (from_url r).
Definition contact_read (fields : list (str * json)) : option ContactRequest :=
  request_id ← @read_field _ wire_uuid "request_id" fields; product ← read_field "product" fields;
  kind ← read_field "kind" fields; subject ← read_field "subject" fields; message ← read_field "message" fields;
  email ← read_field "email" fields; name ← read_field "name" fields; org_id ← @read_field _ opt_uuid "org_id" fields;
  from_url ← read_field "from_url" fields;
  Some (mkContactRequest request_id product kind subject message email name org_id from_url).
End Structs.

#[export] Instance wire_user `{Id.UuidPackage} `{TimeText} : Wire User :=
  {| to_value u := JObject (user_fields u); from_value := object user_read; missing_field := None |}.
#[export] Instance wire_organization `{Id.UuidPackage} `{TimeText} : Wire Organization :=
  {| to_value o := JObject (organization_fields o); from_value := object organization_read; missing_field := None |}.
#[export] Instance wire_membership `{Id.UuidPackage} `{TimeText} : Wire Membership :=
  {| to_value m := JObject (membership_fields m); from_value := object membership_read; missing_field := None |}.
#[export] Instance wire_subscription `{Id.UuidPackage} `{TimeText} : Wire Subscription :=
  {| to_value s := JObject (subscription_fields s); from_value := object subscription_read; missing_field := None |}.
#[export] Instance wire_contact `{Id.UuidPackage} : Wire ContactRequest :=
  {| to_value r := JObject (contact_fields r); from_value := object contact_read; missing_field := None |}.

(** ** Lemmas *)

Lemma filter_Permutation {A} (p : A -> bool) l l' : l ≡ₚ l' -> List.filter p l ≡ₚ List.filter p l'.
Proof.
  induction 1 as [|x l l' _ IH|x y l|l l' l'' _ IH1 _ IH2]; simpl; [done| | |by etrans].
  - destruct (p x); [by constructor|done].
  - destruct (p x), (p y); try done. constructor.
Qed.

Lemma field_Permutation k fs fs' : fs ≡ₚ fs' -> field k fs = field k fs'.
Proof.
  intros Hp. apply (filter_Permutation (fun f => f.1 =s k)) in Hp. unfold field.
  destruct (List.filter _ fs) as [|[a v] [|y l]].
  - by apply Permutation_nil_l in Hp; rewrite <- Hp.
  - by apply Permutation_singleton_l in Hp; rewrite <- Hp.
  - destruct (List.filter _ fs') as [|[a' v'] [|y' l']]; [| |done]; apply Permutation_length in Hp; simpl in Hp; lia.
Qed.

Lemma field_app_unknown k fs extra : Forall (fun e => e.1 <> k) extra -> field k (fs ++ extra) = field k fs.
Proof.
  intros He. unfold field. rewrite List.filter_app.
  replace (List.filter (fun f => f.1 =s k) extra) with (@nil (str * json)); [by rewrite app_nil_r|].
  induction He as [|e extra Hne _ IH]; [done|]. simpl. rewrite (proj2 (str_eqb_neq _ _) Hne). done.
Qed.

(** Looking a field up among written ones. *)
Lemma field_here k v fs : forallb (fun f => negb (f.1 =s k)) fs = true -> field k ((k, v) :: fs) = Some (Some v).
Proof.
  intros Hf. unfold field. simpl. rewrite str_eqb_refl.
  replace (List.filter (fun f => f.1 =s k) fs) with (@nil (str * json)); [done|].
  induction fs as [|f fs IH]; [done|]. simpl in *. apply andb_true_iff in Hf as [H1%negb_true_iff H2]. rewrite H1. auto.
Qed.
Lemma field_there k k' v fs : (k' =s k) = false -> field k ((k', v) :: fs) = field k fs.
Proof. intros Hk. unfold field. simpl. by rewrite Hk. Qed.

(** What the derived code promises: a value reads back.  Nothing but an empty
    option is written as [null]. *)
Class WireLaws (A : Type) `{Wire A} (ok : A -> Prop) : Prop := {
  wire_round_trip (a : A) : ok a -> from_value (to_value a) = Some a;
  wire_not_null (a : A) : to_value a <> JNull;
}.
Definition ok_option {A} (ok : A -> Prop) (o : option A) : Prop := match o with Some a => ok a | None => True end.
Definition anything {A} (a : A) : Prop := True.

Lemma option_round_trip {A} `{Wire A} ok `{!WireLaws A ok} (o : option A) :
  ok_option ok o -> from_value (to_value o) = Some o.
Proof.
  destruct o as [a|]; [|done]. intros Ha. simpl. pose proof (wire_not_null a) as Hn.
  pose proof (wire_round_trip a Ha) as Hr. destruct (to_value a); [done|by rewrite Hr..].
Qed.

Lemma find_name {A} (name : A -> str) (all : list A) a :
  (forall b, name b = name a -> b = a) -> a ∈ all -> List.find (fun b => name b =s name a) all = Some a.
Proof.
  intros Hinj Hin. induction all as [|b all IH]; [set_solver|]. simpl. destruct (name b =s name a) eqn:E.
  - apply str_eqb_eq, Hinj in E. by subst.
  - apply IH. apply elem_of_cons in Hin as [->|]; [by rewrite str_eqb_refl in E|done].
Qed.
Lemma enum_laws {A} (name : A -> str) all :
  (forall a b, name a = name b -> a = b) -> (forall a, a ∈ all) -> @WireLaws A (enum name all) anything.
Proof. intros Hi Ha. split; [|done]. intros a _. simpl. apply find_name; [intros b Hb; by apply Hi|done]. Qed.

Ltac solve_enum :=
  apply enum_laws; [intros [] []; by vm_compute|intros []; set_solver].

#[export] Instance string_laws : WireLaws str anything.
Proof. by split. Qed.
#[export] Instance role_laws : WireLaws Role anything.
Proof. solve_enum. Qed.
#[export] Instance plan_laws : WireLaws Plan anything.
Proof. solve_enum. Qed.
#[export] Instance product_laws : WireLaws Product anything.
Proof. solve_enum. Qed.
#[export] Instance status_laws : WireLaws SubscriptionStatus anything.
Proof. solve_enum. Qed.
#[export] Instance contact_product_laws : WireLaws ContactProduct anything.
Proof. solve_enum. Qed.
#[export] Instance kind_laws : WireLaws RequestKind anything.
Proof. solve_enum. Qed.

Definition is_uuid (u : uuid) : Prop := 0 <= u < 2 ^ 128.
Lemma uuid_laws `{Id.UuidPackage} `{!Id.UuidPackageLaws} : @WireLaws uuid wire_uuid is_uuid.
Proof. split; [|done]. intros u Hu. simpl. by rewrite Id.uuid_round_trip. Qed.
Lemma time_laws `{TimeText} in_range `{!TimeTextLaws in_range} : @WireLaws datetime wire_time in_range.
Proof. split; [|done]. intros t Ht. simpl. by apply time_round_trip. Qed.

(** An object as another program may send it: the fields in any order, among
    fields this version does not know. *)
Definition delivered (keys : list string) (fields sent : list (str * json)) : Prop :=
  exists extra, sent ≡ₚ fields ++ extra /\ Forall (fun e => e.1 ∉ lit <$> keys) extra.

Lemma delivered_field keys fields sent k :
  delivered keys fields sent -> k ∈ keys -> field (lit k) sent = field (lit k) fields.
Proof.
  intros (extra & Hp & He) Hk. rewrite (field_Permutation _ _ _ Hp). apply field_app_unknown.
  eapply Forall_impl; [exact He|]. intros [k' v] Hn Heq. simpl in *. subst k'. set_solver.
Qed.

(** The entries of an object once it is a [Value]. *)
Definition value_entry (f : str * json) : str * json := (f.1, as_value f.2).
Definition value_fields (fs : list (str * json)) : list (str * json) := keep_last (value_entry <$> fs).
Lemma as_value_object fs : as_value (JObject fs) = JObject (value_fields fs).
Proof. cbn [as_value]. unfold value_fields. do 2 f_equal. apply list_fmap_ext. by intros _ [k v] _. Qed.

Lemma keep_last_names k fs :
  existsb (fun g => g.1 =s k) (keep_last fs) = existsb (fun g => g.1 =s k) fs.
Proof.
  induction fs as [|f fs IH]; [done|]. cbn [keep_last foldr existsb]. fold (keep_last fs).
  destruct (existsb (fun g => g.1 =s f.1) (keep_last fs)) eqn:E; [|by cbn [existsb]; rewrite IH].
  rewrite IH. destruct (f.1 =s k) eqn:Ek; [|done]. apply str_eqb_eq in Ek. subst k. by rewrite <- IH.
Qed.

Lemma keep_last_once k fs :
  (length (List.filter (fun f => f.1 =s k) fs) <= 1)%nat ->
  List.filter (fun f => f.1 =s k) (keep_last fs) = List.filter (fun f => f.1 =s k) fs.
Proof.
  induction fs as [|f fs IH]; [done|]. cbn [List.filter]. destruct (f.1 =s k) eqn:Ek; cbn [length]; intros Hl.
  - assert (Hn : List.filter (fun g => g.1 =s k) fs = []) by (apply length_zero_iff_nil; lia).
    apply str_eqb_eq in Ek. cbn [keep_last foldr]. fold (keep_last fs). rewrite Ek, keep_last_names.
    replace (existsb (fun g => g.1 =s k) fs) with false.
    + cbn [List.filter]. rewrite Ek, str_eqb_refl, IH, Hn by lia. done.
    + symmetry. apply not_true_is_false. intros (g & Hg & Hgk)%existsb_exists.
      assert (Hin : g ∈ List.filter (fun g => g.1 =s k) fs) by (apply list_elem_of_In, List.filter_In; by split).
      rewrite Hn in Hin. by apply not_elem_of_nil in Hin.
  - cbn [keep_last foldr]. fold (keep_last fs). destruct (existsb _ (keep_last fs)); [by apply IH|].
    cbn [List.filter]. rewrite Ek. by apply IH.
Qed.

Lemma filter_fmap_name k (fs : list (str * json)) :
  List.filter (fun f => f.1 =s k) (value_entry <$> fs)
  = value_entry <$> List.filter (fun f => f.1 =s k) fs.
Proof.
  induction fs as [|f fs IH]; [done|]. rewrite fmap_cons. cbn [List.filter value_entry fst].
  destruct (f.1 =s k); [rewrite fmap_cons|]; by rewrite IH.
Qed.

Lemma field_value k fs v : field k fs = Some v -> field k (value_fields fs) = Some (as_value <$> v).
Proof.
  unfold field, value_fields. intros Hf. rewrite keep_last_once; rewrite filter_fmap_name.
  - destruct (List.filter _ fs) as [|[k' w] [|y l]]; by simplify_eq/=.
  - rewrite length_fmap. destruct (List.filter _ fs) as [|[k' w] [|y l]]; simplify_eq/=; lia.
Qed.

Lemma delivered_value keys fields sent k v :
  delivered keys fields sent -> k ∈ keys -> field (lit k) fields = Some v ->
  field (lit k) (value_fields sent) = Some (as_value <$> v).
Proof. intros Hd Hk Hf. apply field_value. by rewrite (delivered_field keys fields). Qed.

Definition user_keys : list string := ["id"; "email"; "name"; "created_at"; "email_verified_at"].
Definition organization_keys : list string := ["id"; "slug"; "name"; "created_at"].
Definition membership_keys : list string :=
  ["user_id"; "organization_id"; "role"; "ferrflow_role"; "ferrvault_role"; "ferrtrack_role"; "ferrgrowth_role";
   "ferrfleet_role"; "joined_at"].
Definition subscription_keys : list string :=
  ["id"; "org_id"; "product"; "tier"; "status"; "trial_ends_at"; "current_period_end"; "stripe_subscription_id";
   "created_at"; "updated_at"].
Definition contact_keys : list string :=
  ["request_id"; "product"; "kind"; "subject"; "message"; "email"; "name"; "org_id"; "from_url"].

Lemma write_some_Some {A} `{Wire A} k (a : A) : write_some k (Some a) = write_field k (Some a).
Proof. done. Qed.
Lemma write_some_None {A} `{Wire A} k : write_some k (@None A) = [].
Proof. done. Qed.

(** The fields found in an object that was delivered. *)
Ltac deliver Hd :=
  unfold read_field; rewrite !(delivered_field _ _ _ _ Hd) by (apply (bool_decide_unpack _); vm_compute; exact I); clear Hd;
  rewrite ?write_some_Some, ?write_some_None; unfold write_field; cbn [app];
  repeat first [rewrite field_here by reflexivity | rewrite field_there by reflexivity].
(** The values read back, the hypotheses on them at hand. *)
Lemma ok_option_anything {A} (o : option A) : ok_option anything o.
Proof. by destruct o. Qed.
Ltac read_back_with tac :=
  cbn [mbind option_bind];
  repeat match goal with
    | |- context [@from_value ?A ?W (@to_value ?A ?W ?a)] =>
        let E := fresh in
        assert (E : @from_value A W (@to_value A W a) = Some a)
          by first [apply (@wire_round_trip _ _ anything _); exact I
                   |apply (@wire_round_trip _ _ _ uuid_laws); assumption
                   |apply (@wire_round_trip _ _ _ (time_laws _)); assumption
                   |apply (@option_round_trip _ _ anything _); apply ok_option_anything
                   |apply (@option_round_trip _ _ _ uuid_laws); assumption
                   |apply (@option_round_trip _ _ _ (time_laws _)); assumption
                   |tac];
        rewrite E; clear E; cbn [mbind option_bind]
    end.
Ltac read_back := read_back_with fail.

Section Delivery.
Context `{Id.UuidPackage} `{!Id.UuidPackageLaws} `{TimeText} in_range `{!TimeTextLaws in_range}.

Definition user_ok (u : User) : Prop :=
  is_uuid (user_id u) /\ in_range (user_created_at u) /\ ok_option in_range (email_verified_at u).
Lemma user_delivered u sent : user_ok u -> delivered user_keys (user_fields u) sent -> user_read sent = Some u.
Proof. intros (? & ? & ?) Hd. unfold user_read, user_fields in *. deliver Hd. read_back. by destruct u. Qed.

Definition organization_ok (o : Organization) : Prop := is_uuid (organization_id o) /\ in_range (organization_created_at o).
Lemma organization_delivered o sent :
  organization_ok o -> delivered organization_keys (organization_fields o) sent -> organization_read sent = Some o.
Proof. intros (? & ?) Hd. unfold organization_read, organization_fields in *. deliver Hd. read_back. by destruct o. Qed.

Definition membership_ok (m : Membership) : Prop :=
  is_uuid (member_user_id m) /\ is_uuid (member_organization_id m) /\ in_range (joined_at m).
Lemma membership_delivered m sent :
  membership_ok m -> delivered membership_keys (membership_fields m) sent -> membership_read sent = Some m.
Proof. intros (? & ? & ?) Hd. unfold membership_read, membership_fields in *. deliver Hd. read_back. by destruct m. Qed.

Definition subscription_ok (s : Subscription) : Prop :=
  is_uuid (subscription_id s) /\ is_uuid (subscription_org_id s) /\ ok_option in_range (trial_ends_at s)
  /\ ok_option in_range (current_period_end s) /\ in_range (subscription_created_at s)
  /\ in_range (subscription_updated_at s).
Lemma subscription_delivered s sent :
  subscription_ok s -> delivered subscription_keys (subscription_fields s) sent -> subscription_read sent = Some s.
Proof. intros (? & ? & ? & ? & ? & ?) Hd. unfold subscription_read, subscription_fields in *. deliver Hd. read_back. by destruct s. Qed.

Definition contact_ok (r : ContactRequest) : Prop := is_uuid (request_id r) /\ ok_option is_uuid (org_id r).
Lemma contact_delivered r sent :
  contact_ok r -> delivered contact_keys (contact_fields r) sent -> contact_read sent = Some r.
Proof.
  destruct r as [id p k s m e n o u]. intros (? & ?) Hd. unfold contact_read, contact_fields in *.
  cbn [request_id product kind subject message email name org_id from_url] in *.
  destruct n, o, u; deliver Hd; by read_back.
Qed.
End Delivery.

(** A field that occurs twice, or a required one that is missing, is refused. *)
Definition occurs (k : string) (fields : list (str * json)) : nat := length (List.filter (fun f => f.1 =s lit k) fields).
Lemma field_occurs k fields :
  match occurs k fields with
  | O => field (lit k) fields = Some None
  | S O => exists v, field (lit k) fields = Some (Some v)
  | _ => field (lit k) fields = None
  end.
Proof. unfold occurs, field. destruct (List.filter _ fields) as [|[k' v] [|y l]]; simpl; eauto. Qed.
Lemma read_field_twice {A} `{Wire A} k fields : (2 <= occurs k fields)%nat -> read_field (A := A) k fields = None.
Proof. intros Ho. pose proof (field_occurs k fields) as Hf. unfold read_field. destruct (occurs k fields) as [|[|n]]; [lia..|]. by rewrite Hf. Qed.
Lemma read_field_missing {A} `{Wire A} k fields :
  missing_field (A := A) = None -> occurs k fields = 0%nat -> read_field (A := A) k fields = None.
Proof. intros Hm Ho. pose proof (field_occurs k fields) as Hf. unfold read_field. rewrite Ho in Hf. by rewrite Hf. Qed.

(** The fields a contact request cannot go without. *)
Definition contact_required : list string := ["request_id"; "product"; "kind"; "subject"; "message"; "email"].

Ltac refuse_with lem :=
  repeat match goal with
    | |- (@read_field ?A ?W ?k ?fs ≫= _) = None =>
        first [rewrite (lem A W k fs) by (done || assumption); reflexivity
              |destruct (@read_field A W k fs); [cbn [mbind option_bind]|reflexivity]]
    end.

(** A contact request with a field given twice, or without one it needs, is
    refused, whatever else the object holds. *)
Theorem contact_field_errors `{Id.UuidPackage} k fields :
  (k ∈ contact_keys /\ (2 <= occurs k fields)%nat) \/ (k ∈ contact_required /\ occurs k fields = 0%nat) ->
  from_value (A := ContactRequest) (JObject fields) = None.
Proof.
  cbn [from_value wire_contact object]. unfold contact_read.
  intros [[Hk Ho]|[Hk Ho]]; repeat (apply elem_of_cons in Hk as [->|Hk]); try by apply not_elem_of_nil in Hk.
  all: first [solve [refuse_with @read_field_twice] | solve [refuse_with @read_field_missing]].
Qed.

(** The name of a product in JSON is not its slug: the code's variants have two
    capitals, the slugs no underscore. *)
Lemma product_wire_not_slug (p q : Product) : to_value p <> JString (slug q).
Proof. by destruct p, q. Qed.
(** The contact form's products are written as their labels, one excepted. *)
Lemma contact_product_wire (p : ContactProduct) :
  to_value p = JString (match p with CAwesomeAlternatives => lit "awesome_alternatives" | p => product_label p end).
Proof. by destruct p. Qed.

(** ** Concrete packages for the witnesses *)

Module Demo.
Definition times : TimeText := {| show_time := show_u; parse_time := parse_nat |}.
Lemma times_laws : @TimeTextLaws times (fun t => 0 <= t).
Proof. split. intros t Ht. simpl. by apply parse_nat_show_u. Qed.
Definition contact : ContactRequest :=
  mkContactRequest 7 CAwesomeAlternatives Billing (lit "Invoice") (lit "Where is it?") (lit "ada@example.com")
    None (Some 12) None.
(** The organization first, with an attachment count a newer sender adds. *)
Definition sent : list (str * json) :=
  [(lit "org_id", JString (lit "12")); (lit "attachment_count", JInt 2); (lit "request_id", JString (lit "7"));
   (lit "product", JString (lit "awesome_alternatives")); (lit "kind", JString (lit "billing"));
   (lit "subject", JString (lit "Invoice")); (lit "message", JString (lit "Where is it?"));
   (lit "email", JString (lit "ada@example.com"))].
Lemma contact_is_ok : contact_ok contact.
Proof. split; cbv [contact request_id org_id ok_option is_uuid]; lia. Qed.
Lemma sent_delivered : delivered contact_keys (@contact_fields AuditTrail.Demo.uuids contact) sent.
Proof.
  exists [(lit "attachment_count", JInt 2)]. split.
  - replace (@contact_fields AuditTrail.Demo.uuids contact) with (drop 2 sent ++ take 1 sent) by (vm_compute; reflexivity).
    change sent with (take 1 sent ++ [(lit "attachment_count", JInt 2)] ++ drop 2 sent) at 1. solve_Permutation.
  - apply Forall_singleton. apply (bool_decide_unpack _). vm_compute. exact I.
Qed.
End Demo.

(** ** Properties *)

(** C34: what one service writes, every other reads.  A user, an organization,
    a membership, a subscription or a contact request, written as JSON, reads
    back as the same value when its fields arrive in any order and among any
    fields that a newer sender has added: variants under the names serde gives
    them, absent options and left-out fields included.  (UUIDs of 128 bits,
    time stamps whose text the package reads back.) *)
Theorem shared_types_forward_compatible `{Id.UuidPackage} `{!Id.UuidPackageLaws} `{TimeText} in_range
    `{!TimeTextLaws in_range} sent :
  (forall u, user_ok in_range u -> delivered user_keys (user_fields u) sent -> from_value (JObject sent) = Some u)
  /\ (forall o, organization_ok in_range o -> delivered organization_keys (organization_fields o) sent ->
        from_value (JObject sent) = Some o)
  /\ (forall m, membership_ok in_range m -> delivered membership_keys (membership_fields m) sent ->
        from_value (JObject sent) = Some m)
  /\ (forall s, subscription_ok in_range s -> delivered subscription_keys (subscription_fields s) sent ->
        from_value (JObject sent) = Some s)
  /\ (forall r, contact_ok r -> delivered contact_keys (contact_fields r) sent -> from_value (JObject sent) = Some r).
Proof.
  split_and!; intros ?; cbn [from_value wire_user wire_organization wire_membership wire_subscription wire_contact object].
  - by apply user_delivered.
  - by apply organization_delivered.
  - by apply membership_delivered.
  - by apply subscription_delivered.
  - by apply contact_delivered.
Qed.

Lemma shared_types_forward_compatible_witness :
  delivered contact_keys (@contact_fields AuditTrail.Demo.uuids Demo.contact) Demo.sent
  /\ @from_value _ (@wire_contact AuditTrail.Demo.uuids) (JObject Demo.sent) = Some Demo.contact.
Proof.
  split; [exact Demo.sent_delivered|].
  destruct (@shared_types_forward_compatible AuditTrail.Demo.uuids AuditTrail.Demo.uuids_laws Demo.times
              (fun t => 0 <= t) Demo.times_laws Demo.sent) as (_ & _ & _ & _ & Hc).
  apply Hc; [exact Demo.contact_is_ok|exact Demo.sent_delivered].
Defined.
