(* ===== verification/EnvelopeWire.v ===== *)
(** * The JSON of telemetry envelopes ([crates/telemetry/src/events.rs])

    What serde derives for [Envelope]: the surface and the event under their
    snake-case names, the hashes as [null] when absent, the properties as an
    object in the order of a [BTreeMap], the schema version as a [u32]. *)

From S2P Require Import Prelude RustStr Json AuditTrail Types Wire Telemetry.
Import AuditTrail.Trail (field).
Import Telemetry.Events.

#[export] Instance wire_surface : Wire Surface := enum surface_slug all_surfaces.
#[export] Instance wire_event : Wire Event := enum event_wire ALL_EVENTS.
#[export] Instance wire_u32 : Wire Z := {|
  to_value := JInt;
  from_value v := match v with JInt n => u32_try_from n | _ => None end;
  missing_field := None;
|}.

(** [BTreeMap<String, Value>]: written in the order of the keys; a key read
    twice keeps its last value. *)
Definition key_le (a b : str * json) : Prop := str_le a.1 b.1.
#[export] Instance key_le_dec a b : Decision (key_le a b).
Proof. unfold key_le. apply _. Defined.
#[export] Instance wire_properties : Wire (gmap str json) := {|
  to_value m := JObject (merge_sort key_le (map_to_list m));
  from_value v :=
    match v with JObject fs => Some (list_to_map (reverse ((fun f => (f.1, as_value f.2)) <$> fs))) | _ => None end;
  missing_field := None;
|}.

Section Envelope.
Context `{TimeText}.
Definition envelope_fields (e : Envelope) : list (str * json) :=
  write_field "surface" (env_surface e) ++ write_field "event" (event e) ++ write_field "org_hash" (org_hash e)
  ++ write_field "user_hash" (user_hash e) ++ write_field "properties" (properties e)
  ++ write_field "schema_version" (schema_version e) ++ @write_field _ wire_time "occurred_at" (occurred_at e).
Definition envelope_read (fields : list (str * json)) : option Envelope :=
  surface ← read_field "surface" fields; event ← read_field "event" fields; org_hash ← read_field "org_hash" fields;
  user_hash ← read_field "user_hash" fields; properties ← read_field "properties" fields;
  schema_version ← read_field "schema_version" fields; occurred_at ← @read_field _ wire_time "occurred_at" fields;
  Some (mkEnvelope surface event org_hash user_hash properties schema_version occurred_at).
End Envelope.
#[export] Instance wire_envelope `{TimeText} : Wire Envelope :=
  {| to_value e := JObject (envelope_fields e); from_value := object envelope_read; missing_field := None |}.

(** ** Lemmas *)

#[export] Instance surface_laws : WireLaws Surface anything.
Proof. solve_enum. Qed.
#[export] Instance event_laws : WireLaws Event anything.
Proof. solve_enum. Qed.
Definition is_u32 (n : Z) : Prop := 0 <= n <= u32_max.
Lemma u32_laws : @WireLaws Z wire_u32 is_u32.
Proof.
  split; [|done]. intros n Hn. cbn [from_value to_value wire_u32]. unfold u32_try_from, try_from.
  by rewrite (proj2 (in_range_spec 0 u32_max n) Hn).
Qed.

(** Every [Value] of a property is one: no object in it repeats a key. *)
Definition all_values (m : gmap str json) : Prop := map_Forall (fun _ v => as_value v = v) m.
Lemma properties_laws : @WireLaws (gmap str json) wire_properties all_values.
Proof.
  split; [|done]. intros m Hm. cbn [from_value to_value wire_properties]. f_equal.
  set (l := merge_sort key_le (map_to_list m)).
  assert (Hp : l ≡ₚ map_to_list m) by apply merge_sort_Permutation.
  assert (Hv : (fun f : str * json => (f.1, as_value f.2)) <$> l = l).
  { transitivity (id <$> l); [|apply list_fmap_id]. apply list_fmap_ext. intros i [k v] Hi. simpl.
    f_equal. apply list_elem_of_lookup_2 in Hi. rewrite Hp in Hi. apply elem_of_map_to_list in Hi. by apply (Hm k). }
  rewrite Hv. rewrite <- (list_to_map_to_list m). apply list_to_map_proper.
  - rewrite reverse_Permutation, Hp. apply NoDup_fst_map_to_list.
  - by rewrite reverse_Permutation.
Qed.

Definition envelope_keys : list string :=
  ["surface"; "event"; "org_hash"; "user_hash"; "properties"; "schema_version"; "occurred_at"].
Definition envelope_ok (in_range : datetime -> Prop) (e : Envelope) : Prop :=
  all_values (properties e) /\ is_u32 (schema_version e) /\ in_range (occurred_at e).

(** An envelope reads back whatever the order of its fields and whatever a
    newer sender added: the event, the surface, the hashes, the properties. *)
Theorem envelope_delivered `{TimeText} in_range `{!TimeTextLaws in_range} e sent :
  envelope_ok in_range e -> delivered envelope_keys (envelope_fields e) sent ->
  from_value (JObject sent) = Some e.
Proof.
  intros (Hv & Hs & Ht) Hd. cbn [from_value wire_envelope object]. unfold envelope_read, envelope_fields in *. deliver Hd.
  read_back_with ltac:(first [apply (@wire_round_trip _ _ _ properties_laws); assumption
                             |apply (@wire_round_trip _ _ _ u32_laws); assumption]). by destruct e.
Qed.

(** What the builders make can be sent: the schema version is a constant and
    every property was given as a [Value]. *)
Lemma built_envelope_ok in_range now e bs :
  in_range now -> Forall (fun b => match b with WithProperty _ v => as_value v = v | _ => True end) bs ->
  envelope_ok in_range (foldl build1 (envelope_new now e) bs).
Proof.
  intros Hn Hb. assert (He : envelope_ok in_range (envelope_new now e)).
  { split; [apply map_Forall_empty|]. split; [change (0 <= 1 <= 4294967295); lia|done]. }
  revert He. generalize (envelope_new now e) as v. induction Hb as [|b bs Hb _ IH]; intros v Hv; [done|]. simpl. apply IH.
  destruct Hv as (H1 & H2 & H3), b as [h|h|k w]; [done|done|]. split; [|done]. by apply map_Forall_insert_2.
Qed.
