(* ===== verification/OauthWire.v ===== *)
(** * The JSON of the OAuth providers ([crates/oauth/src/lib.rs])

    What serde derives for [TokenResponse], [GoogleUserInfo],
    [GitHubUserInfo] and [DiscordUserInfo]; [Oauth] takes these readers as
    parameters.  Here they are, over the text parser of [serde_json], and what
    identities they let through.  A derived reader takes an object by the names
    of its fields and an array by their positions; both are here. *)

From S2P Require Import Prelude RustStr Json AuditTrail Wire Oauth.
Import AuditTrail.Trail (field).

#[export] Instance wire_bool : Wire bool := {| to_value := JBool; from_value := as_bool; missing_field := None |}.
#[export] Instance wire_u64 : Wire Z := {|
  to_value := JInt;
  from_value v := match v with JInt n => u64_try_from n | _ => None end;
  missing_field := None;
|}.

(** A struct from an object ([visit_map]) or from an array ([visit_seq]). *)
Definition struct_read {A} (map : list (str * json) -> option A) (seq : list json -> option A) (v : json) : option A :=
  match v with JObject fs => map fs | JArray l => seq l | _ => None end.
(** The next element of an array, which must be there even for an [Option];
    one with a default may be past the end; none may be left over. *)
Definition next_element {A} `{Wire A} (l : list json) : option (A * list json) :=
  match l with [] => None | v :: l => a ← from_value v; Some (a, l) end.
Definition next_default {A} (d : A) (read : json -> option A) (l : list json) : option (A * list json) :=
  match l with [] => Some (d, []) | v :: l => a ← read v; Some (a, l) end.
Definition end_seq {A} (l : list json) (a : A) : option A := match l with [] => Some a | _ => None end.

Definition token_read : json -> option TokenResponse :=
  struct_read
    (fun fs =>
      access_token ← read_field (A := option str) "access_token" fs; error ← read_field (A := option str) "error" fs;
      Some (mkTokenResponse access_token error))
    (fun l =>
      '(access_token, l) ← next_element (A := option str) l; '(error, l) ← next_element (A := option str) l;
      end_seq l (mkTokenResponse access_token error)).
Definition google_read : json -> option GoogleUserInfo :=
  struct_read
    (fun fs =>
      sub ← read_field (A := str) "sub" fs; email ← read_field (A := option str) "email" fs;
      email_verified ← read_default false as_bool "email_verified" fs; name ← read_field (A := option str) "name" fs;
      Some (mkGoogle sub email email_verified name))
    (fun l =>
      '(sub, l) ← next_element (A := str) l; '(email, l) ← next_element (A := option str) l;
      '(email_verified, l) ← next_default false as_bool l; '(name, l) ← next_element (A := option str) l;
      end_seq l (mkGoogle sub email email_verified name)).
Definition github_read : json -> option GitHubUserInfo :=
  struct_read
    (fun fs =>
      id ← read_field (A := Z) "id" fs; email ← read_field (A := option str) "email" fs;
      name ← read_field (A := option str) "name" fs; login ← read_field (A := option str) "login" fs;
      Some (mkGitHub id email name login))
    (fun l =>
      '(id, l) ← next_element (A := Z) l; '(email, l) ← next_element (A := option str) l;
      '(name, l) ← next_element (A := option str) l; '(login, l) ← next_element (A := option str) l;
      end_seq l (mkGitHub id email name login)).
Definition discord_read : json -> option DiscordUserInfo :=
  struct_read
    (fun fs =>
      id ← read_field (A := str) "id" fs; username ← read_field (A := str) "username" fs;
      global_name ← read_field (A := option str) "global_name" fs; email ← read_field (A := option str) "email" fs;
      verified ← read_default false as_bool "verified" fs;
      Some (mkDiscord id username global_name email verified))
    (fun l =>
      '(id, l) ← next_element (A := str) l; '(username, l) ← next_element (A := str) l;
      '(global_name, l) ← next_element (A := option str) l; '(email, l) ← next_element (A := option str) l;
      '(verified, l) ← next_default false as_bool l;
      end_seq l (mkDiscord id username global_name email verified)).

(** The package around the readers: the transport, the text of a body, the
    parser of JSON text and the text of its errors. *)
Class JsonOutside := {
  jo_send : OAuthRequest -> result str (Z * bytes);
  jo_status_error : Z -> str;
  jo_text : bytes -> result str str;
  jo_from_slice : bytes -> result str json;
  jo_from_str : str -> result str json;
  jo_why : json -> str;
}.
Definition decode `{JsonOutside} {A} (read : json -> option A) (r : result str json) : result str A :=
  v ← r; ok_or (read v) (jo_why v).
#[export] Instance derived `{JsonOutside} : OAuthOutside := {|
  oa_send := jo_send;
  oa_status_error := jo_status_error;
  oa_text := jo_text;
  oa_token_json b := decode token_read (jo_from_slice b);
  google_json s := decode google_read (jo_from_str s);
  github_json s := decode github_read (jo_from_str s);
  discord_json s := decode discord_read (jo_from_str s);
|}.

(** ** Lemmas *)

Lemma decode_Ok `{JsonOutside} {A} (read : json -> option A) r a :
  decode read r = Ok a <-> exists v, r = Ok v /\ read v = Some a.
Proof. unfold decode. rewrite result_bind_Ok. by setoid_rewrite ok_or_Ok. Qed.

(** A flag that defaults to false is true exactly where the object says so,
    and in an array exactly where the next element does. *)
Lemma default_false k fs b :
  read_default false as_bool k fs = Some b -> (b = true <-> field (lit k) fs = Some (Some (JBool true))).
Proof.
  unfold read_default. destruct (field (lit k) fs) as [[v|]|]; simpl; [|by intros [= <-]|done].
  destruct v as [|[]| | | | |]; simpl; intros [= <-]; by split.
Qed.
Lemma next_default_false l b l' :
  next_default false as_bool l = Some (b, l') -> (b = true <-> l !! 0%nat = Some (JBool true)).
Proof.
  destruct l as [|v l]; simpl; [by intros [= <- _]|].
  destruct v as [|[]| | | | |]; simpl; intros [= <- _]; by split.
Qed.
Lemma next_element_Some {A} `{Wire A} l a l' : next_element (A := A) l = Some (a, l') -> exists v, l = v :: l'.
Proof. destruct l as [|v l]; simpl; [done|]. destruct (from_value v); simpl; [|done]. intros [= _ <-]. by exists v. Qed.

(** Where a provider vouches for the address: a flag of the object, or its
    position in an array. *)
Definition flag (key : string) (position : nat) (v : json) : Prop :=
  match v with
  | JObject fs => field (lit key) fs = Some (Some (JBool true))
  | JArray l => l !! position = Some (JBool true)
  | _ => False
  end.
Definition vouched (p : OAuthProvider) (v : json) : Prop :=
  match p with Google => flag "email_verified" 2 v | GitHub => False | Discord => flag "verified" 4 v end.

(** The steps of a reader, one at a time. *)
Ltac next_step H :=
  match type of H with
  | context [next_element ?l] =>
      let E := fresh "E" in let v := fresh "v" in let R := fresh "R" in
      destruct (next_element l) as [[? ?]|] eqn:E; [|discriminate H]; apply next_element_Some in E as [v R]; subst l; cbn [mbind option_bind] in H
  end.

Lemma google_flag v g : google_read v = Some g -> (g_email_verified g = true <-> flag "email_verified" 2 v).
Proof.
  destruct v as [| | | | |l|fs]; try done; cbn [google_read struct_read flag]; intros Hr.
  - repeat next_step Hr. destruct (next_default false as_bool _) as [[b l']|] eqn:Hb; [|discriminate Hr]. cbn [mbind option_bind] in Hr.
    next_step Hr. apply next_default_false in Hb. cbn [lookup list_lookup]. unfold end_seq in Hr. case_match; [|done]. by injection Hr as <-.
  - apply bind_Some in Hr as (sub & _ & Hr). apply bind_Some in Hr as (email & _ & Hr).
    apply bind_Some in Hr as (b & Hb%default_false & Hr). apply bind_Some in Hr as (name & _ & [= <-]). exact Hb.
Qed.
Lemma discord_flag v d : discord_read v = Some d -> (d_verified d = true <-> flag "verified" 4 v).
Proof.
  destruct v as [| | | | |l|fs]; try done; cbn [discord_read struct_read flag]; intros Hr.
  - repeat next_step Hr. destruct (next_default false as_bool _) as [[b l']|] eqn:Hb; [|discriminate Hr]. cbn [mbind option_bind] in Hr.
    apply next_default_false in Hb. cbn [lookup list_lookup]. unfold end_seq in Hr. case_match; [|done]. by injection Hr as <-.
  - apply bind_Some in Hr as (id & _ & Hr). apply bind_Some in Hr as (username & _ & Hr).
    apply bind_Some in Hr as (global & _ & Hr). apply bind_Some in Hr as (email & _ & Hr).
    apply bind_Some in Hr as (b & Hb%default_false & [= <-]). exact Hb.
Qed.

(** ** Properties *)

(** C39: an address counts as verified exactly where the provider vouches for
    it.  An identity read from a body is verified if and only if the provider is
    Google or Discord, never GitHub, and the body is an object whose flag occurs
    once and is the literal [true], or an array (which the derived readers take
    by position) with [true] in the flag's place: a missing flag, a [null], a
    string or a number never verifies. *)
Theorem verified_email_was_asserted `{JsonOutside} p body u :
  parse_user p body = Ok u ->
  exists v, jo_from_str body = Ok v /\ ou_provider u = p /\ (ou_email_verified u = true <-> vouched p v).
Proof.
  destruct p; unfold parse_user; intros (info & Hi%map_err_Ok & [= <-])%result_bind_Ok;
    apply decode_Ok in Hi as (v & Hs & Hr); exists v; (split; [exact Hs|]); (split; [done|]).
  - exact (google_flag v info Hr).
  - done.
  - exact (discord_flag v info Hr).
Qed.

(** ** A concrete package for the witness: a text is the document it names. *)

Module Demo.
Definition google : json :=
  JObject [(lit "name", JString (lit "Ada Lovelace")); (lit "email_verified", JBool true); (lit "sub", JString (lit "107"));
           (lit "email", JString (lit "ada@example.com")); (lit "locale", JString (lit "en"))].
Definition outside : JsonOutside := {|
  jo_send _ := Err []; jo_status_error _ := []; jo_text b := Ok b; jo_from_slice _ := Err []; jo_from_str _ := Ok google;
  jo_why _ := [] |}.
End Demo.

Lemma verified_email_was_asserted_witness :
  exists v, @jo_from_str Demo.outside [] = Ok v /\ Google = Google /\ (true = true <-> vouched Google v).
Proof.
  apply (@verified_email_was_asserted Demo.outside Google []
    (mkOAuthUser Google (lit "107") (Some (lit "ada@example.com")) true (Some (lit "Ada Lovelace")))). reflexivity.
Defined.
