(* ===== verification/Rs256.v ===== *)
(** * ID tokens signed with RS256 ([jsonwebtoken] and [serde_json] behind [crates/oauth/src/oidc.rs])

    [Oidc] takes the JWT package and the reading of JSON bodies as the
    operations of a class and what it relies on of them as laws.  This file has
    what serde derives for the crate's own structs, and an instance of the
    class on real text: base64 and JSON, SHA-256, and RSASSA-PKCS1-v1_5
    verification (RFC 8017) on machine-word big numbers, with the claims
    checked as [jsonwebtoken] documents.  The laws are proved of it. *)

From Bignums Require Import BigN.
From S2P Require Import Prelude RustStr Sha256 Base64 Json AuditTrail Wire SerdeJson Oidc.
Import AuditTrail.Trail (field).

(** ** Deserialize for [IssuerMetadata] and [TokenResponse] *)

Definition strings_read (v : json) : option (list str) := l ← as_array v; mapM json_as_str l.
Definition meta_read : json -> option IssuerMetadata :=
  object (fun fs =>
    issuer ← read_field (A := str) "issuer" fs;
    authorization_endpoint ← read_field (A := str) "authorization_endpoint" fs;
    token_endpoint ← read_field (A := str) "token_endpoint" fs; jwks_uri ← read_field (A := str) "jwks_uri" fs;
    algs ← read_default [] strings_read "id_token_signing_alg_values_supported" fs;
    Some (mkMeta issuer authorization_endpoint token_endpoint jwks_uri algs)).
Definition id_token_read : json -> option (option str) := object (read_field (A := option str) "id_token").

(** ** RSA *)

(** A big-endian number. *)
Definition be_bigN (b : bytes) : bigN := foldl (fun acc x => acc * 256 + BigN.of_N (Z.to_N x))%bigN 0%bigN b.
Definition be_Z (b : bytes) : Z := foldl (fun acc x => acc * 256 + x) 0 b.
(** Square and multiply. *)
Fixpoint pow_mod (n b : bigN) (e : positive) : bigN :=
  match e with
  | xH => (b mod n)%bigN
  | xO e => let r := pow_mod n b e in (BigN.square r mod n)%bigN
  | xI e => let r := pow_mod n b e in (BigN.square r mod n * b mod n)%bigN
  end.

Record RsaKey := mkRsaKey { modulus : bytes; exponent : positive }.
(** The DER prefix of a SHA-256 [DigestInfo], and EMSA-PKCS1-v1_5. *)
Definition digest_info : bytes := unwrap_or (hex_decode (lit "3031300d060960864801650304020105000420")) [].
Definition emsa_pkcs1 (k : nat) (message : bytes) : bytes :=
  let t := digest_info ++ sha256 message in
  [0; 1] ++ replicate (k - length t - 3) 255 ++ [0] ++ t.
Definition rs256_verify (key : RsaKey) (message signature : bytes) : bool :=
  let k := length (modulus key) in
  let n := be_bigN (modulus key) in
  let s := be_bigN signature in
  bool_decide (length signature = k) && (62 <=? k)%nat && BigN.ltb s n
  && BigN.eqb (pow_mod n s (exponent key)) (be_bigN (emsa_pkcs1 k message)).

(** ** Tokens *)

Definition algorithm_names : list (string * Algorithm) :=
  [("HS256", HS256); ("HS384", HS384); ("HS512", HS512); ("ES256", ES256); ("ES384", ES384); ("RS256", RS256);
   ("RS384", RS384); ("RS512", RS512); ("PS256", PS256); ("PS384", PS384); ("PS512", PS512); ("EdDSA", EdDSA)]%string.
Definition algorithm_of (s : str) : option Algorithm := str_case s algorithm_names.
Definition algorithm_text (a : Algorithm) : str :=
  from_option (fun p => lit p.1) [] (List.find (fun p => bool_decide (p.2 = a)) algorithm_names).

(** The three parts of a token: what is signed, the claims, the signature. *)
Definition parts (token : str) : option (str * str * str) :=
  match split 46 token with [h; c; s] => Some (h, c, s) | _ => None end.
Definition part_json (part : str) : option json := b ← base64url_decode part; as_value <$> from_slice b.
Definition header_read : json -> option Header :=
  object (fun fs =>
    alg ← read_field (A := str) "alg" fs; alg ← algorithm_of alg; kid ← read_field (A := option str) "kid" fs;
    Some (mkHeader alg kid)).
Definition token_header (token : str) : option Header := '(h, _, _) ← parts token; v ← part_json h; header_read v.
(** The claims of a token signed with RS256 by the key. *)
Definition signed_claims (key : RsaKey) (token : str) : option claims_map :=
  '(h, c, s) ← parts token;
  header ← token_header token;
  signature ← base64url_decode s;
  v ← part_json c;
  if bool_decide (h_alg header = RS256) && rs256_verify key (as_bytes (h ++ [46] ++ c)) signature
  then match v with JObject fs => Some fs | _ => None end
  else None.

Definition one_of (l : list str) (v : json) : bool :=
  match v with
  | JString s => bool_decide (s ∈ l)
  | JArray js => from_option (existsb (fun s => bool_decide (s ∈ l))) false (mapM json_as_str js)
  | _ => false
  end.
Definition date (v : json) : option Z := match v with JInt n => u64_try_from n | _ => None end.
(** A claim is checked where it is present. *)
Definition when_present (k : string) (c : claims_map) (p : json -> bool) : bool := from_option p true (assoc (lit k) c).
Definition claims_pass (v : IdValidation) (now : Z) (c : claims_map) : bool :=
  forallb (fun k => is_some (assoc k c)) (iv_required v)
  && when_present "iss" c (one_of (iv_iss v)) && when_present "aud" c (one_of (iv_aud v))
  && when_present "exp" c (fun j => from_option (fun e => now <=? e + iv_leeway v) false (date j))
  && (negb (bool_decide (lit "sub" ∈ iv_required v)) || is_some (assoc (lit "sub") c ≫= json_as_str)).

(** A key of a key set. *)
Record Jwk := mkJwk { kid : option str; declared : option str; jwk_n : str; jwk_e : str }.
Definition jwk_read : json -> option Jwk :=
  object (fun fs =>
    kid ← read_field (A := option str) "kid" fs; alg ← read_field (A := option str) "alg" fs;
    n ← read_field (A := str) "n" fs; e ← read_field (A := str) "e" fs; Some (mkJwk kid alg n e)).
Definition jwks_read (v : json) : option (list Jwk) := l ← get (lit "keys") v ≫= as_array; mapM jwk_read l.
Definition jwk_key (j : Jwk) : option RsaKey :=
  n ← base64url_decode (jwk_n j); e ← base64url_decode (jwk_e j);
  match be_Z e with Zpos e => Some (mkRsaKey n e) | _ => None end.
Definition named (j : Jwk) (k : str) : bool := bool_decide (kid j = Some k).

Definition read_body {A} (read : json -> option A) (b : bytes) : result str A :=
  ok_or (v ← from_slice b; read v) (lit "invalid body").
#[export] Instance rs256_packages : OidcPackages Jwk RsaKey := {|
  algorithm_from_str := algorithm_of;
  algorithm_debug := algorithm_text;
  jwk_kid := kid;
  jwk_alg j := (fun a => (a, algorithm_of a)) <$> declared j;
  jwks_find l k := List.find (fun j => named j k) l;
  decode_header t := ok_or (token_header t) (lit "InvalidToken");
  from_jwk j := ok_or (jwk_key j) (lit "InvalidRsaKey");
  decode now t key v :=
    if negb (bool_decide (iv_alg v = RS256)) then Err (lit "InvalidAlgorithm")
    else
      c ← ok_or (signed_claims key t) (lit "InvalidSignature");
      if claims_pass v now c then Ok c else Err (lit "InvalidClaims");
  id_signed key alg t c := alg = RS256 /\ signed_claims key t = Some c;
  numeric_date := date;
  meta_from_slice := read_body meta_read;
  jwks_from_slice := read_body jwks_read;
  token_from_slice := read_body id_token_read;
  from_utf8_lossy b := unwrap_or (from_utf8 b) b;
|}.

(** ** Lemmas *)

Lemma bigN_256 : BigN.to_Z 256%bigN = 256.
Proof. reflexivity. Qed.
Lemma be_fold_spec b acc :
  is_byte_list b ->
  BigN.to_Z (foldl (fun acc x => acc * 256 + BigN.of_N (Z.to_N x))%bigN acc b) = foldl (fun acc x => acc * 256 + x) (BigN.to_Z acc) b.
Proof.
  intros Hb. revert acc. induction Hb as [|x b Hx Hb IH]; intros acc; [done|]. cbn [foldl]. rewrite IH. f_equal.
  by rewrite BigN.spec_add, BigN.spec_mul, BigN.spec_of_N, Z2N.id, bigN_256 by lia.
Qed.
Lemma be_bigN_spec b : is_byte_list b -> BigN.to_Z (be_bigN b) = be_Z b.
Proof. apply be_fold_spec. Qed.

Lemma pow_mod_spec n b e : BigN.to_Z (pow_mod n b e) = BigN.to_Z b ^ Zpos e mod BigN.to_Z n.
Proof.
  induction e as [e IH|e IH|]; cbn [pow_mod].
  - rewrite BigN.spec_modulo, BigN.spec_mul, BigN.spec_modulo, BigN.spec_square, IH, <- Zmult_mod, Zmult_mod_idemp_l.
    f_equal. rewrite Pos2Z.inj_xI, Z.pow_add_r, Z.pow_1_r by lia. f_equal. rewrite <- Z.add_diag, Z.pow_add_r by lia. done.
  - rewrite BigN.spec_modulo, BigN.spec_square, IH, <- Zmult_mod. f_equal.
    rewrite Pos2Z.inj_xO, <- Z.add_diag, Z.pow_add_r by lia. done.
  - by rewrite BigN.spec_modulo, Z.pow_1_r.
Qed.

Lemma digest_info_bytes : is_byte_list digest_info.
Proof. by apply (hex_decode_bytes (lit "3031300d060960864801650304020105000420")). Qed.
Lemma emsa_pkcs1_bytes k m : is_byte_list (emsa_pkcs1 k m).
Proof.
  unfold emsa_pkcs1, is_byte_list. rewrite !Forall_app.
  split; [by repeat constructor|]. split; [by apply Forall_replicate|]. split; [by repeat constructor|].
  split; [apply digest_info_bytes|apply digest_byte_list].
Qed.

(** The verification is the equation of RFC 8017 on integers. *)
Lemma rs256_verify_spec key m s :
  is_byte_list (modulus key) -> is_byte_list s ->
  rs256_verify key m s = true <->
  length s = length (modulus key) /\ (62 <= length (modulus key))%nat /\ be_Z s < be_Z (modulus key)
  /\ be_Z s ^ Zpos (exponent key) mod be_Z (modulus key) = be_Z (emsa_pkcs1 (length (modulus key)) m).
Proof.
  intros Hn Hs. unfold rs256_verify.
  rewrite !andb_true_iff, bool_decide_eq_true, Nat.leb_le, BigN.spec_ltb, Z.ltb_lt, BigN.spec_eqb, Z.eqb_eq, pow_mod_spec.
  rewrite !be_bigN_spec by (done || apply emsa_pkcs1_bytes). tauto.
Qed.

Lemma mapM_strings js ss : mapM json_as_str js = Some ss <-> js = JString <$> ss.
Proof.
  rewrite mapM_Some. split.
  - induction 1 as [|j s js ss Hj _ IH]; [done|]. rewrite fmap_cons. destruct j; by simplify_eq/=.
  - intros ->. induction ss; rewrite ?fmap_cons; by constructor.
Qed.
Lemma one_of_spec l v : one_of l v = true <-> names_one_of l v.
Proof.
  unfold names_one_of. destruct v as [|b|n|bits|s|js|fs]; cbn [one_of];
    [split; [done|by intros [(? & [=] & _)|(? & ? & [=] & _)]]..| | |split; [done|by intros [(? & [=] & _)|(? & ? & [=] & _)]]].
  - rewrite bool_decide_eq_true. naive_solver.
  - destruct (mapM json_as_str js) as [ss|] eqn:E; cbn [from_option].
    + apply mapM_strings in E as ->. rewrite existsb_exists. split.
      * intros (s & Hs%list_elem_of_In & Hl%bool_decide_eq_true). right. by exists ss, s.
      * intros [(s & [=] & _)|(ss' & s & [= E] & Hs & Hl)]. exists s.
        assert (ss = ss') as ->.
        { apply (inj Some). by rewrite <- (proj2 (mapM_strings _ ss) eq_refl), E, (proj2 (mapM_strings _ ss') eq_refl). }
        split; [by apply list_elem_of_In|by apply bool_decide_eq_true].
    + split; [done|]. intros [(s & [=] & _)|(ss' & s & [= ->] & _)]. by rewrite (proj2 (mapM_strings _ ss')) in E.
Qed.

Lemma when_present_spec k c p : when_present k c p = true <-> forall j, assoc (lit k) c = Some j -> p j = true.
Proof. unfold when_present. destruct (assoc (lit k) c); naive_solver. Qed.
Lemma claims_pass_spec v now c : claims_pass v now c = true <-> id_claims_ok v now c.
Proof.
  unfold claims_pass. rewrite !andb_true_iff, !when_present_spec, orb_true_iff, negb_true_iff, bool_decide_eq_false.
  setoid_rewrite one_of_spec.
  assert (Hreq : forallb (fun k => is_some (assoc k c)) (iv_required v) = true
    <-> Forall (fun k => is_Some (assoc k c)) (iv_required v)).
  { rewrite forallb_forall, Forall_forall. setoid_rewrite list_elem_of_In.
    split; intros Hk k Hin; specialize (Hk k Hin); by destruct (assoc k c). }
  assert (Hexp : forall j, from_option (fun e => now <=? e + iv_leeway v) false (date j) = true
    <-> exists e, date j = Some e /\ now <= e + iv_leeway v).
  { intros j. destruct (date j) as [e|]; cbn [from_option]; [rewrite Z.leb_le|]; naive_solver. }
  assert (Hsub : is_some (assoc (lit "sub") c ≫= json_as_str) = true <-> exists s, assoc (lit "sub") c = Some (JString s)).
  { destruct (assoc (lit "sub") c) as [[]|]; cbn; naive_solver. }
  setoid_rewrite Hexp. rewrite Hreq, Hsub. split.
  - intros ((((H1 & H2) & H3) & H4) & H5). split; [done..|]. intros Hs. by destruct H5.
  - intros [H1 H2 H3 H4 H5]. repeat split; try done. destruct (decide (lit "sub" ∈ iv_required v)); [right|left]; auto.
Qed.

(** What [Oidc] assumes of the package. *)
#[export] Instance rs256_packages_laws : OidcPackagesLaws Jwk RsaKey.
Proof.
  split.
  - intros l k j [Hin Hk%bool_decide_eq_true]%find_some. split; [by apply list_elem_of_In|done].
  - intros l k j Hin Hk. cbn [jwks_find rs256_packages]. destruct (List.find _ l) eqn:E; [done|].
    apply list_elem_of_In, (find_none _ _ E j), bool_decide_eq_false in Hin. done.
  - intros now tok key v c. cbn [decode rs256_packages]. case_bool_decide as Ha; [|done]. cbn [negb].
    intros (c' & Hc%ok_or_Ok & Hv)%result_bind_Ok. destruct (claims_pass v now c') eqn:E; [|done].
    simplify_eq. split; [done|by apply claims_pass_spec].
  - intros now tok key v c [Ha Hc] Hv%claims_pass_spec. cbn [decode rs256_packages].
    rewrite bool_decide_eq_true_2 by done. rewrite Hc. cbn [negb ok_or mbind result_bind]. by rewrite Hv.
Qed.
