(* ===== verification/JwtText.v ===== *)
(** * The claims of tokens ([Claims] of [crates/auth/src/jwt.rs] and [crates/license/src/lib.rs])

    What serde derives for the two structs of claims, and what a receiver reads
    of it.  [Jwt] and [License] take the [jsonwebtoken] package as the
    operations of a class and what they rely on of it as laws; the second part
    of this file is an instance of the class in the compact form of RFC 7515 on
    real text, over any signature scheme, with the laws proved of it from the
    correctness of the scheme.  It shows that the laws can hold together, and
    the token tests run on it; no property of the crates is stated of it. *)

From S2P Require Import Prelude RustStr Sha256 Base64 Json ApiVersion AuditTrail Wire SerdeJson Oidc Rs256 Jwt License.
Import AuditTrail.Trail (field).

(** ** Serialize and Deserialize for the claims *)

(** A signed or unsigned integer of the given range. *)
Definition wire_int (lo hi : Z) : Wire Z := {|
  to_value := JInt;
  from_value v := match v with JInt n => try_from lo hi n | _ => None end;
  missing_field := None;
|}.
Definition wire_i64 : Wire Z := wire_int i64_min i64_max.
Definition wire_u32 : Wire Z := wire_int 0 u32_max.

Section Claims.
Context `{Id.UuidPackage}.
Definition claims_fields (c : Claims) : list (str * json) :=
  @write_field _ wire_uuid "sub" (sub c) ++ write_field "iss" (iss c) ++ @write_field _ wire_i64 "exp" (exp c)
  ++ @write_field _ wire_i64 "iat" (iat c) ++ write_some "aud" (aud c) ++ @write_some _ wire_i64 "nbf" (nbf c)
  ++ @write_some _ wire_uuid "org" (Jwt.org c).
Definition claims_read (fs : list (str * json)) : option Claims :=
  sub ← @read_field _ wire_uuid "sub" fs; iss ← read_field "iss" fs; exp ← @read_field _ wire_i64 "exp" fs;
  iat ← @read_field _ wire_i64 "iat" fs; aud ← read_field "aud" fs;
  nbf ← @read_field _ (@wire_option _ wire_i64) "nbf" fs; org ← @read_field _ (@wire_option _ wire_uuid) "org" fs;
  Some (mkClaims sub iss exp iat aud nbf org).
(** The values of the struct's integer types. *)
Definition is_claims (c : Claims) : Prop :=
  is_uuid (sub c) /\ i64_min <= exp c <= i64_max /\ i64_min <= iat c <= i64_max
  /\ ok_option (fun n => i64_min <= n <= i64_max) (nbf c) /\ ok_option is_uuid (Jwt.org c).
End Claims.

Definition license_kind_variant (k : LicenseKind) : string :=
  match k with License.Admin => "Admin" | Customer => "Customer" end%string.
#[export] Instance wire_license_kind : Wire LicenseKind :=
  enum (fun k => snake_case (lit (license_kind_variant k))) [License.Admin; Customer].
Definition license_tier_variant (t : LicenseTier) : string :=
  match t with LFree => "Free" | LPro => "Pro" | LTeam => "Team" | LEnterprise => "Enterprise" end%string.
#[export] Instance wire_license_tier : Wire LicenseTier :=
  enum (fun t => snake_case (lit (license_tier_variant t))) [LFree; LPro; LTeam; LEnterprise].

Definition license_fields (c : LicenseClaims) : list (str * json) :=
  write_field "sub" (l_sub c) ++ write_field "iss" (l_iss c) ++ write_field "aud" (l_aud c)
  ++ @write_field _ wire_i64 "exp" (l_exp c) ++ @write_field _ wire_i64 "iat" (l_iat c)
  ++ @write_field _ wire_i64 "nbf" (l_nbf c) ++ write_field "kind" (l_kind c) ++ write_field "tier" (l_tier c)
  ++ write_some "org" (l_org c) ++ @write_some _ wire_u32 "seats" (l_seats c)
  ++ [(lit "features", JArray (JString <$> l_features c))].
Definition license_read (fs : list (str * json)) : option LicenseClaims :=
  sub ← read_field "sub" fs; iss ← read_field "iss" fs; aud ← read_field "aud" fs;
  exp ← @read_field _ wire_i64 "exp" fs; iat ← @read_field _ wire_i64 "iat" fs; nbf ← @read_field _ wire_i64 "nbf" fs;
  kind ← read_field "kind" fs; tier ← read_field "tier" fs; org ← read_field "org" fs;
  seats ← @read_field _ (@wire_option _ wire_u32) "seats" fs; features ← read_default [] strings_read "features" fs;
  Some (mkLicenseClaims sub iss aud exp iat nbf kind tier org seats features).
Definition is_license_claims (c : LicenseClaims) : Prop :=
  i64_min <= l_exp c <= i64_max /\ i64_min <= l_iat c <= i64_max /\ i64_min <= l_nbf c <= i64_max
  /\ ok_option (fun n => 0 <= n <= u32_max) (l_seats c).

(** ** The compact form *)

Class SignatureScheme (EK DK : Type) := {
  scheme_sign : EK -> bytes -> bytes;
  scheme_verify : DK -> bytes -> bytes -> bool;
  scheme_pair : EK -> DK -> Prop;
  private_of_pem : bytes -> result str EK;
  public_of_pem : bytes -> result str DK;
}.
Class SignatureSchemeLaws (EK DK : Type) `{SignatureScheme EK DK} : Prop := {
  scheme_correct ek dk m : scheme_pair ek dk -> scheme_verify dk m (scheme_sign ek m) = true;
  scheme_bytes ek m : is_byte_list (scheme_sign ek m);
}.

(** What [Validation] finds wrong first. *)
Definition first_failure (v : Validation) (now : Z) (r : Registered) : option ErrorKind :=
  match List.find (fun c => negb (Jwt.Demo.present r c)) (v_required v) with
  | Some c => Some (MissingRequiredClaim c)
  | None =>
      if v_exp v && from_option (fun e => e + v_leeway v <? now) false (r_exp r) then Some ExpiredSignature
      else if v_nbf v && from_option (fun n => now + v_leeway v <? n) false (r_nbf r) then Some ImmatureSignature
      else if from_option (fun i => negb (bool_decide (i ∈ v_iss v))) false (r_iss r) then Some InvalidIssuer
      else
        match v_aud v, r_aud r with
        | Some l, Some a => if bool_decide (a ∈ l) then None else Some InvalidAudience
        | None, Some _ => Some InvalidAudience
        | _, None => None
        end
  end.

Section Compact.
Context {EK DK : Type} `{SignatureScheme EK DK}.
Context {C : Type} (write : C -> option (list (str * json))) (read : list (str * json) -> option C) (reg : C -> Registered).

Definition header_text : bytes := as_bytes (print (JObject [(lit "typ", JString (lit "JWT")); (lit "alg", JString (lit "EdDSA"))])).
Definition claims_text (c : C) : option bytes := fs ← write c; to_vec (JObject fs).
Definition signing_input (h p : str) : bytes := as_bytes (h ++ [46] ++ p).
Definition compact_encode (c : C) (ek : EK) : option str :=
  b ← claims_text c;
  let h := base64url header_text in
  let p := base64url b in
  Some (h ++ 46 :: p ++ 46 :: base64url (scheme_sign ek (signing_input h p))).

(** The parts of a token in the form the package accepts: the header names
    EdDSA.  Then the claims, and whether the signature is good. *)
Definition eddsa_parts (token : str) : option (str * str * bytes) :=
  '(h, p, s) ← parts token;
  header ← part_json h ≫= header_read;
  s ← base64url_decode s;
  if bool_decide (h_alg header = EdDSA) then Some (h, p, s) else None.
Definition payload_claims (p : str) : option C := b ← base64url_decode p; from_slice b ≫= object read.
Definition compact_decode (now : Z) (token : str) (dk : DK) (v : Validation) : result ErrorKind C :=
  '(h, p, s) ← ok_or (eddsa_parts token) OtherErrorKind;
  if negb (scheme_verify dk (signing_input h p) s) then Err InvalidSignature
  else
    c ← ok_or (payload_claims p) OtherErrorKind;
    match first_failure v now (reg c) with Some e => Err e | None => Ok c end.
Definition compact_signed (dk : DK) (token : str) (c : C) : Prop :=
  exists h p s, eddsa_parts token = Some (h, p, s) /\ scheme_verify dk (signing_input h p) s = true /\ payload_claims p = Some c.

Definition compact_jwt : JwtPackage EK DK C := {|
  encoding_key_from_pem := private_of_pem;
  decoding_key_from_pem := public_of_pem;
  jwt_encode := compact_encode;
  jwt_decode := compact_decode;
  key_pair := scheme_pair;
  signed := compact_signed;
|}.
End Compact.

(** ** Lemmas *)

Lemma int_laws lo hi : @WireLaws Z (wire_int lo hi) (fun n => lo <= n <= hi).
Proof. split; [|done]. intros n Hn. simpl. by apply try_from_in. Qed.
#[export] Instance license_kind_laws : WireLaws LicenseKind anything.
Proof. apply enum_laws; [intros [] []; by vm_compute|intros []; set_solver]. Qed.
#[export] Instance license_tier_laws : WireLaws LicenseTier anything.
Proof. apply enum_laws; [intros [] []; by vm_compute|intros []; set_solver]. Qed.

Ltac read_int :=
  first [apply (@wire_round_trip _ _ _ (int_laws _ _)); assumption
        |apply (@option_round_trip _ _ _ (int_laws _ _)); assumption].

(** The claims of a token read back from what is written of them, with the
    fields in any order and among others. *)
Definition claims_keys : list string := ["sub"; "iss"; "exp"; "iat"; "aud"; "nbf"; "org"].
Lemma claims_delivered `{Id.UuidPackage} `{!Id.UuidPackageLaws} c sent :
  is_claims c -> delivered claims_keys (claims_fields c) sent -> claims_read sent = Some c.
Proof.
  destruct c as [s i e t a n o]. intros (? & ? & ? & ? & ?) Hd. unfold claims_read, claims_fields in *.
  cbn [sub iss exp iat aud nbf Jwt.org] in *. destruct a, n, o; deliver Hd; by read_back_with read_int.
Qed.

(** A field of what was delivered, found in what was written. *)
Ltac registered_claim Hd :=
  rewrite (delivered_field _ _ _ _ Hd) by (apply (bool_decide_unpack _); vm_compute; exact I);
  rewrite ?write_some_Some, ?write_some_None; unfold write_field; cbn [app];
  repeat first [rewrite field_here by reflexivity | rewrite field_there by reflexivity]; reflexivity.

Definition license_keys : list string :=
  ["sub"; "iss"; "aud"; "exp"; "iat"; "nbf"; "kind"; "tier"; "org"; "seats"; "features"].
Lemma license_delivered c sent :
  is_license_claims c -> delivered license_keys (license_fields c) sent -> license_read sent = Some c.
Proof.
  destruct c as [s i a e t n k r o seats features]. intros (? & ? & ? & ?) Hd. unfold license_read, license_fields, read_default in *.
  cbn [l_sub l_iss l_aud l_exp l_iat l_nbf l_kind l_tier l_org l_seats l_features] in *.
  assert (Hf : strings_read (JArray (JString <$> features)) = Some features).
  { unfold strings_read. cbn [as_array mbind option_bind]. by apply mapM_strings. }
  destruct o, seats; deliver Hd; read_back_with read_int; by rewrite Hf.
Qed.

Lemma delivered_as_written keys fs : delivered keys fs fs.
Proof. exists []. by rewrite app_nil_r. Qed.

Lemma find_None {A} (p : A -> bool) l : List.find p l = None <-> Forall (fun x => p x = false) l.
Proof.
  induction l as [|x l IH]; [by split|]. cbn [List.find]. rewrite Forall_cons. destruct (p x); naive_solver.
Qed.
Lemma first_failure_None v now r : first_failure v now r = None <-> claims_ok v now r.
Proof.
  unfold first_failure. destruct (List.find _ (v_required v)) as [c|] eqn:Hf.
  - split; [done|]. intros [Hr _ _ _ _]. apply find_some in Hf as [Hin%list_elem_of_In Hp%negb_true_iff].
    rewrite Forall_forall in Hr. apply Hr, Jwt.Demo.present_spec in Hin. congruence.
  - apply find_None in Hf. setoid_rewrite negb_false_iff in Hf. setoid_rewrite Jwt.Demo.present_spec in Hf.
    destruct (v_exp v && _) eqn:He; [|destruct (v_nbf v && _) eqn:Hn; [|destruct (from_option _ false (r_iss r)) eqn:Hi]].
    + split; [done|]. intros [_ _ _ H4 _]. apply andb_true_iff in He as [Hv He].
      destruct (r_exp r) as [e|]; [|done]. simpl in He. specialize (H4 Hv e eq_refl). bool_simp. lia.
    + split; [done|]. intros [_ _ _ _ H5]. apply andb_true_iff in Hn as [Hv Hn].
      destruct (r_nbf r) as [n|]; [|done]. simpl in Hn. specialize (H5 Hv n eq_refl). bool_simp. lia.
    + split; [done|]. intros [_ H2 _ _ _]. destruct (r_iss r) as [i|]; [|done]. simpl in Hi. specialize (H2 i eq_refl).
      by rewrite bool_decide_eq_true_2 in Hi.
    + assert (Ha : match v_aud v, r_aud r with
          | Some l, Some a => if bool_decide (a ∈ l) then None else Some InvalidAudience
          | None, Some _ => Some InvalidAudience | _, None => None end = None
        <-> match v_aud v with Some l => forall a, r_aud r = Some a -> a ∈ l | None => r_aud r = None end).
      { destruct (v_aud v), (r_aud r); try case_bool_decide; naive_solver. }
      rewrite Ha. split; [|by intros []]. intros Haud. split; [done| |done| |].
      * intros i Hr. rewrite Hr in Hi. simpl in Hi. by apply negb_false_iff, bool_decide_eq_true in Hi.
      * intros Hv e Hr. rewrite Hv, Hr in He. simpl in He. bool_simp. lia.
      * intros Hv n Hr. rewrite Hv, Hr in Hn. simpl in Hn. bool_simp. lia.
Qed.

Lemma to_vec_bytes v b : to_vec v = Some b -> is_byte_list b.
Proof.
  unfold to_vec. destruct (printable v) eqn:Hp; [|done]. intros [= <-]. apply as_bytes_byte_list.
  eapply Forall_impl; [by apply print_text|]. intros c Hc%is_scalar_spec. simpl. lia.
Qed.

Section CompactLaws.
Context {EK DK : Type} `{SignatureScheme EK DK} `{!SignatureSchemeLaws EK DK}.
Context {C : Type} (write : C -> option (list (str * json))) (read : list (str * json) -> option C) (reg : C -> Registered).
Context (read_write : forall c fs, write c = Some fs -> read fs = Some c).

Lemma header_reads : part_json (base64url header_text) ≫= header_read = Some (mkHeader EdDSA None).
Proof. vm_compute. reflexivity. Qed.
Lemma header_free : char_free 46 (base64url header_text).
Proof. apply (bool_decide_unpack _). vm_compute. exact I. Qed.

Lemma eddsa_parts_encoded b s :
  is_byte_list b -> is_byte_list s ->
  eddsa_parts (base64url header_text ++ 46 :: base64url b ++ 46 :: base64url s)
  = Some (base64url header_text, base64url b, s).
Proof.
  intros Hb Hs. unfold eddsa_parts, parts.
  rewrite (split_app _ _ _ header_free), split_app, split_char_free by (by apply base64url_char_free).
  cbn [mbind option_bind]. rewrite header_reads. cbn [mbind option_bind]. by rewrite base64url_decode_encode.
Qed.

Lemma compact_encode_signed ek dk c tok :
  scheme_pair ek dk -> compact_encode write c ek = Some tok -> compact_signed read dk tok c.
Proof using read_write SignatureSchemeLaws0.
  intros Hp. unfold compact_encode. destruct (claims_text write c) as [b|] eqn:Hb; [|done]. intros [= <-].
  unfold claims_text in Hb. destruct (write c) as [fs|] eqn:Hw; [|done]. cbn [mbind option_bind] in Hb.
  eexists _, _, _. split; [apply eddsa_parts_encoded; [by eapply to_vec_bytes|apply scheme_bytes]|].
  split; [by apply scheme_correct|]. unfold payload_claims.
  rewrite base64url_decode_encode by (by eapply to_vec_bytes). cbn [mbind option_bind].
  rewrite (from_slice_to_vec _ _ Hb). cbn [mbind option_bind object]. by apply read_write.
Qed.

Lemma compact_decode_Ok now tok dk v c :
  compact_decode read reg now tok dk v = Ok c <-> compact_signed read dk tok c /\ claims_ok v now (reg c).
Proof.
  unfold compact_decode, compact_signed. split.
  - intros ([[h p] s] & Hp%ok_or_Ok & Hd)%result_bind_Ok. destruct (scheme_verify _ _ _) eqn:Hv; [|done]. cbn [negb] in Hd.
    apply result_bind_Ok in Hd as (c' & Hc%ok_or_Ok & Hd). destruct (first_failure _ _ _) eqn:Hf; [done|].
    simplify_eq. split; [by exists h, p, s|by apply first_failure_None].
  - intros [(h & p & s & -> & Hv & Hc) Hf%first_failure_None]. cbn [ok_or mbind result_bind].
    rewrite Hv. cbn [negb]. rewrite Hc. cbn [ok_or mbind result_bind]. by rewrite Hf.
Qed.

(** What [Jwt] and [License] assume of the package. *)
Lemma compact_jwt_laws : @JwtPackageLaws EK DK C (compact_jwt write read reg) reg.
Proof using read_write SignatureSchemeLaws0.
  split; cbn [jwt_encode jwt_decode key_pair signed compact_jwt].
  - apply compact_encode_signed.
  - intros dk dk' tok c c' (h & p & s & Hp & _ & Hc) (h' & p' & s' & Hp' & _ & Hc'). congruence.
  - intros now tok dk v c Hd. by apply compact_decode_Ok.
  - intros now tok dk v c Hs Hok. by apply compact_decode_Ok.
Qed.
End CompactLaws.

(** ** The two packages *)

#[export] Instance ok_option_decision {A} (P : A -> Prop) `{forall a, Decision (P a)} o : Decision (ok_option P o).
Proof. destruct o; simpl; apply _. Defined.
#[export] Instance is_claims_decision c : Decision (is_claims c).
Proof. unfold is_claims, is_uuid. apply _. Defined.
#[export] Instance is_license_claims_decision c : Decision (is_license_claims c).
Proof. unfold is_license_claims. apply _. Defined.

(** Fields are written of the values the structs hold. *)
Definition written {C} (P : C -> Prop) `{forall c, Decision (P c)} (fields : C -> list (str * json)) (c : C) : option (list (str * json)) :=
  if decide (P c) then Some (fields c) else None.
Definition access_jwt {EK DK} `{SignatureScheme EK DK, Id.UuidPackage} : JwtPackage EK DK Claims :=
  compact_jwt (written is_claims claims_fields) claims_read registered.
Definition license_jwt {EK DK} `{SignatureScheme EK DK} : JwtPackage EK DK LicenseClaims :=
  compact_jwt (written is_license_claims license_fields) license_read license_registered.

Lemma access_jwt_laws {EK DK} `{SignatureSchemeLaws EK DK} `{Id.UuidPackage} `{!Id.UuidPackageLaws} :
  @JwtPackageLaws EK DK Claims access_jwt registered.
Proof.
  apply compact_jwt_laws. intros c fs. unfold written. destruct (decide (is_claims c)); [|done]. intros [= <-].
  by eapply claims_delivered, delivered_as_written.
Qed.
Lemma license_jwt_laws {EK DK} `{SignatureSchemeLaws EK DK} : @JwtPackageLaws EK DK LicenseClaims license_jwt license_registered.
Proof.
  apply compact_jwt_laws. intros c fs. unfold written. destruct (decide (is_license_claims c)); [|done]. intros [= <-].
  by eapply license_delivered, delivered_as_written.
Qed.

(** A scheme that can be run: a MAC, whose two keys are one. *)
Module Mac.
#[export] Instance scheme : SignatureScheme bytes bytes := {|
  scheme_sign := hmac_sha256;
  scheme_verify k m s := bool_decide (s = hmac_sha256 k m);
  scheme_pair k k' := k = k';
  private_of_pem b := if bool_decide (b = []) then Err (lit "InvalidKeyFormat") else Ok b;
  public_of_pem b := if bool_decide (b = []) then Err (lit "InvalidKeyFormat") else Ok b;
|}.
#[export] Instance scheme_laws : SignatureSchemeLaws bytes bytes.
Proof.
  split; cbn [scheme_pair scheme_verify scheme_sign scheme].
  - intros k k' m ->. by apply bool_decide_eq_true.
  - intros k m. apply hmac_sha256_byte_list.
Qed.
End Mac.

(** ** Properties *)

(** Where a verifier looks for the registered claims of RFC 7519: each under
    its name, once, or not there. *)
Record registered_in (fs : list (str * json)) (r : Registered) : Prop := {
  in_iss : field (lit "iss") fs = Some (JString <$> r_iss r);
  in_aud : field (lit "aud") fs = Some (JString <$> r_aud r);
  in_exp : field (lit "exp") fs = Some (JInt <$> r_exp r);
  in_nbf : field (lit "nbf") fs = Some (JInt <$> r_nbf r);
}.

(** C36: the claims of a token survive the wire.  Access and license claims
    whose numbers fit their types are read back exactly from what is written of
    them, with the fields in any order and among fields a newer issuer added;
    and the issuer, audience, expiry and start that a verifier finds under the
    registered names are those of the claims, an audience or start that is not
    set being left out rather than written as null. *)
Theorem token_claims_survive_the_wire `{Id.UuidPackage} `{!Id.UuidPackageLaws} :
  (forall c sent, is_claims c -> delivered claims_keys (claims_fields c) sent ->
     claims_read sent = Some c /\ registered_in sent (registered c))
  /\ (forall c sent, is_license_claims c -> delivered license_keys (license_fields c) sent ->
     license_read sent = Some c /\ registered_in sent (license_registered c)).
Proof.
  split; intros c sent Hc Hd.
  - split; [by apply claims_delivered|]. destruct c as [s i e t a n o]. unfold claims_fields in Hd.
    cbn [sub iss exp iat aud nbf Jwt.org] in *. destruct a, n, o; split; registered_claim Hd.
  - split; [by apply license_delivered|]. destruct c as [s i a e t n k r o seats features]. unfold license_fields in Hd.
    cbn [l_sub l_iss l_aud l_exp l_iat l_nbf l_kind l_tier l_org l_seats l_features] in *.
    destruct o, seats; split; registered_claim Hd.
Qed.

(** The claims of a token for a user of an organization, with an audience. *)
Module Demo.
Definition claims : Claims :=
  mkClaims 77 (lit "ferrlabs") 1800000900 1800000000 (Some (lit "api.ferrtrack.com")) None (Some 5).
Lemma claims_in_range : is_claims claims.
Proof. apply (bool_decide_unpack _). vm_compute. exact I. Qed.
End Demo.

Lemma token_claims_survive_the_wire_witness :
  let sent := (lit "jti", JString (lit "x1")) :: reverse (@claims_fields AuditTrail.Demo.uuids Demo.claims) in
  @claims_read AuditTrail.Demo.uuids sent = Some Demo.claims /\ registered_in sent (registered Demo.claims).
Proof.
  intros sent. apply (proj1 (@token_claims_survive_the_wire AuditTrail.Demo.uuids AuditTrail.Demo.uuids_laws)).
  - exact Demo.claims_in_range.
  - exists [(lit "jti", JString (lit "x1"))]. split.
    + unfold sent. by rewrite reverse_Permutation, Permutation_app_comm.
    + apply (bool_decide_unpack _). vm_compute. exact I.
Defined.
