(* ===== verification/BillingWire.v ===== *)
(** * The JSON of Stripe events ([crates/billing/src/events.rs])

    What serde derives for [RawEvent], [RawData], [RawSubscriptionObject],
    [RawInvoiceObject], [InvoiceLines], [InvoiceLine] and [Metadata]: which
    fields are required, which have a default, which are options.  [Billing]
    takes the three readers as parameters; here they are, and what they make
    of the objects Stripe sends. *)

From S2P Require Import Prelude RustStr Json AuditTrail Types Wire Webhooks Billing.
Import AuditTrail.Trail (field).

Definition metadata_read : json -> option Metadata :=
  object (fun fs =>
    org_id ← read_field (A := option str) "org_id" fs; product ← read_field (A := option str) "product" fs;
    tier ← read_field (A := option str) "tier" fs;
    Some (mkMetadata org_id product tier)).
Definition line_read : json -> option InvoiceLine :=
  object (fun fs =>
    metadata ← read_default Metadata_default metadata_read "metadata" fs;
    subscription ← read_field (A := option str) "subscription" fs;
    Some (mkLine metadata subscription)).
(** [InvoiceLines], as the lines themselves. *)
Definition lines_read : json -> option (list InvoiceLine) :=
  object (read_default [] (fun v => l ← as_array v; mapM line_read l) "data").

Definition subscription_object_read : json -> option RawSubscriptionObject :=
  object (fun fs =>
    id ← read_field (A := str) "id" fs; customer ← read_field (A := str) "customer" fs;
    status ← read_field (A := str) "status" fs;
    metadata ← read_default Metadata_default metadata_read "metadata" fs;
    Some (mkRawSub id customer status metadata)).
Definition invoice_object_read : json -> option RawInvoiceObject :=
  object (fun fs =>
    subscription ← read_field (A := option str) "subscription" fs; customer ← read_field (A := str) "customer" fs;
    metadata ← read_default Metadata_default metadata_read "metadata" fs;
    lines ← read_default [] lines_read "lines" fs;
    Some (mkRawInvoice subscription customer metadata lines)).
(** [RawEvent] with its [RawData]; the object is kept as a [Value]. *)
Definition event_read : json -> option RawEvent :=
  object (fun fs =>
    event_type ← read_field (A := str) "type" fs;
    data ← read_required (object (read_required (fun v => Some (as_value v)) "object")) "data" fs;
    Some (mkRawEvent event_type data)).

Section Readers.
(** The text parser of [serde_json], and the text of its errors. *)
Context (from_slice : bytes -> result str json) (why : json -> str).
Definition event_from_slice (b : bytes) : result str RawEvent := v ← from_slice b; ok_or (event_read v) (why v).
Definition invoice_from_value (v : json) : result str RawInvoiceObject := ok_or (invoice_object_read v) (why v).
Definition subscription_from_value (v : json) : result str RawSubscriptionObject := ok_or (subscription_object_read v) (why v).
(** [parse_event], with the readers the code has. *)
Definition parse_event (payload : bytes) : result BillingError WebhookEvent :=
  Billing.parse_event event_from_slice invoice_from_value subscription_from_value payload.
End Readers.

(** ** What Stripe sends *)

Definition text (k : string) (s : str) : str * json := (lit k, JString s).
(** The metadata [create_subscription] and [update_tier] stamp. *)
Definition stamped (org : str) (plan : PlanPrice) : list (str * json) :=
  [text "org_id" org; text "product" (slug (plan_product plan)); text "tier" (tier_slug (plan_tier plan))].
Definition metadata_keys : list string := ["org_id"; "product"; "tier"].
Definition subscription_object (id customer status : str) (metadata : list (str * json)) : list (str * json) :=
  [text "id" id; text "customer" customer; text "status" status; (lit "metadata", JObject metadata)].
Definition subscription_object_keys : list string := ["id"; "customer"; "status"; "metadata"].
Definition event (type_ : str) (data : list (str * json)) : list (str * json) :=
  [text "type" type_; (lit "data", JObject data)].
Definition event_keys : list string := ["type"; "data"].

Ltac known := apply (bool_decide_unpack _); vm_compute; exact I.

Lemma metadata_delivered org plan m :
  delivered metadata_keys (stamped org plan) m ->
  metadata_read (as_value (JObject m)) = Some (mkMetadata (Some org) (Some (slug (plan_product plan))) (Some (tier_slug (plan_tier plan)))).
Proof.
  intros Hd. rewrite as_value_object. unfold metadata_read, object, read_field.
  rewrite (delivered_value _ _ _ "org_id" (Some (JString org)) Hd),
    (delivered_value _ _ _ "product" (Some (JString (slug (plan_product plan)))) Hd),
    (delivered_value _ _ _ "tier" (Some (JString (tier_slug (plan_tier plan)))) Hd); first [reflexivity|known].
Qed.

Lemma subscription_delivered_object id customer status m o md :
  delivered subscription_object_keys (subscription_object id customer status m) o ->
  metadata_read (as_value (JObject m)) = Some md ->
  subscription_object_read (as_value (JObject o)) = Some (mkRawSub id customer status md).
Proof.
  intros Hd Hm. rewrite as_value_object. unfold subscription_object_read, object, read_field, read_default.
  rewrite (delivered_value _ _ _ "id" (Some (JString id)) Hd), (delivered_value _ _ _ "customer" (Some (JString customer)) Hd),
    (delivered_value _ _ _ "status" (Some (JString status)) Hd), (delivered_value _ _ _ "metadata" (Some (JObject m)) Hd);
    [|first [reflexivity|known]..].
  cbn [mbind option_bind fmap option_fmap option_map]. rewrite Hm. reflexivity.
Qed.

Lemma event_delivered type_ d o ev :
  delivered event_keys (event type_ d) ev -> delivered ["object"] [(lit "object", o)] d ->
  event_read (JObject ev) = Some (mkRawEvent type_ (as_value o)).
Proof.
  intros He Hd. unfold event_read, object at 1, read_field.
  rewrite (delivered_field _ _ _ "type" He) by known. unfold read_required at 1.
  rewrite (delivered_field _ _ _ "data" He) by known. unfold event, text.
  rewrite field_here, (field_there _ (lit "type")), field_here by reflexivity.
  cbn [mbind option_bind object]. unfold read_required. rewrite (delivered_field _ _ _ "object" Hd) by known.
  rewrite field_here by reflexivity. reflexivity.
Qed.

Lemma routing_stamped org plan :
  routing (mkMetadata (Some org) (Some (slug (plan_product plan))) (Some (tier_slug (plan_tier plan))))
  = Ok (org, plan_product plan, plan_tier plan).
Proof. unfold routing. simpl. by rewrite product_from_slug_slug; simpl; rewrite tier_round_trip. Qed.

(** ** Concrete events for the witness *)

Module Demo.
Definition plan : PlanPrice := mkPlanPrice FerrVault Team (lit "price_1").
Definition metadata : list (str * json) := text "campaign" (lit "spring") :: stamped (lit "org-42") plan.
Definition obj : list (str * json) :=
  subscription_object (lit "sub_abc") (lit "cus_xyz") (lit "active") metadata ++ [(lit "livemode", JBool true)].
Definition data : list (str * json) := [(lit "object", JObject obj)].
Definition body : list (str * json) := text "id" (lit "evt_123") :: event (lit "customer.subscription.updated") data.
(** A text parser that knows this one event. *)
Definition from_slice (b : bytes) : result str json := Ok (JObject body).

Lemma extra_first keys f fields : f.1 ∉ lit <$> keys -> delivered keys fields (f :: fields).
Proof. intros Hf. exists [f]. split; [|by constructor]. by rewrite <- Permutation_cons_append. Qed.
Lemma extra_last keys f fields : f.1 ∉ lit <$> keys -> delivered keys fields (fields ++ [f]).
Proof. intros Hf. exists [f]. split; [done|by constructor]. Qed.
End Demo.

(** ** Properties *)

(** C35: an event Stripe sends about a subscription reaches the organisation
    it was sold to.  Whatever else the event, its data, the subscription and
    its metadata carry, and in any order, the signed body parses to a change
    of the organisation, product and tier the client stamped on it, under the
    identifiers of Stripe; the status is Stripe's on an update and [Canceled]
    on a deletion. *)
Theorem stamped_events_decode from_slice why payload ev d o m type_ id customer status org plan :
  from_slice payload = Ok (JObject ev) ->
  delivered event_keys (event type_ d) ev ->
  delivered ["object"] [(lit "object", JObject o)] d ->
  delivered subscription_object_keys (subscription_object id customer status m) o ->
  delivered metadata_keys (stamped org plan) m ->
  let change := mkChange id customer org (plan_product plan) (plan_tier plan) in
  (type_ = lit "customer.subscription.updated" ->
     parse_event from_slice why payload = Ok (SubscriptionUpdated (change (status_from_stripe status))))
  /\ (type_ = lit "customer.subscription.deleted" ->
     parse_event from_slice why payload = Ok (SubscriptionDeleted (change Canceled))).
Proof.
  intros Hs He Hd Ho Hm change. unfold parse_event, Billing.parse_event, event_from_slice. rewrite Hs. cbn [mbind result_bind].
  rewrite (event_delivered _ _ _ _ He Hd). cbn [ok_or map_err mbind result_bind event_type data_object].
  unfold subscription_from_value.
  rewrite (subscription_delivered_object _ _ _ _ _ _ Ho (metadata_delivered _ _ _ Hm)). cbn [ok_or map_err mbind result_bind].
  unfold change_from_subscription. cbn [sub_metadata sub_id sub_customer sub_status]. rewrite routing_stamped.
  split; intros ->; reflexivity.
Qed.

Lemma stamped_events_decode_witness :
  parse_event Demo.from_slice (fun _ => []) []
  = Ok (SubscriptionUpdated (mkChange (lit "sub_abc") (lit "cus_xyz") (lit "org-42") FerrVault Team Active)).
Proof.
  destruct (stamped_events_decode Demo.from_slice (fun _ => []) [] Demo.body Demo.data Demo.obj Demo.metadata
    (lit "customer.subscription.updated") (lit "sub_abc") (lit "cus_xyz") (lit "active") (lit "org-42") Demo.plan) as [H _].
  - reflexivity.
  - apply Demo.extra_first. known.
  - exists []. split; [done|constructor].
  - apply Demo.extra_last. known.
  - apply Demo.extra_first. known.
  - apply H. reflexivity.
Defined.
