(* ===== verification/SwrRun.v ===== *)
(** * Running the cache ([crates/cache/src/swr.rs])

    [Swr] says which steps a system of calls may take.  This file runs it: a
    scheduler that gives the calls their turns one after the other on a server
    that answers every command, proved to take only steps of the relation, so
    that the theorems of [Swr] hold of what it computes; and what serde derives
    for [Envelope], over the JSON text of [SerdeJson].  The crate's tests, which
    need a server, run on it. *)

From S2P Require Import Prelude RustStr Json ApiVersion AuditTrail Wire SerdeJson JwtText Swr.
Import Swr.System.

(** ** Serialize and Deserialize for [Envelope<T>] *)

Section Envelope.
Context {T : Type} `{Wire T}.
Definition wire_u64 : Wire Z := wire_int 0 u64_max.
Definition envelope_fields (ts_ms : Z) (payload : T) : list (str * json) :=
  @write_field _ wire_u64 "ts_ms" ts_ms ++ write_field "payload" payload.
Definition envelope_read (fs : list (str * json)) : option (Z * T) :=
  ts_ms ← @read_field _ wire_u64 "ts_ms" fs; payload ← read_field "payload" fs; Some (ts_ms, payload).
(** Text is kept as its characters; a time stamp is one of the struct's. *)
Definition envelope_json : EnvelopeJson T := {|
  to_json ts v :=
    let doc := JObject (envelope_fields ts v) in
    if in_range 0 u64_max ts && printable doc then Ok (print doc) else Err (lit "not a value of the type");
  from_json raw := from_str raw ≫= object envelope_read;
|}.

Lemma envelope_json_laws ok `{!WireLaws T ok} : (forall v, ok v) -> @EnvelopeJsonLaws T envelope_json.
Proof.
  intros Hok. split. intros ts v raw. cbn [to_json from_json envelope_json].
  destruct (in_range 0 u64_max ts) eqn:Ht; [|done]. destruct (printable _) eqn:Hp; [|done]. intros Hraw.
  cbn [andb] in Hraw. assert (raw = print (JObject (envelope_fields ts v))) as -> by congruence. clear Hraw.
  rewrite from_str_print by done. apply in_range_spec in Ht.
  cbn [mbind option_bind object]. unfold envelope_read, read_field, envelope_fields, write_field, wire_u64. cbn [app].
  rewrite field_here by done. cbn [mbind option_bind].
  rewrite (@wire_round_trip _ _ _ (int_laws 0 u64_max) ts Ht). cbn [mbind option_bind].
  rewrite field_there, field_here by done. cbn [mbind option_bind]. by rewrite wire_round_trip.
Qed.
End Envelope.

(** ** The scheduler *)

Section Exec.
Context {T : Type} `{EnvelopeJson T} (s : Swr) (loader : nat -> result str T).

Definition tids (st : sys T) : list nat := fst <$> map_to_list (threads st).
Definition fresh_tid (tid : nat) (st : sys T) : nat := S (foldr Nat.max tid (tids st)).

(** The next command of a call: what is seen of it, the system after it, the
    call it started if it did.  The [n]th load is answered by the [n]th value. *)
Definition exec1 (n : nat) (tid : nat) (st : sys T) : option (list (label T) * sys T * list nat) :=
  p ← threads st !! tid;
  match p with
  | Get k c => Some ([Other], resume st tid (c (Ok (live st k))), [])
  | Set_ k v px nx c =>
      let '(d, r) := set_effect st k v px nx in
      Some ([Other], hold (resume (with_db st d) tid (c r)) tid (bool_decide (k = lock s /\ r = Ok true)), [])
  | Del k c => Some ([Other], release (resume (with_db st (delete k (db st))) tid (c (Ok ()))) tid, [])
  | Now c => Some ([Other], resume st tid (c (clock st)), [])
  | Load c => Some ([Loaded tid (loader n)], resume st tid (c (loader n)), [])
  | Sleep d c =>
      let st := mkSys (db st) (clock st + Z.max 0 (as_millis d)) (threads st) (holders st) in
      Some ([Other; Other], resume st tid c, [])
  | Spawn p c => let tid' := fresh_tid tid st in Some ([Other], resume (resume st tid c) tid' p, [tid'])
  | Ret r => Some ([Returned tid r], remove st tid, [])
  | Done => Some ([Other], remove st tid, [])
  end.

Definition loads_in (ls : list (label T)) : nat :=
  length (List.filter (fun l => match l with Loaded _ _ => true | _ => false end) ls).
(** Turns are taken in the order of a queue; a call that has not ended goes to
    its end. *)
Fixpoint drive (fuel n : nat) (queue : list nat) (st : sys T) : list (label T) * sys T :=
  match fuel, queue with
  | S fuel, tid :: queue =>
      match exec1 n tid st with
      | Some (ls, st, new) =>
          let queue := queue ++ new ++ if is_some (threads st !! tid) then [tid] else [] in
          let '(ls', st) := drive fuel (n + loads_in ls) queue st in (ls ++ ls', st)
      | None => drive fuel n queue st
      end
  | _, _ => ([], st)
  end.

(** What a program around the cache does: it starts calls together and waits
    for them and what they started, or lets time pass. *)
Inductive action := Calls (bypass : list bool) | Wait (dt : Z).
Fixpoint start (calls : list bool) (st : sys T) : list nat * sys T :=
  match calls with
  | [] => ([], st)
  | b :: calls =>
      let tid := fresh_tid 0 st in
      let '(queue, st) := start calls (resume st tid (get_or_load (with_bypass s b))) in (tid :: queue, st)
  end.
Definition act (fuel n : nat) (a : action) (st : sys T) : list (label T) * sys T :=
  match a with
  | Calls calls =>
      let '(queue, st) := start calls st in
      let '(ls, st) := drive fuel n queue st in (replicate (length calls) Other ++ ls, st)
  | Wait dt => ([Other], mkSys (db st) (clock st + Z.max 0 dt) (threads st) (holders st))
  end.
Fixpoint act_all (fuel n : nat) (acts : list action) (st : sys T) : list (label T) * sys T :=
  match acts with
  | [] => ([], st)
  | a :: acts =>
      let '(ls, st) := act fuel n a st in
      let '(ls', st) := act_all fuel (n + loads_in ls) acts st in (ls ++ ls', st)
  end.
End Exec.

(** ** The scheduler follows the relation *)

Section Sound.
Context {T : Type} `{EnvelopeJson T} (s : Swr) (loader : nat -> result str T).

Lemma foldr_max_le (l : list nat) m x : x ∈ m :: l -> (x <= foldr Nat.max m l)%nat.
Proof. induction l as [|y l IH]; cbn [foldr]; set_solver by lia. Qed.
Lemma fresh_tid_free tid (st : sys T) : threads st !! fresh_tid tid st = None /\ fresh_tid tid st <> tid.
Proof.
  unfold fresh_tid. split.
  - destruct (threads st !! _) as [p|] eqn:E; [|done]. exfalso.
    apply elem_of_map_to_list, (list_elem_of_fmap_2 fst) in E. pose proof (foldr_max_le (tids st) tid _ (list_elem_of_further _ _ _ E)).
    simpl in *. lia.
  - pose proof (foldr_max_le (tids st) tid tid (list_elem_of_here _ _)). lia.
Qed.

Abbreviation runs := (run (step s)).
Lemma run_one st l st' : step s st l st' -> runs st [l] st'.
Proof. intros Hs. apply (run_snoc _ st [] st); [constructor|done]. Qed.

Lemma exec1_runs n tid st ls st' new : exec1 s loader n tid st = Some (ls, st', new) -> runs st ls st'.
Proof.
  unfold exec1. destruct (threads st !! tid) as [p|] eqn:Hp; [|done]. cbn [mbind option_bind].
  destruct p as [r| |k c|k v px nx c|k c|c|c|d c|p c].
  - intros [= <- <- <-]. by apply run_one, step_return.
  - intros [= <- <- <-]. by apply run_one, step_done.
  - intros [= <- <- <-]. by eapply run_one, step_get.
  - destruct (set_effect st k v px nx) as [d r] eqn:He. intros [= <- <- <-]. by eapply run_one, step_set.
  - intros [= <- <- <-]. by apply run_one, (step_del s st tid k c (Ok ()) true).
  - intros [= <- <- <-]. by eapply run_one, step_now.
  - intros [= <- <- <-]. by eapply run_one, step_load.
  - intros [= <- <- <-]. eapply run_cons; [by apply step_tick, Z.le_max_l|]. by eapply run_one, step_sleep.
  - intros [= <- <- <-]. destruct (fresh_tid_free tid st). by eapply run_one, step_spawn.
Qed.
(** A call in progress always has a next command. *)
Lemma exec1_progress n tid st : is_Some (threads st !! tid) -> is_Some (exec1 s loader n tid st).
Proof.
  intros [p Hp]. unfold exec1. rewrite Hp. cbn [mbind option_bind].
  destruct p; try done. by destruct (set_effect _ _ _ _ _).
Qed.

Lemma drive_runs fuel n queue st ls st' : drive s loader fuel n queue st = (ls, st') -> runs st ls st'.
Proof.
  revert n queue st ls st'. induction fuel as [|fuel IH]; intros n [|tid queue] st ls st'; cbn [drive];
    try (intros [= <- <-]; by constructor).
  destruct (exec1 s loader n tid st) as [[[l st1] new]|] eqn:E; [|apply IH].
  destruct (drive _ _ _ _ _ st1) as [l' st2] eqn:Ed. intros [= <- <-].
  eapply run_app; [by eapply exec1_runs|by eapply IH].
Qed.

Lemma start_runs calls st queue st' : start s calls st = (queue, st') -> runs st (replicate (length calls) Other) st'.
Proof.
  revert st queue st'. induction calls as [|b calls IH]; intros st queue st'; cbn [start]; [intros [= <- <-]; constructor|].
  destruct (start s calls _) as [q st1] eqn:E. intros [= <- <-]. cbn [length replicate].
  eapply run_cons; [apply step_call, fresh_tid_free|by eapply IH].
Qed.

Lemma act_all_runs fuel n acts st ls st' : act_all s loader fuel n acts st = (ls, st') -> runs st ls st'.
Proof.
  revert n st ls st'. induction acts as [|a acts IH]; intros n st ls st'; cbn [act_all]; [intros [= <- <-]; constructor|].
  destruct (act s loader fuel n a st) as [l st1] eqn:Ea. destruct (act_all _ _ _ _ acts st1) as [l' st2] eqn:E.
  intros [= <- <-]. eapply run_app; [|by eapply IH]. destruct a as [calls|dt]; cbn [act] in Ea.
  - destruct (start s calls st) as [q st0] eqn:Es. destruct (drive _ _ _ _ q st0) as [l0 st0'] eqn:Ed.
    injection Ea as <- <-. eapply run_app; [by eapply start_runs|by eapply drive_runs].
  - injection Ea as <- <-. apply run_one, step_tick, Z.le_max_l.
Qed.
End Sound.
