(* ===== verification/Startup.v ===== *)
(** * What an API sets up when it starts ([crates/db/src/lib.rs],
      [crates/mail/src/lib.rs], [crates/auth/src/password.rs])

    The database pool and the DKIM signer read from the environment, and the
    argon2 wrapper.  Connecting, signing and hashing are the packages'. *)

From S2P Require Import Prelude RustStr.

(** The environment: [std::env::var(name).ok()]. *)
Abbreviation env := (str -> option str).
Definition non_empty (v : str) : bool := negb (bool_decide (v = [])).
Definition opt_filter {A} (p : A -> bool) (o : option A) : option A :=
  match o with Some a => if p a then Some a else None | None => None end.

(** ** crates/db *)

Module Db.
Record DbConfig := mkDbConfig { url : str; max_connections : Z; acquire_timeout : Z }.
Definition parse_u32 : str -> option Z := parse_uint u32_max.
(** Every failure is an [anyhow] error: its contexts, outermost first. *)
Definition from_env (var : env) : result (list str) DbConfig :=
  u ← ok_or (var (lit "DATABASE_URL")) [lit "DATABASE_URL not set"];
  Ok (mkDbConfig u
    (unwrap_or (var (lit "DATABASE_MAX_CONNECTIONS") ≫= parse_u32) 20)
    (unwrap_or (var (lit "DATABASE_ACQUIRE_TIMEOUT_SECS") ≫= parse_u64) 10)).

Record PoolOptions := mkPoolOptions { po_max_connections : Z; po_acquire_timeout : Z }.
Section Pool.
Context {Pool : Type}.
(** [PgPoolOptions::connect] and the migrator's [run]. *)
Context (pg_connect : PoolOptions -> str -> result str Pool) (migrator_run : Pool -> result str ()).
Definition connect (config : DbConfig) : result (list str) Pool :=
  map_err (fun e => [lit "failed to connect to Postgres"; e])
    (pg_connect (mkPoolOptions (max_connections config) (acquire_timeout config)) (url config)).
Definition migrate_shared (pool : Pool) : result (list str) () :=
  map_err (fun e => [lit "shared migration failed"; e]) (migrator_run pool).
End Pool.
End Db.

(** ** crates/mail *)

Module Mail.
Definition SIGNED_HEADERS : list str := [lit "From"; lit "To"; lit "Subject"; lit "Date"].
Inductive DkimError := KeyFormat | Incomplete (name : str).
Inductive Canonicalization := Simple | Relaxed.
Record DkimConfig (K : Type) := mkDkimConfig {
  selector : str;
  domain : str;
  private_key : K;
  signed_headers : list str;
  canon_header : Canonicalization;
  canon_body : Canonicalization;
}.
Arguments mkDkimConfig {K}.
Arguments selector {K}.
Arguments domain {K}.
Arguments private_key {K}.
Arguments signed_headers {K}.
Arguments canon_header {K}.
Arguments canon_body {K}.

Section Signer.
Context {K Message : Type}.
(** [DkimSigningKey::new] for RSA, and [Message::sign]. *)
Context (signing_key : str -> option K) (message_sign : DkimConfig K -> Message -> Message).

Definition signer_new (key sel dom : str) : result DkimError (DkimConfig K) :=
  k ← ok_or (signing_key key) KeyFormat;
  Ok (mkDkimConfig sel dom k SIGNED_HEADERS Relaxed Relaxed).

Definition signer_from_env (var : env) : result DkimError (option (DkimConfig K)) :=
  let key := opt_filter non_empty (var (lit "MAIL_DKIM_PRIVATE_KEY")) in
  let sel := opt_filter non_empty (var (lit "MAIL_DKIM_SELECTOR")) in
  let dom := opt_filter non_empty (var (lit "MAIL_DKIM_DOMAIN")) in
  match key, sel, dom with
  | None, None, None => Ok None
  | Some key, Some sel, Some dom => Some <$> signer_new key sel dom
  | key, sel, _ =>
      Err (Incomplete
        (if negb (is_some key) then lit "MAIL_DKIM_PRIVATE_KEY"
         else if negb (is_some sel) then lit "MAIL_DKIM_SELECTOR"
         else lit "MAIL_DKIM_DOMAIN"))
  end.

Definition sign (s : DkimConfig K) (m : Message) : Message := message_sign s m.
(** Sending as documented: signed when there is a signer. *)
Definition prepare (s : option (DkimConfig K)) (m : Message) : Message :=
  match s with Some s => sign s m | None => m end.
End Signer.

(** A variable that counts as set. *)
Definition set_to (var : env) (name v : str) : Prop := var name = Some v /\ v <> [].
Definition unset (var : env) (name : str) : Prop := forall v, ~ set_to var name v.

Lemma opt_filter_set var name v : opt_filter non_empty (var name) = Some v <-> set_to var name v.
Proof.
  unfold set_to, opt_filter, non_empty. destruct (var name) as [w|]; [|naive_solver].
  case_bool_decide; simpl; naive_solver.
Qed.
Lemma opt_filter_unset var name : opt_filter non_empty (var name) = None <-> unset var name.
Proof.
  unfold unset. split.
  - intros Hn v Hs%opt_filter_set. congruence.
  - intros Hn. destruct (opt_filter _ _) as [v|] eqn:E; [|done]. by apply opt_filter_set, Hn in E.
Qed.
End Mail.

(** ** crates/auth password *)

Module Password.
(** [Argon2::default()]: the salt it draws is an argument; [PasswordHash::new]
    parses a stored hash. *)
Class Argon2 := {
  phc : Type;
  hash_password : Z -> bytes -> result str phc;
  phc_to_string : phc -> str;
  phc_parse : str -> result str phc;
  verify_password : bytes -> phc -> result str ();
}.
(** Documented: a hash prints to a string that parses back, and verifies
    against the password it was made of. *)
Class Argon2Laws `{Argon2} : Prop := {
  phc_round_trip h : phc_parse (phc_to_string h) = Ok h;
  verify_own salt p h : hash_password salt p = Ok h -> verify_password p h = Ok ();
}.
Section Password.
Context `{Argon2}.
Definition hash (salt : Z) (plaintext : str) : result str str :=
  phc_to_string <$> map_err (fun e => lit "argon2 hash failed: " ++ e) (hash_password salt (as_bytes plaintext)).
Definition verify (plaintext stored_hash : str) : result str bool :=
  parsed ← map_err (fun e => lit "failed to parse stored hash: " ++ e) (phc_parse stored_hash);
  Ok (is_ok (verify_password (as_bytes plaintext) parsed)).

(** A stored hash opens for its password, and a hash that does not parse is an
    error, never a refusal. *)
Lemma stored_hash_verifies `{!Argon2Laws} salt p h : hash salt p = Ok h -> verify p h = Ok true.
Proof.
  unfold hash, verify. destruct (hash_password salt (as_bytes p)) as [k|e] eqn:E; [|done]. intros [= <-].
  rewrite phc_round_trip. simpl. by rewrite (verify_own _ _ _ E).
Qed.
Lemma bad_hash_is_an_error p h : (exists e, phc_parse h = Err e) <-> (exists e, verify p h = Err e).
Proof. unfold verify. destruct (phc_parse h); simpl; naive_solver. Qed.
End Password.
End Password.

(** ** Properties *)

(** Mail is never sent unsigned by accident.  A signer comes out exactly
    when the three variables are set and the key is one the package takes, and
    it signs the four headers, headers and body relaxed; mail goes unsigned
    only when none of the three is set; any partial configuration is an error
    that names the first variable that is missing; blank counts as missing. *)
Theorem dkim_configuration_exact {K} (signing_key : str -> option K) (var : env) :
  let key := lit "MAIL_DKIM_PRIVATE_KEY" in
  let sel := lit "MAIL_DKIM_SELECTOR" in
  let dom := lit "MAIL_DKIM_DOMAIN" in
  let r := Mail.signer_from_env signing_key var in
  (r = Ok None <-> Mail.unset var key /\ Mail.unset var sel /\ Mail.unset var dom)
  /\ (forall c, r = Ok (Some c) <-> exists k p s d,
        Mail.set_to var key p /\ Mail.set_to var sel s /\ Mail.set_to var dom d /\ signing_key p = Some k
        /\ c = Mail.mkDkimConfig s d k [lit "From"; lit "To"; lit "Subject"; lit "Date"] Mail.Relaxed Mail.Relaxed)
  /\ (r = Err Mail.KeyFormat <-> exists p s d,
        Mail.set_to var key p /\ Mail.set_to var sel s /\ Mail.set_to var dom d /\ signing_key p = None)
  /\ (forall n, r = Err (Mail.Incomplete n) <->
        (n = key /\ Mail.unset var key /\ ~ (Mail.unset var sel /\ Mail.unset var dom))
        \/ (n = sel /\ ~ Mail.unset var key /\ Mail.unset var sel)
        \/ (n = dom /\ ~ Mail.unset var key /\ ~ Mail.unset var sel /\ Mail.unset var dom)).
Proof.
  intros key sel dom r.
  unfold r, Mail.signer_from_env. fold key sel dom.
  repeat setoid_rewrite <- Mail.opt_filter_unset. repeat setoid_rewrite <- Mail.opt_filter_set.
  generalize (opt_filter non_empty (var key)) as ok. generalize (opt_filter non_empty (var sel)) as os.
  generalize (opt_filter non_empty (var dom)) as od. intros od os ok. clear r.
  destruct ok as [p|], os as [s|], od as [d|]; simpl.
  1: { unfold Mail.signer_new. destruct (signing_key p) as [k|] eqn:Ek; simpl; split_and!; naive_solver. }
  all: split_and!; naive_solver.
Qed.
