(* ===== verification/Tracing.v ===== *)
(** * Setting up tracing ([crates/telemetry/src/lib.rs])

    [init] and the guard it returns, over the process's globals: the tracing
    subscriber, the [log] logger and OpenTelemetry's tracer provider.  Building
    an exporter belongs to the OTLP package; whether it succeeds is an
    argument. *)

From S2P Require Import Prelude RustStr.

Definition OTLP_ENDPOINT_ENV : str := lit "OTEL_EXPORTER_OTLP_ENDPOINT".

(** A provider: its identity and the service name of its resource. *)
Record SdkTracerProvider := mkProvider { provider_id : Z; service_name : str }.
#[export] Instance SdkTracerProvider_eq_dec : EqDecision SdkTracerProvider.
Proof. solve_decision. Defined.

(** The installed registry: its filter, and the tracer of the OTLP layer. *)
Record Subscriber := mkSubscriber { filter : str; otel_layer : option SdkTracerProvider }.

Record Globals := mkGlobals {
  subscriber : option Subscriber;
  logger_set : bool;
  tracer_provider : option SdkTracerProvider;
  (** providers that were shut down, in order; a shutdown flushes the spans *)
  shut_down : list SdkTracerProvider;
}.

Record TelemetryGuard := mkGuard { provider : option SdkTracerProvider }.

Inductive error := ExporterBuild | SubscriberSet | LoggerSet.

(** The environment of one call: the filter of [RUST_LOG] where it parses,
    whether the endpoint is set, whether the exporter can be built, and the
    identity of a new provider. *)
Record Env := mkEnv { rust_log : option str; endpoint_set : bool; exporter_builds : bool; next_id : Z }.

Definition set_tracer_provider (p : SdkTracerProvider) (g : Globals) : Globals :=
  mkGlobals (subscriber g) (logger_set g) (Some p) (shut_down g).
(** [try_init]: the global default first, which can be set once, then [log]'s
    logger, which can too. *)
Definition try_init (s : Subscriber) (g : Globals) : result error () * Globals :=
  match subscriber g with
  | Some _ => (Err SubscriberSet, g)
  | None =>
      let g := mkGlobals (Some s) (logger_set g) (tracer_provider g) (shut_down g) in
      if logger_set g then (Err LoggerSet, g)
      else (Ok (), mkGlobals (subscriber g) true (tracer_provider g) (shut_down g))
  end.

Definition init (service : str) (e : Env) (g : Globals) : result error TelemetryGuard * Globals :=
  let filter := unwrap_or (rust_log e) (lit "info") in
  let '(provider, g) :=
    if endpoint_set e then
      if exporter_builds e then
        let p := mkProvider (next_id e) service in
        (Ok (Some p), set_tracer_provider p g)
      else (Err ExporterBuild, g)
    else (Ok None, g) in
  match provider with
  | Err e => (Err e, g)
  | Ok provider =>
      let '(r, g) := try_init (mkSubscriber filter provider) g in
      match r with
      | Err e => (Err e, g)
      | Ok _ => (Ok (mkGuard provider), g)
      end
  end.

(** [drop]: [take]s the provider, so a second drop does nothing. *)
Definition drop_guard (t : TelemetryGuard) (g : Globals) : TelemetryGuard * Globals :=
  match provider t with
  | Some p => (mkGuard None, mkGlobals (subscriber g) (logger_set g) (tracer_provider g) (shut_down g ++ [p]))
  | None => (t, g)
  end.

Definition fresh_process : Globals := mkGlobals None false None [].

(** ** Properties *)

(** [init] works once.  It succeeds exactly when neither a subscriber nor a
    logger is installed and, where the endpoint is set, the exporter can be
    built; the guard holds a provider exactly when the endpoint is set, which
    is then the global one and the one the installed layer exports to; any
    later call fails; and dropping the guard shuts that provider down, once. *)
Theorem init_once service e g :
  (is_ok (init service e g).1 = true <->
     subscriber g = None /\ logger_set g = false /\ (endpoint_set e = true -> exporter_builds e = true))
  /\ (forall t, (init service e g).1 = Ok t ->
        let g' := (init service e g).2 in
        (is_some (provider t) = endpoint_set e)
        /\ (endpoint_set e = true -> tracer_provider g' = provider t)
        /\ (exists f, subscriber g' = Some (mkSubscriber f (provider t)))
        /\ (forall service' e', is_ok (init service' e' g').1 = false)
        /\ (let '(t', g'') := drop_guard t g' in
            shut_down g'' = shut_down g' ++ option_list (provider t) /\ drop_guard t' g'' = (t', g''))).
Proof.
  destruct g as [[s|] [] tp sd], e as [rl [] [] id]; cbn; (split; [split; [intros ?; try done; split_and!; done|naive_solver]|]);
    intros t Ht; try done; injection Ht as <-; cbn; split_and!; try done; try (by eexists); try (intros service' [rl' [] [] id']; done).
  all: by rewrite app_nil_r.
Qed.

(** Finding: an [init] that fails because a subscriber is installed has already
    replaced the global tracer provider: spans of the global tracer now go to a
    provider no guard holds, so nothing ever flushes or shuts it down. *)
Theorem failed_init_replaces_provider service e g s :
  subscriber g = Some s -> endpoint_set e = true -> exporter_builds e = true ->
  init service e g = (Err SubscriberSet, set_tracer_provider (mkProvider (next_id e) service) g).
Proof. intros Hs He Hb. unfold init. rewrite He, Hb. unfold try_init. cbn. by rewrite Hs. Qed.

Lemma failed_init_replaces_provider_witness :
  let g := (init (lit "api") (mkEnv None true true 1) fresh_process).2 in
  tracer_provider (init (lit "api") (mkEnv None true true 2) g).2 = Some (mkProvider 2 (lit "api")).
Proof.
  intros g. rewrite (failed_init_replaces_provider (lit "api") (mkEnv None true true 2) g (mkSubscriber (lit "info") (Some (mkProvider 1 (lit "api")))));
    reflexivity.
Defined.
