(* ===== verification/TestDb.v ===== *)
(** * Databases for integration tests ([crates/testkit/src/lib.rs])

    [TestDb] creates a database of its own on a shared server, or starts a
    container, and drops it again.  The server's databases and the running
    containers are the state; what the network answers is an argument.
    [System] has any number of processes on one server, beside whatever else
    uses it. *)

From S2P Require Import Prelude RustStr.

(** The [context]s of the errors. *)
Inductive error :=
  | StartingContainer | ReadingHost | ReadingPort | ConnectingTestPostgres
  | ParsingUrl | ConnectingAdmin | CreatingDatabase | ConnectingDatabase
  | LoadingMigrations | RunningMigrations.

(** sqlx's connection options: parsing a URL, and setting the database. *)
Class PgOptions := {
  options : Type;
  options_from_str : str -> option options;
  set_database : options -> str -> options;
}.

(** The databases of the server, the running containers, and the process's
    counter [DB_SEQ]. *)
Record World := mkWorld { databases : gset str; containers : gset Z; db_seq : Z }.
Definition set_databases (w : World) (d : gset str) : World := mkWorld d (containers w) (db_seq w).
Definition set_containers (w : World) (c : gset Z) : World := mkWorld (databases w) c (db_seq w).
(** [fetch_add(1)]: the old value, and the counter wrapped to 64 bits. *)
Definition fetch_add (w : World) : Z * World :=
  (db_seq w, mkWorld (databases w) (containers w) ((db_seq w + 1) mod 2 ^ 64)).

(** [format!("testkit_{}_{}", &Uuid::new_v4().simple().to_string()[..12], seq)];
    the UUID's sixteen bytes are an argument. *)
Definition db_name (new_v4 : bytes) (seq : Z) : str :=
  lit "testkit_" ++ take 12 (hex_encode new_v4) ++ lit "_" ++ show_u seq.

(** A statement is answered, or the connection is lost before or after the
    server executed it. *)
Inductive fate := Answered | LostBefore | LostAfter.

(** [CREATE DATABASE "name"] fails when the name is taken. *)
Definition create_database (name : str) (f : fate) (w : World) : bool * World :=
  let free := bool_decide (name ∉ databases w) in
  match f with
  | LostBefore => (false, w)
  | LostAfter => (false, if free then set_databases w ({[name]} ∪ databases w) else w)
  | Answered => (free, if free then set_databases w ({[name]} ∪ databases w) else w)
  end.

(** [DROP DATABASE IF EXISTS "name" WITH (FORCE)], where it gets through. *)
Definition drop_database (name : str) (executed : bool) (w : World) : World :=
  if executed then set_databases w (databases w ∖ {[name]}) else w.

Section Testkit.
Context `{PgOptions}.

(** What a pool is connected to. *)
Inductive Pool := ByUrl (url : str) | ByOptions (o : options).
Record TestDb := mkTestDb { pool : Pool; container : option Z; cleanup : option (options * str) }.

(** What the world answers to one call of [fresh]. *)
Record Answers := mkAnswers {
  new_v4 : bytes;
  admin_connects : bool;
  create_fate : fate;
  database_connects : bool;
  container_starts : option Z;
  get_host : option str;
  get_host_port : option Z;
  container_connects : bool;
}.

(** A started container that is not kept is removed when it goes out of scope. *)
Definition container_url (host : str) (port : Z) : str :=
  lit "postgres://postgres:postgres@" ++ host ++ lit ":" ++ show_u port ++ lit "/postgres".
Definition fresh_container (a : Answers) (w : World) : result error TestDb * World :=
  match container_starts a with
  | None => (Err StartingContainer, w)
  | Some id =>
      match get_host a with
      | None => (Err ReadingHost, w)
      | Some host =>
          match get_host_port a with
          | None => (Err ReadingPort, w)
          | Some port =>
              if container_connects a then
                (Ok (mkTestDb (ByUrl (container_url host port)) (Some id) None), set_containers w ({[id]} ∪ containers w))
              else (Err ConnectingTestPostgres, w)
          end
      end
  end.

Definition fresh_external (base : str) (a : Answers) (w : World) : result error TestDb * World :=
  match options_from_str base with
  | None => (Err ParsingUrl, w)
  | Some admin =>
      let '(seq, w) := fetch_add w in
      let name := db_name (new_v4 a) seq in
      if negb (admin_connects a) then (Err ConnectingAdmin, w)
      else
        let '(created, w) := create_database name (create_fate a) w in
        if negb created then (Err CreatingDatabase, w)
        else if negb (database_connects a) then (Err ConnectingDatabase, w)
        else (Ok (mkTestDb (ByOptions (set_database admin name)) None (Some (admin, name))), w)
  end.

(** [fresh]: the variable [TEST_DATABASE_URL] decides. *)
Definition fresh (test_database_url : option str) (a : Answers) (w : World) : result error TestDb * World :=
  match test_database_url with
  | Some base => if negb (bool_decide (base = [])) then fresh_external base a w else fresh_container a w
  | None => fresh_container a w
  end.

(** [run_migrations]: the migrator's two answers. *)
Definition run_migrations (loads runs : bool) : result error () :=
  if negb loads then Err LoadingMigrations else if negb runs then Err RunningMigrations else Ok ().

(** [drop]: the cleanup thread, whatever becomes of it, then the fields; a
    container takes its databases with it. *)
Definition drop_db (t : TestDb) (executed : bool) (w : World) : World :=
  match cleanup t with
  | Some (_, name) => drop_database name executed w
  | None => match container t with Some id => set_containers w (containers w ∖ {[id]}) | None => w end
  end.
End Testkit.

(** ** Names *)

Definition is_uuid (u : bytes) : Prop := length u = 16%nat /\ is_byte_list u.

Lemma hex_encode_length b : length (hex_encode b) = (2 * length b)%nat.
Proof. induction b as [|x b IH]; [done|]. unfold hex_encode in *. cbn [flat_map app length]. rewrite IH. lia. Qed.

Lemma prefix_length u : length u = 16%nat -> length (take 12 (hex_encode u)) = 12%nat.
Proof. intros Hu. rewrite length_take, hex_encode_length, Hu. done. Qed.

(** A name determines the prefix of the UUID and the number. *)
Lemma db_name_inj u n u' n' : length u = 16%nat -> length u' = 16%nat -> 0 <= n -> 0 <= n' ->
  db_name u n = db_name u' n' -> take 12 (hex_encode u) = take 12 (hex_encode u') /\ n = n'.
Proof.
  intros Hu Hu' Hn Hn' E. unfold db_name in E. apply app_inv_head in E.
  apply app_inj_1 in E as [Ep E]; [|by rewrite !prefix_length]. split; [done|]. apply app_inv_head in E.
  pose proof (parse_nat_show_u n Hn) as P. rewrite E, parse_nat_show_u in P by done. by injection P.
Qed.

(** Characters of an identifier that means itself between double quotes. *)
Definition ident_char (c : char) : bool := is_ascii_digit c || is_ascii_lower c || (c =? 95).

Lemma hex_digit_ident d : 0 <= d < 16 -> ident_char (hex_digit d) = true.
Proof.
  intros Hd. unfold ident_char, hex_digit, is_ascii_digit, is_ascii_lower. destruct (d <? 10) eqn:E; bool_simp.
  - rewrite (proj2 (in_range_spec 48 57 _)) by lia. done.
  - rewrite (proj2 (in_range_spec 97 122 _)) by lia. by rewrite orb_true_r.
Qed.

Lemma hex_encode_ident b : is_byte_list b -> Forall (fun c => ident_char c = true) (hex_encode b).
Proof.
  intros Hb. unfold hex_encode. induction Hb as [|x b Hx _ IH]; [constructor|]. cbn [flat_map app].
  repeat constructor; try done; apply hex_digit_ident.
  - split; [apply Z.div_pos; lia|apply Z.div_lt_upper_bound; lia].
  - apply Z.mod_pos_bound. lia.
Qed.

(** Short enough not to be truncated by PostgreSQL, whose names have at most 63
    bytes, and with nothing to escape. *)
Lemma db_name_safe u n : is_uuid u -> 0 <= n <= u64_max ->
  (length (db_name u n) <= 63)%nat /\ Forall (fun c => ident_char c = true) (db_name u n).
Proof.
  intros [Hu Hb] Hn. destruct (show_u_numeral n) as [_ Hd Hl _]; [lia|].
  assert (Hlen : (length (show_u n) <= 20)%nat) by (apply Hl; [unfold u64_max in Hn; simpl; lia|lia]).
  unfold db_name. split.
  - rewrite !length_app, prefix_length by done. change (length (lit "testkit_")) with 8%nat. change (length (lit "_")) with 1%nat. lia.
  - rewrite !Forall_app. split_and!.
    + apply (bool_decide_unpack _). vm_compute. exact I.
    + apply Forall_take. by apply hex_encode_ident.
    + by repeat constructor.
    + eapply Forall_impl; [exact Hd|]. intros c Hc. unfold ident_char. by rewrite Hc.
Qed.

Definition ours (name : str) : bool := starts_with (lit "testkit_") name.
Lemma db_name_ours u n : ours (db_name u n) = true.
Proof. apply starts_with_spec. eexists. reflexivity. Qed.

(** ** Any number of processes on one server *)

Module System.
Section System.
Context `{PgOptions}.

(** [live] are the handles held, [leaked] the databases that were created and
    will not be dropped. *)
Record system := mkSystem { dbs : gset str; seqs : gmap nat Z; live : list TestDb; leaked : gset str }.
Definition world (s : system) (p : nat) : World := mkWorld (dbs s) ∅ (unwrap_or (seqs s !! p) 0).
Definition name_of (t : TestDb) : option str := snd <$> cleanup t.
Definition names (l : list TestDb) : list str := omap name_of l.

Inductive label :=
  | Fresh (p : nat) (base : str) (a : Answers)
  | Teardown (i : nat) (executed : bool)
  | OtherCreates (name : str)
  | OtherDrops (name : str).

Inductive step : system -> label -> system -> Prop :=
  | step_fresh s p base a t w : fresh_external base a (world s p) = (Ok t, w) ->
      step s (Fresh p base a) (mkSystem (databases w) (<[p := db_seq w]> (seqs s)) (t :: live s) (leaked s))
  | step_fresh_fails s p base a e w : fresh_external base a (world s p) = (Err e, w) ->
      step s (Fresh p base a) (mkSystem (databases w) (<[p := db_seq w]> (seqs s)) (live s) (leaked s ∪ (databases w ∖ dbs s)))
  | step_teardown s i t executed : live s !! i = Some t ->
      step s (Teardown i executed)
        (mkSystem (databases (drop_db t executed (world s 0))) (seqs s) (delete i (live s))
           (if executed then leaked s else leaked s ∪ list_to_set (names [t])))
  | step_other_creates s name : ours name = false ->
      step s (OtherCreates name) (mkSystem ({[name]} ∪ dbs s) (seqs s) (live s) (leaked s))
  | step_other_drops s name : ours name = false ->
      step s (OtherDrops name) (mkSystem (dbs s ∖ {[name]}) (seqs s) (live s) (leaked s)).

Definition init (d : gset str) : system := mkSystem d ∅ [] ∅.

(** What [fresh_external] does, by its result. *)
Lemma fresh_external_Ok base a w t w' : fresh_external base a w = (Ok t, w') ->
  exists admin, cleanup t = Some (admin, db_name (new_v4 a) (db_seq w)) /\ container t = None
    /\ db_name (new_v4 a) (db_seq w) ∉ databases w /\ databases w' = {[db_name (new_v4 a) (db_seq w)]} ∪ databases w.
Proof.
  unfold fresh_external. destruct (options_from_str base) as [admin|]; [|done]. cbn [fetch_add].
  destruct (negb (admin_connects a)); [done|]. unfold create_database. cbn [databases].
  destruct (create_fate a); [|done|done]. case_bool_decide as Hin; cbn [negb]; [|done].
  destruct (negb (database_connects a)); [done|]. intros [= <- <-]. by exists admin.
Qed.

Lemma fresh_external_Err base a w e w' : fresh_external base a w = (Err e, w') ->
  databases w' = databases w
  \/ db_name (new_v4 a) (db_seq w) ∉ databases w /\ databases w' = {[db_name (new_v4 a) (db_seq w)]} ∪ databases w
     /\ (create_fate a = LostAfter \/ database_connects a = false).
Proof.
  unfold fresh_external. destruct (options_from_str base) as [admin|]; [|intros [= _ <-]; by left]. cbn [fetch_add].
  destruct (negb (admin_connects a)); [intros [= _ <-]; by left|]. unfold create_database. cbn [databases].
  destruct (create_fate a); [| |]; try case_bool_decide as Hin; cbn [negb]; try (intros [= _ <-]; (by left) || (right; split_and!; auto)).
  destruct (negb (database_connects a)) eqn:E; [|done]. intros [= _ <-]. right. apply negb_true_iff in E. split_and!; auto.
Qed.

(** Every name of ours on the server was there before, or is held by exactly
    one handle, or leaked. *)
Record accounted (d0 : gset str) (s : system) : Prop := {
  acc_live : Forall (fun t => exists admin name, cleanup t = Some (admin, name) /\ ours name = true) (live s);
  acc_distinct : NoDup (names (live s));
  acc_apart : forall n, n ∈ names (live s) -> n ∉ d0 /\ n ∉ leaked s;
  acc_exact : forall n, ours n = true -> n ∈ dbs s <-> n ∈ d0 \/ n ∈ names (live s) \/ n ∈ leaked s;
}.

Lemma accounted_init d : accounted d (init d).
Proof. split; cbn; [constructor|constructor|intros n Hn; by apply elem_of_nil in Hn|]. intros n _. set_solver. Qed.

Lemma names_cons t l admin name : cleanup t = Some (admin, name) -> names (t :: l) = name :: names l.
Proof. intros E. unfold names. cbn. unfold name_of at 1. by rewrite E. Qed.

Lemma names_delete l i t admin name : l !! i = Some t -> cleanup t = Some (admin, name) ->
  names l ≡ₚ name :: names (delete i l).
Proof.
  intros Hl E. unfold names. rewrite (delete_Permutation l i t Hl) at 1. cbn. unfold name_of at 1. by rewrite E.
Qed.

Lemma accounted_step d0 s l s' : accounted d0 s -> step s l s' -> accounted d0 s'.
Proof.
  intros [Hlive Hnd Hap Hex] Hstep. destruct Hstep as [s p base a t w E|s p base a e w E|s i t executed Hi|s name Ho|s name Ho].
  - apply fresh_external_Ok in E as (admin & Hc & _ & Hfree & Hd). cbn [databases world] in *.
    set (n0 := db_name _ _) in *. assert (Hours : ours n0 = true) by apply db_name_ours. rewrite (Hex n0 Hours) in Hfree.
    split; cbn [dbs live leaked]; rewrite ?(names_cons t _ _ _ Hc), ?Hd.
    + constructor; [eauto|done].
    + constructor; [tauto|done].
    + intros n [->|Hn]%elem_of_cons; [tauto|by apply Hap].
    + intros n Hn. rewrite elem_of_union, elem_of_singleton, elem_of_cons, (Hex n Hn). tauto.
  - apply fresh_external_Err in E as [E|(Hfree & Hd & _)]; cbn [databases world] in *.
    + split; cbn [dbs live leaked]; rewrite ?E; [done|done|set_solver|]. intros n Hn. rewrite (Hex n Hn). set_solver.
    + set (n0 := db_name _ _) in *. assert (Hours : ours n0 = true) by apply db_name_ours. pose proof (Hex n0 Hours) as Hn0.
      split; cbn [dbs live leaked]; rewrite ?Hd; [done|done| |].
      * intros n Hn. destruct (Hap n Hn) as [? ?]. split; [done|]. assert (n <> n0) by (intros ->; tauto). set_solver.
      * intros n Hn. pose proof (Hex n Hn). set_solver.
  - pose proof Hlive as Hall. rewrite Forall_forall in Hlive. destruct (Hlive t) as (admin & name & Hc & Hours); [by eapply list_elem_of_lookup_2|].
    pose proof (names_delete _ _ _ _ _ Hi Hc) as Hp. rewrite Hp in Hnd. apply NoDup_cons in Hnd as [Hni Hnd].
    assert (Hin : forall n, n ∈ names (live s) <-> n = name \/ n ∈ names (delete i (live s))).
    { intros n. by rewrite Hp, elem_of_cons. }
    destruct (Hap name) as [Hd0 Hlk]; [apply Hin; by left|].
    assert (Hnames : names [t] = [name]) by (by rewrite (names_cons t [] admin name Hc)).
    unfold drop_db. rewrite Hc. split; cbn [dbs live leaked].
    + by apply Forall_delete.
    + done.
    + intros n Hn. destruct (Hap n) as [? ?]; [apply Hin; by right|]. split; [done|].
      destruct executed; [done|]. rewrite Hnames. assert (n <> name) by (by intros ->). set_solver.
    + intros n Hn. pose proof (Hex n Hn) as Hxn. rewrite (Hin n) in Hxn.
      destruct executed; cbn [drop_database databases set_databases world]; rewrite ?Hnames; set_solver.
  - split; cbn [dbs live leaked]; [done..|]. intros n Hn. assert (n <> name) by congruence. rewrite <- (Hex n Hn). set_solver.
  - split; cbn [dbs live leaked]; [done..|]. intros n Hn. assert (n <> name) by congruence. rewrite <- (Hex n Hn). set_solver.
Qed.
End System.
End System.

Section Clean.
Context `{PgOptions}.
Import System.

(** A step in which nothing fails once the database exists. *)
Definition clean (l : label) : Prop :=
  match l with
  | Fresh _ _ a => create_fate a <> LostAfter /\ database_connects a = true
  | Teardown _ executed => executed = true
  | _ => True
  end.

Lemma clean_step s l s' : leaked s = ∅ -> clean l -> step s l s' -> leaked s' = ∅.
Proof.
  intros H0 Hc Hstep. destruct Hstep as [s p base a t w E|s p base a e w E|s i t executed Hi|s name Ho|s name Ho]; cbn in *; try done.
  - apply fresh_external_Err in E as [E|(_ & _ & [E|E])]; cbn [databases world] in *; [|tauto|destruct Hc; congruence].
    rewrite E, H0. apply leibniz_equiv. set_solver.
  - by subst executed.
Qed.
End Clean.

Module Demo.
#[export] Instance text_options : PgOptions := {|
  options := str * str;
  options_from_str s := Some (s, []);
  set_database o n := (o.1, n) |}.
Definition uuid : bytes := [0xde; 0xad; 0xbe; 0xef; 0; 1; 2; 3; 4; 5; 6; 7; 8; 9; 10; 11].
Definition ok_answers : Answers := mkAnswers uuid true Answered true None None None false.
Definition refused_answers : Answers := mkAnswers uuid true Answered false None None None false.
Definition url : str := lit "postgres://ci@db/postgres".
(** A database of an earlier run that was never dropped. *)
Definition stale : str := lit "testkit_deadbeef0001_7".
Definition world0 : World := mkWorld {[stale]} ∅ 0.
Definition handle : TestDb := mkTestDb (ByOptions (url, db_name uuid 0)) None (Some ((url, []), db_name uuid 0)).
Definition held : System.system := System.mkSystem ({[db_name uuid 0]} ∪ {[stale]}) (<[0%nat := 1]> ∅) [handle] ∅.
Definition after : System.system :=
  System.mkSystem (databases (drop_db handle true (System.world held 0))) (<[0%nat := 1]> ∅) (delete 0%nat [handle]) ∅.

Lemma fresh_demo : fresh_external url ok_answers (System.world (System.init {[stale]}) 0)
  = (Ok handle, mkWorld ({[db_name uuid 0]} ∪ {[stale]}) ∅ 1).
Proof. vm_compute. reflexivity. Qed.

Lemma test_run : run System.step (System.init {[stale]}) [System.Fresh 0 url ok_answers; System.Teardown 0 true] after.
Proof.
  apply (run_snoc _ _ [_] held); [apply (run_snoc _ _ [] (System.init {[stale]})); [constructor|]|].
  - pose proof (System.step_fresh _ _ _ _ _ _ fresh_demo) as Hs. exact Hs.
  - exact (System.step_teardown held 0 handle true eq_refl).
Qed.
End Demo.

(** ** Properties *)

(** C37: test databases are isolated and accounted for.  In every interleaving
    of processes that create and drop test databases on one server, with
    connections lost anywhere and other clients at work on names of their own:
    each handle's database exists and no two handles share one; a database that
    was there before is never dropped; and when nothing failed after a
    [CREATE DATABASE] and every cleanup got through, dropping the last handle
    leaves exactly the test databases that were there at the start. *)
Theorem test_databases_accounted `{PgOptions} d0 ls s :
  run System.step (System.init d0) ls s ->
  (forall i t, System.live s !! i = Some t -> exists n, System.name_of t = Some n /\ n ∈ System.dbs s /\ n ∉ d0)
  /\ (forall i j t u, System.live s !! i = Some t -> System.live s !! j = Some u ->
        System.name_of t = System.name_of u -> i = j)
  /\ (forall n, ours n = true -> n ∈ d0 -> n ∈ System.dbs s)
  /\ (Forall clean ls -> System.live s = [] -> forall n, ours n = true -> n ∈ System.dbs s <-> n ∈ d0).
Proof.
  intros Hrun. destruct (run_invariant _ _ (System.accounted_step d0) _ _ _ (System.accounted_init d0) Hrun) as [Hlive Hnd Hap Hex].
  assert (Hname : forall i t, System.live s !! i = Some t ->
    exists n, System.name_of t = Some n /\ ours n = true /\ n ∈ System.names (System.live s)).
  { intros i t Hi. rewrite Forall_forall in Hlive. destruct (Hlive t) as (admin & n & Hc & Ho); [by eapply list_elem_of_lookup_2|].
    exists n. assert (System.name_of t = Some n) by (unfold System.name_of; by rewrite Hc). split_and!; [done..|].
    apply list_elem_of_omap. exists t. split; [by eapply list_elem_of_lookup_2|done]. }
  split_and!.
  - intros i t Hi. destruct (Hname i t Hi) as (n & Hn & Ho & Hin). exists n. split_and!; [done|apply Hex; auto|by apply Hap].
  - intros i j t u Hi Hj E. destruct (decide (i = j)) as [|Hne]; [done|exfalso].
    destruct (Hname i t Hi) as (n & Hn & _). pose proof (delete_Permutation _ _ _ Hi) as Hp.
    assert (Hj' : u ∈ delete i (System.live s)).
    { assert (Hu : u ∈ System.live s) by (by eapply list_elem_of_lookup_2).
      destruct (decide (j < i)%nat); apply list_elem_of_lookup.
      - exists j. by rewrite list_lookup_delete_lt.
      - exists (j - 1)%nat. rewrite list_lookup_delete_ge by lia. by replace (S (j - 1)) with j by lia. }
    assert (Hnames : System.names (System.live s) ≡ₚ n :: System.names (delete i (System.live s))).
    { unfold System.names. rewrite Hp at 1. cbn. by rewrite Hn. }
    rewrite Hnames in Hnd. apply NoDup_cons in Hnd as [Hni _]. apply Hni. apply list_elem_of_omap. exists u. by rewrite <- E.
  - intros n Ho Hn. apply Hex; auto.
  - intros Hc Hl n Ho. assert (Hlk : System.leaked s = ∅).
    { apply (run_invariant_labels System.step clean (fun s => System.leaked s = ∅)) with (System.init d0) ls; try done. apply clean_step. }
    rewrite (Hex n Ho), Hl, Hlk. set_solver.
Qed.

Lemma test_databases_accounted_witness :
  Demo.stale ∈ System.dbs Demo.after /\ System.live Demo.after = [].
Proof.
  split; [|reflexivity]. destruct (test_databases_accounted (H := Demo.text_options) _ _ _ Demo.test_run) as (_ & _ & Hkeep & _).
  apply Hkeep; [vm_compute; reflexivity|]. apply elem_of_singleton. reflexivity.
Defined.

(** Names never collide.  The names drawn by one process differ from call
    to call as long as the 64-bit counter has not wrapped, and those of two
    processes differ when the first twelve digits of their UUIDs do; each is
    short enough for PostgreSQL and needs no escaping between its quotes. *)
Theorem test_db_names_unique u n u' n' : is_uuid u -> is_uuid u' -> 0 <= n <= u64_max -> 0 <= n' <= u64_max ->
  (db_name u n = db_name u' n' <-> take 12 (hex_encode u) = take 12 (hex_encode u') /\ n = n')
  /\ (length (db_name u n) <= 63)%nat /\ Forall (fun c => ident_char c = true) (db_name u n).
Proof.
  intros Hu Hu' Hn Hn'. split; [|by apply db_name_safe]. split.
  - apply db_name_inj; try lia; apply Hu || apply Hu'.
  - intros [E ->]. unfold db_name. by rewrite E.
Qed.

Lemma test_db_names_unique_witness : (length (db_name Demo.uuid 7) <= 63)%nat.
Proof.
  apply (test_db_names_unique Demo.uuid 7 Demo.uuid 8); try (vm_compute; intuition discriminate);
    (split; [reflexivity|apply (bool_decide_unpack _); vm_compute; exact I]).
Defined.

(** Finding: a database whose creation succeeded is left on the server when
    the connection to it fails; no handle exists that would drop it. *)
Theorem created_database_leaks `{PgOptions} base admin a w :
  options_from_str base = Some admin -> admin_connects a = true -> create_fate a = Answered -> database_connects a = false ->
  db_name (new_v4 a) (db_seq w) ∉ databases w ->
  let '(r, w') := fresh_external base a w in
  r = Err ConnectingDatabase /\ databases w' = {[db_name (new_v4 a) (db_seq w)]} ∪ databases w.
Proof.
  intros Hb Ha Hf Hd Hn. unfold fresh_external. rewrite Hb, Ha. cbn [fetch_add negb]. unfold create_database. rewrite Hf. cbn [databases].
  rewrite bool_decide_eq_true_2 by done. cbn [negb]. by rewrite Hd.
Qed.

Lemma created_database_leaks_witness :
  (fresh_external (H := Demo.text_options) Demo.url Demo.refused_answers Demo.world0).1 = Err ConnectingDatabase.
Proof.
  pose proof (created_database_leaks (H := Demo.text_options) Demo.url (Demo.url, []) Demo.refused_answers Demo.world0
    eq_refl eq_refl eq_refl eq_refl) as Hl.
  destruct (fresh_external _ _ _) as [r w']. apply Hl. intros Hin. change (db_name Demo.uuid 0 ∈ ({[Demo.stale]} : gset str)) in Hin.
  apply elem_of_singleton in Hin. vm_compute in Hin. discriminate.
Defined.
