(* ===== verification/FuzzTargets.v ===== *)
(** * The fuzz targets ([fuzz/fuzz_targets])

    Each target as a function of its input that says whether every assertion
    held, and that it holds for every input.  Where a target tampers with a
    signed or sealed message, what it asserts of the cryptography is a
    hypothesis on exactly the bytes it compares. *)

From S2P Require Import Prelude RustStr ApiVersion Webhooks Billing Crypto.

(** ** api_version.rs *)

Definition api_version_target (raw : str) : bool :=
  match from_str raw with
  | Ok version =>
      bool_decide (to_string version = raw)
      && match from_str (to_string version) with Ok v => bool_decide (v = version) | Err _ => false end
  | Err _ => true
  end.

(** ** Tampering *)

(** [bytes[at] ^= 1]. *)
Definition flip_bit (at_ : nat) (b : bytes) : bytes := alter (fun x => Z.lxor x 1) at_ b.
(** The signature targets flip a bit of a byte, or make up a byte. *)
Definition tamper (flip : Z) (body : bytes) : bytes :=
  match body with
  | [] => [flip]
  | _ => flip_bit (Z.to_nat (flip mod Z.of_nat (length body))) body
  end.

Lemma lxor_1_ne x : Z.lxor x 1 <> x.
Proof.
  intros E. assert (H : Z.testbit (Z.lxor x 1) 0 = Z.testbit x 0) by (by rewrite E).
  rewrite Z.lxor_spec in H. change (Z.testbit 1 0) with true in H. by destruct (Z.testbit x 0).
Qed.

Lemma flip_bit_ne at_ b : (at_ < length b)%nat -> flip_bit at_ b <> b.
Proof.
  intros Hl E. apply lookup_lt_is_Some in Hl as [x Hx].
  assert (Hf : flip_bit at_ b !! at_ = Some (Z.lxor x 1)) by (unfold flip_bit; by rewrite list_lookup_alter_eq, Hx).
  rewrite E, Hx in Hf. injection Hf as Hf. by apply (lxor_1_ne x).
Qed.

Lemma flip_index flip n : (0 < n)%nat -> (Z.to_nat (flip mod Z.of_nat n) < n)%nat.
Proof. intros Hn. pose proof (Z.mod_pos_bound flip (Z.of_nat n)). lia. Qed.

Lemma tamper_ne flip body : tamper flip body <> body.
Proof. destruct body as [|x body]; [done|]. apply flip_bit_ne, flip_index. simpl. lia. Qed.

(** ** stripe_signature.rs *)

Record StripeInput := mkStripeInput {
  st_payload : bytes;
  st_secret : bytes;
  st_header : str;
  st_timestamp : Z;
  st_now : Z;
  st_tolerance : Z;
  st_flip : Z;
}.

Section Stripe.
Context (hmac : bytes -> bytes -> bytes).

(** The target's own [sign]. *)
Definition stripe_sign (secret : bytes) (timestamp : Z) (payload : bytes) : str :=
  hex_encode (hmac secret (as_bytes (show_i timestamp) ++ as_bytes (lit ".") ++ payload)).

Definition stripe_target (i : StripeInput) : bool :=
  let header := lit "t=" ++ show_i (st_timestamp i) ++ lit ",v1=" ++ stripe_sign (st_secret i) (st_timestamp i) (st_payload i) in
  let within := abs_diff (st_now i) (st_timestamp i) <=? Z.abs (Z.max (st_tolerance i) 0) in
  let result := verify_signature hmac (st_payload i) header (st_secret i) (st_now i) (st_tolerance i) in
  let tampered := tamper (st_flip i) (st_payload i) in
  Bool.eqb (is_ok result) within
  && match result with Ok verified => verified =? st_timestamp i | Err _ => true end
  && negb (is_ok (verify_signature hmac tampered header (st_secret i) (st_now i) (st_tolerance i))).
End Stripe.

(** ** webhook_signature.rs *)

Record WebhookInput := mkWebhookInput {
  wh_secret : bytes;
  wh_body : bytes;
  wh_header : str;
  wh_timestamp_header : str;
  wh_timestamp : Z;
  wh_now : Z;
  wh_skew : Z;
  wh_flip : Z;
}.

Definition webhook_target (hmac : bytes -> bytes -> bytes) (i : WebhookInput) : bool :=
  let signature := sign_github hmac (wh_secret i) (wh_body i) in
  let tampered := tamper (wh_flip i) (wh_body i) in
  let signed := sign_timestamped hmac (wh_secret i) (wh_timestamp i) (wh_body i) in
  let result := verify_timestamped hmac (wh_secret i) (wh_body i) (show_i (wh_timestamp i)) signed (wh_now i) (wh_skew i) in
  is_ok (verify_github hmac (wh_secret i) (wh_body i) signature)
  && negb (is_ok (verify_github hmac (wh_secret i) tampered signature))
  && Bool.eqb (is_ok result) (abs_diff (wh_now i) (wh_timestamp i) <=? Z.abs (wh_skew i)).

(** ** envelope.rs *)

Record EnvelopeInput := mkEnvelopeInput {
  en_plaintext : bytes;
  en_ciphertext : bytes;
  en_key : bytes;
  en_hex_key : str;
  en_flip : Z;
}.

Section Envelope.
Context `{AesGcm}.

(** The key [generate_dek] drew and the nonces of the two encryptions are
    arguments. *)
Definition envelope_target (dek nonce1 nonce2 : bytes) (i : EnvelopeInput) : bool :=
  match parse_kek (en_hex_key i) with Ok kek => (length kek =? 32)%nat | Err _ => true end
  && match encrypt_value nonce1 (en_plaintext i) dek with
     | Err _ => false
     | Ok sealed =>
         let tampered := flip_bit (Z.to_nat (en_flip i mod Z.of_nat (length sealed))) sealed in
         match decrypt_value sealed dek with Ok p => bool_decide (p = en_plaintext i) | Err _ => false end
         && negb (is_ok (decrypt_value tampered dek))
     end
  && Bool.eqb (is_ok (encrypt_value nonce2 (en_plaintext i) (en_key i))) (length (en_key i) =? 32)%nat.

(** AES-GCM seals whatever it is given under a key and a nonce of its sizes,
    and no single flipped bit of nonce or ciphertext goes unnoticed. *)
Class AesGcmAuthentic : Prop := {
  gcm_seals k n p : length k = 32%nat -> length n = NONCE_SIZE -> is_Some (gcm_encrypt k n p);
  gcm_flip k n p c at_ : gcm_encrypt k n p = Some c -> (at_ < length (n ++ c))%nat -> length n = NONCE_SIZE ->
    let t := flip_bit at_ (n ++ c) in gcm_decrypt k (take NONCE_SIZE t) (drop NONCE_SIZE t) = None;
}.
End Envelope.

(** ** Lemmas *)

Definition is_i32_input (n : Z) : Prop := i32_min <= n <= i32_max.

Lemma i32_in_i64 n : is_i32_input n -> i64_min <= n <= i64_max.
Proof. unfold is_i32_input, i32_min, i32_max, i64_min, i64_max. lia. Qed.

(** A header with one tag: the window, then the tag. *)
Lemma verify_one_tag hmac payload secret t tag now tol : is_i32_input t -> is_i32_input tol -> is_byte_list tag ->
  verify_signature hmac payload (stripe_header t tag) secret now tol
  = if Z.max tol 0 <? abs_diff now t then Err TimestampOutOfTolerance
    else if ct_eq tag (hmac secret (timestamped_input t payload)) then Ok t else Err NoMatch.
Proof.
  intros Ht Htol Hb. unfold verify_signature. rewrite stripe_header_parses by (done || by apply i32_in_i64). cbn [mbind result_bind timestamp v1_signatures].
  unfold u64_try_from. rewrite try_from_in by (unfold is_i32_input, i32_min, i32_max, u64_max in *; lia). cbn [unwrap_or].
  rewrite expected_signature_input. cbn [existsb]. by rewrite orb_false_r.
Qed.

Lemma stripe_sign_input hmac secret t payload :
  stripe_sign hmac secret t payload = hex_encode (hmac secret (timestamped_input t payload)).
Proof. by rewrite <- expected_signature_input. Qed.

Lemma ct_eq_refl b : ct_eq b b = true.
Proof. by apply ct_eq_spec. Qed.

Lemma is_ok_verify_github hmac secret body body' : is_byte_list (hmac secret body) ->
  is_ok (verify_github hmac secret body' (sign_github hmac secret body)) = ct_eq (hmac secret body') (hmac secret body).
Proof.
  intros Hb. unfold verify_github. rewrite (trim_no_ws (sign_github _ _ _)) by (by apply sign_github_no_ws).
  unfold sign_github. rewrite strip_prefix_app. cbn [ok_or mbind result_bind]. unfold verify_hex.
  rewrite (trim_no_ws (hex_encode _)), hex_decode_encode by auto with kit. cbn [ok_or mbind result_bind]. by destruct (ct_eq _ _).
Qed.

Lemma flip_bit_length at_ b : length (flip_bit at_ b) = length b.
Proof. apply length_alter. Qed.

Module Demo.
(** The message as its own tag: nothing collides. *)
Definition hmac (k m : bytes) : bytes := (fun b => Z.abs b mod 256) <$> m.
Lemma hmac_bytes k m : is_byte_list (hmac k m).
Proof. apply Forall_fmap, Forall_true. intros b. unfold compose. apply Z.mod_pos_bound. lia. Qed.

(** A cipher whose tag is the sum of nonce and plaintext. *)
Definition total (b : bytes) : Z := foldr Z.add 0 b.
#[export] Instance summing_gcm : AesGcm := {|
  gcm_encrypt k n p := Some (total n + total p :: p);
  gcm_decrypt k n c := match c with [] => None | t :: p => if t =? total n + total p then Some p else None end |}.
#[export] Instance summing_laws : AesGcmLaws.
Proof. split. intros k n p c [= <-]. cbn. by rewrite Z.eqb_refl. Qed.

Lemma lxor_1_near x : Z.lxor x 1 = x + 1 \/ Z.lxor x 1 = x - 1.
Proof.
  assert (Hx : x = 2 * (x / 2) + Z.b2z (Z.testbit x 0)).
  { rewrite Z.bit0_mod. apply Z.div_mod. lia. }
  assert (Hl : Z.lxor x 1 = 2 * (Z.lxor x 1 / 2) + Z.b2z (Z.testbit (Z.lxor x 1) 0)).
  { rewrite Z.bit0_mod. apply Z.div_mod. lia. }
  assert (Z.lxor x 1 / 2 = x / 2) as E.
  { rewrite <- !Z.shiftr_div_pow2 with (n := 1) by lia. rewrite Z.shiftr_lxor. by rewrite Z.lxor_0_r. }
  rewrite E, Z.lxor_spec in Hl. change (Z.testbit 1 0) with true in Hl. destruct (Z.testbit x 0); cbn in Hx, Hl; lia.
Qed.

Lemma total_flip at_ b : (at_ < length b)%nat -> total (flip_bit at_ b) <> total b.
Proof.
  revert at_. induction b as [|x b IH]; intros at_ Hl; [simpl in Hl; lia|]. unfold flip_bit in *. destruct at_ as [|i]; cbn.
  - destruct (lxor_1_near x); lia.
  - specialize (IH i). cbn in Hl. unfold total in IH. lia.
Qed.

#[export] Instance summing_authentic : AesGcmAuthentic.
Proof.
  split; [intros; by eexists|]. intros k n p c at_ [= <-] Hat Hn t. unfold t, flip_bit. rewrite length_app in Hat. cbn [length] in Hat.
  destruct (decide (at_ < length n)%nat) as [Hl|Hl].
  - rewrite alter_app_l by done. rewrite <- Hn at 1 2.
    rewrite <- (length_alter (fun x => Z.lxor x 1) n at_), take_app_length, drop_app_length. cbn [gcm_decrypt summing_gcm].
    pose proof (total_flip at_ n Hl) as Ht. unfold flip_bit in Ht. by rewrite (proj2 (Z.eqb_neq _ _)) by lia.
  - replace at_ with (length n + (at_ - length n))%nat by lia. rewrite alter_app_r, <- Hn, take_app_length, drop_app_length.
    destruct (at_ - length n)%nat as [|i] eqn:E; cbn [alter list_alter gcm_decrypt summing_gcm].
    + pose proof (lxor_1_ne (total n + total p)). by rewrite (proj2 (Z.eqb_neq _ _)) by lia.
    + pose proof (total_flip i p ltac:(lia)) as Ht. unfold flip_bit in Ht. by rewrite (proj2 (Z.eqb_neq _ _)) by lia.
Qed.

Definition stripe_input : StripeInput := mkStripeInput [] [7; 7] (lit "t=,v1") 1700000000 1700000100 (-5) 200.
Definition webhook_input : WebhookInput := mkWebhookInput [7; 7] [1; 2; 3] [] [] (-12) 2147483647 (-2147483648) 200.
Definition envelope_input : EnvelopeInput := mkEnvelopeInput [1; 2; 3] [] [9] (lit "zz") 255.
End Demo.

(** ** Properties *)

(** The signature targets never fail.  For every fuzzed input, every
    assertion of the Stripe target and of the webhook target holds (accepted
    exactly within the window, a negative tolerance counting as none and a
    negative skew as its magnitude; the tampered body refused), if and only if
    the HMAC tells the tampered message from the signed one. *)
Theorem signature_fuzz_targets_hold hmac (i : StripeInput) (j : WebhookInput) :
  (forall k m, is_byte_list (hmac k m)) ->
  is_i32_input (st_timestamp i) -> is_i32_input (st_tolerance i) -> is_i32_input (wh_timestamp j) ->
  (stripe_target hmac i = true <->
     (abs_diff (st_now i) (st_timestamp i) <= Z.max (st_tolerance i) 0 ->
      hmac (st_secret i) (timestamped_input (st_timestamp i) (tamper (st_flip i) (st_payload i)))
      <> hmac (st_secret i) (timestamped_input (st_timestamp i) (st_payload i))))
  /\ (webhook_target hmac j = true <->
        hmac (wh_secret j) (tamper (wh_flip j) (wh_body j)) <> hmac (wh_secret j) (wh_body j)).
Proof.
  intros Hb Ht Htol Hw. split.
  - unfold stripe_target. rewrite stripe_sign_input, Z.abs_eq by lia.
    fold (stripe_header (st_timestamp i) (hmac (st_secret i) (timestamped_input (st_timestamp i) (st_payload i)))).
    rewrite !verify_one_tag, ct_eq_refl by done. rewrite Z.leb_antisym. destruct (Z.ltb_spec (Z.max (st_tolerance i) 0) (abs_diff (st_now i) (st_timestamp i))).
    + split; [lia|done].
    + cbn [is_ok negb Bool.eqb andb]. rewrite Z.eqb_refl. cbn [andb].
      destruct (ct_eq _ _) eqn:E; cbn [is_ok negb].
      * apply ct_eq_spec in E. split; [done|]. intros Hn. exfalso. apply Hn; [lia|done].
      * split; [|done]. intros _ _ E'. rewrite E', ct_eq_refl in E. done.
  - unfold webhook_target. rewrite !is_ok_verify_github, ct_eq_refl, timestamped_own by (done || by apply i32_in_i64). cbn [andb].
    rewrite Z.leb_antisym. destruct (ct_eq _ _) eqn:E; cbn [negb andb].
    + apply ct_eq_spec in E. split; [done|]. intros Hn. by destruct Hn.
    + destruct (_ <? _); cbn; (split; [|done]; intros _ E'; by rewrite E', ct_eq_refl in E).
Qed.

Lemma signature_fuzz_targets_hold_witness :
  stripe_target Demo.hmac Demo.stripe_input = true /\ webhook_target Demo.hmac Demo.webhook_input = true.
Proof.
  destruct (signature_fuzz_targets_hold Demo.hmac Demo.stripe_input Demo.webhook_input Demo.hmac_bytes) as [H1 H2];
    try (vm_compute; split; discriminate).
  split; [apply H1; vm_compute; intros E; by destruct E|apply H2; vm_compute; discriminate].
Defined.

(** The envelope target never fails: a parsed key has 32 bytes, a sealed
    value opens to itself, no flipped bit opens, and exactly the keys of 32
    bytes seal. *)
Theorem envelope_fuzz_target_holds `{AesGcm} `{!AesGcmLaws} `{!AesGcmAuthentic} dek nonce1 nonce2 i :
  length dek = 32%nat -> length nonce1 = NONCE_SIZE -> length nonce2 = NONCE_SIZE ->
  envelope_target dek nonce1 nonce2 i = true.
Proof.
  intros Hd Hn1 Hn2. unfold envelope_target. apply andb_true_iff. split; [apply andb_true_iff; split|].
  - destruct (parse_kek (en_hex_key i)) as [kek|] eqn:E; [|done]. unfold parse_kek in E. apply result_bind_Ok in E as (b & _ & Hb).
    destruct (length b =? 32)%nat eqn:El; [|done]. by injection Hb as <-.
  - destruct (gcm_seals dek nonce1 (en_plaintext i) Hd Hn1) as [c Hc].
    assert (Hs : encrypt_value nonce1 (en_plaintext i) dek = Ok (nonce1 ++ c)).
    { unfold encrypt_value. rewrite (proj2 (as_key_Ok dek dek)) by done. cbn. by rewrite Hc. }
    rewrite Hs, (decrypt_encrypted nonce1 (en_plaintext i) dek) by done. rewrite bool_decide_eq_true_2 by done. cbn [andb].
    set (at_ := Z.to_nat _). assert (Hat : (at_ < length (nonce1 ++ c))%nat).
    { apply flip_index. rewrite length_app, Hn1. unfold NONCE_SIZE. lia. }
    pose proof (gcm_flip dek nonce1 (en_plaintext i) c at_ Hc Hat Hn1) as Hf. cbv zeta in Hf. unfold decrypt_value.
    rewrite flip_bit_length, length_app, Hn1, (proj2 (Nat.ltb_ge _ _)), (proj2 (as_key_Ok dek dek)) by (done || lia). cbn [mbind result_bind].
    destruct (negb (length _ =? _)%nat); [done|]. by rewrite Hf.
  - unfold encrypt_value. destruct (decide (length (en_key i) = 32%nat)) as [Hk|Hk].
    + rewrite (proj2 (as_key_Ok (en_key i) (en_key i))), (proj2 (Nat.eqb_eq _ _)) by done. cbn [mbind result_bind].
      by destruct (gcm_seals (en_key i) nonce2 (en_plaintext i) Hk Hn2) as [c ->].
    + unfold as_key. by rewrite (proj2 (Nat.eqb_neq _ _) Hk).
Qed.

Lemma envelope_fuzz_target_holds_witness :
  envelope_target (H := Demo.summing_gcm) (replicate 32 1) (replicate 12 2) (replicate 12 3) Demo.envelope_input = true.
Proof.
  apply (@envelope_fuzz_target_holds Demo.summing_gcm Demo.summing_laws Demo.summing_authentic (replicate 32 1) (replicate 12 2) (replicate 12 3) Demo.envelope_input); reflexivity.
Defined.

(** The version target never fails: what parses prints back, letter by letter. *)
Theorem api_version_fuzz_target_holds raw : api_version_target raw = true.
Proof.
  unfold api_version_target. destruct (from_str raw) as [v|] eqn:E; [|done]. apply from_str_inv in E as (Hv & Hy & Hs).
  rewrite from_str_to_string by done. rewrite !bool_decide_eq_true_2 by done. done.
Qed.
