(* ===== verification/Golden.v ===== *)
(** * Golden tests of API versions ([crates/testkit/src/api_version_golden.rs])

    The harness that renders each route at each version with the registry of
    [ApiVersion] and compares it with the fixtures on disk, or writes them.
    Files and JSON text are parameters. *)

From S2P Require Import Prelude RustStr Json ApiVersion.

Record GoldenCase := mkCase { c_name : str; c_route : str; c_method : method; c_current : json }.

(** What is listed when the assertion fails, one per fixture; the wording is
    left out. *)
Inductive Failure :=
| CouldNotWrite (path err : str)
| DoesNotMatch (name : str) (version : ApiVersion) (path : str) (expected actual : json)
| NoFixture (name : str) (version : ApiVersion) (path : str)
| NotValidJson (path err : str).
Inductive FixtureError := Missing | Invalid (err : str).

(** [Path::join] and [Path::parent]; the paths here do not end in a slash. *)
Definition path_join (dir name : str) : str :=
  if starts_with [47] name then name
  else if bool_decide (dir = []) then name
  else if ends_with [47] dir then dir ++ name
  else dir ++ [47] ++ name.
Definition parent (path : str) : option str :=
  match rsplit_once 47 path with
  | Some (dir, _) => Some (if bool_decide (trim_end_matches 47 dir = []) then [47] else trim_end_matches 47 dir)
  | None => if bool_decide (path = []) then None else Some []
  end.

Class FileSystem (FS : Type) := {
  (** [fs::read_to_string]: [None] on any error. *)
  read_to_string : str -> FS -> option str;
  (** The error, when there is one. *)
  create_dir_all : str -> FS -> FS * option str;
  fs_write : str -> str -> FS -> FS * option str;
}.
(** Documented: a file that was written reads back, directories are created
    without touching files, and files of other names in the same directory
    keep their contents. *)
Class FileSystemLaws (FS : Type) `{FileSystem FS} : Prop := {
  read_created d fs p : read_to_string p (create_dir_all d fs).1 = read_to_string p fs;
  read_written p s fs : (fs_write p s fs).2 = None -> read_to_string p (fs_write p s fs).1 = Some s;
  read_other d n n' s fs : char_free 47 n -> char_free 47 n' -> n <> n' ->
    read_to_string (path_join d n') (fs_write (path_join d n) s fs).1 = read_to_string (path_join d n') fs;
}.
(** [serde_json]: the two printers, the parser and [Value]'s equality. *)
Class JsonPackage := {
  to_string_pretty : json -> option str;
  value_to_string : json -> str;
  json_from_str : str -> result str json;
  value_eq : json -> json -> bool;
}.

Section Golden.
Context {FS : Type} `{FileSystem FS} `{JsonPackage}.

Definition pretty (v : json) : str := unwrap_or (to_string_pretty v) (value_to_string v).
Definition fixture_name (name : str) (version : ApiVersion) : str := name ++ lit "__" ++ to_string version ++ lit ".json".
Definition fixture_path (dir name : str) (version : ApiVersion) : str := path_join dir (fixture_name name version).
Definition read_fixture (path : str) (fs : FS) : result FixtureError json :=
  contents ← ok_or (read_to_string path fs) Missing;
  map_err Invalid (json_from_str contents).
Definition write_fixture (path : str) (v : json) (fs : FS) : FS * option str :=
  match parent path with
  | Some dir =>
      match create_dir_all dir fs with
      | (fs, Some err) => (fs, Some err)
      | (fs, None) => fs_write path (pretty v ++ [10]) fs
      end
  | None => fs_write path (pretty v ++ [10]) fs
  end.

Definition render (registry : list Transform) (case : GoldenCase) (version : ApiVersion) : json :=
  downgrade_response registry version (c_route case) (c_method case) (c_current case).

(** The body of the two loops. *)
Definition check_one (registry : list Transform) (dir : str) (update : bool) (st : FS * list Failure)
    (case : GoldenCase) (version : ApiVersion) : FS * list Failure :=
  let '(fs, failures) := st in
  let rendered := render registry case version in
  let path := fixture_path dir (c_name case) version in
  if update then
    match write_fixture path rendered fs with
    | (fs, Some err) => (fs, failures ++ [CouldNotWrite path err])
    | (fs, None) => (fs, failures)
    end
  else
    match read_fixture path fs with
    | Ok expected =>
        if value_eq expected rendered then (fs, failures)
        else (fs, failures ++ [DoesNotMatch (c_name case) version path expected rendered])
    | Err Missing => (fs, failures ++ [NoFixture (c_name case) version path])
    | Err (Invalid err) => (fs, failures ++ [NotValidJson path err])
    end.
Definition check_loop (registry : list Transform) (versions : list ApiVersion) (cases : list GoldenCase) (dir : str)
    (update : bool) (fs : FS) : FS * list Failure :=
  foldl (fun st case => foldl (fun st version => check_one registry dir update st case version) st versions) (fs, []) cases.
(** The assertion: the failures it panics with, none when it passes. *)
Definition check_golden_responses (registry : list Transform) (versions : list ApiVersion) (cases : list GoldenCase)
    (dir : str) (update : bool) (fs : FS) : FS * result (list Failure) () :=
  let '(fs, failures) := check_loop registry versions cases dir update fs in
  (fs, if bool_decide (failures = []) then Ok () else Err failures).
Definition assert_golden_responses (update_golden : option str) (registry : list Transform) (versions : list ApiVersion)
    (cases : list GoldenCase) (dir : str) (fs : FS) : FS * result (list Failure) () :=
  check_golden_responses registry versions cases dir (is_some update_golden) fs.
End Golden.

Lemma NoDup_fmap_elem {A B} (f : A -> B) l x y : NoDup (f <$> l) -> x ∈ l -> y ∈ l -> f x = f y -> x = y.
Proof.
  intros Hnd [i Hi]%list_elem_of_lookup_1 [j Hj]%list_elem_of_lookup_1 E.
  assert (i = j) as ->; [|congruence].
  apply (NoDup_lookup (f <$> l) i j (f x)); [done|by rewrite list_lookup_fmap, Hi|by rewrite list_lookup_fmap, Hj, E].
Qed.

(** ** The loops *)

Section GoldenLemmas.
Context {FS : Type} `{FileSystem FS} `{!FileSystemLaws FS} `{JsonPackage}.
Context (registry : list Transform) (dir : str).

Definition step (update : bool) (st : FS * list Failure) (p : GoldenCase * ApiVersion) : FS * list Failure :=
  check_one registry dir update st p.1 p.2.
Definition pairs (versions : list ApiVersion) (cases : list GoldenCase) : list (GoldenCase * ApiVersion) :=
  cases ≫= fun case => pair case <$> versions.

Lemma check_loop_pairs versions cases update fs :
  check_loop registry versions cases dir update fs = foldl (step update) (fs, []) (pairs versions cases).
Proof.
  unfold check_loop, pairs. generalize (fs, @nil Failure) as st. induction cases as [|c cases IH]; intros st; [done|].
  cbn [foldl mbind list_bind]. rewrite foldl_app, IH. f_equal. clear.
  revert st. induction versions as [|v versions IH]; intros st; [done|]. cbn. apply IH.
Qed.

(** Failures are only added. *)
Lemma step_failures update st p : (step update st p).2 = [] -> st.2 = [].
Proof.
  destruct st as [fs l], p as [c v]. unfold step, check_one. cbn [fst snd].
  destruct update; [destruct (write_fixture _ _ _) as [? []]|destruct (read_fixture _ _) as [e|[]]; [destruct (value_eq _ _)|..]];
    cbn [snd]; try done; by intros [? _]%app_eq_nil.
Qed.

Definition path_of (p : GoldenCase * ApiVersion) : str := fixture_path dir (c_name p.1) p.2.
Definition text_of (p : GoldenCase * ApiVersion) : str := pretty (render registry p.1 p.2) ++ [10].

Lemma write_fixture_read p v fs fs' : write_fixture p v fs = (fs', None) -> read_to_string p fs' = Some (pretty v ++ [10]).
Proof.
  unfold write_fixture. intros Hw. destruct (parent p) as [d|].
  - destruct (create_dir_all d fs) as [fs0 [err|]]; [done|].
    pose proof (read_written p (pretty v ++ [10]) fs0) as Hr. rewrite Hw in Hr. by apply Hr.
  - pose proof (read_written p (pretty v ++ [10]) fs) as Hr. rewrite Hw in Hr. by apply Hr.
Qed.

Lemma write_fixture_other n n' v fs : char_free 47 n -> char_free 47 n' -> n <> n' ->
  (write_fixture (path_join dir n) v fs).2 = None ->
  read_to_string (path_join dir n') (write_fixture (path_join dir n) v fs).1 = read_to_string (path_join dir n') fs.
Proof.
  intros Hn Hn' Hne. unfold write_fixture. destruct (parent _) as [d|]; [|intros _; by apply read_other].
  pose proof (read_created d fs (path_join dir n')) as Hc. destruct (create_dir_all d fs) as [fs0 [err|]]; [done|].
  intros _. by rewrite read_other.
Qed.

Lemma fixture_name_inj n n' v v' : valid v -> year v <= 9999 -> valid v' -> year v' <= 9999 ->
  fixture_name n v = fixture_name n' v' -> n = n' /\ v = v'.
Proof.
  intros Hv Hy Hv' Hy' E. unfold fixture_name in E.
  assert (Hlen : forall w, valid w -> year w <= 9999 -> length (to_string w) = 10%nat).
  { intros w Hw Hwy. destruct (to_string_shape w Hw Hwy) as (y & m & d & -> & Ly & Lm & Ld & _). rewrite !length_app. simpl. lia. }
  apply app_inj_2 in E as [-> E]; [|rewrite !length_app, !Hlen by done; done].
  apply app_inv_head in E. apply app_inv_tail in E. split; [done|].
  pose proof (from_str_to_string v Hv Hy) as E1. rewrite E, from_str_to_string in E1 by done. congruence.
Qed.

(** A name without a slash gives a file name without one. *)
Lemma fixture_name_free n v : char_free 47 n -> valid v -> year v <= 9999 -> char_free 47 (fixture_name n v).
Proof.
  intros Hn Hv Hy. unfold fixture_name. destruct (to_string_shape v Hv Hy) as (y & m & d & -> & _ & _ & _ & HF & _).
  rewrite !Forall_app in HF. destruct HF as (Fy & Fm & Fd).
  assert (Hd : forall l, Forall (fun c => is_ascii_digit c = true) l -> char_free 47 l).
  { intros l Hl. eapply Forall_impl; [exact Hl|]. intros c Hc ->. done. }
  unfold char_free in *. rewrite !Forall_app. split_and!; try done; try (by apply Hd);
    apply (bool_decide_unpack _); vm_compute; exact I.
Qed.

(** The cases and versions the harness is given. *)
Record golden_input (l : list (GoldenCase * ApiVersion)) : Prop := {
  gi_names : forall p, p ∈ l -> char_free 47 (c_name p.1);
  gi_versions : forall p, p ∈ l -> valid p.2 /\ year p.2 <= 9999;
  gi_unique : forall p p', p ∈ l -> p' ∈ l -> c_name p.1 = c_name p'.1 -> p.1 = p'.1;
}.

Lemma golden_input_prefix l1 l2 : golden_input (l1 ++ l2) -> golden_input l1.
Proof. intros []. split; intros; (apply gi_names0 || apply gi_versions0 || apply gi_unique0); set_solver. Qed.

(** A clean update leaves every fixture with its rendering. *)
Lemma update_written l fs fs' : golden_input l -> foldl (step true) (fs, []) l = (fs', []) ->
  forall p, p ∈ l -> read_to_string (path_of p) fs' = Some (text_of p).
Proof.
  revert fs'. induction l as [|[c v] l IH] using rev_ind; intros fs' Hin Hf p Hp; [by apply elem_of_nil in Hp|].
  rewrite foldl_app in Hf. destruct (foldl (step true) (fs, []) l) as [fs0 F0] eqn:E0. cbn [foldl] in Hf.
  assert (F0 = []) as -> by (apply (step_failures true (fs0, F0) (c, v)); by rewrite Hf).
  specialize (IH fs0 (golden_input_prefix _ _ Hin) eq_refl).
  unfold step, check_one in Hf. cbn [fst snd] in Hf. destruct (write_fixture _ _ fs0) as [fs1 [err|]] eqn:Ew; [done|].
  injection Hf as <-. destruct Hin as [Hnames Hvers Huniq].
  destruct (decide (fixture_name (c_name p.1) (p.2) = fixture_name (c_name c) v)) as [Epath|Hpath].
  - assert (Hl : (c, v) ∈ l ++ [(c, v)]) by set_solver.
    destruct (Hvers _ Hp), (Hvers _ Hl). apply fixture_name_inj in Epath as [En Ev]; try done.
    assert (p = (c, v)) as -> by (destruct p; f_equal; [by apply (Huniq _ _ Hp Hl)|done]).
    by apply write_fixture_read in Ew.
  - assert (Hpl : p ∈ l) by (apply elem_of_app in Hp as [Hp|Hp%list_elem_of_singleton]; [done|by subst p]).
    rewrite <- (IH p Hpl). unfold path_of, fixture_path in *.
    assert (Hl : (c, v) ∈ l ++ [(c, v)]) by set_solver. destruct (Hvers _ Hp), (Hvers _ Hl).
    pose proof (write_fixture_other (fixture_name (c_name c) v) (fixture_name (c_name p.1) p.2) (render registry c v) fs0) as Ho.
    rewrite Ew in Ho. apply Ho; [| |congruence|done]; apply fixture_name_free; try done; [apply (Hnames _ Hl)|by apply Hnames].
Qed.

(** A comparison reads only, and passes exactly when every fixture does. *)
Lemma compare_exact l fs : foldl (step false) (fs, []) l = (fs, [])
  <-> forall p, p ∈ l -> exists e, read_fixture (path_of p) fs = Ok e /\ value_eq e (render registry p.1 p.2) = true.
Proof.
  induction l as [|[c v] l IH] using rev_ind; [split; [intros _ p Hp; by apply elem_of_nil in Hp|done]|].
  rewrite foldl_app. cbn [foldl].
  assert (Hfs : exists F, foldl (step false) (fs, []) l = (fs, F)).
  { clear IH. induction l as [|[c' v'] l IH] using rev_ind; [by eexists|]. destruct IH as [F HF]. rewrite foldl_app, HF. cbn [foldl].
    unfold step, check_one. cbn [fst snd]. destruct (read_fixture _ _) as [e|[]]; [destruct (value_eq _ _)|..]; by eexists. }
  destruct Hfs as [F HF]. rewrite HF in *. split.
  - intros Hs. assert (F = []) as -> by (apply (step_failures false (fs, F) (c, v)); by rewrite Hs).
    intros p [Hp|Hp%list_elem_of_singleton]%elem_of_app; [by apply IH|]. subst p. revert Hs. unfold step, check_one, path_of.
    cbn [fst snd]. destruct (read_fixture _ _) as [e|[]]; [|done..]. destruct (value_eq _ _) eqn:Ee; [|done]. eauto.
  - intros Hall. assert (F = []) as ->.
    { assert (Hnil : (fs, F) = (fs, [])) by (apply IH; intros p Hp; apply Hall; set_solver). congruence. }
    destruct (Hall (c, v)) as (e & He & Hv); [set_solver|]. unfold step, check_one, path_of in *. cbn [fst snd] in *. by rewrite He, Hv.
Qed.
End GoldenLemmas.

Module Demo.
(** Files by path, every write succeeds; strings print as they are. *)
Definition files : FileSystem (gmap str str) := {|
  read_to_string p fs := fs !! p;
  create_dir_all _ fs := (fs, None);
  fs_write p s fs := (<[p := s]> fs, None) |}.
Lemma path_join_inj d n n' : char_free 47 n -> char_free 47 n' -> path_join d n = path_join d n' -> n = n'.
Proof.
  intros Hn Hn'. unfold path_join.
  assert (Hs : forall m, char_free 47 m -> starts_with [47] m = false).
  { intros m Hm. apply not_true_iff_false. rewrite starts_with_spec. intros [r ->]. by inversion_clear Hm. }
  rewrite !Hs by done. case_bool_decide; [done|]. destruct (ends_with [47] d); intros E; by repeat apply app_inv_head in E.
Qed.
Lemma files_laws : @FileSystemLaws _ files.
Proof.
  split; simpl; [done| |].
  - intros p s fs _. by rewrite lookup_insert_eq.
  - intros d n n' s fs Hn Hn' Hne. apply lookup_insert_ne. intros E. apply Hne. by eapply path_join_inj.
Qed.
Definition json_text : JsonPackage := {|
  to_string_pretty v := match v with JString s => Some s | _ => None end;
  value_to_string _ := [];
  json_from_str s := Ok (JString (removelast s));
  value_eq v w := match v, w with JString a, JString b => a =s b | _, _ => false end |}.
(** The version of 2026-09-01 answers in capitals; older ones do not. *)
Definition capital : Transform :=
  mkTransform (mkApiVersion 2026 9 1) (fun _ _ => true) (fun _ => JString (lit "ok")) (fun v => v).
Definition cases : list GoldenCase := [mkCase (lit "get_agent") (lit "/agents/{id}") (lit "GET") (JString (lit "OK"))].
Definition versions : list ApiVersion := [mkApiVersion 2026 1 1; mkApiVersion 2026 9 1].
End Demo.

(** ** Properties *)

(** Fixtures the harness wrote pass the harness.  With cases of distinct
    names (without a slash) and versions that exist, an update run that reports
    no failure leaves, for every case and version, the rendering the registry
    gives; a comparison right after passes; and, on any disk, a comparison
    passes exactly when every fixture is there, is JSON and equals the
    rendering, and it changes nothing. *)
Theorem golden_fixtures_round_trip {FS} `{FileSystem FS} `{!FileSystemLaws FS} `{JsonPackage} registry versions cases dir fs fs' :
  NoDup (c_name <$> cases) -> Forall (fun c => char_free 47 (c_name c)) cases ->
  Forall (fun v => valid v /\ year v <= 9999) versions ->
  (forall c v, c ∈ cases -> v ∈ versions ->
     exists e, json_from_str (pretty (render registry c v) ++ [10]) = Ok e /\ value_eq e (render registry c v) = true) ->
  check_golden_responses registry versions cases dir true fs = (fs', Ok ()) ->
  check_golden_responses registry versions cases dir false fs' = (fs', Ok ())
  /\ forall disk, check_golden_responses registry versions cases dir false disk = (disk, Ok ())
     <-> forall c v, c ∈ cases -> v ∈ versions -> exists e,
           read_fixture (fixture_path dir (c_name c) v) disk = Ok e /\ value_eq e (render registry c v) = true.
Proof.
  intros Hnd Hfree Hvers Hjson Hup. rewrite Forall_forall in Hfree. rewrite Forall_forall in Hvers.
  assert (Hp : forall p, p ∈ pairs versions cases <-> p.1 ∈ cases /\ p.2 ∈ versions).
  { intros [c v]. unfold pairs. rewrite list_elem_of_bind. cbn [fst snd]. split.
    - intros (c' & (v' & [= -> ->] & Hv)%list_elem_of_fmap & Hc). done.
    - intros [Hc Hv]. exists c. split; [apply list_elem_of_fmap; eauto|done]. }
  assert (Hcmp : forall disk, check_golden_responses registry versions cases dir false disk = (disk, Ok ())
     <-> forall c v, c ∈ cases -> v ∈ versions -> exists e,
           read_fixture (fixture_path dir (c_name c) v) disk = Ok e /\ value_eq e (render registry c v) = true).
  { intros disk. unfold check_golden_responses. rewrite check_loop_pairs.
    transitivity (foldl (step registry dir false) (disk, []) (pairs versions cases) = (disk, [])).
    - destruct (foldl _ _ _) as [d F]. case_bool_decide as HF; split; intros E; by simplify_eq.
    - rewrite compare_exact. split; [intros Hall c v Hc Hv; by apply (Hall (c, v)), Hp|].
      intros Hall p [Hc Hv]%Hp. by apply Hall. }
  split; [|exact Hcmp]. apply Hcmp. intros c v Hc Hv.
  unfold check_golden_responses in Hup. rewrite check_loop_pairs in Hup.
  destruct (foldl _ _ _) as [d F] eqn:Ef. case_bool_decide as HF; [|done]. injection Hup as ->. subst F.
  assert (Hin : golden_input (pairs versions cases)).
  { split; intros p; [| |intros p' [Hc1 _]%Hp [Hc2 _]%Hp En; by eapply (NoDup_fmap_elem c_name)].
    - intros [Hc1 _]%Hp. by apply Hfree.
    - intros [_ Hv1]%Hp. by apply Hvers. }
  pose proof (update_written registry dir _ _ _ Hin Ef (c, v) ltac:(by apply Hp)) as Hr.
  destruct (Hjson c v Hc Hv) as (e & He & Heq). exists e. split; [|done].
  unfold read_fixture, path_of, text_of in *. cbn [fst snd] in Hr. rewrite Hr. cbn. by rewrite He.
Qed.

Lemma golden_fixtures_round_trip_witness :
  let run := @check_golden_responses _ Demo.files Demo.json_text [Demo.capital] Demo.versions Demo.cases (lit "tests/golden") in
  (run true ∅).1 !! lit "tests/golden/get_agent__2026-01-01.json" = Some (lit "ok" ++ [10])
  /\ run false (run true ∅).1 = ((run true ∅).1, Ok ()).
Proof.
  intros run. split; [vm_compute; reflexivity|].
  apply (@golden_fixtures_round_trip _ Demo.files Demo.files_laws Demo.json_text [Demo.capital] Demo.versions Demo.cases (lit "tests/golden") ∅).
  - apply (bool_decide_unpack _). vm_compute. exact I.
  - apply (bool_decide_unpack _). vm_compute. exact I.
  - repeat constructor; done.
  - intros c v Hc Hv. apply list_elem_of_singleton in Hc. subst c.
    apply elem_of_cons in Hv as [->|Hv%list_elem_of_singleton]; [exists (JString (lit "ok"))|subst v; exists (JString (lit "OK"))];
      split; reflexivity.
  - rewrite (surjective_pairing (check_golden_responses _ _ _ _ true ∅)). f_equal.
Defined.
