(* ===== verification/Suite.v ===== *)
(** * The repository's own tests, run on the model: the pure crates

    Every unit test of the permissions, api-version, errors, types and http
    crates is translated as a boolean, assertion by assertion, over the
    definitions of this development; the theorem of each module says that none
    of them fails.  A definition that strayed from the code where a test looks
    would show here.  A test keeps the name it has in the sources. *)

From S2P Require Import Prelude RustStr Json Headers Net Errors Permissions ApiVersion Http AuditTrail Types Wire.

(** A test holds when all its assertions do; an [unwrap] of [None] or [Err]
    panics, so it fails the test. *)
Definition asserts (l : list bool) : bool := forallb (fun b => b) l.
Definition assert_eq {A} `{EqDecision A} (a b : A) : bool := bool_decide (a = b).
Definition assert_ne {A} `{EqDecision A} (a b : A) : bool := negb (assert_eq a b).
Definition unwrapped {A} (o : option A) (k : A -> bool) : bool :=
  match o with Some a => k a | None => false end.
Definition unwrapped_ok {E A} (r : result E A) (k : A -> bool) : bool := unwrapped (res_ok r) k.
Definition unwrapped_err {E A} (r : result E A) (k : E -> bool) : bool :=
  match r with Ok _ => false | Err e => k e end.

(** A suite is its tests under their names; what is reported is the names of
    the failing ones. *)
Abbreviation suite := (list (string * bool)).
Definition failing (s : suite) : list string := fst <$> List.filter (fun t => negb t.2) s.

(** [serde_json::to_string] of a string none of whose characters is escaped. *)
Definition json_text (s : str) : str := [34] ++ s ++ [34].

(** ** crates/permissions/src/lib.rs *)

Module PermissionsTests.
Import ScopeSetImpl.

Definition set (scopes : list Scope) : ScopeSet := foldl (fun s scope => (insert s scope).1) empty scopes.
Definition of_strings (l : list string) : list str := lit <$> l.

Definition intersection_keeps_only_what_both_sides_grant : bool :=
  let token := set [SitesAdmin; TokensManage] in
  let role := set [SitesWrite] in
  let granted := intersection token role in
  asserts [has granted SitesWrite; has granted SitesRead; negb (has granted SitesAdmin); negb (has granted TokensManage)].

Definition intersecting_with_a_full_session_changes_nothing : bool :=
  let token := set [SitesRead] in
  asserts
    [assert_eq (List.filter (fun s => starts_with (lit "sites:") (as_str s)) (iter (intersection token full_session)))
       [SitesRead];
     negb (has (intersection token full_session) SitesWrite)].

Definition intersecting_with_nothing_grants_nothing : bool :=
  let granted := intersection full_session empty in
  forallb (fun scope => negb (has granted scope)) all.

Definition roundtrip_every_variant : bool := forallb (fun scope => assert_eq (parse (as_str scope)) (Some scope)) all.

Definition unknown_scope_string_returns_none : bool :=
  asserts [negb (is_some (parse (lit "not:a:real:scope"))); negb (is_some (parse (lit "")))].

Definition full_session_grants_everything : bool :=
  forallb (has full_session) (List.filter (fun s => assert_ne s StaffAccess) all).

Definition full_session_excludes_staff_access : bool := negb (has full_session StaffAccess).

Definition staff_access_can_be_added_to_a_full_session : bool := has (insert full_session StaffAccess).1 StaffAccess.

Definition explicit_staff_access_survives_the_wildcard : bool :=
  has (from_strings_with_wildcard (of_strings ["staff:access"; "*"])) StaffAccess.

Definition empty_grants_nothing : bool := forallb (fun scope => negb (has empty scope)) all.

Definition admin_implies_write_implies_read : bool :=
  let s := set [SecretsAdmin] in
  asserts [has s SecretsAdmin; has s SecretsWrite; has s SecretsRead; negb (has s IssuesRead)].

Definition org_owner_implies_lower_roles : bool :=
  let s := set [OrgOwner] in
  asserts [has s OrgAdmin; has s OrgMember; has s OrgAuditor; has s OrgBilling].

Definition org_admin_does_not_imply_billing : bool :=
  let s := set [OrgAdmin] in
  asserts [has s OrgMember; has s OrgAuditor; negb (has s OrgBilling); negb (has s OrgOwner)].

Definition require_returns_access_denied_with_missing_scope : bool :=
  unwrapped_err (require empty SecretsWrite) (fun err => assert_eq (missing err) SecretsWrite).

Definition from_strings_drops_unknown_silently : bool :=
  let s := from_strings (of_strings ["secrets:read"; "made:up"; "agents:run"]) in
  asserts [has s SecretsRead; has s AgentsRun].

Definition wildcard_in_strings_grants_full_session : bool :=
  let s := from_strings_with_wildcard (of_strings ["*"]) in
  asserts [negb (has s StaffAccess); has s AgentsAdmin].

Definition wildcard_with_other_entries_still_grants_full_session : bool :=
  let s := from_strings_with_wildcard (of_strings ["secrets:read"; "*"; "garbage"]) in
  asserts
    [forallb (has s) (List.filter (fun s => assert_ne s StaffAccess) all);
     negb (has s StaffAccess)].

Definition oidc_scope_string_is_sorted_space_separated : bool :=
  let s := set [SecretsRead; AgentsRun; OrgMember] in
  assert_eq (to_oidc_scope_string s) (lit "agents:run org:member secrets:read").

Definition serde_uses_colon_wire_form_for_known_variants : bool :=
  asserts
    [assert_eq (json_text (serialize SecretsRead)) (json_text (lit "secrets:read"));
     assert_eq (json_text (serialize SecretsAdmin)) (json_text (lit "secrets:admin"));
     assert_eq (json_text (serialize AgentsRun)) (json_text (lit "agents:run"));
     assert_eq (json_text (serialize StaffAccess)) (json_text (lit "staff:access"));
     assert_eq (json_text (serialize TokensManage)) (json_text (lit "tokens:manage"))].

Definition serde_round_trip_matches_as_str_for_every_variant : bool :=
  forallb (fun scope =>
    asserts
      [assert_eq (json_text (serialize scope)) ([34] ++ as_str scope ++ [34]);
       unwrapped_ok (deserialize (serialize scope)) (fun parsed => assert_eq parsed scope)]) all.

Definition serde_rejects_legacy_snake_case_wire_form : bool :=
  forallb (fun s => negb (is_ok (deserialize s)))
    (of_strings ["secrets_read"; "secrets_admin"; "agents_run"; "tokens_manage"]).

Definition serde_rejects_unknown_scope_string : bool := negb (is_ok (deserialize (lit "not:a:scope"))).

(** [impl Resource for FakeVault], with the default [ID_COL]. *)
Definition FakeVault : Resource := {|
  Id := Z; ParentId := Z; TABLE := lit "vaults"; ID_COL := lit "id"; PARENT_ID_COL := lit "org_id" |}.
Definition scoped_resource_round_trips_ids : bool :=
  let r : ScopedResource FakeVault := ScopedResourceImpl.new (R := FakeVault) 42 7 in
  asserts
    [(ScopedResourceImpl.parent_id r : Z) =? 42; (ScopedResourceImpl.id r : Z) =? 7;
     TABLE FakeVault =s lit "vaults"; ID_COL FakeVault =s lit "id"; PARENT_ID_COL FakeVault =s lit "org_id";
     let copied := r in (ScopedResourceImpl.id copied : Z) =? 7].

Definition tests : suite :=
  [("intersection_keeps_only_what_both_sides_grant", intersection_keeps_only_what_both_sides_grant);
   ("intersecting_with_a_full_session_changes_nothing", intersecting_with_a_full_session_changes_nothing);
   ("intersecting_with_nothing_grants_nothing", intersecting_with_nothing_grants_nothing);
   ("roundtrip_every_variant", roundtrip_every_variant);
   ("unknown_scope_string_returns_none", unknown_scope_string_returns_none);
   ("full_session_grants_everything", full_session_grants_everything);
   ("full_session_excludes_staff_access", full_session_excludes_staff_access);
   ("staff_access_can_be_added_to_a_full_session", staff_access_can_be_added_to_a_full_session);
   ("explicit_staff_access_survives_the_wildcard", explicit_staff_access_survives_the_wildcard);
   ("empty_grants_nothing", empty_grants_nothing);
   ("admin_implies_write_implies_read", admin_implies_write_implies_read);
   ("org_owner_implies_lower_roles", org_owner_implies_lower_roles);
   ("org_admin_does_not_imply_billing", org_admin_does_not_imply_billing);
   ("require_returns_access_denied_with_missing_scope", require_returns_access_denied_with_missing_scope);
   ("from_strings_drops_unknown_silently", from_strings_drops_unknown_silently);
   ("wildcard_in_strings_grants_full_session", wildcard_in_strings_grants_full_session);
   ("wildcard_with_other_entries_still_grants_full_session", wildcard_with_other_entries_still_grants_full_session);
   ("oidc_scope_string_is_sorted_space_separated", oidc_scope_string_is_sorted_space_separated);
   ("serde_uses_colon_wire_form_for_known_variants", serde_uses_colon_wire_form_for_known_variants);
   ("serde_round_trip_matches_as_str_for_every_variant", serde_round_trip_matches_as_str_for_every_variant);
   ("serde_rejects_legacy_snake_case_wire_form", serde_rejects_legacy_snake_case_wire_form);
   ("serde_rejects_unknown_scope_string", serde_rejects_unknown_scope_string);
   ("scoped_resource_round_trips_ids", scoped_resource_round_trips_ids)]%string.

(** None of the crate's tests fails on the model. *)
Theorem permissions_tests_pass : failing tests = [].
Proof. vm_compute. reflexivity. Qed.
End PermissionsTests.

(** ** crates/errors/src/error.rs *)

Module ErrorsTests.
Import error_code.

Definition check (err : ApiError) (expected_status : Z) (expected_code : str) : bool :=
  let '(status, code, _) := parts err in
  asserts [status =? expected_status; assert_eq code expected_code].

Definition database_error_maps_to_internal_database : bool := check (Database (lit "PoolClosed")) 500 INTERNAL_DATABASE.
Definition internal_error_maps_to_internal_server_error : bool := check (Internal (lit "boom")) 500 INTERNAL_SERVER_ERROR.
Definition bad_request_default_code : bool := check (BadRequest (lit "nope")) 400 BAD_REQUEST.
Definition validation_default_code : bool := check (Validation (lit "bad")) 400 VALIDATION_FAILED.
Definition rate_limit_exceeded_code : bool := check RateLimitExceeded 429 RATE_LIMIT_EXCEEDED.
Definition unauthorized_code : bool := check Unauthorized 401 AUTH_UNAUTHORIZED.
Definition forbidden_code : bool := check (Forbidden (lit "no")) 403 AUTH_FORBIDDEN.
Definition not_found_legacy_code : bool := check (NotFound (lit "x")) 404 BAD_REQUEST.
Definition plan_limit_exceeded_code : bool := check (PlanLimitExceeded (lit "plan")) 403 PLAN_LIMIT_EXCEEDED.
Definition gone_code : bool := check (Gone (lit "expired")) 410 GONE.
Definition email_not_verified_code : bool := check EmailNotVerified 403 AUTH_EMAIL_NOT_VERIFIED.
Definition coded_helper_preserves_code_and_status : bool :=
  asserts
    [check (not_found ORG_NOT_FOUND (lit "nope")) 404 ORG_NOT_FOUND;
     check (bad_request USER_EMAIL_TAKEN (lit "taken")) 400 USER_EMAIL_TAKEN;
     check (forbidden ADMIN_STAFF_ONLY (lit "staff")) 403 ADMIN_STAFF_ONLY;
     check (conflict CLUSTER_NAME_TAKEN (lit "dup")) 409 CLUSTER_NAME_TAKEN;
     check (gone AUTH_VERIFICATION_CODE_EXPIRED (lit "expired")) 410 AUTH_VERIFICATION_CODE_EXPIRED].

Definition tests : suite :=
  [("database_error_maps_to_internal_database", database_error_maps_to_internal_database);
   ("internal_error_maps_to_internal_server_error", internal_error_maps_to_internal_server_error);
   ("bad_request_default_code", bad_request_default_code);
   ("validation_default_code", validation_default_code);
   ("rate_limit_exceeded_code", rate_limit_exceeded_code);
   ("unauthorized_code", unauthorized_code);
   ("forbidden_code", forbidden_code);
   ("not_found_legacy_code", not_found_legacy_code);
   ("plan_limit_exceeded_code", plan_limit_exceeded_code);
   ("gone_code", gone_code);
   ("email_not_verified_code", email_not_verified_code);
   ("coded_helper_preserves_code_and_status", coded_helper_preserves_code_and_status)]%string.

(** None of the crate's tests fails on the model. *)
Theorem errors_tests_pass : failing tests = [].
Proof. vm_compute. reflexivity. Qed.
End ErrorsTests.

(** ** crates/types/src/contact.rs *)

(** The hyphenated text of a UUID, as [Uuid::parse_str] and [Display] have it. *)
Definition uuid_groups : list nat := [8; 4; 4; 4; 12]%nat.
Fixpoint cut (groups : list nat) (s : str) : list str :=
  match groups with [] => [] | n :: groups => take n s :: cut groups (drop (S n) s) end.
Definition hex_value (s : str) : option Z :=
  foldl (fun acc c => acc ← acc; d ← hex_val c; Some (acc * 16 + d)) (Some 0) s.
Definition hyphenated : AuditTrail.Id.UuidPackage := {|
  AuditTrail.Id.uuid_error := ();
  AuditTrail.Id.uuid_from_str s :=
    if bool_decide (length s = 36%nat) && assert_eq (join [45] (cut uuid_groups s)) s
    then ok_or (hex_value (concat (cut uuid_groups s))) () else Err ();
  AuditTrail.Id.uuid_to_string u :=
    let digits := (fun i => hex_digit (Z.land (Z.shiftr u (4 * Z.of_nat i)) 15)) <$> reverse (seq 0 32) in
    join [45] ((fun '(i, n) => take n (drop i digits)) <$> [(0, 8); (8, 4); (12, 4); (16, 4); (20, 12)]%nat);
  AuditTrail.Id.uuid_error_text _ := lit "invalid UUID";
|}.

Module ContactTests.
#[local] Existing Instance hyphenated.
#[export] Instance InvalidContact_eq_dec : EqDecision InvalidContact.
Proof. solve_decision. Defined.
#[export] Instance ContactProduct_eq_dec : EqDecision ContactProduct.
Proof. solve_decision. Defined.
#[export] Instance RequestKind_eq_dec : EqDecision RequestKind.
Proof. solve_decision. Defined.
#[export] Instance ContactRequest_eq_dec : EqDecision ContactRequest.
Proof. solve_decision. Defined.

Definition request : ContactRequest :=
  mkContactRequest 0 CFerrtrack Bug (lit "Board does not load") (lit "It spins forever.") (lit "ada@example.com") None None None.
(** The struct updates of the tests. *)
Definition with_subject (s : str) (r : ContactRequest) : ContactRequest :=
  mkContactRequest (request_id r) (product r) (kind r) s (message r) (email r) (name r) (org_id r) (from_url r).
Definition with_message (m : str) (r : ContactRequest) : ContactRequest :=
  mkContactRequest (request_id r) (product r) (kind r) (subject r) m (email r) (name r) (org_id r) (from_url r).
Definition with_email (e : str) (r : ContactRequest) : ContactRequest :=
  mkContactRequest (request_id r) (product r) (kind r) (subject r) (message r) e (name r) (org_id r) (from_url r).
Definition with_from_url (u : str) (r : ContactRequest) : ContactRequest :=
  mkContactRequest (request_id r) (product r) (kind r) (subject r) (message r) (email r) (name r) (org_id r) (Some u).

Definition a_complete_request_passes : bool := assert_eq (check request) (Ok ()).

Definition blank_or_oversized_text_is_refused : bool :=
  let blank := with_subject (lit "   ") request in
  let long := with_message (replicate (MESSAGE_MAX + 1) 120) request in
  let padded := with_subject (lit "   " ++ replicate SUBJECT_MAX 120 ++ lit "   ") request in
  asserts
    [assert_eq (check blank) (Err ISubject);
     assert_eq (check long) (Err IMessage);
     assert_eq (check padded) (Err ISubject)].

Definition an_implausible_email_is_refused : bool :=
  forallb (fun email => assert_eq (check (with_email (lit email) request)) (Err IEmail))
    ["ada"; "ada@"; "@example.com"; "ada@example"; "a da@example.com"; "ada@.com"]%string.

Definition the_origin_must_be_an_https_url : bool :=
  asserts
    [forallb (fun url => assert_eq (check (with_from_url (lit url) request)) (Err IFromUrl))
       ["http://app.ferrtrack.com"; "javascript:alert(1)"; "https://"; "https://a b"]%string;
     assert_eq (check (with_from_url (lit "https://app.ferrtrack.com/projects/web") request)) (Ok ())].

(** The two texts of the test, as the documents they are. *)
Definition json : list (str * Json.json) :=
  [(lit "request_id", JString (lit "00000000-0000-0000-0000-000000000000"));
   (lit "product", JString (lit "awesome_alternatives")); (lit "kind", JString (lit "billing"));
   (lit "subject", JString (lit "s")); (lit "message", JString (lit "m")); (lit "email", JString (lit "ada@example.com"))].
Definition newer : list (str * Json.json) := json ++ [(lit "attachment_count", JInt 2)].
Definition the_wire_format_is_snake_case_and_tolerates_fields_a_newer_sender_adds : bool :=
  unwrapped (from_value (A := ContactRequest) (JObject json)) (fun parsed =>
    asserts
      [assert_eq (labels parsed) [lit "contact"; lit "awesome-alternatives"; lit "billing"];
       unwrapped (from_value (JObject newer)) (fun again => assert_eq again parsed)]).

Definition tests : suite :=
  [("a_complete_request_passes", a_complete_request_passes);
   ("blank_or_oversized_text_is_refused", blank_or_oversized_text_is_refused);
   ("an_implausible_email_is_refused", an_implausible_email_is_refused);
   ("the_origin_must_be_an_https_url", the_origin_must_be_an_https_url);
   ("the_wire_format_is_snake_case_and_tolerates_fields_a_newer_sender_adds", the_wire_format_is_snake_case_and_tolerates_fields_a_newer_sender_adds)]%string.

(** None of the tests fails on the model. *)
Theorem contact_tests_pass : failing tests = [].
Proof. vm_compute. reflexivity. Qed.
End ContactTests.

(** ** crates/http/src/lib.rs *)

Module HttpTests.
Definition v4 (s : string) : option IpAddr := match Parse.parse_ip (lit s) with Some (V4 ip) => Some (V4 ip) | _ => None end.
Definition v6 (s : string) : option IpAddr := match Parse.parse_ip (lit s) with Some (V6 ip) => Some (V6 ip) | _ => None end.
(** [assert!(is_public_unicast(..))] and [assert!(!is_public_unicast(..))]. *)
Definition allows (ip : option IpAddr) : bool := unwrapped ip is_public_unicast.
Definition blocks (ip : option IpAddr) : bool := unwrapped ip (fun ip => negb (is_public_unicast ip)).

Definition allows_public_v4 : bool := asserts [allows (v4 "8.8.8.8"); allows (v4 "1.1.1.1"); allows (v4 "140.82.121.4")].
Definition blocks_unspecified_v4 : bool := blocks (v4 "0.0.0.0").
Definition blocks_loopback_v4 : bool := asserts [blocks (v4 "127.0.0.1"); blocks (v4 "127.255.255.255")].
Definition blocks_rfc1918_v4 : bool :=
  asserts [blocks (v4 "10.0.0.1"); blocks (v4 "172.16.0.1"); blocks (v4 "172.31.255.255"); blocks (v4 "192.168.1.1")].
Definition blocks_link_local_and_metadata_v4 : bool := asserts [blocks (v4 "169.254.0.1"); blocks (v4 "169.254.169.254")].
Definition blocks_multicast_and_broadcast_v4 : bool :=
  asserts [blocks (v4 "224.0.0.1"); blocks (v4 "239.255.255.255"); blocks (v4 "255.255.255.255")].
Definition blocks_reserved_v4 : bool :=
  asserts [blocks (v4 "240.0.0.1"); blocks (v4 "100.64.0.1"); blocks (v4 "198.18.0.1"); blocks (v4 "192.0.2.1"); blocks (v4 "198.51.100.1")].
Definition allows_public_v6 : bool := asserts [allows (v6 "2001:4860:4860::8888"); allows (v6 "2606:4700:4700::1111")].
Definition blocks_loopback_v6 : bool := blocks (v6 "::1").
Definition blocks_unspecified_v6 : bool := blocks (v6 "::").
Definition blocks_ula_v6 : bool := asserts [blocks (v6 "fc00::1"); blocks (v6 "fd00::1"); blocks (v6 "fdff:ffff::1")].
Definition blocks_link_local_v6 : bool := asserts [blocks (v6 "fe80::1"); blocks (v6 "febf::1")].
Definition blocks_multicast_v6 : bool := asserts [blocks (v6 "ff00::1"); blocks (v6 "ff02::1")].
Definition blocks_documentation_v6 : bool := blocks (v6 "2001:db8::1").
Definition blocks_ipv4_mapped_private_v6 : bool :=
  asserts [blocks (v6 "::ffff:10.0.0.1"); blocks (v6 "::ffff:169.254.169.254"); allows (v6 "::ffff:8.8.8.8")].
Definition blocks_site_local_v6 : bool := blocks (v6 "fec0::1").
Definition blocks_nat64_embedding_private_v4 : bool :=
  asserts [blocks (v6 "64:ff9b::a00:1"); blocks (v6 "64:ff9b::169.254.169.254"); allows (v6 "64:ff9b::8.8.8.8"); blocks (v6 "64:ff9b:1::1")].
Definition blocks_6to4_embedding_private_v4 : bool :=
  asserts [blocks (v6 "2002:7f00:1::1"); blocks (v6 "2002:a9fe:a9fe::1"); allows (v6 "2002:0808:0808::1")].
Definition blocks_ipv4_compatible_v6 : bool := asserts [blocks (v6 "::127.0.0.1"); blocks (v6 "::10.0.0.1")].
Definition blocks_teredo_and_special_purpose_v6 : bool :=
  asserts [blocks (v6 "2001::1"); blocks (v6 "2001:2::1"); blocks (v6 "100::1"); blocks (v6 "3fff::1")].

(** The URLs of the tests, cut into scheme, host and the rest; no name
    resolves and no server answers. *)
#[local] Instance literal_urls : Outside (str * str * str) := {|
  url_parse s :=
    i ← ok_or (find_str (lit "://") s) (lit "relative URL without a base");
    let rest := drop (i + 3) s in
    let n := unwrap_or (find_char (Z.eqb 47) rest) (length rest) in
    Ok (take i s, take n rest, drop n rest);
  url_join _ _ := Err (lit "no base");
  url_to_string '(s, h, p) := s ++ lit "://" ++ h ++ p;
  scheme '(s, _, _) := s;
  host_str '(_, h, _) := if bool_decide (h = []) then None else Some h;
  port_or_known_default '(s, _, _) := if s =s lit "http" then Some 80 else if s =s lit "https" then Some 443 else None;
  form_urlencoded _ := [];
  lookup_host _ _ := Err (lit "no network");
  exchange _ _ _ _ _ := Err (lit "no network");
|}.
#[local] Existing Instance visible_http.

Definition is_unsupported_scheme (e : SafeFetchError) : bool := match e with UnsupportedScheme _ => true | _ => false end.
Definition is_blocked_address (e : SafeFetchError) : bool := match e with BlockedAddress _ => true | _ => false end.
Definition get_fails (url : string) (expected : SafeFetchError -> bool) : bool :=
  unwrapped (safe_get None (lit url) SafeFetchOpts_default) (fun r => unwrapped_err r.1 expected).
Definition post_fails (url : string) (form : list (str * str)) (expected : SafeFetchError -> bool) : bool :=
  unwrapped_err (safe_post_form None (lit url) form SafeFetchOpts_default).1 expected.

Definition rejects_unsupported_scheme : bool := get_fails "file:///etc/passwd" is_unsupported_scheme.
Definition post_rejects_unsupported_scheme : bool := post_fails "file:///etc/passwd" [] is_unsupported_scheme.
Definition post_rejects_loopback_literal : bool :=
  post_fails "http://127.0.0.1/token" [(lit "grant_type", lit "authorization_code")] is_blocked_address.
Definition post_rejects_the_metadata_endpoint : bool :=
  post_fails "http://169.254.169.254/latest/api/token" [] is_blocked_address.
Definition rejects_loopback_literal : bool := get_fails "http://127.0.0.1/" is_blocked_address.
Definition rejects_metadata_literal : bool :=
  get_fails "http://169.254.169.254/latest/meta-data/" is_blocked_address.

Definition tests : suite :=
  [("allows_public_v4", allows_public_v4);
   ("blocks_unspecified_v4", blocks_unspecified_v4);
   ("blocks_loopback_v4", blocks_loopback_v4);
   ("blocks_rfc1918_v4", blocks_rfc1918_v4);
   ("blocks_link_local_and_metadata_v4", blocks_link_local_and_metadata_v4);
   ("blocks_multicast_and_broadcast_v4", blocks_multicast_and_broadcast_v4);
   ("blocks_reserved_v4", blocks_reserved_v4);
   ("allows_public_v6", allows_public_v6);
   ("blocks_loopback_v6", blocks_loopback_v6);
   ("blocks_unspecified_v6", blocks_unspecified_v6);
   ("blocks_ula_v6", blocks_ula_v6);
   ("blocks_link_local_v6", blocks_link_local_v6);
   ("blocks_multicast_v6", blocks_multicast_v6);
   ("blocks_documentation_v6", blocks_documentation_v6);
   ("blocks_ipv4_mapped_private_v6", blocks_ipv4_mapped_private_v6);
   ("blocks_site_local_v6", blocks_site_local_v6);
   ("blocks_nat64_embedding_private_v4", blocks_nat64_embedding_private_v4);
   ("blocks_6to4_embedding_private_v4", blocks_6to4_embedding_private_v4);
   ("blocks_ipv4_compatible_v6", blocks_ipv4_compatible_v6);
   ("blocks_teredo_and_special_purpose_v6", blocks_teredo_and_special_purpose_v6);
   ("rejects_unsupported_scheme", rejects_unsupported_scheme);
   ("post_rejects_unsupported_scheme", post_rejects_unsupported_scheme);
   ("post_rejects_loopback_literal", post_rejects_loopback_literal);
   ("post_rejects_the_metadata_endpoint", post_rejects_the_metadata_endpoint);
   ("rejects_loopback_literal", rejects_loopback_literal);
   ("rejects_metadata_literal", rejects_metadata_literal)]%string.

(** None of the crate's tests fails on the model. *)
Theorem http_tests_pass : failing tests = [].
Proof. vm_compute. reflexivity. Qed.
End HttpTests.
