(* ===== verification/SuiteApi.v ===== *)
(** * The repository's own tests, run on the model: crates/api-version

    The unit tests of [version.rs], [transform.rs], [policy.rs] and the tests
    of the middleware of [layer.rs], as in [Suite], on the JSON text of
    [SerdeJson]. *)

From S2P Require Import Prelude RustStr Json SerdeJson Headers ApiVersion Golden Suite.

(** [raw.parse().unwrap()] of the tests; the theorems would fail on a text
    that does not parse, since the default is no version of any test. *)
Definition version (raw : string) : ApiVersion := unwrap_or (res_ok (from_str (lit raw))) (mkApiVersion 0 0 0).

#[export] Instance ParseApiVersionError_eq_dec : EqDecision ParseApiVersionError.
Proof. solve_decision. Defined.
#[export] Instance VersionRejection_eq_dec : EqDecision VersionRejection.
Proof. solve_decision. Defined.
#[export] Instance InvalidHeaderName_eq_dec : EqDecision InvalidHeaderName.
Proof. solve_decision. Defined.

(** ** version.rs *)

Module VersionTests.
Definition parses_and_round_trips : bool :=
  unwrapped_ok (from_str (lit "2026-08-03")) (fun v =>
    asserts [year v =? 2026; month v =? 8; day v =? 3; assert_eq (to_string v) (lit "2026-08-03")]).

Definition orders_chronologically : bool :=
  unwrapped_ok (from_str (lit "2026-08-03")) (fun older =>
  unwrapped_ok (from_str (lit "2026-09-01")) (fun newer =>
  unwrapped_ok (from_str (lit "2027-01-01")) (fun next_year =>
    asserts [version_ltb older newer; version_ltb newer next_year; version_ltb older next_year]))).

Definition rejects_shapes_that_are_not_yyyy_mm_dd : bool :=
  forallb (fun raw => assert_eq (from_str (lit raw)) (Err Malformed))
    ["2026-8-3"; "2026-08-3"; "26-08-03"; "2026/08/03"; "2026-08-03T00:00:00Z"; "2026-08-0"; ""; "abcd-ef-gh";
     "3.36.0"]%string.

Definition rejects_dates_that_do_not_exist : bool :=
  forallb (fun raw => assert_eq (from_str (lit raw)) (Err NotACalendarDate))
    ["2026-02-30"; "2026-13-01"; "2026-00-01"; "2026-01-00"]%string.

Definition knows_about_leap_years : bool :=
  asserts
    [is_ok (from_str (lit "2028-02-29")); negb (is_ok (from_str (lit "2026-02-29")));
     is_ok (from_str (lit "2000-02-29")); negb (is_ok (from_str (lit "1900-02-29")))].

(** The derived form is the string of [Display], read by [FromStr]. *)
Definition serde_uses_the_wire_spelling : bool :=
  unwrapped_ok (from_str (lit "2026-08-03")) (fun v =>
    asserts
      [assert_eq (json_text (to_string v)) (json_text (lit "2026-08-03"));
       unwrapped_ok (from_str (to_string v)) (fun again => assert_eq again v)]).

Definition tests : suite :=
  [("parses_and_round_trips", parses_and_round_trips);
   ("orders_chronologically", orders_chronologically);
   ("rejects_shapes_that_are_not_yyyy_mm_dd", rejects_shapes_that_are_not_yyyy_mm_dd);
   ("rejects_dates_that_do_not_exist", rejects_dates_that_do_not_exist);
   ("knows_about_leap_years", knows_about_leap_years);
   ("serde_uses_the_wire_spelling", serde_uses_the_wire_spelling)]%string.

(** None of the tests fails on the model. *)
Theorem version_tests_pass : failing tests = [].
Proof. vm_compute. reflexivity. Qed.
End VersionTests.

(** ** transform.rs *)

Module TransformTests.
(** [body[key] = value] on an object. *)
Definition set_key (k : str) (v : json) (body : json) : json :=
  match body with
  | JObject fields =>
      JObject (if is_some (assoc k fields)
               then (fun f => if f.1 =s k then (k, v) else f) <$> fields else fields ++ [(k, v)])
  | _ => body
  end.
Definition trail (body : json) : str := unwrap_or (get (lit "trail") body ≫= json_as_str) [].

(** Appends its tag in both directions. *)
Definition Marker (at_ : ApiVersion) (tag route : str) : Transform := {|
  t_version := at_;
  applies_to r _ := r =s route;
  t_downgrade_response body := set_key (lit "trail") (JString (trail body ++ tag)) body;
  t_upgrade_request body := set_key (lit "trail") (JString (trail body ++ tag)) body;
|}.

Definition registry : list Transform :=
  registry_of
    [Marker (version "2026-09-01") (lit "b") (lit "/agents");
     Marker (version "2026-08-01") (lit "a") (lit "/agents");
     Marker (version "2026-10-01") (lit "c") (lit "/agents")].
Definition GET : method := lit "GET".

Definition responses_walk_backwards_newest_first : bool :=
  let body := downgrade_response registry (version "2026-07-01") (lit "/agents") GET (JObject []) in
  assert_eq (trail body) (lit "cba").
Definition requests_walk_forwards_oldest_first : bool :=
  let body := upgrade_request registry (version "2026-07-01") (lit "/agents") GET (JObject []) in
  assert_eq (trail body) (lit "abc").
Definition only_changes_newer_than_the_pin_apply : bool :=
  let body := downgrade_response registry (version "2026-09-01") (lit "/agents") GET (JObject []) in
  assert_eq (trail body) (lit "c").
Definition a_client_at_the_latest_change_is_untouched : bool :=
  let body := downgrade_response registry (version "2026-10-01") (lit "/agents") GET (JObject []) in
  asserts
    [negb (is_some (get (lit "trail") body));
     negb (touches registry (version "2026-10-01") (lit "/agents") GET)].
Definition transforms_skip_routes_they_do_not_claim : bool :=
  let body := downgrade_response registry (version "2026-07-01") (lit "/runs") GET (JObject []) in
  asserts
    [negb (is_some (get (lit "trail") body)); negb (touches registry (version "2026-07-01") (lit "/runs") GET)].
Definition an_empty_registry_serves_one_shape : bool :=
  asserts
    [bool_decide (length registry_new = 0%nat); assert_eq (oldest_change registry_new) None;
     negb (touches registry_new (version "2020-01-01") (lit "/agents") GET)].
Definition registration_order_does_not_affect_the_chain : bool :=
  let reversed :=
    registry_of
      [Marker (version "2026-10-01") (lit "c") (lit "/agents");
       Marker (version "2026-09-01") (lit "b") (lit "/agents");
       Marker (version "2026-08-01") (lit "a") (lit "/agents")] in
  let body := downgrade_response reversed (version "2026-07-01") (lit "/agents") GET (JObject []) in
  assert_eq (trail body) (lit "cba").

Definition tests : suite :=
  [("responses_walk_backwards_newest_first", responses_walk_backwards_newest_first);
   ("requests_walk_forwards_oldest_first", requests_walk_forwards_oldest_first);
   ("only_changes_newer_than_the_pin_apply", only_changes_newer_than_the_pin_apply);
   ("a_client_at_the_latest_change_is_untouched", a_client_at_the_latest_change_is_untouched);
   ("transforms_skip_routes_they_do_not_claim", transforms_skip_routes_they_do_not_claim);
   ("an_empty_registry_serves_one_shape", an_empty_registry_serves_one_shape);
   ("registration_order_does_not_affect_the_chain", registration_order_does_not_affect_the_chain)]%string.

(** None of the tests fails on the model. *)
Theorem transform_tests_pass : failing tests = [].
Proof. vm_compute. reflexivity. Qed.
End TransformTests.

(** ** policy.rs *)

(** The header names and values of the [http] package that the tests use: a
    name is a token, lower-cased; a value is visible ASCII. *)
Definition is_token_char (c : char) : bool :=
  is_ascii_alphanumeric c || contains_char (Z.eqb c) (lit "!#$%&'*+-.^_`|~").
#[local] Instance token_http : HttpPackage := {|
  header_name_from_bytes b :=
    if negb (bool_decide (b = [])) && forallb is_token_char b then Some (to_ascii_lowercase b) else None;
  header_value_from_str s := if visibleb s then Some s else None;
  header_to_str b := if visibleb b then Some b else None;
|}.
Definition api_header : str := lit "x-ferrfleet-api-version".

Module PolicyTests.
Definition context (k : ApiVersionContext -> bool) : bool :=
  unwrapped_ok (context_new api_header (version "2026-10-01") (version "2026-01-01")) k.
Definition headers (raw : string) : HeaderMap := header_insert api_header (lit raw) [].

Definition an_explicit_header_wins : bool :=
  context (fun ctx =>
    unwrapped_ok (resolve ctx (headers "2026-05-05") (Some (version "2026-02-02"))) (fun resolved =>
      assert_eq resolved (version "2026-05-05"))).
Definition without_a_header_the_pin_applies : bool :=
  context (fun ctx =>
    unwrapped_ok (resolve ctx [] (Some (version "2026-02-02"))) (fun resolved => assert_eq resolved (version "2026-02-02"))).
Definition an_unpinned_caller_never_defaults_to_current : bool :=
  context (fun ctx =>
    unwrapped_ok (resolve ctx [] None) (fun resolved =>
      asserts [assert_eq resolved (oldest_supported ctx); assert_ne resolved (current ctx)])).
Definition a_package_version_is_refused_rather_than_guessed : bool :=
  context (fun ctx =>
    unwrapped_err (resolve ctx (headers "3.36.0") None) (fun err => assert_eq err (MalformedVersion (lit "3.36.0")))).
Definition a_future_version_is_refused : bool :=
  context (fun ctx =>
    unwrapped_err (resolve ctx (headers "2027-01-01") None) (fun err =>
      match err with FromTheFuture _ _ => true | _ => false end)).
Definition a_sunset_version_is_gone_not_bad_request : bool :=
  context (fun ctx =>
    unwrapped_err (resolve ctx (headers "2025-01-01") None) (fun err =>
      asserts [match err with Sunset _ _ => true | _ => false end; (rejection_parts err).1.1 =? 410])).
Definition the_boundaries_themselves_are_served : bool :=
  context (fun ctx =>
    asserts [is_ok (resolve ctx (headers "2026-01-01") None); is_ok (resolve ctx (headers "2026-10-01") None)]).
Definition a_header_name_is_required_to_be_one : bool :=
  unwrapped_err (context_new (lit "not a header") (version "2026-10-01") (version "2026-01-01")) (fun err =>
    assert_eq err NotAHeaderName).
Definition a_sunset_newer_than_current_is_refused : bool :=
  unwrapped_err (context_new api_header (version "2026-01-01") (version "2026-10-01")) (fun err =>
    assert_eq err SunsetAfterCurrent).

Definition tests : suite :=
  [("an_explicit_header_wins", an_explicit_header_wins);
   ("without_a_header_the_pin_applies", without_a_header_the_pin_applies);
   ("an_unpinned_caller_never_defaults_to_current", an_unpinned_caller_never_defaults_to_current);
   ("a_package_version_is_refused_rather_than_guessed", a_package_version_is_refused_rather_than_guessed);
   ("a_future_version_is_refused", a_future_version_is_refused);
   ("a_sunset_version_is_gone_not_bad_request", a_sunset_version_is_gone_not_bad_request);
   ("the_boundaries_themselves_are_served", the_boundaries_themselves_are_served);
   ("a_header_name_is_required_to_be_one", a_header_name_is_required_to_be_one);
   ("a_sunset_newer_than_current_is_refused", a_sunset_newer_than_current_is_refused)]%string.

(** None of the tests fails on the model. *)
Theorem policy_tests_pass : failing tests = [].
Proof. vm_compute. reflexivity. Qed.
End PolicyTests.

(** ** layer.rs *)

Module LayerTests.
Definition doc (k s : string) : json := JObject [(lit k, JString (lit s))].
Definition doc_bytes (k s : string) : bytes := unwrap_or (to_vec (doc k s)) [].

(** [label] replaced [name] on 2026-09-01. *)
Definition rename (from to : str) (body : json) : json :=
  match get from body with
  | Some v =>
      match TransformTests.set_key to v body with
      | JObject fields => JObject (List.filter (fun f => negb (f.1 =s from)) fields)
      | body => body
      end
  | None => body
  end.
Definition RenamedNameToLabel : Transform := {|
  t_version := version "2026-09-01";
  applies_to route _ := starts_with (lit "/agents") route;
  t_downgrade_response := rename (lit "label") (lit "name");
  t_upgrade_request := rename (lit "name") (lit "label");
|}.

Definition json_type : HeaderMap := [(CONTENT_TYPE, lit "application/json")].
Definition sse : bytes := lit "data: {" ++ json_text (lit "label") ++ lit ":" ++ json_text (lit "pr") ++ lit "}" ++ [10; 10].
(** The three routes: a document, the body sent back, an event stream. *)
Definition handler (req : Request) : Response :=
  if req_path req =s lit "/agents" then mkResponse 200 json_type (Full (doc_bytes "label" "pr"))
  else if req_path req =s lit "/agents/echo" then
    match req_body req with
    | Full b => match from_slice b ≫= to_vec with
                | Some b => mkResponse 200 json_type (Full b)
                | None => mkResponse 400 [] (Full [])
                end
    | Broken => mkResponse 400 [] (Full [])
    end
  else mkResponse 200 [(CONTENT_TYPE, lit "text/event-stream")] (Full sse).

(** What a test looks at: a rejection is its own response. *)
Definition app (req : Request) (served : Response -> bool) (rejected : Z -> str -> bool) : bool :=
  unwrapped_ok (context_new api_header (version "2026-10-01") (version "2026-01-01")) (fun ctx =>
    let ctx := with_default (with_registry ctx (registry_of [RenamedNameToLabel])) (version "2026-01-01") in
    match negotiate from_slice to_vec ctx handler req with
    | Ok res => served res
    | Err e => let '(status, error, _) := rejection_parts e in rejected status error
    end).
Definition refused (status : Z) (error : str) : bool := false.
Definition body_json (res : Response) (expected : json) : bool :=
  unwrapped (to_bytes (res_body res) (64 * 1024)) (fun b =>
    match from_slice b, expected with
    | Some (JObject [(k, JString s)]), JObject [(k', JString s')] => assert_eq k k' && assert_eq s s'
    | _, _ => false
    end).

Definition get_request (v : option string) : Request :=
  mkRequest (lit "GET") (lit "/agents") (Some (lit "/agents"))
    match v with Some v => [(api_header, lit v)] | None => [] end None None (Full []).

Definition a_current_client_gets_the_current_shape : bool :=
  app (get_request (Some "2026-10-01"%string)) (fun res =>
    asserts
      [res_status res =? 200; assert_eq (header_get SERVED_HEADER (res_headers res)) (Some (lit "2026-10-01"));
       body_json res (doc "label" "pr")]) refused.
Definition a_client_from_before_the_change_gets_the_old_shape : bool :=
  app (get_request (Some "2026-08-01"%string)) (fun res => body_json res (doc "name" "pr")) refused.
Definition the_pin_at_the_change_itself_is_current : bool :=
  app (get_request (Some "2026-09-01"%string)) (fun res => body_json res (doc "label" "pr")) refused.
Definition a_caller_that_sends_nothing_gets_the_oldest_contract : bool :=
  app (get_request None) (fun res => body_json res (doc "name" "pr")) refused.
Definition request_bodies_are_carried_forward : bool :=
  let req := mkRequest (lit "POST") (lit "/agents/echo") (Some (lit "/agents/echo"))
    [(api_header, lit "2026-08-01"); (CONTENT_TYPE, lit "application/json")] None None (Full (doc_bytes "name" "pr")) in
  app req (fun res => asserts [res_status res =? 200; body_json res (doc "name" "pr")]) refused.
Definition streams_pass_through_untouched : bool :=
  let req := mkRequest (lit "GET") (lit "/stream") (Some (lit "/stream")) [(api_header, lit "2026-08-01")] None None (Full []) in
  app req (fun res =>
    asserts
      [res_status res =? 200;
       unwrapped (to_bytes (res_body res) (64 * 1024)) (fun b => assert_eq b sse)]) refused.
Definition a_malformed_version_is_refused_before_the_handler_runs : bool :=
  app (get_request (Some "3.36.0"%string)) (fun _ => false) (fun status error =>
    asserts [status =? 400; assert_eq error (lit "invalid_api_version")]).
Definition a_sunset_version_is_gone : bool :=
  app (get_request (Some "2025-06-01"%string)) (fun _ => false) (fun status error =>
    asserts [status =? 410; assert_eq error (lit "sunset_api_version")]).
Definition a_future_version_is_refused : bool :=
  app (get_request (Some "2027-01-01"%string)) (fun _ => false) (fun status error =>
    asserts [status =? 400; assert_eq error (lit "unknown_api_version")]).
Definition content_length_follows_the_rewrite : bool :=
  app (get_request (Some "2026-08-01"%string)) (fun res =>
    unwrapped (header_get CONTENT_LENGTH (res_headers res)) (fun value =>
    unwrapped (header_to_str value) (fun text => unwrapped (parse_u64 text) (fun declared =>
    unwrapped (to_bytes (res_body res) (64 * 1024)) (fun b => declared =? Z.of_nat (length b)))))) refused.

Definition tests : suite :=
  [("a_current_client_gets_the_current_shape", a_current_client_gets_the_current_shape);
   ("a_client_from_before_the_change_gets_the_old_shape", a_client_from_before_the_change_gets_the_old_shape);
   ("the_pin_at_the_change_itself_is_current", the_pin_at_the_change_itself_is_current);
   ("a_caller_that_sends_nothing_gets_the_oldest_contract", a_caller_that_sends_nothing_gets_the_oldest_contract);
   ("request_bodies_are_carried_forward", request_bodies_are_carried_forward);
   ("streams_pass_through_untouched", streams_pass_through_untouched);
   ("a_malformed_version_is_refused_before_the_handler_runs", a_malformed_version_is_refused_before_the_handler_runs);
   ("a_sunset_version_is_gone", a_sunset_version_is_gone);
   ("a_future_version_is_refused", a_future_version_is_refused);
   ("content_length_follows_the_rewrite", content_length_follows_the_rewrite)]%string.

(** None of the tests fails on the model. *)
Theorem layer_tests_pass : failing tests = [].
Proof. vm_compute. reflexivity. Qed.
End LayerTests.

(** ** crates/testkit/src/api_version_golden.rs *)

Module GoldenTests.
(** The files of [Golden.Demo]; the text of [SerdeJson], without the line
    breaks of the pretty printer; objects are equal as maps. *)
#[local] Existing Instance Golden.Demo.files.
Fixpoint same_value (v w : json) : bool :=
  match v, w with
  | JNull, JNull => true
  | JBool a, JBool b => Bool.eqb a b
  | JInt a, JInt b => a =? b
  | JFloat a, JFloat b => a =? b
  | JString a, JString b => a =s b
  | JArray l, JArray m =>
      (fix same (l m : list json) := match l, m with [], [] => true | v :: l, w :: m => same_value v w && same l m | _, _ => false end) l m
  | JObject fs, JObject gs =>
      bool_decide (length fs = length gs)
      && forallb (fun kv => match assoc kv.1 gs with Some w => same_value kv.2 w | None => false end) fs
  | _, _ => false
  end.
#[local] Instance text : JsonPackage := {|
  to_string_pretty v := Some (print v);
  value_to_string := print;
  json_from_str t := ok_or (SerdeJson.from_str t) (lit "expected value");
  value_eq := same_value;
|}.

Definition obj (l : list (string * string)) : json := JObject ((fun kv => (lit kv.1, JString (lit kv.2))) <$> l).
Definition RenamedNameToLabel : Transform := {|
  t_version := version "2026-09-01";
  applies_to route _ := route =s lit "/agents/{id}";
  t_downgrade_response := LayerTests.rename (lit "label") (lit "name");
  t_upgrade_request body := body;
|}.
Definition registry : list Transform := registry_of [RenamedNameToLabel].
Definition cases : list GoldenCase :=
  [mkCase (lit "get_agent") (lit "/agents/{id}") (lit "GET") (obj [("id", "a1"); ("label", "pr-reviewer")]%string)].
Definition dir : str := lit "/tmp/ferrlabs-testkit-golden".
Definition v1 : ApiVersion := version "2026-01-01".
Definition v2 : ApiVersion := version "2026-09-01".
Definition holds (path : str) (disk : gmap str str) (expected : json) : bool :=
  unwrapped_ok (read_fixture path disk) (fun v => same_value v expected).

Definition writes_then_matches_its_own_fixtures : bool :=
  let '(disk, written) := check_golden_responses registry [v1; v2] cases dir true ∅ in
  let '(disk, compared) := check_golden_responses registry [v1; v2] cases dir false disk in
  asserts
    [is_ok written; is_ok compared;
     holds (fixture_path dir (lit "get_agent") v1) disk (obj [("id", "a1"); ("name", "pr-reviewer")]);
     holds (fixture_path dir (lit "get_agent") v2) disk (obj [("id", "a1"); ("label", "pr-reviewer")])]%string.
(** [should_panic]: what the assertion panics with. *)
Definition a_missing_fixture_fails_with_a_clear_message : bool :=
  unwrapped_err (check_golden_responses registry [v1] cases dir false ∅).2 (fun failures =>
    existsb (fun f => match f with NoFixture _ _ _ => true | _ => false end) failures).
Definition a_stale_fixture_fails_with_both_shapes : bool :=
  let path := fixture_path dir (lit "get_agent") v1 in
  let disk := {[ path := print (obj [("id", "a1"); ("name", "wrong-shape")]%string) ]} in
  unwrapped_err (check_golden_responses registry [v1] cases dir false disk).2 (fun failures =>
    existsb (fun f => match f with DoesNotMatch _ _ _ _ _ => true | _ => false end) failures).

Definition tests : suite :=
  [("writes_then_matches_its_own_fixtures", writes_then_matches_its_own_fixtures);
   ("a_missing_fixture_fails_with_a_clear_message", a_missing_fixture_fails_with_a_clear_message);
   ("a_stale_fixture_fails_with_both_shapes", a_stale_fixture_fails_with_both_shapes)]%string.

(** None of the tests fails on the model. *)
Theorem golden_tests_pass : failing tests = [].
Proof. vm_compute. reflexivity. Qed.
End GoldenTests.
