(* ===== verification/SuiteStore.v ===== *)
(** * The repository's own tests, run on the model: rate limits, client
      addresses, secret paths, cache configuration, identifiers, audit

    As in [Suite].  The tests of [crates/cache] that need a Valkey server, a
    certificate parser or a wall clock are left out; those of its pure
    functions are here. *)

From S2P Require Import Prelude RustStr Json Net ClientIp F64 Bucket Vault AuditTrail Cache Suite.

(** ** crates/ratelimit/src/lib.rs *)

Module RateLimitTests.
(** [TestClock]: a reading that the test moves. *)
Definition clock_new : f64 := f64_of_Z 0.
Definition advance (secs : Z) (now : f64) : f64 := f64_add now (f64_of_Z secs).

(** A test is a script over the limiter and its clock: checks with the answer
    asserted, clock moves, prunes, look-ups in the map. *)
Inductive step := SCheck (key : string) (expected : bool) | SAdvance (secs : Z) | SPrune | SContains (key : string) (expected : bool).
Fixpoint run_script (q : Quota) (script : list step) (now : f64) (buckets : gmap str Bucket) : bool :=
  match script with
  | [] => true
  | SCheck key expected :: script =>
      let '(r, buckets) := check (RateLimiter := in_memory q) now (lit key) buckets in
      Bool.eqb r expected && run_script q script now buckets
  | SAdvance secs :: script => run_script q script (advance secs now) buckets
  | SPrune :: script => run_script q script now (prune q now buckets)
  | SContains key expected :: script =>
      Bool.eqb (is_some (buckets !! lit key)) expected && run_script q script now buckets
  end.
Definition with_clock (capacity rate : Z) (script : list step) : bool :=
  run_script (quota_new capacity (f64_of_Z rate)) script clock_new limiter_new.

Definition allows_capacity_then_blocks : bool :=
  with_clock 3 1 [SCheck "a" true; SCheck "a" true; SCheck "a" true; SCheck "a" false].
Definition refills_over_time : bool :=
  with_clock 2 1 [SCheck "k" true; SCheck "k" true; SCheck "k" false; SAdvance 1; SCheck "k" true; SCheck "k" false].
Definition keys_are_independent : bool := with_clock 1 0 [SCheck "x" true; SCheck "x" false; SCheck "y" true].
Definition prune_drops_buckets_that_have_refilled_and_keeps_the_rest : bool :=
  with_clock 2 1
    [SCheck "idle" true; SAdvance 1; SCheck "busy" true; SCheck "busy" true; SPrune; SContains "idle" false;
     SContains "busy" true; SCheck "busy" false].
Definition a_pruned_key_starts_again_with_a_full_bucket : bool :=
  with_clock 2 1
    [SCheck "k" true; SCheck "k" true; SAdvance 2; SPrune; SCheck "k" true; SCheck "k" true; SCheck "k" false].
Definition prune_keeps_a_drained_bucket_that_never_refills : bool :=
  with_clock 1 0 [SCheck "k" true; SAdvance 3600; SPrune; SCheck "k" false].
Definition refill_caps_at_capacity : bool :=
  with_clock 2 100 [SCheck "z" true; SAdvance 10; SCheck "z" true; SCheck "z" true; SCheck "z" false].

Definition tests : suite :=
  [("allows_capacity_then_blocks", allows_capacity_then_blocks);
   ("refills_over_time", refills_over_time);
   ("keys_are_independent", keys_are_independent);
   ("prune_drops_buckets_that_have_refilled_and_keeps_the_rest", prune_drops_buckets_that_have_refilled_and_keeps_the_rest);
   ("a_pruned_key_starts_again_with_a_full_bucket", a_pruned_key_starts_again_with_a_full_bucket);
   ("prune_keeps_a_drained_bucket_that_never_refills", prune_keeps_a_drained_bucket_that_never_refills);
   ("refill_caps_at_capacity", refill_caps_at_capacity)]%string.

(** None of the tests fails on the model. *)
Theorem ratelimit_tests_pass : failing tests = [].
Proof. vm_compute. reflexivity. Qed.
End RateLimitTests.

(** ** crates/ratelimit/src/ip.rs *)

Module ClientIpTests.
Definition ip (s : string) (k : IpAddr -> bool) : bool := unwrapped (Parse.parse_ip (lit s)) k.
(** [client_ip(peer, Some(xff), ..) == expected], the addresses as texts. *)
Definition gives (peer : string) (xff : option string) (trusted : TrustedProxies) (expected : string) : bool :=
  ip peer (fun peer => ip expected (fun expected => assert_eq (client_ip peer (lit <$> xff) trusted) expected)).

Definition no_trusted_proxies_ignores_xff : bool :=
  let peer := V4 (mkV4 10 0 0 1) in
  assert_eq (client_ip peer (Some (lit "1.2.3.4, 5.6.7.8")) none) peer.
Definition one_trusted_hop_takes_rightmost_xff : bool :=
  gives "10.0.0.1" (Some "203.0.113.7, 198.51.100.2"%string) (count 1) "198.51.100.2".
Definition two_trusted_hops_skip_two_from_right : bool :=
  gives "10.0.0.1" (Some "203.0.113.7, 198.51.100.2, 198.51.100.9"%string) (count 2) "198.51.100.2".
Definition spoofed_extra_left_entries_are_ignored_with_one_hop : bool :=
  gives "10.0.0.1" (Some "9.9.9.9, 8.8.8.8, 203.0.113.7"%string) (count 1) "203.0.113.7".
Definition chain_shorter_than_hops_falls_back_to_leftmost : bool :=
  gives "10.0.0.1" (Some "203.0.113.7"%string) (count 3) "203.0.113.7".
Definition empty_or_garbage_header_falls_back_to_peer : bool :=
  asserts
    [gives "10.0.0.1" (Some ""%string) (count 1) "10.0.0.1"; gives "10.0.0.1" (Some "garbage"%string) (count 1) "10.0.0.1";
     gives "10.0.0.1" None (count 1) "10.0.0.1"].

Definition tests : suite :=
  [("no_trusted_proxies_ignores_xff", no_trusted_proxies_ignores_xff);
   ("one_trusted_hop_takes_rightmost_xff", one_trusted_hop_takes_rightmost_xff);
   ("two_trusted_hops_skip_two_from_right", two_trusted_hops_skip_two_from_right);
   ("spoofed_extra_left_entries_are_ignored_with_one_hop", spoofed_extra_left_entries_are_ignored_with_one_hop);
   ("chain_shorter_than_hops_falls_back_to_leftmost", chain_shorter_than_hops_falls_back_to_leftmost);
   ("empty_or_garbage_header_falls_back_to_peer", empty_or_garbage_header_falls_back_to_peer)]%string.

(** None of the tests fails on the model. *)
Theorem client_ip_tests_pass : failing tests = [].
Proof. vm_compute. reflexivity. Qed.
End ClientIpTests.

(** ** crates/vault/src/lib.rs *)

Module VaultTests.
(** URLs as the [url] package builds them here: an origin and the encoded
    segments of the path. *)
Definition segment_escapes (c : char) : bool :=
  (c <=? 32) || (127 <=? c) || contains_char (Z.eqb c) [34; 35; 60; 62; 63; 94; 96; 123; 125; 47; 37].
Definition encode_segment (s : str) : str :=
  flat_map (fun c => if segment_escapes c then 37 :: [hex_digit_upper (c / 16); hex_digit_upper (c mod 16)] else [c]) s.
#[local] Instance segments_url : VaultUrl (str * list str) := {|
  v_parse s :=
    i ← ok_or (find_str (lit "://") s) (lit "relative URL without a base");
    match split 47 (drop (i + 3) s) with
    | [] => Err (lit "empty host")
    | host :: path => Ok (take (i + 3) s ++ host, path)
    end;
  cannot_be_a_base _ := false;
  extend_path u l := (u.1, List.filter (fun s => negb (bool_decide (s = []))) u.2 ++ (encode_segment <$> List.filter not_dot l));
  v_scheme _ := lit "https";
  v_origin u := u.1;
  v_path u := u.2;
|}.
Definition as_text (u : str * list str) : str := u.1 ++ flat_map (fun s => 47 :: s) u.2.

Definition client : VaultClient := vault_new (lit "https://vault.example.com/") (lit "t") (lit "/secret/").
Definition data (c : VaultClient) (path : string) : option str := as_text <$> res_ok (data_url c (lit path)).
Definition data_is (c : VaultClient) (path expected : string) : bool := assert_eq (data c path) (Some (lit expected)).
Definition rejection (r : result str (str * list str)) (e : InvalidSecretPath) : bool :=
  unwrapped_err r (fun text => assert_eq text (display_invalid e)).

Definition builds_kv_v2_urls : bool :=
  asserts
    [data_is client "/ferrfleet/connectors/org/id/" "https://vault.example.com/v1/secret/data/ferrfleet/connectors/org/id";
     unwrapped_ok (metadata_url client (lit "ferrfleet/connectors/org/id")) (fun u =>
       assert_eq (as_text u) (lit "https://vault.example.com/v1/secret/metadata/ferrfleet/connectors/org/id"))].
Definition rejects_traversal_in_every_url_builder : bool :=
  forallb (fun path =>
    asserts [rejection (data_url client (lit path)) DotSegment; rejection (metadata_url client (lit path)) DotSegment])
    ["a/../../../sys/seal"; ".."; "../x"; "a/.."; "./a"; "a/./b"]%string.
Definition rejects_percent_encoded_traversal : bool :=
  forallb (fun path =>
    asserts [rejection (data_url client (lit path)) DotSegment; rejection (metadata_url client (lit path)) DotSegment])
    ["a/%2e%2e/b"; "a/%2E%2E/b"; "a/.%2e/b"; "a/%2e/b"; "%2e%2e"]%string.
Definition rejects_empty_segments : bool :=
  forallb (fun path => rejection (data_url client (lit path)) EmptySegment) [""; "/"; "a//b"; "//double//slash//"]%string.
Definition allows_dots_inside_segment_names : bool :=
  data_is client "a/.hidden/b..c/file.txt" "https://vault.example.com/v1/secret/data/a/.hidden/b..c/file.txt".
(** The URL has no query and no fragment: neither [?] nor [#] is left in it. *)
Definition encodes_reserved_characters_within_a_segment : bool :=
  unwrapped_ok (data_url client (lit "a/b?x=1#frag/c d%2fe")) (fun u =>
    asserts
      [negb (contains_char (Z.eqb 63) (as_text u)); negb (contains_char (Z.eqb 35) (as_text u));
       assert_eq (as_text u) (lit "https://vault.example.com/v1/secret/data/a/b%3Fx=1%23frag/c%20d%252fe")]).

Definition obj (l : list (string * json)) : json := JObject ((fun kv => (lit kv.1, kv.2)) <$> l).
Definition parses_kv_v2_value : bool :=
  let body := obj [("data"%string, obj [("data"%string, obj [("value"%string, JString (lit "ghp_x"))]); ("metadata"%string, obj [])])] in
  assert_eq (parse_secret_value body) (Some (lit "ghp_x")).
Definition parse_returns_none_when_missing : bool :=
  asserts
    [assert_eq (parse_secret_value (obj [("data"%string, obj [("data"%string, obj [])])])) None;
     assert_eq (parse_secret_value (obj [])) None].
Definition url_building_trims_outer_slashes : bool :=
  asserts
    [data_is client "no-leading-slash" "https://vault.example.com/v1/secret/data/no-leading-slash";
     data_is client "//trailing//" "https://vault.example.com/v1/secret/data/trailing"].
Definition new_trims_trailing_addr_slash_and_mount_slashes : bool :=
  data_is (vault_new (lit "https://v.example.com///") (lit "tok") (lit "//kv//")) "p" "https://v.example.com/v1/kv/data/p".
Definition keeps_address_path_prefix_and_nested_mount : bool :=
  data_is (vault_new (lit "https://v.example.com/proxy/") (lit "tok") (lit "team/kv")) "p"
    "https://v.example.com/proxy/v1/team/kv/data/p".
Definition parse_returns_none_when_value_not_a_string : bool :=
  let body := obj [("data"%string, obj [("data"%string, obj [("value"%string, JInt 42)])])] in
  assert_eq (parse_secret_value body) None.
Definition parse_reads_only_the_value_field : bool :=
  let body := obj [("data"%string, obj [("data"%string, obj [("other"%string, JString (lit "x"))])])] in
  assert_eq (parse_secret_value body) None.

Definition tests : suite :=
  [("builds_kv_v2_urls", builds_kv_v2_urls);
   ("rejects_traversal_in_every_url_builder", rejects_traversal_in_every_url_builder);
   ("rejects_percent_encoded_traversal", rejects_percent_encoded_traversal);
   ("rejects_empty_segments", rejects_empty_segments);
   ("allows_dots_inside_segment_names", allows_dots_inside_segment_names);
   ("encodes_reserved_characters_within_a_segment", encodes_reserved_characters_within_a_segment);
   ("parses_kv_v2_value", parses_kv_v2_value);
   ("parse_returns_none_when_missing", parse_returns_none_when_missing);
   ("url_building_trims_outer_slashes", url_building_trims_outer_slashes);
   ("new_trims_trailing_addr_slash_and_mount_slashes", new_trims_trailing_addr_slash_and_mount_slashes);
   ("keeps_address_path_prefix_and_nested_mount", keeps_address_path_prefix_and_nested_mount);
   ("parse_returns_none_when_value_not_a_string", parse_returns_none_when_value_not_a_string);
   ("parse_reads_only_the_value_field", parse_reads_only_the_value_field)]%string.

(** None of the crate's tests fails on the model. *)
Theorem vault_tests_pass : failing tests = [].
Proof. vm_compute. reflexivity. Qed.
End VaultTests.

(** ** crates/cache/src/lib.rs: the pure functions *)

Definition contains (sub text : str) : bool := is_some (find_str sub text).

Module CacheTests.
#[local] Existing Instance Cache.Demo.pct.

(** [percent_encode_userinfo(raw) == expected]. *)
Definition encodes (raw expected : string) : bool := assert_eq (percent_encode_userinfo (lit raw)) (lit expected).
(** The host and port that a parser of the result finds. *)
Definition reaches (raw host_port : string) : bool :=
  unwrapped (parse_authority (percent_encode_userinfo (lit raw))) (fun '(_, _, host, _) => assert_eq host (lit host_port)).

Definition percent_encode_userinfo_splits_on_last_at_for_password_containing_at : bool :=
  encodes "redis://:ab@cd@127.0.0.1:6379" "redis://:ab%40cd@127.0.0.1:6379".
Definition percent_encode_userinfo_splits_on_first_colon_for_password_containing_colon : bool :=
  encodes "redis://:ab:cd@127.0.0.1:6379" "redis://:ab%3Acd@127.0.0.1:6379".
Definition percent_encode_userinfo_encodes_percent_sign_itself : bool :=
  encodes "redis://:ab%cd@127.0.0.1:6379" "redis://:ab%25cd@127.0.0.1:6379".
Definition percent_encode_userinfo_covers_slash_plus_equals : bool :=
  encodes "redis://:ab/cd+ef=gh@127.0.0.1:6379" "redis://:ab%2Fcd%2Bef%3Dgh@127.0.0.1:6379".
Definition percent_encode_userinfo_leaves_url_without_userinfo_unchanged : bool :=
  encodes "redis://127.0.0.1:6379" "redis://127.0.0.1:6379".
Definition percent_encode_userinfo_preserves_db_index_path : bool :=
  encodes "redis://:ab/cd@127.0.0.1:6379/0" "redis://:ab%2Fcd@127.0.0.1:6379/0".
Definition percent_encode_userinfo_ignores_at_sign_outside_the_authority : bool :=
  asserts
    [encodes "redis://:pw@127.0.0.1:6379/0?note=a@b" "redis://:pw@127.0.0.1:6379/0?note=a@b";
     reaches "redis://:pw@127.0.0.1:6379/0?note=a@b" "127.0.0.1:6379"].
Definition percent_encode_userinfo_handles_slash_password_together_with_path_and_query : bool :=
  asserts
    [encodes "redis://:ab/cd+ef=gh@127.0.0.1:6379/0?note=a@b" "redis://:ab%2Fcd%2Bef%3Dgh@127.0.0.1:6379/0?note=a@b";
     reaches "redis://:ab/cd+ef=gh@127.0.0.1:6379/0?note=a@b" "127.0.0.1:6379"].
Definition percent_encode_userinfo_leaves_url_without_userinfo_but_with_path_query_unchanged : bool :=
  encodes "redis://127.0.0.1:6379/0?x=1@2" "redis://127.0.0.1:6379/0?x=1@2".
Definition percent_encode_userinfo_preserves_rediss_scheme : bool :=
  encodes "rediss://:ab/cd@127.0.0.1:6380" "rediss://:ab%2Fcd@127.0.0.1:6380".

(** The text [{:?}] gives through [debug_struct], for strings with nothing to
    escape. *)
Definition debug_option (o : option str) : str :=
  match o with Some s => lit "Some(" ++ json_text s ++ lit ")" | None => lit "None" end.
Definition rendered (c : CacheConfig) : str :=
  let d := debug_config c in
  lit "CacheConfig { url: " ++ json_text (debug_url d) ++ lit ", pool_size: " ++ show_u (debug_pool_size d)
  ++ lit ", ca_cert_path: " ++ debug_option (debug_ca_cert_path d) ++ lit ", password: "
  ++ debug_option (debug_password d) ++ lit " }".

Definition debug_redacts_password_and_url_credentials : bool :=
  let r := rendered (mkCacheConfig (lit "redis://:supersecret@host:6379") 6 None (Some (lit "supersecret"))) in
  asserts
    [negb (contains (lit "supersecret") r); contains (lit "<redacted>") r; contains (lit "host:6379") r;
     contains (lit "pool_size: 6") r].
Definition debug_renders_absent_password_as_none : bool :=
  let r := rendered (mkCacheConfig (lit "redis://127.0.0.1:6379") 2 (Some (lit "/etc/ssl/ca.pem")) None) in
  asserts
    [contains (lit "password: None") r; contains (lit "redis://127.0.0.1:6379") r; contains (lit "/etc/ssl/ca.pem") r].
Definition debug_redacts_url_whose_password_contains_a_raw_question_mark : bool :=
  let r := rendered (mkCacheConfig (lit "redis://:pa?ss#word/x+y=z@127.0.0.1:6379") 1 None None) in
  asserts
    [forallb (fun leak => negb (contains (lit leak) r)) ["pa?ss"; "#word"; "x+y=z"; "pa?"]%string;
     contains (lit "<redacted>") r].

(** [Error::from(io::Error::from(kind))] has the [Debug] text of the I/O error
    for its details. *)
Definition io_error (k : string) : FredError := mkFredError FIO (lit "Kind(" ++ lit k ++ lit ")").
Definition network_failures_are_transient : bool :=
  asserts
    [forallb (fun k => is_transient (io_error k)) ["ConnectionRefused"; "TimedOut"; "ConnectionReset"]%string;
     is_transient (mkFredError FTimeout (lit "timed out"))].
Definition misconfiguration_is_not_transient : bool :=
  asserts
    [negb (is_transient (mkFredError FIO (lit "Custom { kind: InvalidData, error: InvalidCertificate(UnknownIssuer) }")));
     negb (is_transient (mkFredError FOther (lit "WRONGPASS")));
     negb (is_transient (mkFredError FOther (lit "invalid configuration")));
     negb (is_transient (mkFredError FOther (lit "invalid url")))].

Definition tests : suite :=
  [("percent_encode_userinfo_splits_on_last_at_for_password_containing_at", percent_encode_userinfo_splits_on_last_at_for_password_containing_at);
   ("percent_encode_userinfo_splits_on_first_colon_for_password_containing_colon", percent_encode_userinfo_splits_on_first_colon_for_password_containing_colon);
   ("percent_encode_userinfo_encodes_percent_sign_itself", percent_encode_userinfo_encodes_percent_sign_itself);
   ("percent_encode_userinfo_covers_slash_plus_equals", percent_encode_userinfo_covers_slash_plus_equals);
   ("percent_encode_userinfo_leaves_url_without_userinfo_unchanged", percent_encode_userinfo_leaves_url_without_userinfo_unchanged);
   ("percent_encode_userinfo_preserves_db_index_path", percent_encode_userinfo_preserves_db_index_path);
   ("percent_encode_userinfo_ignores_at_sign_outside_the_authority", percent_encode_userinfo_ignores_at_sign_outside_the_authority);
   ("percent_encode_userinfo_handles_slash_password_together_with_path_and_query", percent_encode_userinfo_handles_slash_password_together_with_path_and_query);
   ("percent_encode_userinfo_leaves_url_without_userinfo_but_with_path_query_unchanged", percent_encode_userinfo_leaves_url_without_userinfo_but_with_path_query_unchanged);
   ("percent_encode_userinfo_preserves_rediss_scheme", percent_encode_userinfo_preserves_rediss_scheme);
   ("debug_redacts_password_and_url_credentials", debug_redacts_password_and_url_credentials);
   ("debug_renders_absent_password_as_none", debug_renders_absent_password_as_none);
   ("debug_redacts_url_whose_password_contains_a_raw_question_mark", debug_redacts_url_whose_password_contains_a_raw_question_mark);
   ("network_failures_are_transient", network_failures_are_transient);
   ("misconfiguration_is_not_transient", misconfiguration_is_not_transient)]%string.

(** None of these tests fails on the model. *)
Theorem cache_tests_pass : failing tests = [].
Proof. vm_compute. reflexivity. Qed.
End CacheTests.

(** ** crates/id/src/lib.rs and crates/audit/src/lib.rs *)

(** [serde_json::to_string] of a document with nothing to escape. *)
Fixpoint compact (v : json) : str :=
  match v with
  | JNull => lit "null"
  | JBool b => if b then lit "true" else lit "false"
  | JInt n => show_i n
  | JFloat _ => []
  | JString s => json_text s
  | JArray l => lit "[" ++ join (lit ",") (compact <$> l) ++ lit "]"
  | JObject fs => lit "{" ++ join (lit ",") ((fun '(k, v) => json_text k ++ lit ":" ++ compact v) <$> fs) ++ lit "}"
  end.

Module IdTests.
Import Id.
#[local] Existing Instance hyphenated.
(** Two UUIDs of version 7, drawn one after the other. *)
Definition draw1 : Z := 0x0199f0a5c3d27abc8123456789abcdef.
Definition draw2 : Z := 0x0199f0a5c3d37abc8123456789abcdee.

Definition serde_round_trip_is_transparent_uuid : bool :=
  let id : typed_id Org := new_v7 draw1 in
  asserts
    [assert_eq (compact (serialize id)) (json_text (uuid_to_string (as_uuid id)));
     unwrapped (deserialize (serialize id)) (fun back : typed_id Org => assert_eq id back)].
Definition from_str_display_round_trip : bool :=
  let id : typed_id Secret := new_v7 draw1 in
  unwrapped_ok (from_str (to_string id)) (fun parsed : typed_id Secret => assert_eq id parsed).
Definition from_str_rejects_garbage : bool := negb (is_ok (from_str (e := User) (lit "not-a-uuid"))).
Definition v7_ids_are_time_ordered : bool :=
  let a : typed_id Agent := new_v7 draw1 in let b : typed_id Agent := new_v7 draw2 in
  (as_uuid a <? as_uuid b) || negb (as_uuid a =? as_uuid b).
(** The version is the thirteenth hexadecimal digit. *)
Definition new_ulid_aliases_v7 : bool :=
  let id : typed_id Project := new_ulid draw1 in Z.land (Z.shiftr (as_uuid id) 76) 15 =? 7.
Definition same_uuid_different_types_are_separate_values : bool :=
  let org : typed_id Org := from_uuid draw1 in let user : typed_id User := from_uuid draw1 in
  as_uuid org =? as_uuid user.
Definition nil_is_all_zero : bool := as_uuid (nil (e := Vault)) =? 0.

Definition tests : suite :=
  [("serde_round_trip_is_transparent_uuid", serde_round_trip_is_transparent_uuid);
   ("from_str_display_round_trip", from_str_display_round_trip);
   ("from_str_rejects_garbage", from_str_rejects_garbage);
   ("v7_ids_are_time_ordered", v7_ids_are_time_ordered);
   ("new_ulid_aliases_v7", new_ulid_aliases_v7);
   ("same_uuid_different_types_are_separate_values", same_uuid_different_types_are_separate_values);
   ("nil_is_all_zero", nil_is_all_zero)]%string.

(** None of the tests fails on the model. *)
Theorem id_tests_pass : failing tests = [].
Proof. vm_compute. reflexivity. Qed.
End IdTests.

Module AuditTests.
Import Id Trail.
#[local] Existing Instance hyphenated.
#[local] Instance Actor_eq_dec : EqDecision Actor.
Proof. solve_decision. Defined.
#[local] Instance Action_eq_dec : EqDecision Action.
Proof. solve_decision. Defined.
#[local] Instance AuditEntry_eq_dec : EqDecision AuditEntry.
Proof. solve_decision. Defined.

(** Time stamps as the seconds of the tests, in a text of their digits. *)
Definition ts (secs : Z) : Z := secs.
Definition to_value (e : AuditEntry) : json := entry_json show_u e.
Definition from_value (v : json) : option AuditEntry := entry_read parse_nat v.

Definition entries_append_in_order : bool :=
  let '(r1, sink) := append (entry_at (ts 1) System Created (lit "vault/a")) sink_new in
  let '(r2, sink) := append (entry_at (ts 2) (actor_user nil) Read (lit "vault/a")) sink in
  let got := sink_entries sink in
  asserts
    [is_ok r1; is_ok r2; bool_decide (length got = 2%nat);
     assert_eq (action <$> got) [Created; Read]; assert_eq (at_ <$> got) [ts 1; ts 2]].
Definition entry_serialization_is_stable : bool :=
  let entry := with_detail (entry_at (ts 1700000000) System Rotated (lit "secret/x")) (lit "scheduled") in
  let json := compact (to_value entry) in
  asserts
    [contains (json_text (lit "actor") ++ lit ":{" ++ json_text (lit "kind") ++ lit ":" ++ json_text (lit "system") ++ lit "}") json;
     contains (json_text (lit "action") ++ lit ":" ++ json_text (lit "rotated")) json;
     contains (json_text (lit "resource") ++ lit ":" ++ json_text (lit "secret/x")) json;
     contains (json_text (lit "detail") ++ lit ":" ++ json_text (lit "scheduled")) json;
     unwrapped (from_value (to_value entry)) (fun back =>
       asserts [assert_eq back entry; assert_eq (compact (to_value back)) json])].
Definition detail_omitted_when_absent : bool :=
  let entry := entry_at (ts 0) System LoginFailed (lit "auth") in
  negb (contains (lit "detail") (compact (to_value entry))).
Definition user_actor_round_trips : bool :=
  let uid : UserId := new_v7 IdTests.draw1 in
  let entry := entry_at (ts 5) (actor_user uid) TokenMinted (lit "token/1") in
  unwrapped (from_value (to_value entry)) (fun back => assert_eq (actor back) (actor_user uid)).
Definition cluster_actor_round_trips : bool :=
  let entry := entry_at (ts 5) (Cluster (lit "vault-operator")) Read (lit "secret/y") in
  unwrapped (from_value (to_value entry)) (fun back => assert_eq back entry).

Definition tests : suite :=
  [("entries_append_in_order", entries_append_in_order);
   ("entry_serialization_is_stable", entry_serialization_is_stable);
   ("detail_omitted_when_absent", detail_omitted_when_absent);
   ("user_actor_round_trips", user_actor_round_trips);
   ("cluster_actor_round_trips", cluster_actor_round_trips)]%string.

(** None of the tests fails on the model. *)
Theorem audit_tests_pass : failing tests = [].
Proof. vm_compute. reflexivity. Qed.
End AuditTests.
