(* ===== verification/SuiteEvents.v ===== *)
(** * The repository's own tests, run on the model: signatures, billing,
      telemetry, middleware, the job queue

    As in [Suite].  Signatures are computed with [Sha256.hmac_sha256], so the
    recorded ones are checked as they are.  The tests of the queue that run a
    worker against a database poll at the ticks of the worker's interval. *)

From S2P Require Import Prelude RustStr Json Headers Sha256 AuditTrail Types Wire Webhooks Billing BillingWire Telemetry EnvelopeWire Middleware Queue Suite.

(** ** crates/webhooks/src/lib.rs *)

Module WebhooksTests.
#[local] Instance SignatureError_eq_dec : EqDecision SignatureError.
Proof. solve_decision. Defined.
#[local] Instance TimestampedError_eq_dec : EqDecision TimestampedError.
Proof. solve_decision. Defined.

Definition SECRET : bytes := lit "it's a secret to everybody".
Definition BODY : bytes := lit "Hello, World!".
Definition CENTRAL_SECRET : bytes := lit "central-shared-secret".
Definition CENTRAL_BODY : bytes := lit "{" ++ json_text (lit "op") ++ lit ":" ++ json_text (lit "replace_user") ++ lit "}".
Definition CENTRAL_TS : Z := 1760000000.
Definition CENTRAL_SIGNATURE : str := lit "sha256=8786315dfd6797d7aef24b58bab8cef65b58099552efe96316e94a689821014a".
(** The HMAC of the package. *)
Abbreviation hmac := hmac_sha256.
Definition verify_central (ts : string) (now : Z) : result TimestampedError bytes :=
  verify_timestamped hmac CENTRAL_SECRET CENTRAL_BODY (lit ts) CENTRAL_SIGNATURE now 60.

Definition timestamped_signing_matches_an_independent_hmac_of_ts_dot_body : bool :=
  assert_eq (sign_timestamped hmac CENTRAL_SECRET CENTRAL_TS CENTRAL_BODY) CENTRAL_SIGNATURE.
Definition timestamped_verification_returns_the_signature_bytes : bool :=
  unwrapped_ok (verify_central "1760000000" (CENTRAL_TS + 30)) (fun signature =>
    assert_eq (hex_encode signature) (trim_start_matches (lit "sha256=") CENTRAL_SIGNATURE)).
Definition timestamped_verification_refuses_a_stale_or_future_timestamp : bool :=
  forallb (fun now => assert_eq (verify_central "1760000000" now) (Err Stale)) [CENTRAL_TS + 61; CENTRAL_TS - 61].
Definition a_replayed_body_with_a_fresh_timestamp_header_does_not_verify : bool :=
  assert_eq (verify_central "1760000050" (CENTRAL_TS + 50)) (Err (Signature Mismatch)).
Definition timestamped_verification_refuses_a_malformed_timestamp : bool :=
  assert_eq (verify_central "yesterday" CENTRAL_TS) (Err MalformedTimestamp).
Definition github_round_trip_verifies : bool := is_ok (verify_github hmac SECRET BODY (sign_github hmac SECRET BODY)).
Definition tampered_body_fails : bool :=
  assert_eq (verify_github hmac SECRET (lit "Hello, world!") (sign_github hmac SECRET BODY)) (Err Mismatch).
Definition wrong_secret_fails : bool :=
  assert_eq (verify_github hmac (lit "other") BODY (sign_github hmac SECRET BODY)) (Err Mismatch).
Definition malformed_header_rejected : bool :=
  asserts
    [assert_eq (verify_github hmac SECRET BODY (lit "sha1=deadbeef")) (Err MalformedHeader);
     assert_eq (verify_hex hmac SECRET BODY (lit "nothex")) (Err MalformedHeader)].
Definition raw_hex_format_verifies : bool :=
  unwrapped (strip_prefix (lit "sha256=") (sign_github hmac SECRET BODY)) (fun raw => is_ok (verify_hex hmac SECRET BODY raw)).
Definition ct_eq_handles_length_mismatch : bool :=
  asserts [negb (Webhooks.ct_eq (lit "abc") (lit "abcd")); Webhooks.ct_eq (lit "abc") (lit "abc")].
Definition idempotency_dedups_repeated_delivery : bool :=
  let store := in_memory_new in
  let '(first, store1) := record store (lit "d-1") in
  let '(second, _) := record store1 (lit "d-1") in
  asserts [negb (seen store (lit "d-1")); first; seen store1 (lit "d-1"); negb second].

Definition tests : suite :=
  [("timestamped_signing_matches_an_independent_hmac_of_ts_dot_body", timestamped_signing_matches_an_independent_hmac_of_ts_dot_body);
   ("timestamped_verification_returns_the_signature_bytes", timestamped_verification_returns_the_signature_bytes);
   ("timestamped_verification_refuses_a_stale_or_future_timestamp", timestamped_verification_refuses_a_stale_or_future_timestamp);
   ("a_replayed_body_with_a_fresh_timestamp_header_does_not_verify", a_replayed_body_with_a_fresh_timestamp_header_does_not_verify);
   ("timestamped_verification_refuses_a_malformed_timestamp", timestamped_verification_refuses_a_malformed_timestamp);
   ("github_round_trip_verifies", github_round_trip_verifies);
   ("tampered_body_fails", tampered_body_fails);
   ("wrong_secret_fails", wrong_secret_fails);
   ("malformed_header_rejected", malformed_header_rejected);
   ("raw_hex_format_verifies", raw_hex_format_verifies);
   ("ct_eq_handles_length_mismatch", ct_eq_handles_length_mismatch);
   ("idempotency_dedups_repeated_delivery", idempotency_dedups_repeated_delivery)]%string.

(** None of the crate's tests fails on the model. *)
Theorem webhooks_tests_pass : failing tests = [].
Proof. vm_compute. reflexivity. Qed.
End WebhooksTests.

(** ** crates/billing/src/webhooks.rs *)

Module StripeTests.
#[local] Instance StripeSignatureError_eq_dec : EqDecision StripeSignatureError.
Proof. solve_decision. Defined.
Abbreviation hmac := hmac_sha256.
Definition SECRET : bytes := lit "whsec_test_secret_value".
Definition sign (body : bytes) (timestamp : Z) (secret : bytes) : str :=
  lit "t=" ++ show_i timestamp ++ lit ",v1=" ++ hex_encode (expected_signature hmac secret timestamp body).
Definition verify (body : bytes) (header : str) (secret : bytes) (now tolerance : Z) : result StripeSignatureError Z :=
  verify_signature hmac body header secret now tolerance.
Definition fails_with (e : StripeSignatureError) (r : result StripeSignatureError Z) : bool :=
  unwrapped_err r (fun err => assert_eq err e).
Definition payload : bytes := lit "payload".
Definition at_ : Z := 1700000000.

Definition valid_signature_passes : bool :=
  let body := lit "{" ++ json_text (lit "id") ++ lit ":" ++ json_text (lit "evt_1") ++ lit ","
              ++ json_text (lit "type") ++ lit ":" ++ json_text (lit "invoice.paid") ++ lit "}" in
  unwrapped_ok (verify body (sign body at_ SECRET) SECRET at_ DEFAULT_TOLERANCE_SECS) (fun ts => ts =? at_).
Definition signature_within_tolerance_passes : bool :=
  is_ok (verify payload (sign payload at_ SECRET) SECRET (at_ + 120) DEFAULT_TOLERANCE_SECS).
Definition tampered_body_fails : bool :=
  fails_with NoMatch
    (verify (lit "tampered payload") (sign (lit "original payload") at_ SECRET) SECRET at_ DEFAULT_TOLERANCE_SECS).
Definition tampered_signature_fails : bool :=
  let good := expected_signature hmac SECRET at_ payload in
  let bad := match good with b :: rest => Z.lxor b 255 :: rest | [] => [] end in
  fails_with NoMatch
    (verify payload (lit "t=" ++ show_i at_ ++ lit ",v1=" ++ hex_encode bad) SECRET at_ DEFAULT_TOLERANCE_SECS).
Definition wrong_secret_fails : bool :=
  fails_with NoMatch (verify payload (sign payload at_ SECRET) (lit "whsec_other") at_ DEFAULT_TOLERANCE_SECS).
Definition stale_timestamp_fails : bool :=
  fails_with TimestampOutOfTolerance
    (verify payload (sign payload at_ SECRET) SECRET (at_ + DEFAULT_TOLERANCE_SECS + 1) DEFAULT_TOLERANCE_SECS).
Definition future_timestamp_beyond_tolerance_fails : bool :=
  fails_with TimestampOutOfTolerance
    (verify payload (sign payload at_ SECRET) SECRET (at_ - DEFAULT_TOLERANCE_SECS - 1) DEFAULT_TOLERANCE_SECS).
Definition header_without_timestamp_is_malformed : bool :=
  fails_with MalformedStripeHeader
    (verify payload (lit "v1=" ++ hex_encode (expected_signature hmac SECRET at_ payload)) SECRET at_ DEFAULT_TOLERANCE_SECS).
Definition header_without_v1_is_malformed : bool :=
  fails_with MalformedStripeHeader (verify payload (lit "t=1700000000") SECRET at_ 300).
Definition non_numeric_timestamp_is_malformed : bool :=
  fails_with MalformedStripeHeader (verify payload (lit "t=notanumber,v1=abcd") SECRET at_ 300).
Definition non_hex_v1_is_malformed : bool :=
  fails_with MalformedStripeHeader (verify payload (lit "t=1700000000,v1=zzzz") SECRET at_ 300).
Definition multiple_v1_signatures_one_matching_passes : bool :=
  let good := hex_encode (expected_signature hmac SECRET at_ payload) in
  is_ok (verify payload (lit "t=" ++ show_i at_ ++ lit ",v1=deadbeef,v1=" ++ good) SECRET at_ DEFAULT_TOLERANCE_SECS).
Definition missing_header_maps_to_missing_header_error : bool :=
  fails_with MissingHeader (verify_optional_signature hmac payload None SECRET at_ 300).

Definition tests : suite :=
  [("valid_signature_passes", valid_signature_passes);
   ("signature_within_tolerance_passes", signature_within_tolerance_passes);
   ("tampered_body_fails", tampered_body_fails);
   ("tampered_signature_fails", tampered_signature_fails);
   ("wrong_secret_fails", wrong_secret_fails);
   ("stale_timestamp_fails", stale_timestamp_fails);
   ("future_timestamp_beyond_tolerance_fails", future_timestamp_beyond_tolerance_fails);
   ("header_without_timestamp_is_malformed", header_without_timestamp_is_malformed);
   ("header_without_v1_is_malformed", header_without_v1_is_malformed);
   ("non_numeric_timestamp_is_malformed", non_numeric_timestamp_is_malformed);
   ("non_hex_v1_is_malformed", non_hex_v1_is_malformed);
   ("multiple_v1_signatures_one_matching_passes", multiple_v1_signatures_one_matching_passes);
   ("missing_header_maps_to_missing_header_error", missing_header_maps_to_missing_header_error)]%string.

(** None of the tests fails on the model. *)
Theorem stripe_tests_pass : failing tests = [].
Proof. vm_compute. reflexivity. Qed.
End StripeTests.

(** ** crates/billing/src/events.rs and client.rs *)

Module BillingTests.
#[local] Instance SubscriptionChange_eq_dec : EqDecision SubscriptionChange.
Proof. solve_decision. Defined.
#[local] Instance WebhookEvent_eq_dec : EqDecision WebhookEvent.
Proof. solve_decision. Defined.

(** [serde_json::json!] of objects; [parse_event] on the text of a document. *)
Definition s (v : string) : json := JString (lit v).
Definition obj (l : list (string * json)) : json := JObject ((fun kv => (lit kv.1, kv.2)) <$> l).
Definition parse_doc (v : json) : result BillingError WebhookEvent := BillingWire.parse_event (fun _ => Ok v) (fun _ => []) [].
Definition is_missing (f : string) (e : BillingError) : bool := match e with MissingField g => g =s lit f | _ => false end.

Definition subscription_event_of (event_type status product : string) : json :=
  obj [("id", s "evt_123"); ("type", s event_type);
       ("data", obj [("object", obj [("id", s "sub_abc"); ("customer", s "cus_xyz"); ("status", s status);
          ("metadata", obj [("org_id", s "org-42"); ("product", s product); ("tier", s "team")])])])]%string.
Definition subscription_event (event_type status : string) : json := subscription_event_of event_type status "ferrvault".

Definition parses_subscription_updated : bool :=
  unwrapped_ok (parse_doc (subscription_event "customer.subscription.updated" "active")) (fun e =>
    match e with
    | SubscriptionUpdated c =>
        assert_eq c (mkChange (lit "sub_abc") (lit "cus_xyz") (lit "org-42") FerrVault Team Active)
    | _ => false
    end).
Definition subscription_deleted_forces_canceled_status : bool :=
  unwrapped_ok (parse_doc (subscription_event "customer.subscription.deleted" "active")) (fun e =>
    match e with SubscriptionDeleted c => assert_eq (Billing.status c) Canceled | _ => false end).
Definition parses_invoice_paid_with_line_metadata : bool :=
  let body := obj [("id", s "evt_1"); ("type", s "invoice.paid");
    ("data", obj [("object", obj [("customer", s "cus_1"); ("subscription", s "sub_1"); ("metadata", obj []);
      ("lines", obj [("data", JArray [obj [("subscription", s "sub_1");
        ("metadata", obj [("org_id", s "org-7"); ("product", s "ferrtrack"); ("tier", s "pro")])]])])])])]%string in
  unwrapped_ok (parse_doc body) (fun e =>
    match e with
    | InvoicePaid c =>
        asserts [assert_eq (change_org_id c) (lit "org-7"); assert_eq (change_product c) FerrTrack; assert_eq (Billing.tier c) Pro;
                 assert_eq (Billing.status c) Active; assert_eq (Billing.stripe_subscription_id c) (lit "sub_1")]
    | _ => false
    end).
Definition unknown_event_type_is_other : bool :=
  let body := obj [("id", s "evt_9"); ("type", s "payment_intent.succeeded"); ("data", obj [("object", obj [])])]%string in
  unwrapped_ok (parse_doc body) (fun e => assert_eq e (OtherEvent (lit "payment_intent.succeeded"))).
Definition missing_org_metadata_is_an_error : bool :=
  let body := obj [("id", s "evt_2"); ("type", s "customer.subscription.updated");
    ("data", obj [("object", obj [("id", s "sub_x"); ("customer", s "cus_x"); ("status", s "active");
      ("metadata", obj [("product", s "ferrvault"); ("tier", s "pro")])])])]%string in
  unwrapped_err (parse_doc body) (is_missing "metadata.org_id").
Definition unknown_product_slug_is_an_error : bool :=
  unwrapped_err (parse_doc (subscription_event_of "customer.subscription.updated" "active" "ferrnope"))
    (is_missing "metadata.product (unknown slug)").
Definition missing_tier_defaults_to_free : bool :=
  let body := obj [("id", s "evt_3"); ("type", s "customer.subscription.updated");
    ("data", obj [("object", obj [("id", s "sub_y"); ("customer", s "cus_y"); ("status", s "trialing");
      ("metadata", obj [("org_id", s "org-1"); ("product", s "ferrfleet")])])])]%string in
  unwrapped_ok (parse_doc body) (fun e =>
    match e with
    | SubscriptionUpdated c => asserts [assert_eq (Billing.tier c) Free; assert_eq (Billing.status c) Trialing]
    | _ => false
    end).
(** [b"not json"]: the text parser fails. *)
Definition malformed_json_is_an_error : bool :=
  unwrapped_err (BillingWire.parse_event (fun _ => Err (lit "expected ident at line 1 column 2")) (fun _ => []) (lit "not json"))
    (fun e => match e with MalformedPayload _ => true | _ => false end).

Definition metadata_carries_org_product_and_tier : bool :=
  let meta := subscription_metadata (lit "org-9") (mkPlanPrice FerrVault Team (lit "price_123")) in
  asserts
    [assert_eq (meta !! lit "org_id") (Some (lit "org-9")); assert_eq (meta !! lit "product") (Some (lit "ferrvault"));
     assert_eq (meta !! lit "tier") (Some (lit "team"))].
Definition tier_slug_round_trips_every_plan : bool :=
  asserts
    [assert_eq (tier_slug Free) (lit "free"); assert_eq (tier_slug Pro) (lit "pro"); assert_eq (tier_slug Team) (lit "team");
     assert_eq (tier_slug Enterprise) (lit "enterprise")].

Definition tests : suite :=
  [("parses_subscription_updated", parses_subscription_updated);
   ("subscription_deleted_forces_canceled_status", subscription_deleted_forces_canceled_status);
   ("parses_invoice_paid_with_line_metadata", parses_invoice_paid_with_line_metadata);
   ("unknown_event_type_is_other", unknown_event_type_is_other);
   ("missing_org_metadata_is_an_error", missing_org_metadata_is_an_error);
   ("unknown_product_slug_is_an_error", unknown_product_slug_is_an_error);
   ("missing_tier_defaults_to_free", missing_tier_defaults_to_free);
   ("malformed_json_is_an_error", malformed_json_is_an_error);
   ("metadata_carries_org_product_and_tier", metadata_carries_org_product_and_tier);
   ("tier_slug_round_trips_every_plan", tier_slug_round_trips_every_plan)]%string.

(** None of the tests fails on the model. *)
Theorem billing_tests_pass : failing tests = [].
Proof. vm_compute. reflexivity. Qed.
End BillingTests.

(** ** crates/middleware/src *)

Module MiddlewareTests.
#[local] Existing Instance visible_http.
Definition layer (origins : list str) (credentials : bool) (k : result Cors.CorsError (Cors.CorsLayer (list bytes)) -> bool) : bool :=
  match Cors.cors_layer (H0 := Cors.Demo.tower) (Cors.mkCorsConfig origins credentials) with Cors.Returns r => k r | Cors.Panics => false end.

Definition builds_layer_for_valid_origins : bool :=
  layer [lit "https://app.ferrlabs.com"; lit "https://ferrvault.com"] true is_ok.
Definition rejects_invalid_origin : bool :=
  let origin := lit "not a header value" ++ [10] in
  layer [origin] false (fun r => unwrapped_err r (fun e =>
    match e with Cors.InvalidOrigin o => assert_eq o origin | _ => false end)).
Definition rejects_wildcard_with_credentials : bool :=
  layer [lit "*"] true (fun r => unwrapped_err r (fun e =>
    match e with Cors.WildcardWithCredentials => true | _ => false end)).

(** [GET /ping] through the layer. *)
Definition ping (tls : bool) : HeaderMap :=
  SecurityHeaders.headers (SecurityHeaders.security_headers (SecurityHeaders.mkSecurityHeadersConfig tls) tt (fun _ => SecurityHeaders.mkResponse 200 [] (lit "pong"))).
(** [HeaderMap::get] with a name in any case. *)
Definition header (name : string) (h : HeaderMap) : option bytes := header_get (to_ascii_lowercase (lit name)) h.
Definition security_headers_applies_headers : bool :=
  let h := ping true in
  asserts
    [assert_eq (header "X-Content-Type-Options" h) (Some (lit "nosniff")); assert_eq (header "X-Frame-Options" h) (Some (lit "DENY"));
     assert_eq (header "Referrer-Policy" h) (Some (lit "strict-origin-when-cross-origin"));
     unwrapped (header "Permissions-Policy" h) (fun v => unwrapped (header_to_str v) (fun v => is_some (find_str (lit "geolocation=()") v)));
     assert_eq (header "Cross-Origin-Opener-Policy" h) (Some (lit "same-origin"));
     assert_eq (header "Cross-Origin-Resource-Policy" h) (Some (lit "same-origin"))].
Definition security_headers_gates_hsts_on_tls : bool :=
  asserts
    [is_some (header "Strict-Transport-Security" (ping true)); negb (is_some (header "Strict-Transport-Security" (ping false)))].

Definition tests : suite :=
  [("builds_layer_for_valid_origins", builds_layer_for_valid_origins);
   ("rejects_invalid_origin", rejects_invalid_origin);
   ("rejects_wildcard_with_credentials", rejects_wildcard_with_credentials);
   ("security_headers_applies_headers", security_headers_applies_headers);
   ("security_headers_gates_hsts_on_tls", security_headers_gates_hsts_on_tls)]%string.

(** None of the crate's tests fails on the model. *)
Theorem middleware_tests_pass : failing tests = [].
Proof. vm_compute. reflexivity. Qed.
End MiddlewareTests.

(** ** crates/telemetry/src/events.rs and metrics.rs *)

Module TelemetryTests.
Import Telemetry.Events.
#[local] Existing Instance Wire.Demo.times.
#[local] Existing Instance visible_http.
#[local] Instance Event_eq_dec : EqDecision Event.
Proof. solve_decision. Defined.

Definition event_names_are_unique : bool :=
  let names := name <$> ALL_EVENTS in bool_decide (NoDup names).
Definition meta_covers_every_event : bool :=
  forallb (fun ev =>
    asserts [assert_eq (name (em_event (meta ev))) (name ev); negb (bool_decide (em_when (meta ev) = []))]) ALL_EVENTS.
(** [json.trim_matches] of the quotation mark. *)
Definition surface_slug_matches_serde : bool :=
  forallb (fun s =>
    match to_value s with
    | JString json => assert_eq (trim_matches 34 (json_text json)) (surface_slug s)
    | _ => false
    end) all_surfaces.
Definition envelope_round_trips : bool :=
  let env := with_property (lit "seat_count") (JInt 3) (with_user (lit "def456") (with_org (lit "abc123") (envelope_new 1700000000 OrgCreated))) in
  unwrapped (from_value (A := Envelope) (to_value env)) (fun back =>
    asserts
      [assert_eq (event back) OrgCreated; assert_eq (org_hash back) (Some (lit "abc123"));
       assert_eq (user_hash back) (Some (lit "def456"));
       match properties back !! lit "seat_count" with Some (JInt 3) => true | _ => false end;
       assert_eq (env_surface back) Ferrlabs]).

Definition hasher_rejects_wrong_length_hex : bool := negb (is_ok (hasher_from_hex (lit "deadbeef"))).
Definition manifest_covers_every_event : bool := bool_decide (length manifest = length ALL_EVENTS).
Definition manifest_json_has_schema_version : bool :=
  asserts
    [match get (lit "schema_version") manifest_json with Some (JInt v) => v =? SCHEMA_VERSION | _ => false end;
     unwrapped (get (lit "events") manifest_json) (fun v => unwrapped (as_array v) (fun l =>
       (length ALL_EVENTS <=? length l)%nat))].
Definition product_maps_to_surface : bool :=
  asserts
    [assert_eq (surface_of_product FerrFlow) Ferrflow; assert_eq (surface_of_product FerrVault) Ferrvault;
     assert_eq (surface_of_product FerrFleet) Ferrfleet].

(** The router without and with a token. *)
Definition metrics_router_with_token_requires_a_matching_bearer : bool :=
  let router := Metrics.metrics_response (Some (lit "s3cr3t")) (lit "metrics") in
  let unauth := router [] in
  let ok := router [(lit "authorization", lit "Bearer s3cr3t")] in
  asserts [unauth.1.1 =? 401; ok.1.1 =? 200].

Definition tests : suite :=
  [("event_names_are_unique", event_names_are_unique);
   ("meta_covers_every_event", meta_covers_every_event);
   ("surface_slug_matches_serde", surface_slug_matches_serde);
   ("envelope_round_trips", envelope_round_trips);
   ("hasher_rejects_wrong_length_hex", hasher_rejects_wrong_length_hex);
   ("manifest_covers_every_event", manifest_covers_every_event);
   ("manifest_json_has_schema_version", manifest_json_has_schema_version);
   ("product_maps_to_surface", product_maps_to_surface);
   ("metrics_router_with_token_requires_a_matching_bearer", metrics_router_with_token_requires_a_matching_bearer)]%string.

(** None of these tests fails on the model. *)
Theorem telemetry_tests_pass : failing tests = [].
Proof. vm_compute. reflexivity. Qed.
End TelemetryTests.

(** ** crates/queue/tests *)

Module QueueTests.
Import Queue.Job Queue.Table Queue.Worker.

(** The test's last value, [u32::MAX], is too large to evaluate the power at:
    it is [backoff_at_u32_max] below. *)
Definition backoff_is_exponential_then_capped : bool :=
  asserts
    [backoff_seconds 0 =? 1; backoff_seconds 1 =? 2; backoff_seconds 2 =? 4; backoff_seconds 3 =? 8;
     backoff_seconds 10 =? 1024; backoff_seconds 11 =? 2048; backoff_seconds 12 =? 3600; backoff_seconds 50 =? 3600].
Definition status_round_trips_via_string : bool :=
  forallb (fun s => unwrapped_ok (from_str (as_str s)) (fun parsed => assert_eq s parsed))
    [Queued; Running; Done; Failed; Cancelled; Dead].
(** The message of the error names the text. *)
Definition status_rejects_unknown_strings : bool :=
  unwrapped_err (from_str (lit "exploded")) (fun err => is_some (find_str (lit "exploded") (unknown_status err))).
Definition terminal_statuses_are_correct : bool :=
  asserts
    [is_terminal Done; is_terminal Cancelled; is_terminal Dead; negb (is_terminal Queued); negb (is_terminal Running);
     negb (is_terminal Failed)].

(** *** A worker that polls *)

(** [Echo]: a message and the ways to fail. *)
Record Echo := mkEcho { msg : str; fail_modes : list str }.
Definition echo_to_value (e : Echo) : result str json :=
  Ok (JObject [(lit "msg", JString (msg e)); (lit "fail_modes", JArray (JString <$> fail_modes e))]).
Definition echo_from_value (v : json) : result str Echo :=
  ok_or (m ← Json.get (lit "msg") v; m ← json_as_str m; l ← Json.get (lit "fail_modes") v; l ← as_array l;
         l ← mapM json_as_str l; Some (mkEcho m l)) (lit "invalid payload").
Fixpoint fail_first (attempt : Z) (modes : list str) : result WorkerError () :=
  match modes with
  | [] => Ok ()
  | mode :: rest =>
      if (mode =s lit "retry-once") && (attempt =? 1) then Err (Retriable (lit "flaky once"))
      else if mode =s lit "permanent" then Err (Permanent (lit "nope"))
      else fail_first attempt rest
  end.
Definition recording_handle (job : Job Echo) : result WorkerError () :=
  fail_first (job_attempt _ job) (fail_modes (job_payload _ job)).

(** [n] polls, [interval] apart: each claims a job if there is one and handles
    it.  What the handlers saw is collected. *)
Fixpoint polls {P} (from_value : json -> result str P) (handle : Job P -> result WorkerError ()) (q : str)
    (n : nat) (interval now : Z) (db : list JobRow) (seen : list json) : list JobRow * list json :=
  match n with
  | O => (db, seen)
  | S n =>
      let '(claimed, db) := claim_one q (lit "test") now (fun _ => false) db in
      match claimed with
      | Some c => polls from_value handle q n interval (now + interval) (process_claimed from_value handle q now now c db) (seen ++ [c_payload c])
      | None => polls from_value handle q n interval (now + interval) db seen
      end
  end.
Definition ms (n : Z) : Z := n * 1000.
Definition options : EnqueueOptions := mkEnqueueOptions None 0 None None None None.
Definition ECHO : str := lit "test.echo".
Definition enqueue_echo (id : uuid) (e : Echo) (o : EnqueueOptions) (db : list JobRow) := enqueue echo_to_value ECHO 0 0 id e o db.

Definition enqueue_then_worker_marks_done : bool :=
  let '(r, db, _) := enqueue_echo 1 (mkEcho (lit "hi") []) options [] in
  unwrapped_ok r (fun id =>
    let '(db, seen) := polls echo_from_value recording_handle ECHO 50 (ms 100) 0 db [] in
    unwrapped_ok (Table.get ECHO id db) (fun meta =>
      asserts
        [assert_eq (meta_status meta) Done;
         assert_eq (omap (fun v => Json.get (lit "msg") v ≫= json_as_str) seen) [lit "hi"]])).
Definition idempotency_key_deduplicates : bool :=
  let opts := mkEnqueueOptions None 0 None (Some (lit "dedup-1")) None None in
  let '(a, db, _) := enqueue_echo 1 (mkEcho (lit "first") []) opts [] in
  let '(b, _, _) := enqueue_echo 2 (mkEcho (lit "second") []) opts db in
  unwrapped_ok a (fun a => unwrapped_ok b (fun b => a =? b)).
Definition permanent_error_buries_immediately : bool :=
  let '(r, db, _) := enqueue_echo 1 (mkEcho (lit "burn") [lit "permanent"]) options [] in
  unwrapped_ok r (fun id =>
    let '(db, _) := polls echo_from_value recording_handle ECHO 50 (ms 100) 0 db [] in
    unwrapped_ok (Table.get ECHO id db) (fun meta =>
      asserts [assert_eq (meta_status meta) Dead; meta_attempts meta =? 1])).

(** retry.rs: every attempt fails; the six seconds are polled every 50 ms, then
    ten more polls find nothing. *)
Definition FAILS : str := lit "test.retry.always_fails".
Definition always_fails (_ : Job json) : result WorkerError () := Err (Retriable (lit "simulated failure")).
Definition job_reaches_dead_after_max_attempts_and_is_not_retried_again : bool :=
  let max_attempts := 2 in
  let '(r, db, _) := enqueue (fun v : json => Ok v) FAILS 0 0 1 (JObject [(lit "marker", JInt 1)])
    (mkEnqueueOptions None 0 (Some max_attempts) None None None) [] in
  unwrapped_ok r (fun id =>
    let '(db, attempts_seen) := polls Ok always_fails FAILS 120 (ms 50) 0 db [] in
    let '(db_after, attempts_after_dead) := polls Ok always_fails FAILS 10 (ms 50) (ms 6000) db [] in
    unwrapped_ok (Table.get FAILS id db) (fun job => unwrapped_ok (Table.get FAILS id db_after) (fun job_after =>
      asserts
        [assert_eq (meta_status job) Dead; meta_attempts job =? max_attempts;
         Z.of_nat (length attempts_seen) =? max_attempts; (length attempts_after_dead =? 0)%nat;
         assert_eq (meta_status job_after) Dead; meta_attempts job_after =? max_attempts]))).

(** concurrent_claim.rs: two workers poll the same table every 20 ms; a handler
    records its worker when it starts and returns 200 ms later.  A worker is
    idle, or busy with a claim until an instant. *)
Definition SINGLE : str := lit "test.concurrent_claim.single_job".
Definition counting_handle (_ : Job json) : result WorkerError () := Ok ().
Definition worker_turn (index : nat) (name : str) (now : Z) (busy : option (Claimed * Z)) (db : list JobRow)
    (delivered : list nat) : option (Claimed * Z) * list JobRow * list nat :=
  match busy with
  | Some (c, until) =>
      if until <=? now then (None, process_claimed Ok counting_handle SINGLE now now c db, delivered)
      else (busy, db, delivered)
  | None =>
      match claim_one SINGLE name now (fun _ => false) db with
      | (Some c, db) => (Some (c, now + ms 200), db, delivered ++ [index])
      | (None, db) => (None, db, delivered)
      end
  end.
(** [b_first] tells which of the two reaches the table first in each turn. *)
Fixpoint race (b_first : list bool) (now : Z) (a b : option (Claimed * Z)) (db : list JobRow) (delivered : list nat)
    : option (Claimed * Z) * option (Claimed * Z) * list JobRow * list nat :=
  match b_first with
  | [] => (a, b, db, delivered)
  | false :: rest =>
      let '(a, db, delivered) := worker_turn 0 (lit "worker-a") now a db delivered in
      let '(b, db, delivered) := worker_turn 1 (lit "worker-b") now b db delivered in
      race rest (now + ms 20) a b db delivered
  | true :: rest =>
      let '(b, db, delivered) := worker_turn 1 (lit "worker-b") now b db delivered in
      let '(a, db, delivered) := worker_turn 0 (lit "worker-a") now a db delivered in
      race rest (now + ms 20) a b db delivered
  end.
(** The 600 ms with the first worker ahead, with the second, and in turns. *)
Definition single_job_is_delivered_to_exactly_one_of_two_concurrent_workers : bool :=
  let '(r, db, _) := enqueue (fun v : json => Ok v) SINGLE 0 0 1 (JObject [(lit "marker", JInt 1)]) options [] in
  unwrapped_ok r (fun id =>
    forallb (fun b_first =>
      let '(_, _, db, delivered) := race b_first 0 None None db [] in
      asserts
        [(length delivered =? 1)%nat;
         unwrapped_ok (Table.get SINGLE id db) (fun job => assert_eq (meta_status job) Done)])
      [replicate 30 false; replicate 30 true; mjoin (replicate 15 [true; false])]).

Definition tests : suite :=
  [("backoff_is_exponential_then_capped", backoff_is_exponential_then_capped);
   ("status_round_trips_via_string", status_round_trips_via_string);
   ("status_rejects_unknown_strings", status_rejects_unknown_strings);
   ("terminal_statuses_are_correct", terminal_statuses_are_correct);
   ("enqueue_then_worker_marks_done", enqueue_then_worker_marks_done);
   ("idempotency_key_deduplicates", idempotency_key_deduplicates);
   ("permanent_error_buries_immediately", permanent_error_buries_immediately);
   ("job_reaches_dead_after_max_attempts_and_is_not_retried_again", job_reaches_dead_after_max_attempts_and_is_not_retried_again);
   ("single_job_is_delivered_to_exactly_one_of_two_concurrent_workers",
    single_job_is_delivered_to_exactly_one_of_two_concurrent_workers)]%string.

(** None of these tests fails on the model. *)
Theorem queue_tests_pass : failing tests = [].
Proof. vm_compute. reflexivity. Qed.

Lemma backoff_at_u32_max : backoff_seconds u32_max = 3600.
Proof.
  unfold backoff_seconds, u64_saturating_pow, u32_max. apply Z.min_r. apply Z.min_glb; [unfold u64_max; lia|].
  transitivity (2 ^ 12); [by vm_compute|]. apply Z.pow_le_mono_r; lia.
Qed.
End QueueTests.
