(* ===== verification/SessionMock.v ===== *)
(** * The test double of the session store ([crates/auth/src/session.rs], tests)

    The crate's tests exercise rotation and reuse on an in-memory [MockStore]
    instead of PostgreSQL.  The double finds and updates rows by their position
    in a vector, the store by the keys of its statements.  What the tests show
    of the double holds of the store: on every sequence of calls the two answer
    alike and keep the same rows. *)

From S2P Require Import Prelude RustStr Sha256 Base64 Session Suite.

Record MockStore := mkMock { inner : list Session }.
Definition mock_default : MockStore := mkMock [].

(** [Iterator::position]. *)
Fixpoint position {A} (p : A -> bool) (l : list A) : option nat :=
  match l with [] => None | x :: l => if p x then Some 0%nat else S <$> position p l end.

Section Mock.
Context (sha256 : bytes -> bytes) (base64 : bytes -> str) (chrono : Chrono).
Abbreviation hash_refresh_token := (hash_refresh_token sha256).
Abbreviation generate_refresh_token := (generate_refresh_token base64).
Abbreviation expiry := (expiry chrono).

Definition mock_create (e : Env) (user : uuid) (agent addr : option str) (ttl : Z) (m : MockStore)
  : option (result SessionError IssuedSession) * MockStore :=
  let token := generate_refresh_token e in
  let now := utc_now e in
  match expiry now ttl with
  | None => (None, m)
  | Some expires_at =>
      let s := mkSession (uuid1 e) user (uuid2 e) (hash_refresh_token token) agent addr now now None expires_at in
      (Some (Ok (mkIssued s token)), mkMock (inner m ++ [s]))
  end.

(** The loop over the family's rows that are not revoked, with one reading of
    the clock for all of them. *)
Definition burn (f : uuid) (now : timestamp) (rows : list Session) : list Session :=
  (fun s => if (family_id s =? f) && negb (is_some (revoked_at s)) then set_revoked now s else s) <$> rows.

(** A panic finds the old session marked, and leaves the lock poisoned. *)
Definition mock_rotate (e : Env) (token : str) (ttl : Z) (m : MockStore)
  : option (result SessionError IssuedSession) * MockStore :=
  let hash := hash_refresh_token token in
  let sessions := inner m in
  match position (fun s => bool_decide (refresh_token_hash s = hash)) sessions with
  | None => (Some (Err NotFound), m)
  | Some idx =>
      match sessions !! idx with
      | None => (Some (Err NotFound), m)
      | Some old =>
          if is_some (revoked_at old) then (Some (Err ReuseDetected), mkMock (burn (family_id old) (utc_now e) sessions))
          else
            let now := utc_now e in
            if expires_at old <? now then (Some (Err Expired), m)
            else
              let sessions := alter (set_revoked now) idx sessions in
              let new_token := generate_refresh_token e in
              match expiry now ttl with
              | None => (None, mkMock sessions)
              | Some expires_at =>
                  let new := mkSession (uuid1 e) (user_id old) (family_id old) (hash_refresh_token new_token) None None
                               now now None expires_at in
                  (Some (Ok (mkIssued new new_token)), mkMock (sessions ++ [new]))
              end
      end
  end.

Definition mock_revoke_family (e : Env) (f : uuid) (m : MockStore) : result SessionError () * MockStore :=
  (Ok (), mkMock (burn f (utc_now e) (inner m))).

Definition mock_get_active (e : Env) (token : str) (m : MockStore) : result SessionError Session :=
  let hash := hash_refresh_token token in
  ok_or (List.find (fun s => bool_decide (refresh_token_hash s = hash) && negb (is_some (revoked_at s))
                             && (utc_now e <? expires_at s)) (inner m)) NotFound.

#[export] Instance MockSessionStore : SessionStore MockStore := {|
  store_create := mock_create;
  store_rotate := mock_rotate;
  store_revoke_family := mock_revoke_family;
  store_get_active := mock_get_active;
|}.
End Mock.

(** ** Calls against either store *)

Inductive call :=
| Create (e : Env) (user : uuid) (agent addr : option str) (ttl : Z)
| Rotate (e : Env) (token : str) (ttl : Z)
| RevokeFamily (e : Env) (f : uuid)
| GetActive (e : Env) (token : str).
Inductive answer :=
| Issued (r : option (result SessionError IssuedSession))
| RevokedFamily (r : result SessionError ())
| Found (r : result SessionError Session).
Definition env_of (c : call) : Env :=
  match c with Create e _ _ _ _ | Rotate e _ _ | RevokeFamily e _ | GetActive e _ => e end.
(** The new session's expiry is in chrono's range, where there is one. *)
Definition in_time (chrono : Chrono) (c : call) : Prop :=
  match c with
  | Create e _ _ _ ttl | Rotate e _ ttl => is_Some (expiry chrono (utc_now e) ttl)
  | RevokeFamily _ _ | GetActive _ _ => True
  end.
Definition serve1 {St} `{SessionStore St} (c : call) (s : St) : answer * St :=
  match c with
  | Create e user agent addr ttl => let '(r, s) := store_create e user agent addr ttl s in (Issued r, s)
  | Rotate e token ttl => let '(r, s) := store_rotate e token ttl s in (Issued r, s)
  | RevokeFamily e f => let '(r, s) := store_revoke_family e f s in (RevokedFamily r, s)
  | GetActive e token => (Found (store_get_active e token s), s)
  end.
Fixpoint serve {St} `{SessionStore St} (calls : list call) (s : St) : list answer * St :=
  match calls with
  | [] => ([], s)
  | c :: calls => let '(a, s) := serve1 c s in let '(l, s) := serve calls s in (a :: l, s)
  end.

(** ** Lemmas *)

Lemma position_find {A} (p : A -> bool) l :
  match position p l with
  | Some i => exists x, l !! i = Some x /\ List.find p l = Some x
  | None => List.find p l = None
  end.
Proof.
  induction l as [|x l IH]; [done|]. cbn [position List.find]. destruct (p x); [by exists x|].
  destruct (position p l) as [i|]; [|done]. exact IH.
Qed.

(** Where identifiers are not shared, the row of an identifier is the row at
    its position. *)
Lemma update_where_alter now db i old :
  NoDup (id <$> db) -> db !! i = Some old ->
  update_where (fun r => id r =? id old) now db = alter (set_revoked now) i db.
Proof.
  revert i. induction db as [|r db IH]; intros [|i] Hn Hi; simplify_eq/=.
  - apply NoDup_cons in Hn as [Hr _]. rewrite Z.eqb_refl. f_equal.
    change (update_where (fun r => id r =? id old) now db = db). clear IH. induction db as [|s db IH]; [done|]. simpl.
    rewrite fmap_cons in Hr. apply not_elem_of_cons in Hr as [Hs Hr]. rewrite (proj2 (Z.eqb_neq _ _)) by congruence. f_equal. by apply IH.
  - apply NoDup_cons in Hn as [Hr Hn]. rewrite (proj2 (Z.eqb_neq _ _)).
    + f_equal. by apply IH.
    + intros E. apply Hr. rewrite E. apply list_elem_of_fmap. exists old. split; [done|]. by eapply list_elem_of_lookup_2.
Qed.

Lemma alter_ids now (i : nat) (db : list Session) : id <$> alter (set_revoked now) i db = id <$> db.
Proof.
  apply list_eq. intros j. rewrite !list_lookup_fmap. destruct (decide (i = j)) as [->|Hne].
  - rewrite list_lookup_alter_eq. by destruct (db !! j).
  - by rewrite list_lookup_alter_ne.
Qed.
Lemma insert_row_new r db : id r ∉ id <$> db -> insert_row r db = Some (db ++ [r]).
Proof.
  intros Hr. unfold insert_row. destruct (existsb _ db) eqn:E; [|done]. exfalso. apply Hr.
  apply existsb_exists in E as (x & Hx%list_elem_of_In & Hid%Z.eqb_eq). apply list_elem_of_fmap. by exists x.
Qed.

Section Agreement.
Context (sha256 : bytes -> bytes) (base64 : bytes -> str) (chrono : Chrono).
#[local] Instance pg : SessionStore (list Session) := PgSessionStore sha256 base64 chrono.
#[local] Instance mock : SessionStore MockStore := MockSessionStore sha256 base64 chrono.

(** What a call leaves: the same answer and rows, identifiers still unshared,
    none but the one it drew added. *)
Definition agrees (c : call) (db : list Session) : Prop :=
  let '(a, db') := serve1 c db in
  serve1 c (mkMock db) = (a, mkMock db') /\ NoDup (id <$> db')
  /\ forall i, i ∈ id <$> db' -> i ∈ id <$> db \/ i = uuid1 (env_of c).

Lemma ids_snoc (r : Session) (db db' : list Session) i :
  id <$> db' = id <$> db -> i ∈ id <$> (db' ++ [r]) -> i ∈ id <$> db \/ i = id r.
Proof. rewrite fmap_app. intros ->. set_solver. Qed.
Lemma NoDup_snoc (r : Session) (db db' : list Session) :
  id <$> db' = id <$> db -> NoDup (id <$> db) -> id r ∉ id <$> db -> NoDup (id <$> (db' ++ [r])).
Proof. rewrite fmap_app. intros -> Hn Hr. apply NoDup_app. split; [done|]. split; [set_solver|apply NoDup_singleton]. Qed.

Lemma rotate_agrees e token ttl db :
  utc_now e = sql_now e -> is_Some (expiry chrono (utc_now e) ttl) -> NoDup (id <$> db) -> uuid1 e ∉ id <$> db ->
  agrees (Rotate e token ttl) db.
Proof.
  intros Hc [x Hx] Hn Hf. unfold agrees. cbn [serve1 store_rotate pg mock PgSessionStore MockSessionStore env_of].
  unfold rotate, mock_rotate. cbn [inner]. fold (by_hash (hash_refresh_token sha256 token)).
  pose proof (position_find (by_hash (hash_refresh_token sha256 token)) db) as Hp.
  destruct (position _ db) as [i|].
  - destruct Hp as (old & Hi & Hp). rewrite Hp, Hi. destruct (is_some (revoked_at old)).
    + rewrite Hc. split; [done|]. rewrite update_where_ids. by auto.
    + destruct (expires_at old <? utc_now e); [by auto|]. rewrite Hx, (update_where_alter _ _ _ _ Hn Hi), insert_row_new by (by rewrite alter_ids).
      split; [done|]. split.
      * eapply NoDup_snoc; [apply alter_ids|done|done].
      * intros j Hj. eapply ids_snoc in Hj; [exact Hj|apply alter_ids].
  - rewrite Hp. by auto.
Qed.

Lemma serve1_agrees c db :
  utc_now (env_of c) = sql_now (env_of c) -> in_time chrono c -> NoDup (id <$> db) -> uuid1 (env_of c) ∉ id <$> db ->
  agrees c db.
Proof.
  destruct c as [e user agent addr ttl|e token ttl|e f|e token]; cbn [env_of in_time]; intros Hc Hx Hn Hf.
  - unfold agrees. cbn [serve1 store_create pg mock PgSessionStore MockSessionStore env_of]. unfold create, mock_create.
    destruct Hx as [x ->]. rewrite insert_row_new by done. split; [done|]. split.
    + by eapply NoDup_snoc.
    + intros j Hj. by eapply ids_snoc in Hj.
  - by apply rotate_agrees.
  - unfold agrees. cbn [serve1 store_revoke_family pg mock PgSessionStore MockSessionStore env_of].
    unfold revoke_family, mock_revoke_family. rewrite Hc. split; [done|]. rewrite update_where_ids. by auto.
  - unfold agrees. cbn [serve1 store_get_active pg mock PgSessionStore MockSessionStore env_of].
    unfold get_active, mock_get_active. rewrite Hc. by auto.
Qed.

Lemma serve_agrees calls db :
  Forall (fun c => utc_now (env_of c) = sql_now (env_of c)) calls -> Forall (in_time chrono) calls ->
  NoDup (uuid1 ∘ env_of <$> calls) -> NoDup (id <$> db) ->
  Forall (fun c => uuid1 (env_of c) ∉ id <$> db) calls ->
  let '(answers, db') := serve calls db in serve calls (mkMock db) = (answers, mkMock db').
Proof.
  revert db. induction calls as [|c calls IH]; intros db Hc Hx Hu Hn Hf; [done|].
  inversion_clear Hc as [|? ? Hc1 Hc2]. inversion_clear Hx as [|? ? Hx1 Hx2]. inversion_clear Hf as [|? ? Hf1 Hf2].
  rewrite fmap_cons in Hu. apply NoDup_cons in Hu as [Hu1 Hu2].
  pose proof (serve1_agrees c db Hc1 Hx1 Hn Hf1) as Ha. unfold agrees in Ha. cbn [serve].
  destruct (serve1 c db) as [a db'] eqn:E. destruct Ha as (-> & Hn' & Hids).
  assert (Hf' : Forall (fun c => uuid1 (env_of c) ∉ id <$> db') calls).
  { apply Forall_forall. intros d Hd Hin. apply Hids in Hin as [Hin|Hin].
    - rewrite Forall_forall in Hf2. by apply (Hf2 d).
    - apply Hu1, list_elem_of_fmap. by exists d. }
  specialize (IH db' Hc2 Hx2 Hu2 Hn' Hf'). destruct (serve calls db') as [l db'']. by rewrite IH.
Qed.
End Agreement.

(** ** The tests of the crate, on the double *)

Module SessionTests.
Definition chrono : Chrono := mkChrono (fun n => Some n) (fun t d => Some (t + d)).
Definition hash_token (s : str) : bytes := hash_refresh_token Sha256.sha256 s.
#[local] Instance store : SessionStore MockStore := MockSessionStore Sha256.sha256 base64url chrono.
#[local] Instance SessionError_eq_dec : EqDecision SessionError.
Proof. solve_decision. Defined.

(** The draws of the [n]th call, at [t]: 32 bytes of its own, two identifiers. *)
Definition draw (n t : Z) : Env := mkEnv t t (sha256 [n]) (2 * n) (2 * n + 1).
Definition user : uuid := 1000.

Definition generated_refresh_tokens_are_unique_and_url_safe : bool :=
  let a := generate_refresh_token base64url (draw 1 0) in
  let b := generate_refresh_token base64url (draw 2 0) in
  asserts
    [assert_ne a b; forallb (fun c => is_ascii_alphanumeric c || (c =? 45) || (c =? 95)) a; bool_decide (length a = 43%nat)].
Definition hash_is_deterministic_and_hides_plaintext : bool :=
  let token := generate_refresh_token base64url (draw 1 0) in
  let h1 := hash_token token in let h2 := hash_token token in
  asserts [assert_eq h1 h2; assert_ne h1 (as_bytes token); bool_decide (length h1 = 32%nat)].
Definition hash_of_different_tokens_differs : bool := assert_ne (hash_token (lit "token-a")) (hash_token (lit "token-b")).

(** Issue or refresh, then go on with the session and the store. *)
Definition created (n t ttl : Z) (m : MockStore) (k : IssuedSession -> MockStore -> bool) : bool :=
  let '(r, m) := store_create (draw n t) user None None ttl m in unwrapped r (fun r => unwrapped_ok r (fun s => k s m)).
Definition rotated (n t : Z) (token : str) (m : MockStore) (k : IssuedSession -> MockStore -> bool) : bool :=
  let '(r, m) := store_rotate (draw n t) token DEFAULT_REFRESH_TTL m in unwrapped r (fun r => unwrapped_ok r (fun s => k s m)).
Definition not_found (r : result SessionError Session) : bool := unwrapped_err r (fun e => assert_eq e NotFound).

Definition create_and_rotate_happy_path : bool :=
  created 1 0 DEFAULT_REFRESH_TTL mock_default (fun first m =>
  rotated 2 1 (refresh_token_plain first) m (fun second m =>
    asserts
      [family_id (session second) =? family_id (session first);
       assert_ne (refresh_token_plain second) (refresh_token_plain first);
       not_found (store_get_active (draw 3 2) (refresh_token_plain first) m);
       is_ok (store_get_active (draw 3 2) (refresh_token_plain second) m)])).
Definition reusing_old_token_burns_the_family : bool :=
  created 1 0 DEFAULT_REFRESH_TTL mock_default (fun a m =>
  rotated 2 1 (refresh_token_plain a) m (fun b m =>
  rotated 3 2 (refresh_token_plain b) m (fun c m =>
    let '(attack, m) := store_rotate (draw 4 3) (refresh_token_plain b) DEFAULT_REFRESH_TTL m in
    asserts
      [unwrapped attack (fun r => unwrapped_err r (fun e => assert_eq e ReuseDetected));
       not_found (store_get_active (draw 5 4) (refresh_token_plain c) m)]))).
Definition unknown_token_is_not_found : bool :=
  let '(err, _) := store_rotate (draw 1 0) (lit "completely-unknown-token") DEFAULT_REFRESH_TTL mock_default in
  unwrapped err (fun r => unwrapped_err r (fun e => assert_eq e NotFound)).
Definition revoke_family_invalidates_every_member : bool :=
  created 1 0 DEFAULT_REFRESH_TTL mock_default (fun a m =>
  rotated 2 1 (refresh_token_plain a) m (fun b m =>
    let '(r, m) := store_revoke_family (draw 3 2) (family_id (session b)) m in
    asserts [is_ok r; not_found (store_get_active (draw 4 3) (refresh_token_plain b) m)])).
Definition expired_session_cannot_rotate : bool :=
  created 1 0 0 mock_default (fun first m =>
    let '(err, _) := store_rotate (draw 2 10000) (refresh_token_plain first) DEFAULT_REFRESH_TTL m in
    unwrapped err (fun r => unwrapped_err r (fun e => assert_eq e Expired))).
Definition get_active_hides_revoked_sessions : bool :=
  created 1 0 DEFAULT_REFRESH_TTL mock_default (fun s m =>
    let '(r, m) := store_revoke_family (draw 2 1) (family_id (session s)) m in
    asserts [is_ok r; not_found (store_get_active (draw 3 2) (refresh_token_plain s) m)]).

Definition tests : suite :=
  [("generated_refresh_tokens_are_unique_and_url_safe", generated_refresh_tokens_are_unique_and_url_safe);
   ("hash_is_deterministic_and_hides_plaintext", hash_is_deterministic_and_hides_plaintext);
   ("hash_of_different_tokens_differs", hash_of_different_tokens_differs);
   ("create_and_rotate_happy_path", create_and_rotate_happy_path);
   ("reusing_old_token_burns_the_family", reusing_old_token_burns_the_family);
   ("unknown_token_is_not_found", unknown_token_is_not_found);
   ("revoke_family_invalidates_every_member", revoke_family_invalidates_every_member);
   ("expired_session_cannot_rotate", expired_session_cannot_rotate);
   ("get_active_hides_revoked_sessions", get_active_hides_revoked_sessions)]%string.

(** None of the tests fails on the model. *)
Theorem session_tests_pass : failing tests = [].
Proof. vm_compute. reflexivity. Qed.
End SessionTests.

(** ** Properties *)

(** The test double stands for the store.  On every sequence of logins,
    refreshes, revocations and look-ups, from an empty store, with the two
    clocks of a call reading alike, no expiry beyond chrono's range and every call drawing an identifier of its
    own, the in-memory double and the PostgreSQL store give the same answers
    and hold the same rows: what the crate's tests establish on the one holds
    of the other. *)
Theorem mock_store_agrees sha256 base64 chrono calls :
  Forall (fun c => utc_now (env_of c) = sql_now (env_of c)) calls -> Forall (in_time chrono) calls ->
  NoDup (uuid1 ∘ env_of <$> calls) ->
  let '(answers, rows) := @serve _ (PgSessionStore sha256 base64 chrono) calls [] in
  @serve _ (MockSessionStore sha256 base64 chrono) calls mock_default = (answers, mkMock rows).
Proof. intros Hc Hx Hu. apply serve_agrees; [done..|constructor|]. apply Forall_true. intros c. apply not_elem_of_nil. Qed.

(** A login, a refresh, a replay of the first token, a look-up. *)
Definition attack_calls : list call :=
  [Create (SessionTests.draw 1 0) 1000 None None 100; Rotate (SessionTests.draw 2 1) (Session.Demo.encode (Sha256.sha256 [1])) 100;
   Rotate (SessionTests.draw 3 2) (Session.Demo.encode (Sha256.sha256 [1])) 100;
   GetActive (SessionTests.draw 4 3) (Session.Demo.encode (Sha256.sha256 [2]))].
Lemma mock_store_agrees_witness :
  let '(answers, rows) := @serve _ (PgSessionStore Session.Demo.hash Session.Demo.encode SessionTests.chrono) attack_calls [] in
  @serve _ (MockSessionStore Session.Demo.hash Session.Demo.encode SessionTests.chrono) attack_calls mock_default = (answers, mkMock rows).
Proof.
  apply (mock_store_agrees Session.Demo.hash Session.Demo.encode SessionTests.chrono attack_calls).
  - repeat constructor.
  - repeat constructor; eexists; reflexivity.
  - apply (bool_decide_unpack _). vm_compute. exact I.
Defined.
