(* ===== verification/SuiteTokens.v ===== *)
(** * The repository's own tests, run on the model: tokens

    The unit tests of access tokens, of their extractor and of license tokens,
    translated as in [Suite].  Tokens are the text of [JwtText], UUIDs are
    hyphenated; key pairs are of the scheme that can be run, in the place of
    Ed25519. *)

From S2P Require Import Prelude RustStr Sha256 Headers Errors AuditTrail Jwt License JwtText Suite.

(** A fresh pair, and another. *)
Definition keypair (n : Z) : bytes * bytes := (Sha256.sha256 [n], Sha256.sha256 [n]).
(** The last byte of the signature, changed. *)
Definition tamper (token : str) : str :=
  match reverse token with c :: rest => reverse ((if c =? 65 then 66 else 65) :: rest) | [] => [] end.

(** ** crates/auth/src/jwt.rs *)

Module JwtTests.
Import Mac.
#[local] Instance jwt_text : JwtPackage bytes bytes Claims := @access_jwt bytes bytes _ hyphenated.
#[local] Instance JwtError_eq_dec : EqDecision JwtError.
Proof. solve_decision. Defined.

(** The clock of the tests, and of the call after they slept a second. *)
Definition now : Z := 1800000000.
Definition later : Z := now + 1.
Definition user : Z := 0x5f0c1f0e8a3d4b1c9e2f7a6b5c4d3e2f.
Definition an_org : Z := 0x0a1b2c3d4e5f40718293a4b5c6d7e8f9.

Definition config_with (issuer : string) (ttl : Z) (pair : bytes * bytes) (k : JwtConfig bytes bytes -> bool) : bool :=
  unwrapped_ok (from_ed25519_pems pair.1 pair.2 (lit issuer) ttl) k.
Definition test_config (ttl : Z) (k : JwtConfig bytes bytes -> bool) : bool := config_with "ferrlabs-test" ttl (keypair 1) k.
Definition test_with (pair : Z) (k : JwtConfig bytes bytes -> bool) : bool :=
  config_with "ferrlabs-test" DEFAULT_ACCESS_TTL (keypair pair) k.
(** [verify_token(..).unwrap()], and the error a test expects. *)
Definition verifies (t : Z) (c : JwtConfig bytes bytes) (token : str) (k : Claims -> bool) : bool :=
  unwrapped (verify_token t c token) (fun r => unwrapped_ok r k).
Definition fails_with (e : JwtError) (t : Z) (c : JwtConfig bytes bytes) (token : str) : bool :=
  unwrapped (verify_token t c token) (fun r => unwrapped_err r (fun e' => assert_eq e' e)).
Definition issued (c : JwtConfig bytes bytes) (o : option Z) (k : str -> bool) : bool :=
  unwrapped (issue_token true now c user o) (fun r => unwrapped_ok r k).

Definition issue_and_verify_round_trip : bool :=
  test_config DEFAULT_ACCESS_TTL (fun config => issued config (Some an_org) (fun token =>
    verifies now config token (fun claims =>
      asserts
        [sub claims =? user; iss claims =s lit "ferrlabs-test"; assert_eq (Jwt.org claims) (Some an_org);
         iat claims <? exp claims]))).
Definition round_trip_without_org : bool :=
  test_config DEFAULT_ACCESS_TTL (fun config => issued config None (fun token =>
    verifies now config token (fun claims => asserts [sub claims =? user; assert_eq (Jwt.org claims) None]))).
Definition expired_token_rejected : bool :=
  test_config 0 (fun config => issued config None (fails_with Expired later config)).
Definition tampered_signature_rejected : bool :=
  test_config DEFAULT_ACCESS_TTL (fun config => issued config None (fun token => fails_with Invalid now config (tamper token))).
Definition wrong_issuer_rejected : bool :=
  config_with "other-issuer" DEFAULT_ACCESS_TTL (keypair 1) (fun signer =>
  config_with "ferrlabs-test" DEFAULT_ACCESS_TTL (keypair 1) (fun verifier =>
    issued signer None (fails_with WrongIssuer now verifier))).
Definition malformed_token_rejected : bool :=
  test_config DEFAULT_ACCESS_TTL (fun config => fails_with Invalid now config (lit "not.a.jwt")).

Definition a_token_for_another_product_is_rejected : bool :=
  test_with 1 (fun config =>
    let track := with_audience config (lit "api.ferrtrack.com") in
    let vault := with_audience config (lit "api.ferrvault.com") in
    issued track None (fun token =>
      asserts
        [verifies now track token (fun claims => assert_eq (aud claims) (Some (lit "api.ferrtrack.com")));
         fails_with WrongAudience now vault token])).
Definition a_token_without_an_audience_is_rejected_when_one_is_expected : bool :=
  test_with 1 (fun central =>
    issued central None (fails_with WrongAudience now (with_audience central (lit "api.ferrtrack.com")))).
Definition a_verifier_expecting_no_audience_rejects_a_token_that_carries_one : bool :=
  test_with 1 (fun verifier =>
    issued (with_audience verifier (lit "api.ferrtrack.com")) None (fails_with WrongAudience now verifier)).
Definition issue_token_for_overrides_the_configured_audience : bool :=
  test_with 1 (fun config =>
    let central := with_audience config (lit "api.ferrlabs.com") in
    let growth := with_audience config (lit "api.ferrgrowth.com") in
    unwrapped (issue_token_for true now central user None (Some (lit "api.ferrgrowth.com"))) (fun r => unwrapped_ok r (fun token =>
      verifies now growth token (fun _ => true)))).
Definition a_pre_dated_token_is_rejected : bool :=
  test_config DEFAULT_ACCESS_TTL (fun config =>
    let claims := mkClaims user (lit "ferrlabs-test") (now + 900) now None (Some (now + 600)) None in
    unwrapped (encoding_key config) (fun key => unwrapped (jwt_encode claims key) (fails_with NotYetValid now config))).
Definition a_verify_only_config_verifies_but_cannot_mint : bool :=
  test_with 1 (fun signer =>
  unwrapped_ok (verifier_from_public_pem (keypair 1).2 (lit "ferrlabs-test")) (fun verifier =>
  issued signer None (fun token =>
    asserts
      [verifies now verifier token (fun claims => sub claims =? user);
       unwrapped (issue_token true now verifier user None) (fun r => unwrapped_err r (fun e => assert_eq e VerifyOnly))]))).
Definition a_token_signed_by_the_previous_key_survives_the_overlap : bool :=
  test_with 1 (fun old_signer => issued old_signer None (fun token =>
  test_with 2 (fun after_overlap =>
  unwrapped_ok (with_previous_public_pem after_overlap (keypair 1).2) (fun during_overlap =>
    asserts [verifies now during_overlap token (fun _ => true); fails_with Invalid now after_overlap token])))).
Definition an_expired_token_under_the_previous_key_still_reads_as_expired : bool :=
  config_with "ferrlabs-test" 0 (keypair 1) (fun old_signer => issued old_signer None (fun token =>
  test_with 2 (fun config =>
  unwrapped_ok (with_previous_public_pem config (keypair 1).2) (fun rotated => fails_with Expired later rotated token)))).
Definition claims_exp_is_ttl_from_now : bool :=
  test_config 900 (fun config => issued config None (fun token =>
    verifies now config token (fun claims => asserts [later + 895 <=? exp claims; exp claims <=? later + 905]))).

Definition tests : suite :=
  [("issue_and_verify_round_trip", issue_and_verify_round_trip);
   ("round_trip_without_org", round_trip_without_org);
   ("expired_token_rejected", expired_token_rejected);
   ("tampered_signature_rejected", tampered_signature_rejected);
   ("wrong_issuer_rejected", wrong_issuer_rejected);
   ("malformed_token_rejected", malformed_token_rejected);
   ("a_token_for_another_product_is_rejected", a_token_for_another_product_is_rejected);
   ("a_token_without_an_audience_is_rejected_when_one_is_expected", a_token_without_an_audience_is_rejected_when_one_is_expected);
   ("a_verifier_expecting_no_audience_rejects_a_token_that_carries_one", a_verifier_expecting_no_audience_rejects_a_token_that_carries_one);
   ("issue_token_for_overrides_the_configured_audience", issue_token_for_overrides_the_configured_audience);
   ("a_pre_dated_token_is_rejected", a_pre_dated_token_is_rejected);
   ("a_verify_only_config_verifies_but_cannot_mint", a_verify_only_config_verifies_but_cannot_mint);
   ("a_token_signed_by_the_previous_key_survives_the_overlap", a_token_signed_by_the_previous_key_survives_the_overlap);
   ("an_expired_token_under_the_previous_key_still_reads_as_expired", an_expired_token_under_the_previous_key_still_reads_as_expired);
   ("claims_exp_is_ttl_from_now", claims_exp_is_ttl_from_now)]%string.

(** None of the tests fails on the model. *)
Theorem jwt_tests_pass : failing tests = [].
Proof. vm_compute. reflexivity. Qed.
End JwtTests.

(** ** crates/auth/src/middleware.rs *)

Module ExtractorTests.
Import Mac JwtTests.
#[local] Existing Instance jwt_text.
#[local] Existing Instance visible_http.

Definition parts_with_auth (value : option str) : HeaderMap :=
  match value with Some v => [(lit "authorization", v)] | None => [] end.
Definition is_unauthorized (e : ApiError) : bool := match e with Unauthorized => true | _ => false end.
Definition extracts (t : Z) (c : JwtConfig bytes bytes) (value : option str) (k : AuthUser -> bool) : bool :=
  unwrapped (extract t c (parts_with_auth value)) (fun r => unwrapped_ok r k).
Definition rejects (t : Z) (c : JwtConfig bytes bytes) (value : option str) : bool :=
  unwrapped (extract t c (parts_with_auth value)) (fun r => unwrapped_err r is_unauthorized).
Definition bearer (token : str) : option str := Some (lit "Bearer " ++ token).

Definition extracts_user_and_org_from_valid_bearer_token : bool :=
  test_with 1 (fun state => issued state (Some an_org) (fun token =>
    extracts now state (bearer token) (fun auth =>
      asserts [user_id auth =? user; assert_eq (active_org auth) (Some an_org)]))).
Definition rejects_missing_header : bool := test_with 1 (fun state => rejects now state None).
Definition rejects_non_bearer_scheme : bool := test_with 1 (fun state => rejects now state (Some (lit "Basic dXNlcjpwYXNz"))).
Definition rejects_token_signed_by_a_different_key : bool :=
  test_with 1 (fun signer => test_with 2 (fun verifier =>
    issued signer None (fun token => rejects now verifier (bearer token)))).
Definition rejects_expired_token : bool :=
  test_config 0 (fun state => issued state None (fun token => rejects later state (bearer token))).
Definition require_org_returns_present_org : bool :=
  unwrapped_ok (require_org (mkAuthUser user (Some an_org))) (fun org => org =? an_org).
Definition require_org_rejects_when_absent : bool := unwrapped_err (require_org (mkAuthUser user None)) is_unauthorized.

Definition tests : suite :=
  [("extracts_user_and_org_from_valid_bearer_token", extracts_user_and_org_from_valid_bearer_token);
   ("rejects_missing_header", rejects_missing_header);
   ("rejects_non_bearer_scheme", rejects_non_bearer_scheme);
   ("rejects_token_signed_by_a_different_key", rejects_token_signed_by_a_different_key);
   ("rejects_expired_token", rejects_expired_token);
   ("require_org_returns_present_org", require_org_returns_present_org);
   ("require_org_rejects_when_absent", require_org_rejects_when_absent)]%string.

(** None of the tests fails on the model. *)
Theorem extractor_tests_pass : failing tests = [].
Proof. vm_compute. reflexivity. Qed.
End ExtractorTests.

(** ** crates/license/src/lib.rs *)

Module LicenseTests.
Import Mac.
#[local] Instance license_text : JwtPackage bytes bytes LicenseClaims := @license_jwt bytes bytes _.
#[local] Instance LicenseError_eq_dec : EqDecision LicenseError.
Proof. solve_decision. Defined.

Definition now : datetime := 1800000000 * 1000000.
Definition days (n : Z) : Z := n * 86400 * 1000000.
Definition in_range (secs : Z) : bool := true.
Definition customer_spec_at (issued expires : datetime) : LicenseSpec :=
  mkLicense (lit "lic_123") (lit "ferrvault") (Some (lit "acme")) Customer LTeam (Some 25)
    [lit "dynamic_secrets"; lit "audit_export"] issued expires.
Definition customer_spec : LicenseSpec := customer_spec_at now (now + days 365).

(** A token minted with one pair, presented with another for a product. *)
Definition minted (spec : LicenseSpec) (signer verifier : Z) (k : str -> bytes -> bool) : bool :=
  unwrapped_ok (signer_from_pem (keypair signer).1) (fun ek =>
  unwrapped_ok (verifier_from_pem (keypair verifier).2) (fun dk =>
  unwrapped_ok (sign ek spec) (fun token => k token dk))).
Definition verified (dk : bytes) (token : str) (k : License -> bool) : bool :=
  unwrapped_ok (verify in_range (timestamp now) dk token (lit "ferrvault")) k.
Definition refused (e : LicenseError) (product : string) (token : str) (dk : bytes) : bool :=
  unwrapped_err (verify in_range (timestamp now) dk token (lit product)) (fun e' => assert_eq e' e).

Definition round_trip_customer_license : bool :=
  minted customer_spec 1 1 (fun token dk => verified dk token (fun lic =>
    asserts
      [id lic =s lit "lic_123"; product lic =s lit "ferrvault"; assert_eq (org lic) (Some (lit "acme"));
       assert_eq (kind lic) Customer; assert_eq (tier lic) LTeam; assert_eq (seat_limit lic) (Some 25);
       allows lic (lit "dynamic_secrets"); negb (allows lic (lit "sso")); negb (is_admin lic)])).
Definition admin_license_is_unlimited : bool :=
  let spec := mkLicense (lit "lic_internal") (lit "ferrvault") None Admin LEnterprise (Some 1) [] now (now + days 3650) in
  minted spec 1 1 (fun token dk => verified dk token (fun lic =>
    asserts [is_admin lic; assert_eq (seat_limit lic) None; allows lic (lit "anything_at_all")])).
Definition expired_license_rejected : bool :=
  minted (customer_spec_at (now - days 10) (now - days 1)) 1 1 (refused LicenseExpired "ferrvault").
Definition not_yet_valid_license_rejected : bool :=
  minted (customer_spec_at (now + days 2) (now + days 365)) 1 1 (refused LicenseNotYetValid "ferrvault").
Definition wrong_product_rejected : bool := minted customer_spec 1 1 (refused WrongProduct "ferrtrack").
Definition wrong_key_rejected : bool := minted customer_spec 1 2 (refused InvalidLicense "ferrvault").
Definition tampered_token_rejected : bool :=
  minted customer_spec 1 1 (fun token dk => refused InvalidLicense "ferrvault" (tamper token) dk).
Definition malformed_token_rejected : bool :=
  unwrapped_ok (verifier_from_pem (keypair 1).2) (refused InvalidLicense "ferrvault" (lit "not.a.jwt")).

Definition tests : suite :=
  [("round_trip_customer_license", round_trip_customer_license);
   ("admin_license_is_unlimited", admin_license_is_unlimited);
   ("expired_license_rejected", expired_license_rejected);
   ("not_yet_valid_license_rejected", not_yet_valid_license_rejected);
   ("wrong_product_rejected", wrong_product_rejected);
   ("wrong_key_rejected", wrong_key_rejected);
   ("tampered_token_rejected", tampered_token_rejected);
   ("malformed_token_rejected", malformed_token_rejected)]%string.

(** None of the tests fails on the model. *)
Theorem license_tests_pass : failing tests = [].
Proof. vm_compute. reflexivity. Qed.
End LicenseTests.
