(* ===== verification/SuiteKeys.v ===== *)
(** * The repository's own tests, run on the model: second factors, sealing, the cache

    The unit tests of [totp.rs], of the crypto crate and of [swr.rs], translated
    as in [Suite].  One-time passwords are those of [Sha1], the cipher is that of
    [AesGcm], hashes and encodings are those of [Sha256] and [Base64]; the cache
    runs on the server of [SwrRun]. *)

From S2P Require Import Prelude RustStr Sha256 Base64 Json Wire JwtText Swr SwrRun Crypto AesGcm Totp Sha1 Suite.

(** Random bytes, a draw of its own for every number. *)
Definition draw (n : nat) (i : Z) : bytes := take n (Sha256.sha256 [i]).

(** ** crates/auth/src/totp.rs *)

Module TotpTests.
Definition enrollment : TotpEnrollment := generate (draw 20 1) (lit "user@example.com").
Definition t : Z := 1700000000.
Definition step : Z := t / TOTP_STEP_SECS.
Definition code_at (time : Z) (k : str -> bool) : bool := unwrapped_ok (current_code_at enrollment time) k.
Definition verifies_at (code : str) (time : Z) (expected : bool) : bool :=
  unwrapped_ok (verify_at enrollment code time) (fun b => Bool.eqb b expected).
Definition steps_at (code : str) (time : Z) (last expected : option Z) : bool :=
  unwrapped_ok (verify_step_at enrollment code time last) (fun s => assert_eq s expected).

Definition provisioning_uri_has_issuer_and_account : bool :=
  unwrapped_ok (provisioning_uri (generate (draw 20 1) (lit "ada@example.com"))) (fun uri =>
    asserts
      [starts_with (lit "otpauth://totp/") uri; is_some (find_str (lit "issuer=FerrLabs") uri);
       is_some (find_str (lit "ada%40example.com") uri) || is_some (find_str (lit "ada@example.com") uri)]).
Definition rfc6238_sha1_known_vectors : bool :=
  let seed := lit "12345678901234567890" in
  let generate time := hotp 8 seed (time / 30) in
  asserts
    [generate 59 =s lit "94287082"; generate 1111111109 =s lit "07081804"; generate 1234567890 =s lit "89005924";
     generate 2000000000 =s lit "69279037"].
Definition code_for_current_step_verifies : bool := code_at t (fun code => verifies_at code t true).
Definition code_from_previous_step_within_tolerance_verifies : bool :=
  code_at (t - TOTP_STEP_SECS) (fun prev => verifies_at prev t true).
Definition code_from_next_step_within_tolerance_verifies : bool :=
  code_at (t + TOTP_STEP_SECS) (fun next => verifies_at next t true).
Definition code_two_steps_away_is_rejected : bool :=
  code_at (t - 2 * TOTP_STEP_SECS) (fun stale => code_at (t + 2 * TOTP_STEP_SECS) (fun future =>
    asserts [verifies_at stale t false; verifies_at future t false])).
Definition verify_step_returns_matched_step : bool :=
  code_at t (fun code => code_at (t - TOTP_STEP_SECS) (fun prev =>
    asserts [steps_at code t None (Some step); steps_at prev t None (Some (step - 1))])).
Definition replayed_code_is_rejected_when_last_step_passed : bool :=
  code_at t (fun code =>
  unwrapped_ok (verify_step_at enrollment code t None) (fun first =>
  unwrapped first (fun step =>
    asserts [steps_at code t (Some step) None; steps_at code (t + TOTP_STEP_SECS) (Some step) None]))).
Definition older_step_is_rejected_but_newer_step_accepted : bool :=
  code_at (t - TOTP_STEP_SECS) (fun prev => code_at (t + TOTP_STEP_SECS) (fun next =>
    asserts [steps_at prev t (Some step) None; steps_at next t (Some step) (Some (step + 1))])).
Definition wrong_code_is_rejected : bool := verifies_at (lit "000000") 1700000000 false.

(** The seed sealed under a local key, and what is unsealed of it. *)
Definition sealed (kek : bytes) (k : bytes -> bytes -> bool) : bool :=
  let provider := mkLocalKek kek in
  unwrapped_ok (seal_seed (draw 12 7) enrollment provider).1 (fun sealed =>
  unwrapped_ok (unseal_seed (draw 12 8) sealed provider).1 (fun unsealed => k sealed unsealed)).
Definition seed_seal_unseal_round_trips : bool :=
  sealed (replicate 32 7) (fun _ unsealed =>
    let restored := from_seed unsealed (lit "user@example.com") in
    code_at t (fun original => unwrapped_ok (current_code_at restored t) (fun code => code =s original))).
Definition sealed_seed_is_not_plaintext : bool :=
  sealed (replicate 32 3) (fun sealed unsealed => asserts [assert_ne sealed unsealed; assert_eq (length unsealed) 20%nat]).

Definition codes (n : nat) : list RecoveryCode :=
  generate_recovery_codes Sha256.sha256 base64url ((fun i => draw 10 (Z.of_nat i)) <$> seq 0 n).
Definition consume (code : str) (hashes : list bytes) : option nat := verify_and_consume Sha256.sha256 code hashes.
(** [codes\[i\].plaintext]. *)
Definition nth_code (cs : list RecoveryCode) (i : nat) (k : str -> bool) : bool := unwrapped (cs !! i) (fun c => k (Totp.plaintext c)).

Definition recovery_codes_are_unique_and_hashed : bool :=
  let cs := codes DEFAULT_RECOVERY_CODE_COUNT in
  asserts
    [assert_eq (length cs) DEFAULT_RECOVERY_CODE_COUNT;
     assert_eq (length (remove_dups (Totp.plaintext <$> cs))) DEFAULT_RECOVERY_CODE_COUNT;
     forallb (fun c =>
       asserts
         [assert_eq (hash c) (hash_recovery_code Sha256.sha256 (Totp.plaintext c)); assert_ne (hash c) (as_bytes (Totp.plaintext c));
          assert_eq (length (hash c)) 32%nat]) cs].
Definition verify_and_consume_matches_correct_index : bool :=
  let cs := codes 5 in nth_code cs 3 (fun code => assert_eq (consume code (hash <$> cs)) (Some 3%nat)).
Definition verify_and_consume_rejects_unknown_code : bool :=
  assert_eq (consume (lit "not-a-real-code") (hash <$> codes 5)) None.
Definition consumed_code_no_longer_matches_remaining : bool :=
  let cs := codes 3 in
  let hashes := hash <$> cs in
  nth_code cs 1 (fun code => nth_code cs 0 (fun other =>
  unwrapped (consume code hashes) (fun idx =>
    let hashes := delete idx hashes in asserts [assert_eq (consume code hashes) None; is_some (consume other hashes)]))).

Definition tests : suite :=
  [("provisioning_uri_has_issuer_and_account", provisioning_uri_has_issuer_and_account);
   ("rfc6238_sha1_known_vectors", rfc6238_sha1_known_vectors);
   ("code_for_current_step_verifies", code_for_current_step_verifies);
   ("code_from_previous_step_within_tolerance_verifies", code_from_previous_step_within_tolerance_verifies);
   ("code_from_next_step_within_tolerance_verifies", code_from_next_step_within_tolerance_verifies);
   ("code_two_steps_away_is_rejected", code_two_steps_away_is_rejected);
   ("verify_step_returns_matched_step", verify_step_returns_matched_step);
   ("replayed_code_is_rejected_when_last_step_passed", replayed_code_is_rejected_when_last_step_passed);
   ("older_step_is_rejected_but_newer_step_accepted", older_step_is_rejected_but_newer_step_accepted);
   ("wrong_code_is_rejected", wrong_code_is_rejected);
   ("seed_seal_unseal_round_trips", seed_seal_unseal_round_trips);
   ("sealed_seed_is_not_plaintext", sealed_seed_is_not_plaintext);
   ("recovery_codes_are_unique_and_hashed", recovery_codes_are_unique_and_hashed);
   ("verify_and_consume_matches_correct_index", verify_and_consume_matches_correct_index);
   ("verify_and_consume_rejects_unknown_code", verify_and_consume_rejects_unknown_code);
   ("consumed_code_no_longer_matches_remaining", consumed_code_no_longer_matches_remaining)]%string.

(** None of the tests fails on the model. *)
Theorem totp_tests_pass : failing tests = [].
Proof. vm_compute. reflexivity. Qed.
End TotpTests.

(** ** crates/crypto/src/lib.rs *)

Module CryptoTests.
#[local] Instance CryptoError_eq_dec : EqDecision CryptoError.
Proof. solve_decision. Defined.
Definition dek : bytes := Sha256.sha256 [100].
Definition other_dek : bytes := Sha256.sha256 [101].
Definition sealed_value (message : bytes) (k : bytes -> bool) : bool := unwrapped_ok (encrypt_value (draw 12 1) message dek) k.
(** [^= 0xff] at an index. *)
Definition flip (i : nat) (b : bytes) : bytes := alter (Z.lxor 255) i b.

Definition local_kek_round_trip : bool :=
  let provider := mkLocalKek (replicate 32 1) in
  unwrapped_ok (wrap_dek (draw 12 1) dek provider).1 (fun wrapped =>
  unwrapped_ok (unwrap_dek (draw 12 2) wrapped provider).1 (fun unwrapped => assert_eq dek unwrapped)).
Definition local_kek_refuses_gcp_ciphertext : bool :=
  unwrapped_err (unwrap_dek (draw 12 1) (lit "gcp-kms:CiQA0xxxx-base64-gcp-ciphertext") (mkLocalKek (replicate 32 1))).1
    (fun e => assert_eq e WrongBackend).
Definition gcp_ciphertext_detection : bool :=
  asserts
    [is_gcp_kms_ciphertext (lit "gcp-kms:CiQA0"); negb (is_gcp_kms_ciphertext (lit "vault:v1:abc"));
     negb (is_gcp_kms_ciphertext (replicate 32 0)); negb (is_gcp_kms_ciphertext (lit "gcp"))].
Definition encrypt_decrypt_value_round_trips : bool :=
  let message := lit "hunter2 is a terrible password" in
  sealed_value message (fun ct => unwrapped_ok (decrypt_value ct dek) (fun pt => assert_eq pt message)).
Definition generate_dek_is_32_bytes_and_unique : bool :=
  asserts [assert_eq (length dek) 32%nat; assert_eq (length other_dek) 32%nat; assert_ne dek other_dek].
Definition encrypt_uses_a_fresh_nonce_each_call : bool :=
  let msg := lit "same plaintext" in
  unwrapped_ok (encrypt_value (draw 12 1) msg dek) (fun a =>
  unwrapped_ok (encrypt_value (draw 12 2) msg dek) (fun b =>
    asserts [assert_ne a b; assert_ne (take NONCE_SIZE a) (take NONCE_SIZE b)])).
Definition encrypt_decrypt_empty_plaintext : bool :=
  sealed_value [] (fun ct => unwrapped_ok (decrypt_value ct dek) (fun pt => assert_eq pt [])).
Definition decrypt_rejects_ciphertext_shorter_than_nonce : bool :=
  unwrapped_err (decrypt_value (replicate (NONCE_SIZE - 1) 0) dek) (fun e => assert_eq e CiphertextTooShort).
Definition decrypt_fails_with_wrong_dek : bool :=
  sealed_value (lit "secret") (fun ct => negb (is_ok (decrypt_value ct other_dek))).
Definition decrypt_fails_on_tampered_ciphertext : bool :=
  sealed_value (lit "secret") (fun ct => negb (is_ok (decrypt_value (flip (length ct - 1) ct) dek))).
Definition decrypt_fails_on_tampered_nonce : bool :=
  sealed_value (lit "secret") (fun ct => negb (is_ok (decrypt_value (flip 0 ct) dek))).
Definition zeros (n : nat) : str := replicate (2 * n) 48.
Definition parse_kek_accepts_64_hex_chars : bool := unwrapped_ok (parse_kek (zeros 32)) (fun k => assert_eq (length k) 32%nat).
Definition parse_kek_rejects_wrong_length : bool := unwrapped_err (parse_kek (zeros 16)) (fun e => assert_eq e (BadKekLength 16)).
Definition parse_kek_rejects_non_hex : bool := negb (is_ok (parse_kek (replicate 64 122))).

Definition tests : suite :=
  [("local_kek_round_trip", local_kek_round_trip);
   ("local_kek_refuses_gcp_ciphertext", local_kek_refuses_gcp_ciphertext);
   ("gcp_ciphertext_detection", gcp_ciphertext_detection);
   ("encrypt_decrypt_value_round_trips", encrypt_decrypt_value_round_trips);
   ("generate_dek_is_32_bytes_and_unique", generate_dek_is_32_bytes_and_unique);
   ("encrypt_uses_a_fresh_nonce_each_call", encrypt_uses_a_fresh_nonce_each_call);
   ("encrypt_decrypt_empty_plaintext", encrypt_decrypt_empty_plaintext);
   ("decrypt_rejects_ciphertext_shorter_than_nonce", decrypt_rejects_ciphertext_shorter_than_nonce);
   ("decrypt_fails_with_wrong_dek", decrypt_fails_with_wrong_dek);
   ("decrypt_fails_on_tampered_ciphertext", decrypt_fails_on_tampered_ciphertext);
   ("decrypt_fails_on_tampered_nonce", decrypt_fails_on_tampered_nonce);
   ("parse_kek_accepts_64_hex_chars", parse_kek_accepts_64_hex_chars);
   ("parse_kek_rejects_wrong_length", parse_kek_rejects_wrong_length);
   ("parse_kek_rejects_non_hex", parse_kek_rejects_non_hex)]%string.

(** None of the tests fails on the model. *)
Theorem crypto_tests_pass : failing tests = [].
Proof. vm_compute. reflexivity. Qed.
End CryptoTests.

(** ** crates/cache/src/swr.rs *)

Module SwrTests.
Import Swr.System.
#[local] Instance u32_json : EnvelopeJson Z := @envelope_json Z wire_u32.

Definition swr (key : string) (fresh hard lock_ttl : Z) : Swr :=
  mkSwr (lit key) (from_millis fresh) (from_millis hard) (from_millis lock_ttl) false.
(** What the program did against a server that is empty at first: the values
    its calls returned in order, how often it loaded, the system at the end.
    A thousand turns are more than these calls take: none is left. *)
Definition returned (ls : list (label Z)) : list (result str Z) :=
  omap (fun l => match l with Returned _ r => Some r | _ => None end) ls.
Definition program (s : Swr) (loader : nat -> result str Z) (acts : list action) (k : list (result str Z) -> nat -> sys Z -> bool) : bool :=
  let '(ls, st) := act_all s loader 1000 0 acts init in
  asserts [bool_decide (threads st = ∅); k (returned ls) (loads_in ls) st].
(** [unwrap] of each against the values. *)
Definition unwraps (rs : list (result str Z)) (vs : list Z) : bool := assert_eq (res_ok <$> rs) (Some <$> vs).

Definition miss_then_fresh_hit_calls_loader_once : bool :=
  program (swr "test:swr:fresh" 60000 120000 30000) (fun _ => Ok 42) [Calls [false]; Calls [false]] (fun rs loads _ =>
    asserts [unwraps rs [42; 42]; (loads =? 1)%nat]).
Definition bypass_forces_reload : bool :=
  program (swr "test:swr:bypass" 60000 120000 30000) (fun _ => Ok 7) [Calls [false]; Calls [true]] (fun rs loads _ =>
    asserts [unwraps rs [7; 7]; (loads =? 2)%nat]).
Definition stale_serves_old_and_refreshes_once : bool :=
  program (swr "test:swr:stale" 1 120000 30000) (fun n => Ok (if (n =? 0)%nat then 1 else 2))
    [Calls [false]; Wait 5; Calls [false; false; false]; Wait 50] (fun rs loads _ =>
    asserts [unwraps rs [1; 1; 1; 1]; (loads =? 2)%nat]).
Definition miss_loader_error_releases_lock : bool :=
  let s := swr "test:swr:miss-err" 60000 120000 5000 in
  let loader n := if (n =? 0)%nat then Err (lit "boom") else Ok 99 in
  asserts
    [program s loader [Calls [false]] (fun rs _ st =>
       asserts [forallb (fun r => negb (is_ok r)) rs; assert_eq (live st (lock s)) None]);
     program s loader [Calls [false]; Calls [false]] (fun rs _ st =>
       asserts [assert_eq (res_ok <$> rs) [None; Some 99]; clock st <? 1000])].

Definition tests : suite :=
  [("miss_then_fresh_hit_calls_loader_once", miss_then_fresh_hit_calls_loader_once);
   ("bypass_forces_reload", bypass_forces_reload);
   ("stale_serves_old_and_refreshes_once", stale_serves_old_and_refreshes_once);
   ("miss_loader_error_releases_lock", miss_loader_error_releases_lock)]%string.

(** None of the tests fails on the model. *)
Theorem swr_tests_pass : failing tests = [].
Proof. vm_compute. reflexivity. Qed.
End SwrTests.
